(* ===== verification/_CoqProject ===== *)
-Q . S2P
Prelude.v
Common.v
Packet.v
PacketFacts.v
StdText.v
StdPath.v
Util.v
WinPath.v
Validation.v
Logger.v
Files.v
Client.v
ThreadPool.v
ThreadPoolFacts.v
Net.v
Transfer.v
IOFacts.v
Protocol.v
TransferFacts.v
Socket.v
WinSocket.v
UdpSocket.v
ReadFacts.v
WriteFacts.v
Termination.v
ClientFacts.v
Server.v
ServerFacts.v
System.v
SystemFacts.v
Examples.v
Concurrent.v
Alone.v
Interference.v
RequestFacts.v
Races.v
Whole.v
Lifetime.v
StopTwice.v
Futures.v
WinServer.v
Conformance.v
