(* ===== verification/Prelude.v ===== *)
(** * A verification development of the TFTP server library

    ** The program

    The library is a C++17 TFTP server (RFC 1350 with option negotiation).  A
    datagram takes this way through it: [TftpServerImpl::ServerLoop]
    ([src/internal/tftp_server_impl.cpp]) receives it and submits a task to the
    thread pool ([src/internal/tftp_thread_pool.cpp]); a worker runs
    [HandleClient], which parses it ([src/tftp_packet.cpp]), makes a socket for
    the client, checks the file name ([src/tftp_util.cpp]) and runs the read or
    the write handler; those exchange packets with the client and call the file
    callbacks, by default the two handlers at the end of the same file.  The
    facade [TftpServer] ([src/tftp_server.cpp]) validates what the user
    configures ([src/tftp_validation.cpp]).  Everything writes to one logger
    ([src/tftp_logger.cpp]).  Besides there are a stub client
    ([src/tftp_client.cpp]) and socket classes ([src/tftp_socket.cpp], with an
    implementation for Unix and one for Windows under [src/internal]) that the
    server itself does not use, and two example programs.

    ** The files

    - [Prelude]: bytes, sizes, exceptions as values ([res]), [while] loops with a
      measure, the tactics [bool_cases] and [zlens].
    - [Common]: [tftp_common.h]; the class [Platform] for what the source leaves
      to the implementation (byte order, iteration order of [unordered_map]).
    - [Packet], [PacketFacts]: [TftpPacket].  [Serialize] and [Deserialize] are
      translated field by field; the relation [wire] is the grammar of the
      datagrams, [wf_packet] the packets that respect the limits.
    - [StdText], [StdPath]: what is used of strings, number parsing and
      [std::filesystem::path]; [FsOps] is the interface to the path queries that
      depend on the file system.
    - [Util]: [IsPathSecure] and [NormalizePath].
    - [WinPath]: [IsPathSecure] as it is compiled on Windows, with the paths of
      that system.
    - [Validation]: every check of [tftp_validation.cpp].
    - [Logger]: levels, macros, lines and destinations of the logger.
    - [Files]: the default callbacks over the interface [FileOps], with its laws
      [FileLaws] and an instance in memory.
    - [Client]: the stub client and its wrapper.
    - [ThreadPool], [ThreadPoolFacts]: workers, [Submit] and [Shutdown] as atomic
      steps of threads; [reachable] are the states of all interleavings.
    - [Net]: the operating system.  [IO] is a state and exception monad over a
      [world] that holds the answers of the system as arbitrary scripts, and the
      trace of calls.  [sent], [received], [reads], [writes] and [open_socks]
      read traces.
    - [Transfer]: the handlers of [TftpServerImpl] as [IO] computations, one
      definition per function and per loop body.
    - [IOFacts]: the rules of [wp], by which the handlers are proved.
    - [Protocol]: the transfer as a specification, independent of the handlers:
      [data_stream] is a file as DATA datagrams, [receive_file] the receiver.
    - [TransferFacts], [ReadFacts], [WriteFacts], [ClientFacts]: the
      specifications of the packet exchange, of the two request handlers and of
      [HandleClient] for every network.
    - [Termination]: the handlers' cost in system calls and waiting time.
    - [Socket], [WinSocket]: [SocketAddress] and the two definitions of
      [SocketImpl]; the record [socket_class] is the class they both define.
    - [UdpSocket]: programs of [UdpSocket] objects over any class with
      [SocketLaws], of which both implementations are instances; address objects
      and the library guard.
    - [Server], [ServerFacts]: the server object, the facade, and the theorems
      about the whole: configuration, path check, handlers and files together.
    - [System], [SystemFacts]: a started server as interleaved threads: the
      server loop, [Stop] and the workers over the pool of [ThreadPool].
    - [Examples]: the two example programs.
    - [Concurrent]: requests served at the same time.  A request is a program
      whose constructors are its accesses to the members under [config_mutex_]
      and to the file system; [happens] interleaves requests, setters and other
      processes.
    - [Alone]: such a program without interruption is [HandleClient].
    - [Interference]: a logic for programs under interference: an invariant of
      the shared state, a guarantee on each thread's trace, progress, and the
      release of [config_mutex_].
    - [RequestFacts]: the requests in that logic.
    - [Races]: interleavings that go wrong.
    - [Whole]: the threads of [System] with the requests of [Concurrent] inside
      their tasks; confinement and the end of requests in the whole server.
    - [StopTwice]: [Stop] called by several threads, step by step.
    - [Lifetime]: a server object from its constructor over any number of such
      sessions to its destructor.
    - [Futures]: the pool with the futures that [Submit] returns.
    - [WinServer]: the server object with the branches for Windows.
    - [Conformance]: the expectations of the unit tests, evaluated in the model.

    ** What is shown

    - Packets: [Deserialize] accepts exactly the grammar; printing and parsing
      are inverse; accepted packets respect the limits; what a rejected datagram
      leaves behind.
    - Transfers, for every network: a download sends a prefix of the file's
      stream, an upload stores only what the receiver of the specification
      obtains; with a cooperating client both are complete, and an upload
      followed by a download gives the file back.  The loops end: the bounds
      [read_fuel] and [write_fuel] (one iteration per 512 bytes of the file or of
      the limit, and one more) are proved to be never what stops them.  A loop
      that was stopped by its bound would leave the mark [EvOutOfFuel] in the
      trace; [loops_end] says that there is none, and holds of every request.
      The calls and the time of a whole request are bounded.
    - Security: in secure mode all paths given to the callbacks lie below the
      canonical root directory, whatever datagram arrives, for an absolute root
      directory that does not end in a backslash; refused requests touch no file.
    - Resources: client sockets are closed, the server and the socket objects
      leak none, however they are moved; retries are bounded.
    - Thread pool: mutual exclusion, order and number of executions, the state
      after [Shutdown], progress while running; a future gives the result of the
      one call of its task, and none waits after [Shutdown].
    - The running server: requests are started in the order of arrival and none
      is lost before [Stop]; what holds when [Stop] returns; when it returns.
    - Requests at the same time: in every interleaving, as long as paths go on
      leading to the same places, requests stay in the root directory; every
      request can come to its end, and setters get through, when no callback
      calls a setter.
    - The whole server: its threads refine [System], nothing of a request is left
      when [Stop] returns, an object's life is the sequence of its user's calls,
      and its destructor, also that of a running server, leaves no thread, pool
      or socket behind.
    - Portability: the Windows and the Unix sockets behave alike, and so does the
      server object but for its uses of the socket library; the path check on
      Windows also keeps paths below the root directory.
    - Tests: the model meets the expectations of the repository's unit tests.
    - Logger: a log file reads back as the messages logged to it.
    - Defects: a shutdown that never ends, a [Stop] that waits for a datagram,
      log lines forged by file names, truncated blocks after a confirmed
      larger block size, clients on other hosts without an answer, sockets leaked
      by throwing callbacks, unreported write errors, a root directory ending in
      a backslash, callbacks that lock themselves out by calling a setter,
      downloads that see a half written upload, links made between the path
      check and the use of the path, two calls of [Stop] that close the same
      socket, uses of the socket library that a failed [Start] keeps on Windows,
      server names with two different slashes that reach the file system there,
      descriptors that [select] cannot hold.  The condition on the places paths
      lead to excludes symbolic links that are made or changed meanwhile, and
      uploads through a link whose target did not exist, which
      [weakly_canonical] does not resolve.

    ** Modelling decisions

    Sizes and offsets are integers; where the source depends on the width the
    wrap-around is written out (block numbers modulo 2^16, [tsize] + 512 modulo
    2^64, the cast of [tellg]).  Allocation failures are not modelled.  A
    [select] and the [recvfrom] after it find the same arrival.  In [Transfer]
    one request runs by itself: its configuration is fixed and the file system
    changes only by its callbacks.  In [Concurrent] both are shared.  There, what
    a request does with its own socket between two accesses to the shared state
    is one step, since no other thread can see it; each path query and each call
    of the default callbacks is a step; other callbacks are arbitrary trees of
    such steps and of setter calls.  A setter, from the taking of
    [config_mutex_] to its release, is one step, possible when no thread holds
    the mutex.  A shared lock may be granted at any time; a lock that makes
    readers wait behind a writer allows some of these interleavings only, so what
    is shown of all of them holds with it too, and the progress theorem gives a
    schedule that both kinds of lock allow.  The root directory never changes after the
    constructor, so that reading it needs no lock.
    [impl_Stop] of [Server] is [Stop] in one step; [SystemFacts] shows that the
    interleaved [Stop] leaves the same object.  One user thread calls [Start] and
    [Stop] of an object and destroys it, running or not, except in [StopTwice];
    setters may be called from any thread.
    In [System] a task is its datagram; in [Whole] it is a request under way.
    Log calls are left out of the other components, since nothing depends on
    their effect.

    In [WinSocket] and [WinServer] a handle is an integer and [INVALID_SOCKET] is
    -1; [WinPath] and [Conformance] take the path queries of the file system as
    an interface, like [Util].

    Not modelled: the helper [copy_string] of the codec, which nothing uses, and
    [TftpPacket::Parse], which nothing defines; the branches for Windows inside
    [ServerLoop] and the handlers (types, the comparison with [INVALID_SOCKET],
    the first argument of [select]), which differ from Unix only in that
    [recvfrom] there refuses a datagram larger than the buffer; the
    text the examples and the tests print; the tests that run curl or measure
    time, which depend on programs and clocks outside the repository.  What
    remains of the headers are declarations, comments, include
    directives and export macros without behaviour of their own. *)

From Stdlib Require Import ZArith Lia Strings.Byte.
From stdpp Require Import base tactics numbers list gmap strings.

#[global] Open Scope Z_scope.

(** ** Bytes

    [uint8_t] and [char] are both the 256-element type [byte]: the code moves
    between them with [static_cast] only, which keeps the bit pattern.  A
    [std::string] and a [std::vector<uint8_t>] are both lists of bytes. *)

Abbreviation byte := Corelib.Init.Byte.byte.
Abbreviation bytes := (list byte).

#[global] Instance byte_eq_dec : EqDecision byte.
Proof. intros x y. destruct (Byte.byte_eq_dec x y); [by left | by right]. Defined.

#[global] Instance byte_countable : Countable byte.
Proof.
  refine (inj_countable Byte.to_N Byte.of_N _).
  apply Byte.of_to_N.
Defined.

(** A string literal of the source as the bytes it denotes. *)
Definition bs (s : string) : bytes := String.list_byte_of_string s.
Arguments bs s%_string_scope.

(** The numeric value of a byte and the low byte of a number. *)
Definition byte_val (b : byte) : Z := Z.of_N (Byte.to_N b).

Definition byte_of (z : Z) : byte := default x00 (Byte.of_N (Z.to_N (z mod 256))).

Lemma byte_val_range b : 0 <= byte_val b < 256.
Proof. unfold byte_val. pose proof (Byte.to_N_bounded b). lia. Qed.

Lemma byte_val_of z : byte_val (byte_of z) = z mod 256.
Proof.
  unfold byte_val, byte_of.
  pose proof (Z.mod_pos_bound z 256 eq_refl) as Hz.
  destruct (Byte.of_N (Z.to_N (z mod 256))) as [b|] eqn:E; simpl.
  - apply Byte.to_of_N in E. rewrite E. lia.
  - apply Byte.of_N_None_iff in E. lia.
Qed.

Lemma byte_val_inj b1 b2 : byte_val b1 = byte_val b2 -> b1 = b2.
Proof.
  unfold byte_val. intros H%N2Z.inj.
  apply (f_equal Byte.of_N) in H. rewrite !Byte.of_to_N in H. congruence.
Qed.

Lemma byte_of_val b : byte_of (byte_val b) = b.
Proof.
  apply byte_val_inj. rewrite byte_val_of.
  apply Z.mod_small, byte_val_range.
Qed.

(** ** Sizes

    [size_t] values are integers; [zlen] is [size()] of a vector or string. *)

Definition zlen {A} (l : list A) : Z := Z.of_nat (length l).

Arguments zlen : simpl never.

Definition SIZE_MAX : Z := 2 ^ 64 - 1.

Lemma zlen_nonneg {A} (l : list A) : 0 <= zlen l.
Proof. unfold zlen. lia. Qed.

Lemma zlen_app {A} (l k : list A) : zlen (l ++ k) = zlen l + zlen k.
Proof. unfold zlen. rewrite length_app. lia. Qed.

Lemma zlen_cons {A} (x : A) l : zlen (x :: l) = 1 + zlen l.
Proof. unfold zlen. simpl length. lia. Qed.

Lemma zlen_nil {A} : zlen (@nil A) = 0.
Proof. done. Qed.

Lemma zlen_map {A B} (f : A -> B) l : zlen (map f l) = zlen l.
Proof. unfold zlen. by rewrite length_map. Qed.

#[global] Instance zlen_perm {A} : Proper ((≡ₚ) ==> (=)) (@zlen A).
Proof. intros l k H. unfold zlen. by rewrite H. Qed.

Lemma zlen_0_inv {A} (l : list A) : zlen l = 0 -> l = [].
Proof. destruct l; unfold zlen; simpl; [done | lia]. Qed.

(** ** Exceptions

    The exceptions the library throws or lets through.  [Throw e] is a call
    that left by an exception. *)

Inductive exn :=
  | TftpException (msg : bytes)
  | RuntimeError (msg : bytes)
  | InvalidArgument
  | OutOfRange
  | LengthError
  | FilesystemError
  | UserException.

Inductive res (A : Type) : Type :=
  | Ok (a : A)
  | Throw (e : exn).
Arguments Ok {A} a.
Arguments Throw {A} e.

#[global] Instance res_ret : MRet res := fun A a => Ok a.
#[global] Instance res_bind : MBind res := fun A B f m =>
  match m with Ok a => f a | Throw e => Throw e end.

Lemma res_bind_Ok {A B} (m : res A) (f : A -> res B) b :
  m ≫= f = Ok b -> exists a, m = Ok a /\ f a = Ok b.
Proof. destruct m; simpl; [eauto | discriminate]. Qed.

(** ** Loops

    [while_do m cond step s] runs [while (cond) step;] from [s].  The measure
    [m] bounds the number of iterations; [while_do_unfold] is the equation of
    the loop, which holds whenever an iteration decreases the measure: the
    bound is then never what stops the loop. *)

Fixpoint while_fuel {S} (n : nat) (cond : S -> bool) (step : S -> S) (s : S) : S :=
  match n with
  | O => s
  | Datatypes.S n' => if cond s then while_fuel n' cond step (step s) else s
  end.

Definition while_do {S} (m : S -> nat) (cond : S -> bool) (step : S -> S) (s : S) : S :=
  while_fuel (m s) cond step s.

Section while.
Context {S : Type} (m : S -> nat) (cond : S -> bool) (step : S -> S).
Hypothesis decreases : forall s, cond s = true -> (m (step s) < m s)%nat.

Lemma while_fuel_enough n s :
  (m s <= n)%nat -> while_fuel n cond step s = while_do m cond step s.
Proof using decreases.
  unfold while_do. revert s.
  enough (forall n k s, (m s <= n)%nat -> (m s <= k)%nat ->
    while_fuel n cond step s = while_fuel k cond step s) by auto.
  clear n. induction n as [|n IH]; intros [|k] s Hn Hk; simpl; [done| | |].
  - destruct (cond s) eqn:E; [|done]. apply decreases in E. lia.
  - destruct (cond s) eqn:E; [|done]. apply decreases in E. lia.
  - destruct (cond s) eqn:E; [|done].
    apply decreases in E. apply IH; lia.
Qed.

Lemma while_do_unfold s :
  while_do m cond step s =
    if cond s then while_do m cond step (step s) else s.
Proof using decreases.
  destruct (cond s) eqn:E.
  - rewrite <- (while_fuel_enough (Datatypes.S (m s)) s) by lia. simpl. rewrite E.
    apply while_fuel_enough. apply decreases in E. lia.
  - unfold while_do. destruct (m s); simpl; [done | by rewrite E].
Qed.

(** The loop rule: an invariant of the body holds at the exit, and the exit
    is by the condition. *)
Lemma while_do_inv (I : S -> Prop) s :
  (forall s, I s -> cond s = true -> I (step s)) ->
  I s -> I (while_do m cond step s) /\ cond (while_do m cond step s) = false.
Proof using decreases.
  intros Hstep. remember (m s) as n eqn:Hn.
  revert s Hn. induction n as [n IH] using lt_wf_ind. intros s -> HI.
  rewrite while_do_unfold. destruct (cond s) eqn:E; [|done].
  eapply IH; [by apply decreases | done | auto].
Qed.
End while.

(** ** Automation *)

Create HintDb tftp discriminated.
Create Rewrite HintDb tftp_size.
#[export] Hint Resolve zlen_nonneg byte_val_range : tftp.
#[export] Hint Rewrite @zlen_app @zlen_cons @zlen_nil @zlen_map : tftp_size.

(** Case analysis on the boolean tests of the source, with the comparison each
    decides put in the context. *)
Ltac bool_cases :=
  repeat match goal with
  | H : (_ && _)%bool = true |- _ => apply andb_prop in H as [? ?]
  | H : (_ || _)%bool = false |- _ => apply orb_false_elim in H as [? ?]
  | H : negb _ = true |- _ => apply negb_true_iff in H
  | H : negb _ = false |- _ => apply negb_false_iff in H
  | H : (_ <? _) = true |- _ => apply Z.ltb_lt in H
  | H : (_ <? _) = false |- _ => apply Z.ltb_ge in H
  | H : (_ <=? _) = true |- _ => apply Z.leb_le in H
  | H : (_ <=? _) = false |- _ => apply Z.leb_gt in H
  | H : (_ =? _) = true |- _ => apply Z.eqb_eq in H
  | H : (_ =? _) = false |- _ => apply Z.eqb_neq in H
  | H : bool_decide _ = true |- _ => apply bool_decide_eq_true in H
  | H : bool_decide _ = false |- _ => apply bool_decide_eq_false in H
  end.

(** [zlens] simplifies sizes and closes linear goals about them. *)
Ltac zlens :=
  autorewrite with tftp_size in *;
  repeat match goal with
  | |- context [zlen ?l] =>
      lazymatch goal with
      | _ : 0 <= zlen l |- _ => fail
      | _ => pose proof (zlen_nonneg l)
      end
  | _ : context [zlen ?l] |- _ =>
      lazymatch goal with
      | _ : 0 <= zlen l |- _ => fail
      | _ => pose proof (zlen_nonneg l)
      end
  end; lia.
