(* ===== verification/Common.v ===== *)
(** * Protocol constants, enumerations and the platform

    [include/tftp/tftp_common.h]: the protocol constants, the three
    enumerations and their numeric values (their stream output is at the end of
    [StdText]), and what the source leaves to the platform: the byte order of the host
    ([htons]/[ntohs] and [memcpy] of a [uint16_t]) and the iteration order of
    [std::unordered_map]. *)

From Stdlib Require Import ZArith Lia Strings.Byte.
From stdpp Require Import base tactics numbers list gmap strings.
From S2P Require Import Prelude.

(** ** Constants *)

Definition kDefaultTftpPort : Z := 69.
Definition kMaxPacketSize : Z := 516.
Definition kMaxDataSize : Z := 512.
Definition kDefaultTimeout : Z := 5.
Definition kMaxFilenameLength : Z := 255.
Definition kMaxOptionNameLength : Z := 64.
Definition kMaxOptionValueLength : Z := 64.
Definition kMaxErrorMessageLength : Z := 255.
Definition kMaxStringLength : Z := 255.
Definition kMaxOptionsCount : Z := 16.
Definition kMinPacketSize : Z := 4.

(** ** Enumerations

    [OpCode] and [ErrorCode] have the fixed underlying type [uint16_t], so a
    [static_cast] may give them a value that is not an enumerator; those are
    the last constructor of each. *)

Inductive OpCode :=
  | kReadRequest
  | kWriteRequest
  | kData
  | kAcknowledge
  | kError
  | kOACK
  | OpCodeValue (v : Z).

Inductive ErrorCode :=
  | kNotDefined
  | kFileNotFound
  | kAccessViolation
  | kDiskFull
  | kIllegalOperation
  | kUnknownTransferId
  | kFileExists
  | kNoSuchUser
  | ErrorCodeValue (v : Z).

Inductive TransferMode :=
  | kNetAscii
  | kOctet
  | kMail
  | TransferModeValue (v : Z).

#[global] Instance OpCode_eq_dec : EqDecision OpCode.
Proof. solve_decision. Defined.
#[global] Instance ErrorCode_eq_dec : EqDecision ErrorCode.
Proof. solve_decision. Defined.
#[global] Instance TransferMode_eq_dec : EqDecision TransferMode.
Proof. solve_decision. Defined.

(** [static_cast<uint16_t>(op_code)]. *)
Definition op_value (o : OpCode) : Z :=
  match o with
  | kReadRequest => 1 | kWriteRequest => 2 | kData => 3
  | kAcknowledge => 4 | kError => 5 | kOACK => 6
  | OpCodeValue v => v
  end.

(** [static_cast<OpCode>(v)]. *)
Definition op_of_value (v : Z) : OpCode :=
  match v with
  | 1 => kReadRequest | 2 => kWriteRequest | 3 => kData
  | 4 => kAcknowledge | 5 => kError | 6 => kOACK
  | _ => OpCodeValue v
  end.

(** [static_cast<uint16_t>(error_code)]. *)
Definition error_value (e : ErrorCode) : Z :=
  match e with
  | kNotDefined => 0 | kFileNotFound => 1 | kAccessViolation => 2
  | kDiskFull => 3 | kIllegalOperation => 4 | kUnknownTransferId => 5
  | kFileExists => 6 | kNoSuchUser => 7
  | ErrorCodeValue v => v
  end.

(** [static_cast<ErrorCode>(v)]. *)
Definition error_of_value (v : Z) : ErrorCode :=
  match v with
  | 0 => kNotDefined | 1 => kFileNotFound | 2 => kAccessViolation
  | 3 => kDiskFull | 4 => kIllegalOperation | 5 => kUnknownTransferId
  | 6 => kFileExists | 7 => kNoSuchUser
  | _ => ErrorCodeValue v
  end.

Lemma op_of_value_value o :
  (forall v, o = OpCodeValue v -> ~ 1 <= v <= 6) -> op_of_value (op_value o) = o.
Proof.
  destruct o as [| | | | | |v]; try done. intros H. specialize (H v eq_refl). simpl.
  unfold op_of_value.
  repeat match goal with |- context [match ?x with _ => _ end] => is_var x; destruct x end;
    try done; lia.
Qed.

Lemma op_value_of_value v : op_value (op_of_value v) = v.
Proof.
  unfold op_of_value.
  repeat match goal with |- context [match ?x with _ => _ end] => is_var x; destruct x end; done.
Qed.

Lemma error_value_of_value v : error_value (error_of_value v) = v.
Proof.
  unfold error_of_value.
  repeat match goal with |- context [match ?x with _ => _ end] => is_var x; destruct x end; done.
Qed.

(** ** The platform

    [Platform] collects the choices the source leaves to the implementation:
    the host's byte order, and the order in which a range-for visits an
    [std::unordered_map], of which the standard only promises that every
    element is visited once. *)

Inductive endian := LittleEndian | BigEndian.

Abbreviation options := (gmap bytes bytes).

Class Platform := {
  host_endian : endian;
  map_iter : options -> list (bytes * bytes);
  map_iter_perm : forall m, map_iter m ≡ₚ map_to_list m;
}.

(** A platform to evaluate with. *)
Definition platform_le : Platform :=
  {| host_endian := LittleEndian; map_iter := map_to_list;
     map_iter_perm := fun m => reflexivity (map_to_list m) |}.

Definition platform_be : Platform :=
  {| host_endian := BigEndian; map_iter := fun m => rev (map_to_list m);
     map_iter_perm := fun m => symmetry (Permutation_rev (map_to_list m)) |}.

(** ** 16-bit integers *)

Definition u16 (z : Z) : Z := z mod 65536.

(** The byte swap of a [uint16_t]. *)
Definition bswap16 (v : Z) : Z :=
  Z.lor (Z.shiftl (Z.land v 255) 8) (Z.land (Z.shiftr v 8) 255).

Section platform.
Context `{P : Platform}.

Definition htons (v : Z) : Z :=
  match host_endian with LittleEndian => bswap16 v | BigEndian => v end.

Definition ntohs (v : Z) : Z :=
  match host_endian with LittleEndian => bswap16 v | BigEndian => v end.

(** [memcpy(dst, &v, sizeof(uint16_t))]: the object representation of [v]. *)
Definition mem_of_u16 (v : Z) : bytes :=
  match host_endian with
  | LittleEndian => [byte_of v; byte_of (Z.shiftr v 8)]
  | BigEndian => [byte_of (Z.shiftr v 8); byte_of v]
  end.

(** [memcpy(&v, &data[i], sizeof(uint16_t))]: the value of two stored bytes. *)
Definition u16_of_mem (b0 b1 : byte) : Z :=
  match host_endian with
  | LittleEndian => Z.lor (byte_val b0) (Z.shiftl (byte_val b1) 8)
  | BigEndian => Z.lor (Z.shiftl (byte_val b0) 8) (byte_val b1)
  end.
End platform.

(** The wire form of a 16-bit integer: most significant byte first. *)
Definition be16 (v : Z) : bytes := [byte_of (v / 256); byte_of v].

Definition be16_val (b0 b1 : byte) : Z := byte_val b0 * 256 + byte_val b1.

Lemma lor_shiftl_add a b : 0 <= b < 256 -> Z.lor (Z.shiftl a 8) b = a * 256 + b.
Proof.
  intros Hb.
  assert (Hl : Z.land (Z.shiftl a 8) b = 0).
  { apply Z.bits_inj'. intros n Hn.
    rewrite Z.land_spec, Z.bits_0, Z.shiftl_spec by lia.
    destruct (Z.lt_ge_cases n 8); [rewrite Z.testbit_neg_r by lia; done|].
    replace b with (b mod 2 ^ 8) by (apply Z.mod_small; lia).
    rewrite Z.mod_pow2_bits_high, andb_false_r by lia. done. }
  rewrite <- Z.lxor_lor, <- Z.add_nocarry_lxor by done.
  rewrite Z.shiftl_mul_pow2 by lia. reflexivity.
Qed.

Lemma bswap16_eq v : bswap16 v = (v mod 256) * 256 + (v / 256) mod 256.
Proof.
  unfold bswap16. change 255 with (Z.ones 8).
  rewrite !Z.land_ones, Z.shiftr_div_pow2 by lia. change (2 ^ 8) with 256.
  apply lor_shiftl_add, Z.mod_pos_bound. lia.
Qed.

Lemma byte_of_mod z : byte_of (z mod 256) = byte_of z.
Proof. unfold byte_of. rewrite Z.mod_mod by lia. done. Qed.

Lemma byte_of_mul_add a z : byte_of (a * 256 + z) = byte_of z.
Proof. unfold byte_of. rewrite Z.add_comm, Z.mod_add by lia. done. Qed.

Section wire.
Context `{P : Platform}.

(** The wire form does not depend on the host's byte order. *)
Lemma mem_of_htons v : 0 <= v < 65536 -> mem_of_u16 (htons v) = be16 v.
Proof.
  intros Hv. unfold mem_of_u16, htons, be16.
  destruct host_endian; rewrite Z.shiftr_div_pow2 by lia; change (2 ^ 8) with 256; [|done].
  rewrite bswap16_eq, byte_of_mul_add, byte_of_mod.
  rewrite Z.div_add_l, (Z.div_small (_ mod _)), Z.add_0_r, byte_of_mod; [done| |lia].
  apply Z.mod_pos_bound. lia.
Qed.

Lemma ntohs_of_mem b0 b1 : ntohs (u16_of_mem b0 b1) = be16_val b0 b1.
Proof.
  unfold ntohs, u16_of_mem, be16_val.
  pose proof (byte_val_range b0). pose proof (byte_val_range b1).
  destruct host_endian; [|by apply lor_shiftl_add].
  rewrite Z.lor_comm, lor_shiftl_add, bswap16_eq by done.
  rewrite (Z.add_comm (byte_val b1 * 256)), Z.mod_add, Z.div_add by lia.
  rewrite (Z.div_small (byte_val b0)), Z.add_0_l, !Z.mod_small by lia. done.
Qed.
End wire.

Lemma be16_val_range b0 b1 : 0 <= be16_val b0 b1 < 65536.
Proof.
  unfold be16_val. pose proof (byte_val_range b0). pose proof (byte_val_range b1). lia.
Qed.

Lemma be16_val_be16 v :
  0 <= v < 65536 -> be16_val (byte_of (v / 256)) (byte_of v) = v.
Proof.
  intros Hv. unfold be16_val. rewrite !byte_val_of.
  rewrite (Z.mod_small (v / 256)) by (split; [apply Z.div_pos | apply Z.div_lt_upper_bound]; lia).
  pose proof (Z.div_mod v 256). lia.
Qed.

Lemma be16_be16_val b0 b1 : be16 (be16_val b0 b1) = [b0; b1].
Proof.
  unfold be16, be16_val. pose proof (byte_val_range b0). pose proof (byte_val_range b1).
  rewrite byte_of_mul_add, byte_of_val.
  rewrite Z.div_add_l, Z.div_small, Z.add_0_r, byte_of_val by lia. done.
Qed.

Lemma be16_len v : zlen (be16 v) = 2.
Proof. done. Qed.
#[export] Hint Rewrite be16_len : tftp_size.
