(* ===== verification/Packet.v ===== *)
(** * TFTP packets

    [include/tftp/tftp_packet.h] and [src/tftp_packet.cpp]: the packet object,
    its factories and option accessors, [Serialize], and [Deserialize] with the
    bounded string reader it is built on.  The theorems about them are in
    [PacketFacts.v]. *)

From Stdlib Require Import ZArith Lia Strings.Byte.
From stdpp Require Import base tactics numbers list gmap strings.
From S2P Require Import Prelude Common.

(** ** The packet object *)

Record TftpPacket := MkPacket {
  op_code_ : OpCode;
  block_number_ : Z;
  error_code_ : ErrorCode;
  filename_ : bytes;
  mode_ : TransferMode;
  data_ : bytes;
  error_message_ : bytes;
  options_ : options;
}.

(** The default member initialisers, which are also what [ResetState] sets. *)
Definition default_packet : TftpPacket :=
  MkPacket kReadRequest 0 kNotDefined [] kOctet [] [] ∅.

Definition ResetState (this : TftpPacket) : TftpPacket :=
  MkPacket kReadRequest 0 kNotDefined [] kOctet [] [] ∅.

(** ** Factories *)

Definition CreateReadRequest (filename : bytes) (mode : TransferMode) : TftpPacket :=
  MkPacket kReadRequest 0 kNotDefined filename mode [] [] ∅.

Definition CreateWriteRequest (filename : bytes) (mode : TransferMode) : TftpPacket :=
  MkPacket kWriteRequest 0 kNotDefined filename mode [] [] ∅.

(** Both overloads: the moved-from argument is dead at every call. *)
Definition CreateData (block_number : Z) (data : bytes) : res TftpPacket :=
  if kMaxDataSize <? zlen data
  then Throw (TftpException (bs "Data size exceeds maximum allowed size"))
  else Ok (MkPacket kData block_number kNotDefined [] kOctet data [] ∅).

Definition CreateAck (block_number : Z) : TftpPacket :=
  MkPacket kAcknowledge block_number kNotDefined [] kOctet [] [] ∅.

Definition CreateError (code : ErrorCode) (message : bytes) : TftpPacket :=
  MkPacket kError 0 code [] kOctet [] message ∅.

Definition CreateOACK (opts : options) : TftpPacket :=
  MkPacket kOACK 0 kNotDefined [] kOctet [] [] opts.

(** ** Options *)

Definition HasOption (p : TftpPacket) (name : bytes) : bool :=
  match options_ p !! name with Some _ => true | None => false end.

Definition GetOption (p : TftpPacket) (name : bytes) : bytes :=
  match options_ p !! name with Some v => v | None => [] end.

Definition SetOption (p : TftpPacket) (name value : bytes) : TftpPacket :=
  MkPacket (op_code_ p) (block_number_ p) (error_code_ p) (filename_ p) (mode_ p)
    (data_ p) (error_message_ p) (<[name := value]> (options_ p)).

(** ** Transfer mode names *)

Definition mode_to_string (mode : TransferMode) : res bytes :=
  match mode with
  | kNetAscii => Ok (bs "netascii")
  | kOctet => Ok (bs "octet")
  | kMail => Ok (bs "mail")
  | TransferModeValue _ => Throw (TftpException (bs "Unknown transfer mode"))
  end.

(** [std::tolower] in the C locale. *)
Definition tolower (c : byte) : byte :=
  let v := byte_val c in
  if (65 <=? v) && (v <=? 90) then byte_of (v + 32) else c.

Definition string_to_mode (mode_str : bytes) : res TransferMode :=
  let lower_mode := map tolower mode_str in
  if bool_decide (lower_mode = bs "netascii") then Ok kNetAscii
  else if bool_decide (lower_mode = bs "octet") then Ok kOctet
  else if bool_decide (lower_mode = bs "mail") then Ok kMail
  else Throw (TftpException (bs "Invalid transfer mode: " ++ mode_str)).

(** ** The bounded string reader *)

(** [data[i]]; every use below is behind a test [i < data.size()]. *)
Definition byte_at (data : bytes) (i : Z) : byte := default x00 (data !! Z.to_nat i).

(** The variables of the reading loop. *)
Record read_state := ReadState {
  rs_offset : Z;
  rs_chars_read : Z;
  rs_result : bytes;
}.

Definition read_cond (data : bytes) (max_length : Z) (s : read_state) : bool :=
  (rs_offset s <? zlen data)
  && negb (bool_decide (byte_at data (rs_offset s) = x00))
  && (rs_chars_read s <? max_length).

Definition read_step (data : bytes) (s : read_state) : read_state :=
  ReadState (rs_offset s + 1) (rs_chars_read s + 1)
    (rs_result s ++ [byte_at data (rs_offset s)]).

Definition read_measure (max_length : Z) (s : read_state) : nat :=
  Z.to_nat (max_length - rs_chars_read s).

Definition read_chars (data : bytes) (max_length : Z) (s : read_state) : read_state :=
  while_do (read_measure max_length) (read_cond data max_length) (read_step data) s.

(** The result string and the new value of [offset], [SIZE_MAX] on failure. *)
Definition read_string_validated (data : bytes) (offset : Z) (max_length : Z)
    : bytes * Z :=
  if zlen data <=? offset then ([], SIZE_MAX)
  else
    let s := read_chars data max_length (ReadState offset 0 []) in
    if zlen data <=? rs_offset s then ([], SIZE_MAX)
    else if (max_length <=? rs_chars_read s)
         && ((rs_offset s <? zlen data)
             && negb (bool_decide (byte_at data (rs_offset s) = x00)))
    then ([], SIZE_MAX)
    else if (rs_offset s <? zlen data) && bool_decide (byte_at data (rs_offset s) = x00)
    then (rs_result s, rs_offset s + 1)
    else (rs_result s, rs_offset s).

(** The legacy wrapper: restores [offset] on failure. *)
Definition read_string (data : bytes) (offset : Z) (max_length : Z) : bytes * Z :=
  let '(result, offset') := read_string_validated data offset max_length in
  if offset' =? SIZE_MAX then ([], offset) else (result, offset').

(** ** The option loop

    The loop of the request case and the loop of the OACK case have the same
    body.  [ost_exit] is how the loop was left: [Failed] is [return false] from
    inside it, [Broke] the [break] at an empty option name. *)

Inductive loop_exit := Running | Broke | Failed.

#[global] Instance loop_exit_eq_dec : EqDecision loop_exit.
Proof. solve_decision. Defined.

Record opt_state := OptState {
  ost_offset : Z;
  ost_count : Z;
  ost_options : options;
  ost_exit : loop_exit;
}.

Definition opt_cond (data : bytes) (s : opt_state) : bool :=
  bool_decide (ost_exit s = Running)
  && (ost_offset s <? zlen data) && (ost_count s <? kMaxOptionsCount).

Definition opt_step (data : bytes) (s : opt_state) : opt_state :=
  let '(option_name, offset1) :=
    read_string_validated data (ost_offset s) kMaxOptionNameLength in
  if offset1 =? SIZE_MAX then OptState offset1 (ost_count s) (ost_options s) Failed
  else if bool_decide (option_name = [])
  then OptState offset1 (ost_count s) (ost_options s) Broke
  else if zlen data <=? offset1 then OptState offset1 (ost_count s) (ost_options s) Failed
  else
    let '(option_value, offset2) :=
      read_string_validated data offset1 kMaxOptionValueLength in
    if offset2 =? SIZE_MAX then OptState offset2 (ost_count s) (ost_options s) Failed
    else if bool_decide (option_value = [])
    then OptState offset2 (ost_count s) (ost_options s) Failed
    else OptState offset2 (ost_count s + 1)
           (<[option_name := option_value]> (ost_options s)) Running.

Definition opt_measure (s : opt_state) : nat :=
  match ost_exit s with
  | Running => S (Z.to_nat (kMaxOptionsCount - ost_count s))
  | _ => 0
  end.

(** The loop and the test after it: the options, or [None] for [return false]. *)
Definition parse_options (data : bytes) (offset : Z) : option options :=
  let s := while_do opt_measure (opt_cond data) (opt_step data)
             (OptState offset 0 ∅ Running) in
  if bool_decide (ost_exit s = Failed) then None
  else if (kMaxOptionsCount <=? ost_count s) && (ost_offset s <? zlen data) then None
  else Some (ost_options s).

(** ** Serialize *)

Section with_platform.
Context `{P : Platform}.

(** The code writes every 16-bit field as [memcpy] of [htons] of it. *)
Definition put_u16 (v : Z) : bytes := mem_of_u16 (htons v).

Definition get_u16 (data : bytes) (i : Z) : Z :=
  ntohs (u16_of_mem (byte_at data i) (byte_at data (i + 1))).

Definition put_option (o : bytes * bytes) : bytes :=
  o.1 ++ [x00] ++ o.2 ++ [x00].

Definition put_options (opts : options) : bytes :=
  concat (map put_option (map_iter opts)).

Definition Serialize (this : TftpPacket) : res bytes :=
  match op_code_ this with
  | kReadRequest | kWriteRequest =>
      mode_str ← mode_to_string (mode_ this);
      Ok (put_u16 (op_value (op_code_ this)) ++ filename_ this ++ [x00]
          ++ mode_str ++ [x00] ++ put_options (options_ this))
  | kData =>
      Ok (put_u16 (op_value (op_code_ this)) ++ put_u16 (block_number_ this)
          ++ data_ this)
  | kAcknowledge =>
      Ok (put_u16 (op_value (op_code_ this)) ++ put_u16 (block_number_ this))
  | kError =>
      Ok (put_u16 (op_value (op_code_ this)) ++ put_u16 (error_value (error_code_ this))
          ++ error_message_ this ++ [x00])
  | kOACK =>
      Ok (put_u16 (op_value (op_code_ this)) ++ put_options (options_ this))
  | OpCodeValue _ => Ok []
  end.

(** ** Deserialize

    One definition per case of the [switch]; each takes the object as it is
    on entry to the case and gives the returned flag and the object left. *)

Definition deserialize_request (this : TftpPacket) (data : bytes) : bool * TftpPacket :=
  let '(temp_filename, offset1) := read_string_validated data 2 kMaxFilenameLength in
  if offset1 =? SIZE_MAX then (false, this)
  else if bool_decide (temp_filename = []) then (false, this)
  else if zlen data <=? offset1 then (false, this)
  else
    let '(mode_str, offset2) := read_string_validated data offset1 kMaxStringLength in
    if offset2 =? SIZE_MAX then (false, this)
    else if bool_decide (mode_str = []) then (false, this)
    else
      match string_to_mode mode_str with
      | Throw _ => (false, this)
      | Ok temp_mode =>
          match parse_options data offset2 with
          | None => (false, this)
          | Some temp_options =>
              (true, MkPacket (op_code_ this) (block_number_ this) (error_code_ this)
                       temp_filename temp_mode (data_ this) (error_message_ this)
                       temp_options)
          end
      end.

Definition deserialize_data (this : TftpPacket) (data : bytes) : bool * TftpPacket :=
  if zlen data <? 4 then (false, this)
  else
    let this1 := MkPacket (op_code_ this) (get_u16 data 2) (error_code_ this)
                   (filename_ this) (mode_ this) (data_ this) (error_message_ this)
                   (options_ this) in
    let data_size := zlen data - 4 in
    if kMaxDataSize <? data_size then (false, this1)
    else (true, MkPacket (op_code_ this1) (block_number_ this1) (error_code_ this1)
                  (filename_ this1) (mode_ this1) (drop 4 data) (error_message_ this1)
                  (options_ this1)).

Definition deserialize_ack (this : TftpPacket) (data : bytes) : bool * TftpPacket :=
  if negb (zlen data =? 4) then (false, this)
  else (true, MkPacket (op_code_ this) (get_u16 data 2) (error_code_ this)
                (filename_ this) (mode_ this) (data_ this) (error_message_ this)
                (options_ this)).

Definition deserialize_error (this : TftpPacket) (data : bytes) : bool * TftpPacket :=
  if zlen data <? 5 then (false, this)
  else
    let error_code_value := get_u16 data 2 in
    if 7 <? error_code_value then (false, this)
    else
      let '(temp_error_message, offset) :=
        read_string_validated data 4 kMaxErrorMessageLength in
      if offset =? SIZE_MAX then (false, this)
      else (true, MkPacket (op_code_ this) (block_number_ this)
                    (error_of_value error_code_value) (filename_ this) (mode_ this)
                    (data_ this) temp_error_message (options_ this)).

Definition deserialize_oack (this : TftpPacket) (data : bytes) : bool * TftpPacket :=
  match parse_options data 2 with
  | None => (false, this)
  | Some temp_oack_options =>
      (true, MkPacket (op_code_ this) (block_number_ this) (error_code_ this)
               (filename_ this) (mode_ this) (data_ this) (error_message_ this)
               temp_oack_options)
  end.

Definition set_op_code (this : TftpPacket) (o : OpCode) : TftpPacket :=
  MkPacket o (block_number_ this) (error_code_ this) (filename_ this) (mode_ this)
    (data_ this) (error_message_ this) (options_ this).

Definition Deserialize (this : TftpPacket) (data : bytes) : bool * TftpPacket :=
  let this := ResetState this in
  if bool_decide (data = []) then (false, this)
  else if (zlen data <? kMinPacketSize) || (kMaxPacketSize <? zlen data)
  then (false, this)
  else if zlen data <? 2 then (false, this)
  else
    let this := set_op_code this (op_of_value (get_u16 data 0)) in
    let opcode_value := op_value (op_code_ this) in
    if (opcode_value <? 1) || (6 <? opcode_value) then (false, this)
    else
      match op_code_ this with
      | kReadRequest | kWriteRequest => deserialize_request this data
      | kData => deserialize_data this data
      | kAcknowledge => deserialize_ack this data
      | kError => deserialize_error this data
      | kOACK => deserialize_oack this data
      | OpCodeValue _ => (false, this)
      end.
End with_platform.
