(* ===== verification/PacketFacts.v ===== *)
(** * Correctness of the packet codec

    The wire format of a TFTP packet as an inductive relation, the theorem that
    [Deserialize] accepts exactly that format, and its consequences: round
    trips, the limits every accepted packet respects, and what a rejected
    packet leaves behind. *)

From Stdlib Require Import ZArith Lia Strings.Byte.
From stdpp Require Import base tactics numbers list gmap strings.
From S2P Require Import Prelude Common Packet.

(** ** Strings on the wire *)

Definition no_nul (s : bytes) : Prop := x00 ∉ s.

Definition wf_string (max : Z) (s : bytes) : Prop :=
  s <> [] /\ no_nul s /\ zlen s <= max.

#[global] Instance no_nul_dec s : Decision (no_nul s).
Proof. unfold no_nul. apply _. Defined.
#[global] Instance wf_string_dec max s : Decision (wf_string max s).
Proof. unfold wf_string. apply _. Defined.

Lemma no_nul_cons b s : no_nul (b :: s) <-> b <> x00 /\ no_nul s.
Proof. unfold no_nul. rewrite not_elem_of_cons. intuition congruence. Qed.

Lemma byte_at_app pre b rest : byte_at (pre ++ b :: rest) (zlen pre) = b.
Proof. unfold byte_at, zlen. by rewrite Nat2Z.id, list_lookup_middle. Qed.

Lemma byte_at_app_skip pre data i :
  0 <= i -> byte_at (pre ++ data) (zlen pre + i) = byte_at data i.
Proof.
  intros Hi. unfold byte_at, zlen. rewrite lookup_app_r by lia.
  by replace (Z.to_nat (Z.of_nat (length pre) + i) - length pre)%nat with (Z.to_nat i) by lia.
Qed.

(** ** The reading loop *)

Lemma read_decreases data max s :
  read_cond data max s = true ->
  (read_measure max (read_step data s) < read_measure max s)%nat.
Proof. unfold read_cond, read_measure. simpl. intros. bool_cases. lia. Qed.

(** The loop consumes a NUL-free run [s] that ends at the end of the data, at
    a NUL, or at the length limit. *)
Lemma read_chars_scan data max pre s rest acc c :
  data = pre ++ s ++ rest -> no_nul s -> c + zlen s <= max ->
  (rest = [] \/ (exists r, rest = x00 :: r) \/ c + zlen s = max) ->
  read_chars data max (ReadState (zlen pre) c acc)
  = ReadState (zlen pre + zlen s) (c + zlen s) (acc ++ s).
Proof.
  revert pre acc c. induction s as [|b s IH]; intros pre acc c Hd Hs Hc Hr;
    unfold read_chars; rewrite while_do_unfold by apply read_decreases.
  - simpl in Hd. replace (read_cond _ _ _) with false; [by rewrite app_nil_r, zlen_nil, !Z.add_0_r|].
    symmetry. unfold read_cond. simpl. rewrite !andb_false_iff.
    destruct Hr as [->|[[r ->]|Hr]]; subst data.
    + left. left. apply Z.ltb_ge. zlens.
    + left. right. by rewrite byte_at_app.
    + right. apply Z.ltb_ge. zlens.
  - simpl in Hd. apply no_nul_cons in Hs as [Hb Hs].
    replace (read_cond _ _ _) with true; cycle 1.
    { symmetry. unfold read_cond. simpl. subst data. rewrite byte_at_app.
      rewrite bool_decide_eq_false_2 by done. rewrite andb_true_r.
      apply andb_true_intro. split; apply Z.ltb_lt; zlens. }
    unfold read_step; simpl. subst data. rewrite byte_at_app.
    replace (zlen pre + 1) with (zlen (pre ++ [b])) by zlens.
    etrans; [apply IH; [by rewrite <- app_assoc | done | zlens |]|].
    + destruct Hr as [?|[?|?]]; [auto..|]. right. right. zlens.
    + rewrite <- app_assoc. f_equal; zlens.
Qed.

(** Every byte sequence has such a run in front. *)
Lemma scan_exists max (l : bytes) :
  0 <= max -> exists s rest, l = s ++ rest /\ no_nul s /\ zlen s <= max /\
    (rest = [] \/ (exists r, rest = x00 :: r) \/ zlen s = max).
Proof.
  revert max. induction l as [|b l IH]; intros max Hmax.
  { exists [], []. repeat split; [apply not_elem_of_nil | zlens | auto]. }
  destruct (decide (b = x00)) as [->|Hb].
  { exists [], (x00 :: l). repeat split; [apply not_elem_of_nil | zlens | eauto]. }
  destruct (decide (max = 0)) as [->|Hm].
  { exists [], (b :: l). repeat split; [apply not_elem_of_nil | zlens | eauto]. }
  destruct (IH (max - 1)) as (s & rest & -> & Hs & Hl & Hr); [lia|].
  exists (b :: s), rest. repeat split; [by apply no_nul_cons | zlens |].
  destruct Hr as [?|[?|?]]; [auto..|]. right. right. zlens.
Qed.

Lemma nul_split_unique (s s' r r' : bytes) :
  no_nul s -> no_nul s' -> s ++ x00 :: r = s' ++ x00 :: r' -> s = s' /\ r = r'.
Proof.
  revert s'. induction s as [|b s IH]; intros [|b' s'] Hs Hs' E; simplify_eq/=.
  - done.
  - by apply no_nul_cons in Hs' as [? _].
  - by apply no_nul_cons in Hs as [? _].
  - apply no_nul_cons in Hs as [_ Hs]. apply no_nul_cons in Hs' as [_ Hs'].
    destruct (IH s') as [-> ->]; auto.
Qed.

(** [read_string_validated] reads exactly the NUL-terminated strings within
    the limit. *)
Variant read_spec (data : bytes) (off max : Z) : bytes * Z -> Prop :=
  | ReadOk pre s rest :
      data = pre ++ s ++ x00 :: rest -> zlen pre = off -> no_nul s -> zlen s <= max ->
      read_spec data off max (s, off + zlen s + 1)
  | ReadFail :
      (forall pre s rest, data = pre ++ s ++ x00 :: rest -> zlen pre = off ->
         no_nul s -> max < zlen s) ->
      read_spec data off max ([], SIZE_MAX).

Lemma read_string_ok data max pre s rest :
  data = pre ++ s ++ x00 :: rest -> no_nul s -> zlen s <= max ->
  read_string_validated data (zlen pre) max = (s, zlen pre + zlen s + 1).
Proof.
  intros -> Hs Hl. unfold read_string_validated.
  rewrite (proj2 (Z.leb_gt _ _)) by zlens.
  erewrite (read_chars_scan _ max pre s (x00 :: rest)) by (eauto; lia). simpl.
  rewrite (proj2 (Z.leb_gt _ _)) by zlens.
  rewrite <- (zlen_app pre s), app_assoc, byte_at_app.
  rewrite bool_decide_eq_true_2 by done. simpl. rewrite !andb_false_r, andb_true_r.
  rewrite (proj2 (Z.ltb_lt _ _)) by zlens. done.
Qed.

Lemma read_string_spec data off max :
  0 <= off -> 0 <= max -> read_spec data off max (read_string_validated data off max).
Proof.
  intros Hoff Hmax.
  destruct (Z.le_gt_cases (zlen data) off) as [Hd|Hd].
  { unfold read_string_validated. rewrite (proj2 (Z.leb_le _ _)) by done.
    constructor. intros pre s rest -> Hp. zlens. }
  set (pre := take (Z.to_nat off) data).
  assert (Hpre : zlen pre = off).
  { unfold pre, zlen in *. rewrite length_take. lia. }
  destruct (scan_exists max (drop (Z.to_nat off) data)) as (s & rest & Hsp & Hs & Hl & Hr); [done|].
  assert (Hdata : data = pre ++ s ++ rest) by (rewrite <- Hsp; unfold pre; by rewrite take_drop).
  destruct rest as [|b rest]; [|destruct (decide (b = x00)) as [->|Hb]].
  - unfold read_string_validated. rewrite (proj2 (Z.leb_gt _ _)) by done.
    rewrite <- Hpre. erewrite (read_chars_scan _ max pre s []) by (eauto; lia). simpl.
    rewrite (proj2 (Z.leb_le _ _)) by (rewrite Hdata; zlens).
    constructor. intros pre' s' rest' E Hp' Hs'. exfalso.
    rewrite Hdata, app_nil_r in E. apply app_inj_1 in E as [_ ->]; [|unfold zlen in *; lia].
    apply Hs. apply elem_of_app. right. left.
  - rewrite <- Hpre. erewrite read_string_ok by eauto. econstructor; eauto.
  - destruct Hr as [?|[[r ?]|Hr]]; [simplify_eq..|].
    assert (Hat : byte_at data (zlen pre + zlen s) = b)
      by (rewrite Hdata, <- zlen_app, app_assoc; apply byte_at_app).
    unfold read_string_validated. rewrite (proj2 (Z.leb_gt _ _)) by done.
    rewrite <- Hpre. erewrite (read_chars_scan _ max pre s (b :: rest)) by (eauto; lia). simpl.
    rewrite (proj2 (Z.leb_gt _ _)) by (rewrite Hdata; zlens).
    rewrite (proj2 (Z.leb_le _ _)) by lia.
    rewrite Hat, bool_decide_eq_false_2 by done.
    rewrite (proj2 (Z.ltb_lt _ _)) by (rewrite Hdata; zlens). simpl.
    constructor. intros pre' s' rest' E Hp' Hs'.
    rewrite Hdata in E. apply app_inj_1 in E as [_ E]; [|unfold zlen in *; lia].
    destruct (Z.lt_ge_cases max (zlen s')) as [?|Hlt]; [done|exfalso].
    assert (Hk : (length s' <= length s)%nat) by (unfold zlen in *; lia).
    apply (f_equal (lookup (length s'))) in E.
    rewrite (list_lookup_middle s') in E by done.
    destruct (decide (length s' = length s)) as [Heq|Hne].
    + rewrite Heq, list_lookup_middle in E by done. congruence.
    + rewrite lookup_app_l in E by lia. apply Hs. by apply list_elem_of_lookup_2 in E.
Qed.

(** ** Options on the wire

    [opts_tail n tail l]: the bytes [tail] hold the options [l], at most [n] of
    them.  The list ends with the data or at an empty option name, after which
    anything may follow; after [n] options the data must be at its end. *)

Inductive opts_tail : nat -> bytes -> list (bytes * bytes) -> Prop :=
  | ot_end n : opts_tail n [] []
  | ot_stop n rest : opts_tail (S n) (x00 :: rest) []
  | ot_cons n k v rest l :
      wf_string kMaxOptionNameLength k -> wf_string kMaxOptionValueLength v ->
      opts_tail n rest l ->
      opts_tail (S n) (k ++ x00 :: v ++ x00 :: rest) ((k, v) :: l).

(** A later option replaces an earlier one of the same name. *)
Definition insert_opt (m : options) (o : bytes * bytes) : options := <[o.1 := o.2]> m.
Definition opts_of_list (l : list (bytes * bytes)) : options := foldl insert_opt ∅ l.

Lemma opts_tail_inv n s rest l :
  no_nul s -> opts_tail (S n) (s ++ x00 :: rest) l ->
  (s = [] /\ l = []) \/
  exists v rest' l', wf_string kMaxOptionNameLength s /\ wf_string kMaxOptionValueLength v /\
    rest = v ++ x00 :: rest' /\ opts_tail n rest' l' /\ l = (s, v) :: l'.
Proof.
  intros Hs H. remember (s ++ x00 :: rest) as tail eqn:E.
  remember (S n) as n1 eqn:En. destruct H as [|n' r|n' k v r l Hk Hv Ht].
  - by destruct s.
  - destruct s; simplify_eq/=; [by left|]. by apply no_nul_cons in Hs as [? _].
  - apply nul_split_unique in E as [-> <-]; [|by apply Hk|done].
    simplify_eq. right. eauto 8.
Qed.

Lemma opts_tail_0_inv tail l : opts_tail 0 tail l -> tail = [] /\ l = [].
Proof. by inversion 1. Qed.

Lemma opts_tail_nil_inv n l : opts_tail n [] l -> l = [].
Proof. inversion 1 as [| |? k ? ? ? Hk]; subst; [done|]. by destruct k. Qed.

(** Every non-empty tail starts with a NUL-terminated string. *)
Lemma opts_tail_nul n tail l :
  tail <> [] -> opts_tail n tail l ->
  exists s rest, tail = s ++ x00 :: rest /\ no_nul s /\ zlen s <= kMaxOptionNameLength.
Proof.
  intros Hne H. destruct H as [|n rest|n k v rest l (?&?&?) Hv Ht]; [done| |eauto].
  exists [], rest. repeat split; [apply not_elem_of_nil | done].
Qed.

Lemma opt_decreases data s :
  opt_cond data s = true -> (opt_measure (opt_step data s) < opt_measure s)%nat.
Proof.
  unfold opt_cond, opt_measure, opt_step. intros. bool_cases.
  destruct s as [off c m []]; cbn [ost_exit ost_count ost_offset] in *; try done.
  destruct (read_string_validated _ off _) as [name off1].
  repeat case_match; simplify_eq; cbn [ost_exit ost_count]; lia.
Qed.

(** What [parse_options] makes of the loop started in a given state. *)
Definition opt_result (data : bytes) (s0 : opt_state) : option options :=
  let s := while_do opt_measure (opt_cond data) (opt_step data) s0 in
  if bool_decide (ost_exit s = Failed) then None
  else if (kMaxOptionsCount <=? ost_count s) && (ost_offset s <? zlen data) then None
  else Some (ost_options s).

Lemma opt_result_unfold data s :
  opt_result data s =
    if opt_cond data s then opt_result data (opt_step data s)
    else if bool_decide (ost_exit s = Failed) then None
    else if (kMaxOptionsCount <=? ost_count s) && (ost_offset s <? zlen data) then None
    else Some (ost_options s).
Proof.
  unfold opt_result at 1. rewrite while_do_unfold by apply opt_decreases.
  by destruct (opt_cond data s).
Qed.

Lemma opt_result_failed data off c m : opt_result data (OptState off c m Failed) = None.
Proof. by rewrite opt_result_unfold. Qed.

Lemma opt_result_broke data off c m :
  c < kMaxOptionsCount -> opt_result data (OptState off c m Broke) = Some m.
Proof.
  intros. rewrite opt_result_unfold. simpl. by rewrite (proj2 (Z.leb_gt _ _)).
Qed.

(** One iteration, on data that starts with the name [s]. *)
Lemma opt_step_name data pre s rest c m :
  data = pre ++ s ++ x00 :: rest -> no_nul s -> zlen s <= kMaxOptionNameLength ->
  zlen data < SIZE_MAX ->
  opt_step data (OptState (zlen pre) c m Running) =
    let offset1 := zlen pre + zlen s + 1 in
    if bool_decide (s = []) then OptState offset1 c m Broke
    else if bool_decide (rest = []) then OptState offset1 c m Failed
    else
      let '(v, offset2) := read_string_validated data offset1 kMaxOptionValueLength in
      if offset2 =? SIZE_MAX then OptState offset2 c m Failed
      else if bool_decide (v = []) then OptState offset2 c m Failed
      else OptState offset2 (c + 1) (<[s := v]> m) Running.
Proof.
  intros Hd Hs Hl Hsz. unfold opt_step. simpl.
  erewrite read_string_ok by eauto.
  rewrite (proj2 (Z.eqb_neq _ _)) by (subst data; zlens).
  case_bool_decide; [done|].
  destruct (decide (rest = [])) as [Hr|Hr].
  - rewrite (bool_decide_eq_true_2 (rest = [])) by done.
    rewrite (proj2 (Z.leb_le _ _)); [done|]. subst. zlens.
  - rewrite (bool_decide_eq_false_2 (rest = [])) by done.
    rewrite (proj2 (Z.leb_gt _ _)); [done|]. subst data.
    destruct rest; [done|]. zlens.
Qed.

(** The result of one read, on data split at the read position. *)
Lemma read_cases data pre tail max :
  data = pre ++ tail -> 0 <= max -> zlen data < SIZE_MAX ->
  (read_string_validated data (zlen pre) max = ([], SIZE_MAX) /\
   forall s rest, tail = s ++ x00 :: rest -> no_nul s -> max < zlen s) \/
  exists s rest, tail = s ++ x00 :: rest /\ no_nul s /\ zlen s <= max /\
    read_string_validated data (zlen pre) max = (s, zlen pre + zlen s + 1) /\
    zlen pre + zlen s + 1 <> SIZE_MAX.
Proof.
  intros Hd Hmax Hsz.
  destruct (read_string_spec data (zlen pre) max) as [pre' s rest E Hp Hs Hl|Hf];
    [auto with tftp | done | |].
  - right. exists s, rest.
    assert (Hx : zlen pre + zlen s + 1 <> SIZE_MAX) by (rewrite E in Hsz; zlens).
    assert (Hsplit : pre ++ tail = pre' ++ s ++ x00 :: rest) by congruence.
    apply app_inj_1 in Hsplit as [<- ->]; [|unfold zlen in *; lia].
    done.
  - left. split; [done|]. intros s rest -> Hs. eapply Hf; eauto.
Qed.

(** What the loop started at [tail], with [n] options still allowed, accepts. *)
Definition opt_loop_spec (data : bytes) (n : nat) : Prop :=
  forall pre tail c m mo,
  data = pre ++ tail -> zlen data < SIZE_MAX -> 0 <= c -> c + Z.of_nat n = kMaxOptionsCount ->
  opt_result data (OptState (zlen pre) c m Running) = Some mo <->
  exists l, opts_tail n tail l /\ mo = foldl insert_opt m l.

Lemma opt_loop_full data : opt_loop_spec data 0.
Proof.
  intros pre tail c m mo Hd Hsz Hc Hn. rewrite opt_result_unfold.
  unfold opt_cond; cbn [ost_exit ost_count ost_offset ost_options].
  rewrite (proj2 (Z.ltb_ge c _)), andb_false_r by lia. rewrite (proj2 (Z.leb_le _ c)) by lia.
  simpl. split.
  - case_match; [done|]. intros [= <-]. bool_cases. exists [].
    assert (tail = []) as -> by (apply zlen_0_inv; subst data; zlens).
    split; [constructor | done].
  - intros (l & [-> ->]%opts_tail_0_inv & ->).
    rewrite (proj2 (Z.ltb_ge _ _)) by (subst data; zlens). done.
Qed.

(** The second half of an iteration: the value of the option named [s]. *)
Lemma opt_value_iff data n pre s rest c m mo :
  opt_loop_spec data n ->
  data = pre ++ s ++ x00 :: rest -> zlen data < SIZE_MAX -> wf_string kMaxOptionNameLength s ->
  rest <> [] -> 0 <= c -> c + Z.of_nat (S n) = kMaxOptionsCount ->
  opt_result data
    (let '(v, offset2) := read_string_validated data (zlen pre + zlen s + 1) kMaxOptionValueLength in
     if offset2 =? SIZE_MAX then OptState offset2 c m Failed
     else if bool_decide (v = []) then OptState offset2 c m Failed
     else OptState offset2 (c + 1) (<[s := v]> m) Running) = Some mo <->
  exists l, opts_tail (S n) (s ++ x00 :: rest) l /\ mo = foldl insert_opt m l.
Proof.
  intros IH Hd Hsz Hwf Hr0 Hc Hn. pose proof Hwf as (Hs0 & Hs & Hl).
  replace (zlen pre + zlen s + 1) with (zlen (pre ++ s ++ [x00])) by zlens.
  destruct (read_cases data (pre ++ s ++ [x00]) rest kMaxOptionValueLength) as
    [[E' Hf]|(v & rest' & -> & Hv & Hlv & E' & Hx')];
    [subst data; by rewrite <- !app_assoc | done | done | |]; rewrite E'.
  { rewrite (proj2 (Z.eqb_eq _ _)) by done. rewrite opt_result_failed. split; [done|].
    intros (l & [[? _]|(v & r & l' & _ & (_ & Hv & Hlv) & -> & _)]%opts_tail_inv & _);
      [done| |done].
    specialize (Hf v r eq_refl Hv). lia. }
  rewrite (proj2 (Z.eqb_neq _ _)) by done.
  case_bool_decide as Hv0.
  { subst v. rewrite opt_result_failed. split; [done|].
    intros (l & [[? _]|(v & r & l' & _ & (? & ? & _) & Hr & _)]%opts_tail_inv & _); [done| |done].
    change (x00 :: rest') with ([] ++ x00 :: rest') in Hr.
    apply nul_split_unique in Hr as [<- _]; [done..|done]. }
  replace (zlen (pre ++ s ++ [x00]) + zlen v + 1)
    with (zlen (pre ++ s ++ x00 :: v ++ [x00])) by zlens.
  rewrite (IH _ rest'); [|subst data; by rewrite <- !app_assoc; simpl; rewrite <- app_assoc|lia..].
  split.
  - intros (l & Ht & ->). exists ((s, v) :: l). split; [by constructor | done].
  - intros (l & [[? _]|(v' & r & l' & _ & (_ & Hv' & _) & Hr & Ht & ->)]%opts_tail_inv & ->);
      [done| |done].
    apply nul_split_unique in Hr as [-> ->]; [|done..]. eauto.
Qed.

Lemma opt_loop_iff data n : opt_loop_spec data n.
Proof.
  induction n as [|n IH]; [apply opt_loop_full|]. intros pre tail c m mo Hd Hsz Hc Hn.
  rewrite opt_result_unfold. unfold opt_cond; cbn [ost_exit ost_count ost_offset ost_options].
  rewrite (proj2 (Z.ltb_lt c _)), andb_true_r by lia.
  rewrite (proj2 (Z.leb_gt _ c)) by lia. simpl.
  destruct (decide (tail = [])) as [-> |Hne].
  { rewrite (proj2 (Z.ltb_ge _ _)) by (subst data; zlens). split.
    - intros [= <-]. exists []. split; [constructor | done].
    - by intros (l & ->%opts_tail_nil_inv & ->). }
  rewrite (proj2 (Z.ltb_lt _ _)) by (subst data; destruct tail; [done | zlens]).
  destruct (read_cases data pre tail kMaxOptionNameLength) as
    [[E Hf]|(s & rest & -> & Hs & Hl & E & Hx)]; [done..| |].
  { unfold opt_step. cbn [ost_offset]. rewrite E. simpl. rewrite opt_result_failed.
    split; [done|]. intros (l & Ht & _).
    apply opts_tail_nul in Ht as (s & rest & -> & Hs & Hl); [|done].
    specialize (Hf s rest eq_refl Hs). lia. }
  erewrite opt_step_name by eauto. cbv zeta. case_bool_decide as Hs0.
  { subst s. rewrite opt_result_broke by lia. split.
    - intros [= <-]. exists []. split; [constructor | done].
    - intros (l & [[_ ->]|(v & r & l' & (? & _) & _)]%opts_tail_inv & ->); [done.. |done]. }
  case_bool_decide as Hr0.
  { subst rest. rewrite opt_result_failed. split; [done|].
    intros (l & [[? _]|(v & r & l' & _ & _ & Hv & _)]%opts_tail_inv & _); [done| |done].
    by destruct v. }
  by apply opt_value_iff.
Qed.

Lemma parse_options_iff data pre tail mo :
  data = pre ++ tail -> zlen data < SIZE_MAX ->
  parse_options data (zlen pre) = Some mo <->
  exists l, opts_tail (Z.to_nat kMaxOptionsCount) tail l /\ mo = opts_of_list l.
Proof. intros Hd Hsz. by apply (opt_loop_iff data _ pre tail 0 ∅). Qed.

(** ** The wire format *)

Definition mode_name (m : TransferMode) : bytes :=
  match m with
  | kNetAscii => bs "netascii" | kOctet => bs "octet" | kMail => bs "mail"
  | TransferModeValue _ => []
  end.

Definition known_mode (m : TransferMode) : Prop :=
  m = kNetAscii \/ m = kOctet \/ m = kMail.

(** [wire d p]: the bytes [d] are a packet whose fields are those of [p].
    The mode name is matched without regard to case, an error message may be
    followed by anything. *)
Inductive wire : bytes -> TftpPacket -> Prop :=
  | wire_request o fn ms mode tail l :
      o = kReadRequest \/ o = kWriteRequest ->
      wf_string kMaxFilenameLength fn -> wf_string kMaxStringLength ms ->
      known_mode mode -> map tolower ms = mode_name mode ->
      opts_tail (Z.to_nat kMaxOptionsCount) tail l ->
      wire (be16 (op_value o) ++ fn ++ x00 :: ms ++ x00 :: tail)
        (MkPacket o 0 kNotDefined fn mode [] [] (opts_of_list l))
  | wire_data b d :
      0 <= b < 65536 -> zlen d <= kMaxDataSize ->
      wire (be16 3 ++ be16 b ++ d) (MkPacket kData b kNotDefined [] kOctet d [] ∅)
  | wire_ack b :
      0 <= b < 65536 -> wire (be16 4 ++ be16 b) (CreateAck b)
  | wire_error c msg rest :
      0 <= c <= 7 -> no_nul msg -> zlen msg <= kMaxErrorMessageLength ->
      wire (be16 5 ++ be16 c ++ msg ++ x00 :: rest) (CreateError (error_of_value c) msg)
  | wire_oack tail l :
      opts_tail (Z.to_nat kMaxOptionsCount) tail l ->
      wire (be16 6 ++ tail) (CreateOACK (opts_of_list l)).

Lemma string_to_mode_iff ms mode :
  string_to_mode ms = Ok mode <-> known_mode mode /\ map tolower ms = mode_name mode.
Proof.
  unfold string_to_mode, known_mode. split.
  - repeat case_bool_decide; intros; simplify_eq; eauto 6.
  - intros [[-> | [-> | ->]] ->]; done.
Qed.

Lemma string_to_mode_cases ms :
  (exists mode, string_to_mode ms = Ok mode) \/ (exists e, string_to_mode ms = Throw e).
Proof. destruct (string_to_mode ms); eauto. Qed.

Section deserialize.
Context `{P : Platform}.

Lemma get_u16_app pre b0 b1 rest :
  get_u16 (pre ++ b0 :: b1 :: rest) (zlen pre) = be16_val b0 b1.
Proof using.
  unfold get_u16. rewrite ntohs_of_mem, byte_at_app_skip by lia. by rewrite byte_at_app.
Qed.

Lemma get_u16_0 b0 b1 rest : get_u16 (b0 :: b1 :: rest) 0 = be16_val b0 b1.
Proof using. apply (get_u16_app []). Qed.

Lemma get_u16_2 b0 b1 b2 b3 rest : get_u16 (b0 :: b1 :: b2 :: b3 :: rest) 2 = be16_val b2 b3.
Proof using. apply (get_u16_app [b0; b1]). Qed.

(** The packet the [switch] starts from. *)
Definition fresh_packet (o : OpCode) : TftpPacket :=
  MkPacket o 0 kNotDefined [] kOctet [] [] ∅.

Lemma request_split b0 b1 (fn ms opts : bytes) :
  b0 :: b1 :: fn ++ x00 :: ms ++ x00 :: opts
  = ([b0; b1] ++ fn ++ x00 :: ms ++ [x00]) ++ opts.
Proof using. simpl. rewrite <- !app_assoc. simpl. by rewrite <- !app_assoc. Qed.

Lemma deserialize_request_iff o b0 b1 tail p :
  zlen (b0 :: b1 :: tail) < SIZE_MAX ->
  deserialize_request (fresh_packet o) (b0 :: b1 :: tail) = (true, p) <->
  exists fn ms mode opts l, tail = fn ++ x00 :: ms ++ x00 :: opts /\
    wf_string kMaxFilenameLength fn /\ wf_string kMaxStringLength ms /\
    known_mode mode /\ map tolower ms = mode_name mode /\
    opts_tail (Z.to_nat kMaxOptionsCount) opts l /\
    p = MkPacket o 0 kNotDefined fn mode [] [] (opts_of_list l).
Proof using.
  set (data := b0 :: b1 :: tail). intros Hsz. unfold deserialize_request.
  change 2 with (zlen [b0; b1]). split.
  - destruct (read_cases data [b0; b1] tail kMaxFilenameLength)
      as [[E _]|(fn & r & -> & Hfn & Hl & E & Hx)]; [done..| |]; rewrite E; [done|].
    rewrite (proj2 (Z.eqb_neq _ _)) by done.
    case_bool_decide as Hfn0; [done|]. case_match; [done|].
    replace (zlen [b0; b1] + zlen fn + 1) with (zlen ([b0; b1] ++ fn ++ [x00])) by zlens.
    destruct (read_cases data ([b0; b1] ++ fn ++ [x00]) r kMaxStringLength)
      as [[E' _]|(ms & opts & -> & Hms & Hlm & E' & Hx')];
      [by simpl; rewrite <- app_assoc | done | done | |]; rewrite E'; [done|].
    rewrite (proj2 (Z.eqb_neq _ _)) by done. case_bool_decide as Hms0; [done|].
    destruct (string_to_mode ms) as [mode|] eqn:Em; [|done].
    apply string_to_mode_iff in Em as [Hk Em].
    replace (zlen ([b0; b1] ++ fn ++ [x00]) + zlen ms + 1)
      with (zlen ([b0; b1] ++ fn ++ x00 :: ms ++ [x00])) by zlens.
    destruct (parse_options _ _) as [mo|] eqn:Eo; [|done]. intros [= <-].
    eapply parse_options_iff in Eo as (l & Ht & ->); [|apply request_split|done].
    exists fn, ms, mode, opts, l. done.
  - intros (fn & ms & mode & opts & l & -> & (Hfn0 & Hfn & Hl) & (Hms0 & Hms & Hlm) & Hk & Em & Ht & ->).
    erewrite (read_string_ok data _ [b0; b1] fn) by done.
    rewrite (proj2 (Z.eqb_neq _ _)) by (subst data; zlens).
    rewrite bool_decide_eq_false_2 by done.
    rewrite (proj2 (Z.leb_gt _ _)) by (subst data; zlens).
    replace (zlen [b0; b1] + zlen fn + 1) with (zlen ([b0; b1] ++ fn ++ [x00])) by zlens.
    erewrite (read_string_ok data _ ([b0; b1] ++ fn ++ [x00]) ms);
      [|by simpl; rewrite <- app_assoc|done..].
    rewrite (proj2 (Z.eqb_neq _ _)) by (subst data; zlens).
    rewrite bool_decide_eq_false_2 by done.
    rewrite (proj2 (string_to_mode_iff ms mode)) by done.
    replace (zlen ([b0; b1] ++ fn ++ [x00]) + zlen ms + 1)
      with (zlen ([b0; b1] ++ fn ++ x00 :: ms ++ [x00])) by zlens.
    rewrite (proj2 (parse_options_iff data _ opts (opts_of_list l)
      (request_split b0 b1 fn ms opts) Hsz)); [done|eauto].
Qed.

Definition switch_op (o : OpCode) (data : bytes) : bool * TftpPacket :=
  match o with
  | kReadRequest | kWriteRequest => deserialize_request (fresh_packet o) data
  | kData => deserialize_data (fresh_packet o) data
  | kAcknowledge => deserialize_ack (fresh_packet o) data
  | kError => deserialize_error (fresh_packet o) data
  | kOACK => deserialize_oack (fresh_packet o) data
  | OpCodeValue _ => (false, fresh_packet o)
  end.

Lemma deserialize_switch q b0 b1 b2 b3 rest :
  zlen (b0 :: b1 :: b2 :: b3 :: rest) <= kMaxPacketSize ->
  Deserialize q (b0 :: b1 :: b2 :: b3 :: rest)
  = switch_op (op_of_value (be16_val b0 b1)) (b0 :: b1 :: b2 :: b3 :: rest).
Proof using.
  intros Hsz. unfold Deserialize. rewrite bool_decide_eq_false_2 by done.
  assert (Hmin : kMinPacketSize <= zlen (b0 :: b1 :: b2 :: b3 :: rest))
    by (unfold kMinPacketSize; zlens).
  rewrite (proj2 (Z.ltb_ge _ kMinPacketSize)), (proj2 (Z.ltb_ge kMaxPacketSize _)) by done.
  rewrite (proj2 (Z.ltb_ge _ 2)) by (unfold kMinPacketSize in *; lia). simpl orb. cbv iota.
  rewrite get_u16_0. cbv zeta. cbn [op_code_ set_op_code ResetState].
  rewrite op_value_of_value. pose proof (be16_val_range b0 b1) as Hr.
  set (v := be16_val b0 b1) in *.
  change (set_op_code _ _) with (fresh_packet (op_of_value v)).
  destruct ((v <? 1) || (6 <? v)) eqn:Hv; [|by destruct (op_of_value v)].
  assert (op_of_value v = OpCodeValue v) as ->; [|done].
  apply orb_true_iff in Hv. rewrite !Z.ltb_lt in Hv. unfold op_of_value.
  repeat match goal with |- context [match ?x with _ => _ end] => destruct x; try done end; lia.
Qed.

Lemma op_bytes b0 b1 o : op_of_value (be16_val b0 b1) = o -> be16 (op_value o) = [b0; b1].
Proof using. intros <-. by rewrite op_value_of_value, be16_be16_val. Qed.

Lemma cons_be16 b2 b3 rest : b2 :: b3 :: rest = be16 (be16_val b2 b3) ++ rest.
Proof using. by rewrite be16_be16_val. Qed.

(** A datagram outside the size limits is rejected. *)
Lemma deserialize_size q d p :
  Deserialize q d = (true, p) -> kMinPacketSize <= zlen d <= kMaxPacketSize.
Proof using.
  unfold Deserialize. case_bool_decide; [done|].
  case_match eqn:E; [done|]. intros _. bool_cases. lia.
Qed.

Lemma size_split (d : bytes) :
  kMinPacketSize <= zlen d -> exists b0 b1 b2 b3 rest, d = b0 :: b1 :: b2 :: b3 :: rest.
Proof using.
  intros H. do 4 (destruct d as [|? d]; [by exfalso; unfold kMinPacketSize in H; zlens|]). eauto 6.
Qed.

Lemma deserialize_sound q d p : Deserialize q d = (true, p) -> wire d p.
Proof using.
  intros H. destruct (deserialize_size _ _ _ H) as [Hmin Hmax].
  destruct (size_split _ Hmin) as (b0 & b1 & b2 & b3 & rest & ->).
  assert (Hsz : zlen (b0 :: b1 :: b2 :: b3 :: rest) < SIZE_MAX)
    by (unfold kMaxPacketSize, SIZE_MAX in *; lia).
  rewrite deserialize_switch in H by done. unfold switch_op in H.
  destruct (op_of_value (be16_val b0 b1)) as [| | | | | |v] eqn:Ho;
    try done; apply op_bytes in Ho; change (b0 :: b1 :: b2 :: b3 :: rest)
      with ([b0; b1] ++ b2 :: b3 :: rest); rewrite <- Ho.
  1,2: apply deserialize_request_iff in H as (fn & ms & mode & opts & l & -> & ?); [|done];
    destruct_and!; subst p; by constructor; [auto| |..].
  - unfold deserialize_data in H. rewrite get_u16_2 in H. repeat case_match; simplify_eq/=.
    bool_cases. rewrite (cons_be16 b2 b3), drop_0.
    apply wire_data; [apply be16_val_range | unfold kMaxDataSize in *; zlens].
  - unfold deserialize_ack in H. rewrite get_u16_2 in H.
    destruct (Z.eqb_spec (zlen (b0 :: b1 :: b2 :: b3 :: rest)) 4); simplify_eq/=.
    assert (rest = []) as -> by (apply zlen_0_inv; zlens).
    rewrite (cons_be16 b2 b3), app_nil_r. apply wire_ack, be16_val_range.
  - unfold deserialize_error in H. rewrite get_u16_2 in H.
    destruct (zlen _ <? 5); [done|]. destruct (7 <? be16_val b2 b3) eqn:E7; [done|].
    change 4 with (zlen [b0; b1; b2; b3]) in H.
    edestruct (read_cases (b0 :: b1 :: b2 :: b3 :: rest) [b0; b1; b2; b3] rest)
      as [[E _]|(msg & r & -> & Hm & Hl & E & Hx)];
      [done| |done|by rewrite E in H|rewrite E in H]; [done|].
    rewrite (proj2 (Z.eqb_neq _ _)) in H by done. simplify_eq/=. bool_cases.
    rewrite (cons_be16 b2 b3). pose proof (be16_val_range b2 b3).
    apply wire_error; [lia|done..].
  - unfold deserialize_oack in H. change 2 with (zlen [b0; b1]) in H.
    destruct (parse_options _ _) as [mo|] eqn:Eo; [|done]. simplify_eq/=.
    eapply (parse_options_iff _ [b0; b1] (b2 :: b3 :: rest)) in Eo as (l & Ht & ->); [|done..].
    by apply wire_oack.
Qed.

Lemma op_of_be16 o :
  (forall v, o <> OpCodeValue v) ->
  op_of_value (be16_val (byte_of (op_value o / 256)) (byte_of (op_value o))) = o.
Proof using. destruct o; try done. intros H. by destruct (H v). Qed.

Lemma deserialize_complete q d p :
  kMinPacketSize <= zlen d <= kMaxPacketSize -> wire d p -> Deserialize q d = (true, p).
Proof using.
  intros [Hmin Hmax] Hw. destruct (size_split _ Hmin) as (b0 & b1 & b2 & b3 & rest & Hd).
  assert (Hsz : zlen d < SIZE_MAX) by (unfold kMaxPacketSize, SIZE_MAX in *; lia).
  rewrite Hd, deserialize_switch, <- Hd by (by rewrite <- Hd).
  destruct Hw as [o fn ms mode tail l Ho Hfn Hms Hk Em Ht|b dd Hb Hl|b Hb|c msg r Hc Hm Hl|tail l Ht];
    injection Hd as <- <- _.
  - rewrite op_of_be16 by (by destruct Ho as [-> | ->]).
    assert (forall data, switch_op o data = deserialize_request (fresh_packet o) data) as ->
      by (by destruct Ho as [-> | ->]).
    apply deserialize_request_iff; [done|]. eauto 15.
  - simpl switch_op. unfold deserialize_data. cbn [be16 app].
    rewrite get_u16_2, be16_val_be16 by done.
    rewrite (proj2 (Z.ltb_ge _ 4)) by zlens.
    rewrite (proj2 (Z.ltb_ge kMaxDataSize _)) by zlens. done.
  - simpl switch_op. unfold deserialize_ack, be16. cbn [app].
    by rewrite get_u16_2, be16_val_be16.
  - simpl switch_op. unfold deserialize_error. cbn [be16 app] in *.
    rewrite get_u16_2, be16_val_be16 by lia.
    rewrite (proj2 (Z.ltb_ge _ 5)) by zlens. rewrite (proj2 (Z.ltb_ge 7 _)) by lia.
    erewrite (read_string_ok _ _ [_; _; _; _] msg) by done.
    rewrite (proj2 (Z.eqb_neq _ _)) by zlens. done.
  - change (deserialize_oack (fresh_packet kOACK) (be16 6 ++ tail)
      = (true, CreateOACK (opts_of_list l))).
    unfold deserialize_oack. change 2 with (zlen (be16 6)).
    rewrite (proj2 (parse_options_iff _ (be16 6) tail (opts_of_list l) eq_refl Hsz)) by eauto.
    done.
Qed.
End deserialize.

(** ** Options in memory *)

Definition wf_option (o : bytes * bytes) : Prop :=
  wf_string kMaxOptionNameLength o.1 /\ wf_string kMaxOptionValueLength o.2.

Definition wf_options (m : options) : Prop :=
  zlen (map_to_list m) <= kMaxOptionsCount /\ Forall wf_option (map_to_list m).

(** The bytes an option list takes on the wire. *)
Definition opts_len (l : list (bytes * bytes)) : Z :=
  foldr (fun o n => zlen o.1 + 1 + zlen o.2 + 1 + n) 0 l.

Definition options_len (m : options) : Z := opts_len (map_to_list m).

#[global] Instance opts_len_perm : Proper ((≡ₚ) ==> (=)) opts_len.
Proof. intros l k H. induction H; simpl; lia. Qed.

Lemma opts_len_nonneg l : 0 <= opts_len l.
Proof. induction l as [|o l IH]; simpl; [done|]. zlens. Qed.

Lemma put_option_len o : zlen (put_option o) = zlen o.1 + 1 + zlen o.2 + 1.
Proof. unfold put_option. zlens. Qed.

Lemma concat_options_len l : zlen (concat (map put_option l)) = opts_len l.
Proof.
  induction l as [|o l IH]; simpl; [done|]. rewrite zlen_app, put_option_len, IH. lia.
Qed.

(** The printed options are in the grammar. *)
Lemma opts_tail_print n l :
  (length l <= n)%nat -> Forall wf_option l -> opts_tail n (concat (map put_option l)) l.
Proof.
  revert n. induction l as [|[k v] l IH]; intros n Hn Hl; simpl; [constructor|].
  apply Forall_cons in Hl as [[Hk Hv] Hl]. simpl in Hn.
  destruct n as [|n]; [lia|]. unfold put_option. simpl.
  rewrite <- !app_assoc. simpl. rewrite <- app_assoc. simpl.
  constructor; [done..|]. apply IH; [lia|done].
Qed.

Lemma opts_of_list_snoc l o : opts_of_list (l ++ [o]) = insert_opt (opts_of_list l) o.
Proof. unfold opts_of_list. by rewrite foldl_app. Qed.

Lemma opts_of_list_reverse l : opts_of_list l = list_to_map (reverse l).
Proof.
  induction l as [|o l IH] using rev_ind; [done|].
  rewrite opts_of_list_snoc, reverse_snoc, IH. by destruct o.
Qed.

Lemma opts_of_list_perm (l : list (bytes * bytes)) (m : options) :
  l ≡ₚ map_to_list m -> opts_of_list l = m.
Proof.
  intros Hl. rewrite opts_of_list_reverse, <- (list_to_map_to_list m).
  apply list_to_map_proper; [|by rewrite reverse_Permutation].
  rewrite reverse_Permutation, Hl. apply NoDup_fst_map_to_list.
Qed.

(** ** Well-formed packets

    The packets that fit the wire: every used field within its limit, every
    other field at its initial value, and the whole within one datagram. *)

Inductive wf_packet : TftpPacket -> Prop :=
  | wf_request o fn mode opts :
      o = kReadRequest \/ o = kWriteRequest ->
      wf_string kMaxFilenameLength fn -> known_mode mode -> wf_options opts ->
      2 + zlen fn + 1 + zlen (mode_name mode) + 1 + options_len opts <= kMaxPacketSize ->
      wf_packet (MkPacket o 0 kNotDefined fn mode [] [] opts)
  | wf_data b d :
      0 <= b < 65536 -> zlen d <= kMaxDataSize ->
      wf_packet (MkPacket kData b kNotDefined [] kOctet d [] ∅)
  | wf_ack b : 0 <= b < 65536 -> wf_packet (CreateAck b)
  | wf_error c msg :
      0 <= c <= 7 -> no_nul msg -> zlen msg <= kMaxErrorMessageLength ->
      wf_packet (CreateError (error_of_value c) msg)
  | wf_oack opts :
      opts <> ∅ -> wf_options opts -> 2 + options_len opts <= kMaxPacketSize ->
      wf_packet (CreateOACK opts).

Lemma known_mode_name mode :
  known_mode mode -> mode_to_string mode = Ok (mode_name mode) /\
  wf_string kMaxStringLength (mode_name mode) /\
  map tolower (mode_name mode) = mode_name mode.
Proof.
  intros [-> | [-> | ->]]; (split; [done|]); split; [|done| |done| |done];
    apply (bool_decide_unpack _); vm_compute; done.
Qed.

Section serialize.
Context `{P : Platform}.

Lemma put_u16_be v : 0 <= v < 65536 -> put_u16 v = be16 v.
Proof using. apply mem_of_htons. Qed.

Lemma put_options_len m : zlen (put_options m) = options_len m.
Proof using.
  unfold put_options, options_len. rewrite concat_options_len. by rewrite map_iter_perm.
Qed.

Lemma put_options_grammar m :
  wf_options m -> exists l, opts_tail (Z.to_nat kMaxOptionsCount) (put_options m) l /\
    opts_of_list l = m.
Proof using.
  intros [Hn Hf]. exists (map_iter m). split; [|apply opts_of_list_perm, map_iter_perm].
  apply opts_tail_print.
  - rewrite map_iter_perm. unfold zlen in Hn. lia.
  - by rewrite map_iter_perm.
Qed.

Lemma wf_options_len m : m <> ∅ -> wf_options m -> 4 <= options_len m.
Proof using.
  intros Hne [_ Hf]. unfold options_len. destruct (map_to_list m) as [|o l] eqn:E.
  - by apply map_to_list_empty_iff in E.
  - apply Forall_cons in Hf as [[(Hk & _) (Hv & _)] _]. simpl.
    pose proof (opts_len_nonneg l).
    destruct (o.1); [done|]. destruct (o.2); [done|]. zlens.
Qed.

(** Printing a well-formed packet gives its wire form, within one datagram. *)
Lemma serialize_wire p :
  wf_packet p -> exists d, Serialize p = Ok d /\ wire d p /\
    kMinPacketSize <= zlen d <= kMaxPacketSize.
Proof using.
  unfold kMinPacketSize, kMaxPacketSize, kMaxDataSize, kMaxErrorMessageLength.
  intros [o fn mode opts Ho Hfn Hm Hopts Hsz|b d Hb Hd|b Hb|c msg Hc Hm Hl|opts Hne Hopts Hsz].
  - destruct (known_mode_name _ Hm) as (Hms & Hwf & Hlow).
    pose proof (opts_len_nonneg (map_to_list opts)) as Hp. fold (options_len opts) in Hp.
    pose proof (put_options_len opts) as Hpl.
    destruct (put_options_grammar _ Hopts) as (l & Ht & El).
    exists (be16 (op_value o) ++ fn ++ x00 :: mode_name mode ++ x00 :: put_options opts).
    split; [|split].
    + unfold Serialize. destruct Ho as [-> | ->]; cbn [op_code_ mode_ filename_ options_];
        rewrite Hms; simpl; by rewrite put_u16_be.
    + rewrite <- El at 2. by constructor.
    + autorewrite with tftp_size in *. unfold kMaxPacketSize in Hsz. zlens.
  - exists (be16 3 ++ be16 b ++ d). split; [|split; [by apply wire_data|unfold kMaxDataSize in *; zlens]].
    unfold Serialize. simpl. by rewrite !put_u16_be by done.
  - exists (be16 4 ++ be16 b). split; [|split; [by apply wire_ack|zlens]].
    unfold Serialize. simpl. by rewrite !put_u16_be by done.
  - exists (be16 5 ++ be16 c ++ msg ++ [x00]).
    split; [|split; [by apply wire_error|unfold kMaxErrorMessageLength in *; zlens]].
    unfold Serialize. simpl. rewrite error_value_of_value. by rewrite !put_u16_be by lia.
  - destruct (put_options_grammar _ Hopts) as (l & Ht & El).
    pose proof (wf_options_len _ Hne Hopts). pose proof (put_options_len opts).
    exists (be16 6 ++ put_options opts). split; [|split].
    + unfold Serialize. simpl. by rewrite put_u16_be.
    + rewrite <- El at 2. by constructor.
    + unfold kMaxPacketSize in Hsz. zlens.
Qed.
End serialize.

(** ** What an accepted packet looks like *)

Lemma map_to_list_insert_delete (m : options) k v :
  map_to_list (<[k := v]> m) ≡ₚ (k, v) :: map_to_list (delete k m).
Proof.
  rewrite <- insert_delete_eq. apply map_to_list_insert, lookup_delete_eq.
Qed.

Lemma map_to_list_delete_cons (m : options) k :
  map_to_list m ≡ₚ map_to_list (delete k m) \/
  exists v, map_to_list m ≡ₚ (k, v) :: map_to_list (delete k m).
Proof.
  destruct (m !! k) as [v|] eqn:E.
  - right. exists v. symmetry. by apply map_to_list_delete.
  - left. by rewrite delete_id.
Qed.

Lemma opts_of_list_facts l :
  Forall wf_option l ->
  zlen (map_to_list (opts_of_list l)) <= zlen l /\
  Forall wf_option (map_to_list (opts_of_list l)) /\
  options_len (opts_of_list l) <= opts_len l.
Proof.
  unfold options_len.
  induction l as [|[k v] l IH] using rev_ind; [done|].
  intros [Hl Ho]%Forall_app. apply Forall_cons in Ho as [Ho _]. destruct (IH Hl) as (Hn & Hf & Hs).
  assert (Happ : opts_len (l ++ [(k, v)]) = opts_len l + (zlen k + 1 + zlen v + 1)).
  { rewrite Permutation_app_comm. simpl. lia. }
  rewrite opts_of_list_snoc, Happ, zlen_app. unfold insert_opt. simpl fst. simpl snd.
  set (m := opts_of_list l) in *.
  rewrite map_to_list_insert_delete.
  destruct (map_to_list_delete_cons m k) as [E|[v' E]]; rewrite E in Hn, Hf, Hs;
    [|apply Forall_cons in Hf as [_ Hf]]; (split; [zlens|]);
    (split; [by constructor|]); simpl in *; zlens.
Qed.

Lemma opts_tail_facts n tail l :
  opts_tail n tail l ->
  (length l <= n)%nat /\ Forall wf_option l /\ opts_len l <= zlen tail.
Proof.
  induction 1 as [n|n rest|n k v rest l Hk Hv Ht (IHn & IHf & IHs)]; simpl.
  - split; [lia|]. by split.
  - split; [lia|]. split; [done|zlens].
  - split; [lia|]. split; [by constructor|zlens].
Qed.

Lemma wire_options tail l :
  opts_tail (Z.to_nat kMaxOptionsCount) tail l ->
  wf_options (opts_of_list l) /\ options_len (opts_of_list l) <= zlen tail.
Proof.
  intros (Hn & Hf & Hs)%opts_tail_facts.
  destruct (opts_of_list_facts l Hf) as (Hn' & Hf' & Hs').
  repeat split; [|done|lia]. unfold zlen in *. unfold kMaxOptionsCount in *. lia.
Qed.

Lemma wire_wf d p :
  wire d p -> zlen d <= kMaxPacketSize -> wf_packet p \/ p = CreateOACK ∅.
Proof.
  intros [o fn ms mode tail l Ho Hfn Hms Hk Em Ht|b dd Hb Hl|b Hb|c msg r Hc Hm Hl|tail l Ht] Hsz.
  - left. destruct (wire_options _ _ Ht) as [Hw Hs]. constructor; [done..|].
    rewrite <- Em. zlens.
  - left. by apply wf_data.
  - left. by apply wf_ack.
  - left. by apply wf_error.
  - destruct (wire_options _ _ Ht) as [Hw Hs].
    destruct (decide (opts_of_list l = ∅)) as [-> |Hne]; [by right|left].
    constructor; [done..|zlens].
Qed.

(** The size [Serialize] computes before it prints. *)
Definition packet_len (p : TftpPacket) : Z :=
  match op_code_ p with
  | kReadRequest | kWriteRequest =>
      2 + zlen (filename_ p) + 1 + zlen (mode_name (mode_ p)) + 1 + options_len (options_ p)
  | kData => 4 + zlen (data_ p)
  | kAcknowledge => 4
  | kError => 4 + zlen (error_message_ p) + 1
  | kOACK => 2 + options_len (options_ p)
  | OpCodeValue _ => 0
  end.

Lemma wire_len d p : wire d p -> packet_len p <= zlen d.
Proof.
  intros [o fn ms mode tail l Ho Hfn Hms Hk Em Ht|b dd Hb Hl|b Hb|c msg r Hc Hm Hl|tail l Ht];
    unfold packet_len; cbn [op_code_ CreateAck CreateError CreateOACK data_ filename_ mode_
      options_ error_message_].
  - destruct (wire_options _ _ Ht) as [_ Hs].
    destruct Ho as [-> | ->]; rewrite <- Em; zlens.
  - zlens.
  - zlens.
  - zlens.
  - destruct (wire_options _ _ Ht) as [_ Hs]. zlens.
Qed.

Section serialize_len.
Context `{P : Platform}.

Lemma put_u16_len v : zlen (put_u16 v) = 2.
Proof using. unfold put_u16, mem_of_u16. by destruct host_endian. Qed.

Lemma serialize_len p d : Serialize p = Ok d -> zlen d = packet_len p.
Proof using.
  unfold Serialize, packet_len. intros H.
  destruct (op_code_ p); simplify_eq; autorewrite with tftp_size;
    rewrite ?put_u16_len, ?put_options_len; try zlens.
  all: apply res_bind_Ok in H as (ms & Hms & [= <-]).
  all: autorewrite with tftp_size; rewrite put_u16_len, put_options_len.
  all: destruct (mode_ p); inversion_clear Hms; cbn [mode_name]; zlens.
Qed.
End serialize_len.

(** The object after a rejected datagram. *)
Section rejected.
Context `{P : Platform}.

Lemma switch_op_rejected o data p :
  zlen data <= kMaxPacketSize -> switch_op o data = (false, p) -> p = fresh_packet o.
Proof using.
  intros Hsz. unfold switch_op, deserialize_request, deserialize_data, deserialize_ack,
    deserialize_error, deserialize_oack.
  intros H. repeat (case_match; simplify_eq/=; try done).
  bool_cases. unfold kMaxPacketSize, kMaxDataSize in *. lia.
Qed.
End rejected.

Section theorems.
Context `{P : Platform}.

(** C7: [Deserialize] accepts exactly the datagrams of the wire format whose
    size is within the limits, whatever the object held before and on a host
    of either byte order, and the fields it sets are those of the format. *)
Theorem deserialize_accepts_wire_format q d p :
  Deserialize q d = (true, p) <->
  kMinPacketSize <= zlen d <= kMaxPacketSize /\ wire d p.
Proof using.
  split.
  - intros H. eauto using deserialize_size, deserialize_sound.
  - intros [??]. by apply deserialize_complete.
Qed.

(** C8: printing a well-formed packet and parsing the bytes into any object
    gives the packet back, for every iteration order of the option map. *)
Theorem serialize_deserialize_roundtrip p :
  wf_packet p ->
  exists d, Serialize p = Ok d /\ forall q, Deserialize q d = (true, p).
Proof using.
  intros (d & Hd & Hw & Hsz)%serialize_wire. eauto using deserialize_complete.
Qed.

(** C35: whatever datagram is accepted, the packet respects every limit of
    [tftp_common.h] (filename, option name, option value and error message
    lengths, option count, payload size, NUL-freeness), so it can be printed
    again; the one exception is an OACK without options. *)
Theorem deserialize_respects_limits q d p :
  Deserialize q d = (true, p) -> wf_packet p \/ p = CreateOACK ∅.
Proof using.
  intros H. apply deserialize_size in H as Hsz. apply deserialize_sound in H.
  eapply wire_wf; [done|lia].
Qed.

(** A rejected datagram leaves every field at its initial value except
    the operation code, which is that of the datagram when its size was
    acceptable: the object is not left clean. *)
Lemma deserialize_rejected_state q d p :
  Deserialize q d = (false, p) ->
  p = set_op_code default_packet
        (if (zlen d <? kMinPacketSize) || (kMaxPacketSize <? zlen d)
         then kReadRequest else op_of_value (get_u16 d 0)).
Proof using.
  intros H. destruct ((zlen d <? kMinPacketSize) || (kMaxPacketSize <? zlen d)) eqn:E.
  - unfold Deserialize in H. rewrite E in H. by repeat case_match; simplify_eq/=.
  - bool_cases. destruct (size_split d) as (b0 & b1 & b2 & b3 & rest & ->); [done|].
    rewrite deserialize_switch in H by done. rewrite get_u16_0.
    by apply switch_op_rejected in H.
Qed.

(** Printing an accepted packet normalises the datagram: the printed form
    is no longer than what was received and is parsed to the same packet. *)
Lemma reserialize_canonical q d p :
  Deserialize q d = (true, p) -> p <> CreateOACK ∅ ->
  exists d', Serialize p = Ok d' /\ zlen d' <= zlen d /\
    forall q', Deserialize q' d' = (true, p).
Proof using.
  intros H Hne. apply deserialize_size in H as Hsz. apply deserialize_sound in H.
  destruct (wire_wf _ _ H) as [Hw|?]; [lia| |done].
  apply serialize_wire in Hw as (d' & Hd & Hw & Hsz'). exists d'. split; [done|]. split.
  - rewrite (serialize_len _ _ Hd). by apply wire_len.
  - intros q'. by apply deserialize_complete.
Qed.
End theorems.

(** *** Witnesses *)

Definition sample_wrq : TftpPacket :=
  SetOption (SetOption (CreateWriteRequest (bs "boot/image.bin") kOctet)
    (bs "tsize") (bs "1024")) (bs "blksize") (bs "512").

Lemma sample_wrq_wf : wf_packet sample_wrq.
Proof.
  apply (wf_request kWriteRequest (bs "boot/image.bin") kOctet (options_ sample_wrq)).
  - by right.
  - by apply (bool_decide_unpack _).
  - right. by left.
  - split; [by vm_compute|]. apply (bool_decide_unpack _). by vm_compute.
  - by vm_compute.
Qed.

Lemma serialize_deserialize_roundtrip_witness :
  wf_packet sample_wrq /\
  exists d, @Serialize platform_be sample_wrq = Ok d /\
    forall q, @Deserialize platform_be q d = (true, sample_wrq).
Proof.
  split; [exact sample_wrq_wf|].
  exact (@serialize_deserialize_roundtrip platform_be sample_wrq sample_wrq_wf).
Defined.

(** A read request in capitals, with an unread tail after the empty name. *)
Definition sample_raw : bytes :=
  be16 1 ++ bs "a.txt" ++ [x00] ++ bs "OCTET" ++ [x00] ++ [x00] ++ bs "tail".

Definition sample_rrq : TftpPacket := CreateReadRequest (bs "a.txt") kOctet.

Lemma sample_raw_accepted : @Deserialize platform_le default_packet sample_raw = (true, sample_rrq).
Proof. vm_compute. reflexivity. Qed.

Lemma deserialize_respects_limits_witness : wf_packet sample_rrq \/ sample_rrq = CreateOACK ∅.
Proof.
  exact (@deserialize_respects_limits platform_le default_packet sample_raw sample_rrq sample_raw_accepted).
Defined.

Lemma reserialize_canonical_witness :
  exists d', @Serialize platform_le sample_rrq = Ok d' /\ zlen d' <= zlen sample_raw /\
    forall q', @Deserialize platform_le q' d' = (true, sample_rrq).
Proof.
  apply (@reserialize_canonical platform_le default_packet sample_raw sample_rrq sample_raw_accepted).
  discriminate.
Defined.

(** An acknowledgement that is one byte too long. *)
Lemma deserialize_rejected_state_witness :
  set_op_code default_packet kAcknowledge
  = set_op_code default_packet
      (if (zlen (be16 4 ++ be16 1 ++ [x00]) <? kMinPacketSize)
          || (kMaxPacketSize <? zlen (be16 4 ++ be16 1 ++ [x00]))
       then kReadRequest else op_of_value (@get_u16 platform_le (be16 4 ++ be16 1 ++ [x00]) 0)).
Proof.
  apply (@deserialize_rejected_state platform_le sample_wrq (be16 4 ++ be16 1 ++ [x00])).
  vm_compute. reflexivity.
Defined.
