(* ===== verification/StdText.v ===== *)
(** * The text functions of the C++ standard library the source uses

    [std::string::find] of a substring and of a character, the splitting of a
    string at a separator ([std::getline] on a string stream), [std::stoi] and
    [std::stoull], [std::to_string]; and with the last the stream output of the
    enumerations of [tftp_common.h]. *)

From Stdlib Require Import ZArith Lia Strings.Byte.
From stdpp Require Import base tactics numbers list gmap strings.
From S2P Require Import Prelude Common.

(** ** Searching *)

Definition starts_with (pat s : bytes) : bool :=
  bool_decide (take (length pat) s = pat).

(** [s.find(pat) != std::string::npos]. *)
Fixpoint contains (pat s : bytes) : bool :=
  starts_with pat s ||
  match s with [] => false | _ :: s' => contains pat s' end.

(** [s.find(c) != std::string::npos]. *)
Definition contains_char (c : byte) (s : bytes) : bool :=
  existsb (fun b => bool_decide (b = c)) s.

Lemma starts_with_true pat s : starts_with pat s = true <-> exists r, s = pat ++ r.
Proof.
  unfold starts_with. rewrite bool_decide_eq_true. split.
  - intros H. exists (drop (length pat) s). by rewrite <- H at 1; rewrite take_drop.
  - intros [r ->]. by rewrite take_app_length.
Qed.

Lemma contains_true pat s : contains pat s = true <-> exists a b, s = a ++ pat ++ b.
Proof.
  induction s as [|x s IH]; simpl; rewrite orb_true_iff, starts_with_true.
  - split.
    + intros [[r H]|?]; [|done]. by exists [], r.
    + intros (a & b & H). left. destruct a; [eauto|done].
  - rewrite IH. split.
    + intros [[r H]|(a & b & ->)]; [by exists [], r|by exists (x :: a), b].
    + intros ([|y a] & b & H); [left; eauto|]. right. simplify_eq/=. eauto.
Qed.

Lemma contains_false pat s : contains pat s = false <-> forall a b, s <> a ++ pat ++ b.
Proof.
  destruct (contains pat s) eqn:E.
  - split; [done|]. intros H. apply contains_true in E as (a & b & ->). by destruct (H a b).
  - split; [|done]. intros _ a b ->.
    assert (contains pat (a ++ pat ++ b) = true) by (apply contains_true; eauto). congruence.
Qed.

Lemma contains_char_true c s : contains_char c s = true <-> c ∈ s.
Proof.
  unfold contains_char. rewrite existsb_exists. split.
  - intros (b & Hb & ->%bool_decide_eq_true). by apply list_elem_of_In.
  - intros H%list_elem_of_In. exists c. split; [done|by apply bool_decide_eq_true].
Qed.

Lemma contains_char_false c s : contains_char c s = false <-> c ∉ s.
Proof. rewrite <- contains_char_true. by destruct (contains_char c s). Qed.

(** ** Splitting

    [split_on c s]: the pieces of [s] between the separators, at least one. *)

Fixpoint split_on (c : byte) (s : bytes) : list bytes :=
  match s with
  | [] => [[]]
  | b :: s' =>
      if bool_decide (b = c) then [] :: split_on c s'
      else match split_on c s' with
           | p :: ps => (b :: p) :: ps
           | [] => [[b]]
           end
  end.

Fixpoint join_with (c : byte) (ps : list bytes) : bytes :=
  match ps with
  | [] => []
  | [p] => p
  | p :: ps' => p ++ c :: join_with c ps'
  end.

Lemma split_on_ne c s : split_on c s <> [].
Proof. destruct s as [|b s]; simpl; [done|]. case_bool_decide; [done|]. by case_match. Qed.

Lemma join_split c s : join_with c (split_on c s) = s.
Proof.
  induction s as [|b s IH]; [done|]. simpl. pose proof (split_on_ne c s) as Hne.
  case_bool_decide as Hb; destruct (split_on c s) as [|p ps] eqn:E; try done.
  - simpl. subst b. f_equal. exact IH.
  - destruct ps; simpl in *; by rewrite IH.
Qed.

(** Every piece occurs in the string. *)
Lemma split_on_piece c s p : p ∈ split_on c s -> exists a b, s = a ++ p ++ b.
Proof.
  revert p. induction s as [|x s IH]; simpl; intros p.
  - intros ->%list_elem_of_singleton. by exists [], [].
  - case_bool_decide.
    + rewrite elem_of_cons. intros [-> |H2]; [by exists [], (x :: s)|].
      apply IH in H2 as (a & b & ->). by exists (x :: a), b.
    + destruct (split_on c s) as [|q qs] eqn:E.
      * intros ->%list_elem_of_singleton. by exists [], s.
      * rewrite elem_of_cons. intros [-> |H2].
        -- assert (Hq : exists b, s = q ++ b).
           { rewrite <- (join_split c s), E. simpl. destruct qs; [exists []; by rewrite app_nil_r|eauto]. }
           destruct Hq as [b ->]. by exists [], b.
        -- destruct (IH p) as (a & b & ->); [by right|]. by exists (x :: a), b.
Qed.

Lemma split_on_none c s : c ∉ s -> split_on c s = [s].
Proof.
  induction s as [|b s IH]; simpl; intros H; [done|].
  rewrite bool_decide_eq_false_2 by (intros ->; apply H; left).
  rewrite IH; [done|]. intros Hin. apply H. by right.
Qed.

Lemma split_on_app c s t : split_on c (s ++ c :: t) = split_on c s ++ split_on c t.
Proof.
  induction s as [|b s IH]; simpl; [by rewrite bool_decide_eq_true_2|].
  case_bool_decide; rewrite IH; [done|]. pose proof (split_on_ne c s).
  by destruct (split_on c s).
Qed.

(** A pattern without separators occurs in a piece or not at all. *)
Lemma contains_join c pat ps :
  pat <> [] -> c ∉ pat -> Forall (fun p => contains pat p = false) ps ->
  contains pat (join_with c ps) = false.
Proof.
  intros Hne Hc. induction ps as [|p ps IH].
  { intros _. apply contains_false. intros a b H. destruct a, pat; done. }
  intros [Hp Hps]%Forall_cons. destruct ps as [|q ps]; [done|]. specialize (IH Hps).
  change (join_with c (p :: q :: ps)) with (p ++ c :: join_with c (q :: ps)).
  generalize dependent (join_with c (q :: ps)). intros rest IH.
  rewrite contains_false in *. intros a b H.
  apply app_eq_app in H as (l & [[-> H]|[-> H]]).
  - apply app_eq_app in H as (k & [[E1 E2]|[E1 E2]]).
    + destruct k as [|y k]; [apply (Hp a []); by rewrite E1, !app_nil_r|].
      simpl in E2. injection E2 as <- _. apply Hc. rewrite E1. set_solver.
    + apply (Hp a k). by rewrite E1.
  - destruct l as [|x l]; simpl in H.
    + destruct pat as [|y pat]; [done|]. injection H as -> _. set_solver.
    + injection H as <- ->. by apply (IH l b).
Qed.

(** ** Numbers *)

Definition isspace (c : byte) : bool :=
  let v := byte_val c in (v =? 32) || ((9 <=? v) && (v <=? 13)).

Definition isdigit (c : byte) : bool :=
  let v := byte_val c in (48 <=? v) && (v <=? 57).

Definition digit_val (c : byte) : Z := byte_val c - 48.

Fixpoint skip_spaces (s : bytes) : bytes :=
  match s with
  | c :: s' => if isspace c then skip_spaces s' else s
  | [] => []
  end.

Fixpoint take_digits (s : bytes) : bytes :=
  match s with
  | c :: s' => if isdigit c then c :: take_digits s' else []
  | [] => []
  end.

Definition digits_val (ds : bytes) : Z := foldl (fun n c => n * 10 + digit_val c) 0 ds.

(** What [strtol]/[strtoull] read in base 10: the sign and the magnitude of
    the longest numeral after leading white space; [None] without a digit. *)
Definition scan_int (s : bytes) : option (bool * Z) :=
  let s1 := skip_spaces s in
  let '(neg, s2) :=
    match s1 with
    | x2d :: r => (true, r)
    | x2b :: r => (false, r)
    | _ => (false, s1)
    end in
  match take_digits s2 with
  | [] => None
  | ds => Some (neg, digits_val ds)
  end.

Definition stoull (s : bytes) : res Z :=
  match scan_int s with
  | None => Throw InvalidArgument
  | Some (neg, v) =>
      if SIZE_MAX <? v then Throw OutOfRange
      else Ok (if neg then (- v) mod 2 ^ 64 else v)
  end.

Definition stoi (s : bytes) : res Z :=
  match scan_int s with
  | None => Throw InvalidArgument
  | Some (neg, v) =>
      let z := if neg then - v else v in
      if (z <? - 2 ^ 31) || (2 ^ 31 - 1 <? z) then Throw OutOfRange else Ok z
  end.

Lemma isdigit_range c : isdigit c = true -> 0 <= digit_val c <= 9.
Proof. unfold isdigit, digit_val. intros. bool_cases. lia. Qed.

Lemma digits_val_nonneg ds : forallb isdigit ds = true -> 0 <= digits_val ds.
Proof.
  unfold digits_val. enough (forall n, 0 <= n -> forallb isdigit ds = true ->
    0 <= foldl (fun n c => n * 10 + digit_val c) n ds) by (intros; eauto with lia).
  induction ds as [|c ds IH]; simpl; intros n Hn H; [done|]. bool_cases.
  apply IH; [|done]. pose proof (isdigit_range c ltac:(done)). lia.
Qed.

Lemma take_digits_all s : forallb isdigit (take_digits s) = true.
Proof. induction s as [|c s IH]; simpl; [done|]. destruct (isdigit c) eqn:E; simpl; by rewrite ?E. Qed.

Lemma scan_int_nonneg s neg v : scan_int s = Some (neg, v) -> 0 <= v.
Proof.
  unfold scan_int. cbv zeta.
  match goal with |- context [let '(_, _) := ?x in _] => destruct x as [ng s2] end.
  destruct (take_digits s2) as [|c ds] eqn:E; [done|]. intros [= _ <-].
  rewrite <- E. apply digits_val_nonneg, take_digits_all.
Qed.

Lemma stoull_range s v : stoull s = Ok v -> 0 <= v <= SIZE_MAX.
Proof.
  unfold stoull. destruct (scan_int s) as [[neg z]|] eqn:E; [|done].
  apply scan_int_nonneg in E. case_match eqn:Hm; [done|]. intros [= <-]. bool_cases.
  destruct neg; [|lia]. unfold SIZE_MAX. pose proof (Z.mod_pos_bound (- z) (2 ^ 64)). lia.
Qed.

(** A short string of digits is read as its value. *)
Lemma digits_val_bound ds :
  forallb isdigit ds = true -> digits_val ds < 10 ^ zlen ds.
Proof.
  unfold digits_val. induction ds as [|c ds IH] using rev_ind; [done|].
  rewrite forallb_app, foldl_app. simpl. intros H. bool_cases.
  specialize (IH ltac:(done)). pose proof (isdigit_range c ltac:(done)).
  rewrite zlen_app. change (zlen [c]) with 1. rewrite Z.pow_add_r by zlens. lia.
Qed.

Lemma isdigit_not_space c : isdigit c = true -> isspace c = false /\ c <> x2d /\ c <> x2b.
Proof.
  unfold isdigit, isspace. intros. bool_cases. split_and!; [|by intros ->..].
  apply orb_false_intro; [lia|]. apply andb_false_intro2. lia.
Qed.

Lemma stoi_digits s :
  s <> [] -> zlen s <= 9 -> forallb isdigit s = true -> stoi s = Ok (digits_val s).
Proof.
  intros Hne Hl Hd. unfold stoi.
  assert (Hs : scan_int s = Some (false, digits_val s)).
  { assert (Ht : take_digits s = s).
    { clear Hl Hne. induction s as [|c s IH]; [done|]. simpl in *. bool_cases.
      match goal with H : isdigit c = true |- _ => rewrite H end. by rewrite IH. }
    unfold scan_int. destruct s as [|c s]; [done|]. simpl in Hd. bool_cases.
    destruct (isdigit_not_space c) as (Hsp & Hm & Hp); [done|].
    cbn [skip_spaces]. rewrite Hsp. destruct c; try done; by rewrite Ht. }
  rewrite Hs. pose proof (digits_val_nonneg s Hd). pose proof (digits_val_bound s Hd).
  assert (10 ^ zlen s <= 10 ^ 9) by (apply Z.pow_le_mono_r; lia).
  rewrite (proj2 (Z.ltb_ge _ (- 2 ^ 31))) by lia. rewrite (proj2 (Z.ltb_ge (2 ^ 31 - 1) _)) by lia.
  done.
Qed.

(** [std::to_string] of a non-negative number. *)
Fixpoint to_digits (fuel : nat) (n : Z) (acc : bytes) : bytes :=
  match fuel with
  | O => acc
  | S fuel' =>
      let acc' := byte_of (48 + n mod 10) :: acc in
      if n <? 10 then acc' else to_digits fuel' (n / 10) acc'
  end.

Definition to_string (n : Z) : bytes :=
  if n <? 0 then x2d :: to_digits 20 (- n) [] else to_digits 20 n [].

(** ** The stream output of the enumerations *)

Definition op_text (op_code : OpCode) : bytes :=
  match op_code with
  | kReadRequest => bs "ReadRequest"
  | kWriteRequest => bs "WriteRequest"
  | kData => bs "Data"
  | kAcknowledge => bs "Acknowledge"
  | kError => bs "Error"
  | kOACK => bs "OACK"
  | OpCodeValue v => bs "Unknown(" ++ to_string v ++ bs ")"
  end.

Definition error_text (error_code : ErrorCode) : bytes :=
  match error_code with
  | kNotDefined => bs "NotDefined"
  | kFileNotFound => bs "FileNotFound"
  | kAccessViolation => bs "AccessViolation"
  | kDiskFull => bs "DiskFull"
  | kIllegalOperation => bs "IllegalOperation"
  | kUnknownTransferId => bs "UnknownTransferId"
  | kFileExists => bs "FileExists"
  | kNoSuchUser => bs "NoSuchUser"
  | ErrorCodeValue v => bs "Unknown(" ++ to_string v ++ bs ")"
  end.

(** [operator==] of the two enumerations. *)
Definition op_eq (lhs rhs : OpCode) : bool := op_value lhs =? op_value rhs.
Definition error_eq (lhs rhs : ErrorCode) : bool := error_value lhs =? error_value rhs.

(** The enumerators are told apart by their text, and by [operator==]. *)
Lemma op_text_known a b :
  1 <= op_value a <= 6 -> 1 <= op_value b <= 6 ->
  op_of_value (op_value a) = a -> op_of_value (op_value b) = b ->
  (op_text a = op_text b <-> a = b) /\ (op_eq a b = true <-> a = b).
Proof.
  intros Ha Hb Ea Eb. split.
  - destruct a, b; simpl in *; try (split; congruence || done); split; try done; intros H.
    all: exfalso; repeat match goal with
      | E : context [op_of_value ?v], _ : 1 <= ?v <= 6 |- _ =>
          assert (v = 1 \/ v = 2 \/ v = 3 \/ v = 4 \/ v = 5 \/ v = 6) as Hv by lia;
          destruct Hv as [-> |[-> |[-> |[-> |[-> | ->]]]]]; discriminate E
      end.
  - unfold op_eq. rewrite Z.eqb_eq. split; [|by intros ->]. intros H. by rewrite <- Ea, <- Eb, H.
Qed.
