(* ===== verification/StdPath.v ===== *)
(** * Paths of [std::filesystem] (POSIX)

    What the source uses of [std::filesystem::path]: joining with [operator/]
    and [lexically_normal] are functions of the text; [absolute],
    [weakly_canonical] and [relative] ask the file system, so they are an
    interface, [FsOps], with the file system's state as an argument. *)

From Stdlib Require Import ZArith Lia Strings.Byte.
From stdpp Require Import base tactics numbers list gmap strings.
From S2P Require Import Prelude StdText.

Definition sep : byte := x2f.
Definition dot : bytes := bs ".".
Definition dotdot : bytes := bs "..".

Definition is_absolute (p : bytes) : bool :=
  match p with b :: _ => bool_decide (b = sep) | [] => false end.

(** [p / q]: an absolute [q] replaces [p]; a separator is put in between when
    [p] ends in a file name. *)
Definition path_append (p q : bytes) : bytes :=
  if is_absolute q then q
  else match last p with
       | Some b => if bool_decide (b = sep) then p ++ q else p ++ sep :: q
       | None => q
       end.

(** ** [lexically_normal]

    The components are processed from left to right on a stack, newest first;
    the flag says whether the result ends in a separator. *)

Definition norm_step (root : bool) (st : list bytes * bool) (c : bytes) : list bytes * bool :=
  let '(stack, _) := st in
  if bool_decide (c = []) then (stack, true)
  else if bool_decide (c = dot) then (stack, true)
  else if bool_decide (c = dotdot) then
    match stack with
    | t :: stack' => if bool_decide (t = dotdot) then (dotdot :: stack, false) else (stack', true)
    | [] => if root then ([], true) else ([dotdot], false)
    end
  else (c :: stack, false).

Definition normal_components (p : bytes) : list bytes * bool :=
  foldl (norm_step (is_absolute p)) ([], false) (split_on sep p).

Definition lexically_normal (p : bytes) : bytes :=
  if bool_decide (p = []) then []
  else
    let '(stack, trailing) := normal_components p in
    let body := join_with sep (reverse stack) in
    match stack with
    | [] => if is_absolute p then [sep] else dot
    | t :: _ =>
        (if is_absolute p then [sep] else []) ++ body
        ++ (if trailing && negb (bool_decide (t = dotdot)) then [sep] else [])
    end.

Example normal_1 : lexically_normal (bs "a/./b/..") = bs "a/".
Proof. reflexivity. Qed.
Example normal_2 : lexically_normal (bs "/srv//tftp/../../etc") = bs "/etc".
Proof. reflexivity. Qed.
Example normal_3 : lexically_normal (bs "../x/") = bs "../x/".
Proof. reflexivity. Qed.
Example normal_4 : lexically_normal (bs "a/..") = bs ".".
Proof. reflexivity. Qed.

(** The stack of an absolute path never holds a dot-dot. *)
Lemma norm_step_absolute st c :
  dotdot ∉ st.1 -> dotdot ∉ (norm_step true st c).1.
Proof.
  destruct st as [stack tr]. unfold norm_step. simpl. intros H.
  repeat case_bool_decide; simpl; try done.
  - destruct stack as [|t stack]; simpl; [apply not_elem_of_nil|].
    apply not_elem_of_cons in H as [Ht H]. by rewrite bool_decide_eq_false_2 by congruence.
  - apply not_elem_of_cons. split; [congruence|done].
Qed.

Lemma normal_components_absolute p :
  is_absolute p = true -> dotdot ∉ (normal_components p).1.
Proof.
  unfold normal_components. intros ->.
  generalize (split_on sep p). intros l.
  induction l as [|c l IH] using rev_ind; [apply not_elem_of_nil|].
  rewrite foldl_app. simpl. by apply norm_step_absolute.
Qed.

(** Every component of the stack is one of the path. *)
Lemma norm_step_subset root st c x :
  x ∈ (norm_step root st c).1 -> x ∈ st.1 \/ x = c.
Proof.
  destruct st as [stack tr]. unfold norm_step.
  repeat case_bool_decide; simpl; auto.
  - destruct stack as [|t stack]; simpl; [destruct root; set_solver|].
    case_bool_decide; set_solver.
  - rewrite elem_of_cons. intuition.
Qed.

Lemma normal_components_subset p x :
  x ∈ (normal_components p).1 -> x ∈ split_on sep p.
Proof.
  unfold normal_components. generalize (split_on sep p). intros l.
  induction l as [|c l IH] using rev_ind; simpl; [done|].
  rewrite foldl_app. simpl. intros [H|H]%norm_step_subset; rewrite elem_of_app.
  - auto.
  - right. set_solver.
Qed.

(** ** The file system's path queries *)

Class FsOps (FS : Type) := {
  fs_absolute : FS -> bytes -> res bytes;
  fs_weakly_canonical : FS -> bytes -> res bytes;
  fs_relative : FS -> bytes -> bytes -> res bytes;
}.
