(* ===== verification/Util.v ===== *)
(** * Path security

    [src/tftp_util.cpp]: [IsPathSecure] and [NormalizePath], in the branch that
    is compiled outside Windows (the other one is in [WinPath]).  Both are functions of the file system's
    state and of its path queries [FsOps]. *)

From Stdlib Require Import ZArith Lia Strings.Byte.
From stdpp Require Import base tactics numbers list gmap strings.
From S2P Require Import Prelude StdText StdPath.

Definition dangerous_patterns : list bytes :=
  map bs ["..";  "..\"; "../"; "\..\"; "/..";
          ".\"; "./"; "\.\"; "/./";
          "~"; "$"; "%";
          "<"; ">"; "|"; "?"; "*"].

(** [str.empty() || str.back() == sep ? str : str + sep]. *)
Definition with_separator (s : bytes) : bytes :=
  match last s with
  | Some b => if bool_decide (b = sep) then s else s ++ [sep]
  | None => s
  end.

Section util.
Context {FS : Type} `{F : FsOps FS}.

(** The body of the [try] block. *)
Definition path_check (fs : FS) (path root_dir : bytes) : res bool :=
  if bool_decide (path = []) || bool_decide (root_dir = []) then Ok false
  else if contains_char x00 path then Ok false
  else if is_absolute path then Ok false
  else if existsb (fun pattern => contains pattern path) dangerous_patterns then Ok false
  else
    root_path ← fs_absolute fs root_dir;
    let target_path := path_append root_path path in
    canonical_root ← fs_weakly_canonical fs root_path;
    canonical_target ← fs_weakly_canonical fs target_path;
    let canonical_root_str := with_separator canonical_root in
    let is_within_root :=
      (zlen canonical_root_str <=? zlen canonical_target)
      && bool_decide (take (length canonical_root_str) canonical_target
                      = canonical_root_str) in
    if negb is_within_root then Ok false
    else
      relative_path ← fs_relative fs canonical_target canonical_root;
      if contains (bs "..") relative_path then Ok false else Ok true.

(** Every exception is caught and reported as insecure. *)
Definition IsPathSecure (fs : FS) (path root_dir : bytes) : bool :=
  match path_check fs path root_dir with
  | Ok b => b
  | Throw _ => false
  end.

Definition NormalizePath (fs : FS) (path : bytes) : bytes :=
  if bool_decide (path = []) then path
  else if contains_char x00 path then []
  else
    match fs_weakly_canonical fs path with
    | Ok normalized => normalized
    | Throw _ => []
    end.

(** What an accepted path passed. *)
Lemma path_check_true fs path root_dir :
  IsPathSecure fs path root_dir = true ->
  path <> [] /\ root_dir <> [] /\ (x00 ∉ path) /\ is_absolute path = false /\
  (forall pat, pat ∈ dangerous_patterns -> contains pat path = false) /\
  exists root_path canonical_root canonical_target rest,
    fs_absolute fs root_dir = Ok root_path /\
    fs_weakly_canonical fs root_path = Ok canonical_root /\
    fs_weakly_canonical fs (path_append root_path path) = Ok canonical_target /\
    canonical_target = with_separator canonical_root ++ rest.
Proof using.
  unfold IsPathSecure, path_check.
  destruct (bool_decide (path = []) || bool_decide (root_dir = [])) eqn:E0; [done|]. bool_cases.
  destruct (contains_char x00 path) eqn:E1; [done|].
  destruct (is_absolute path) eqn:E2; [done|].
  destruct (existsb _ _) eqn:E3; [done|].
  destruct (fs_absolute fs root_dir) as [root_path|] eqn:Ea; simpl; [|done].
  destruct (fs_weakly_canonical fs root_path) as [cr|] eqn:Er; simpl; [|done].
  destruct (fs_weakly_canonical fs (path_append _ _)) as [ct|] eqn:Et; simpl; [|done].
  destruct (negb _) eqn:Ew; [done|]. intros _. bool_cases.
  repeat (split; [done|]). split; [by apply contains_char_false|]. split; [done|]. split.
  - intros pat Hp. destruct (contains pat path) eqn:Ec; [|done].
    assert (existsb (fun p => contains p path) dangerous_patterns = true); [|congruence].
    apply existsb_exists. exists pat. split; [by apply list_elem_of_In|done].
  - exists root_path, cr, ct, (drop (length (with_separator cr)) ct).
    repeat split; [done..|].
    match goal with H : take _ _ = _ |- _ => rewrite <- H at 1 end. by rewrite take_drop.
Qed.
End util.

Lemma with_separator_id s : last s = Some sep -> with_separator s = s.
Proof. unfold with_separator. intros ->. by rewrite bool_decide_eq_true_2. Qed.

(** A root that ends in a separator is joined by concatenation. *)
Lemma path_append_slash root path :
  last root = Some sep -> is_absolute path = false -> path_append root path = root ++ path.
Proof. unfold path_append. intros -> ->. by rewrite bool_decide_eq_true_2. Qed.

(** [std::filesystem::absolute] leaves an absolute path as it is. *)
Class FsLaws (FS : Type) `{F : FsOps FS} := {
  absolute_id : forall fs p, is_absolute p = true -> fs_absolute fs p = Ok p;
}.

(** A file system without symbolic links, on which canonical and lexically
    normal paths agree: an instance to evaluate with. *)
#[export] Instance lexical_fs : FsOps unit := {
  fs_absolute _ p := Ok (if is_absolute p then p else path_append (bs "/work") p);
  fs_weakly_canonical _ p := Ok (lexically_normal p);
  fs_relative _ p base := Ok (drop (length (with_separator base)) p);
}.

#[export] Instance lexical_fs_laws : FsLaws unit.
Proof. constructor. intros fs p H. simpl. by rewrite H. Qed.

Section theorems.
Context {FS : Type} `{F : FsOps FS}.

(** An accepted path is relative and free of NUL bytes, and no component
    of it is a parent reference. *)
Lemma secure_path_no_traversal fs path root_dir :
  IsPathSecure fs path root_dir = true ->
  is_absolute path = false /\ (x00 ∉ path) /\
  (dotdot ∉ split_on sep path) /\ dotdot ∉ split_on x5c path.
Proof using.
  intros (_ & _ & Hn & Ha & Hp & _)%path_check_true.
  assert (Hdd : contains dotdot path = false) by (apply Hp; by left).
  rewrite contains_false in Hdd.
  repeat split; [done..| |];
    intros (a & b & E)%split_on_piece; by destruct (Hdd a b).
Qed.

Context `{L : !FsLaws FS}.

Lemma secure_normalized fs path root_dir :
  is_absolute root_dir = true -> last root_dir = Some sep ->
  x00 ∉ root_dir ->
  IsPathSecure fs path root_dir = true ->
  exists canonical_root rest,
    fs_weakly_canonical fs root_dir = Ok canonical_root /\
    NormalizePath fs (root_dir ++ path) = with_separator canonical_root ++ rest.
Proof using L.
  intros Habs Hlast Hnul (Hne & _ & Hn & Ha & _ & rp & cr & ct & rest & Ea & Er & Et & ->)%path_check_true.
  rewrite absolute_id in Ea by done. injection Ea as <-.
  exists cr, rest. split; [done|]. unfold NormalizePath.
  rewrite path_append_slash in Et by done.
  rewrite bool_decide_eq_false_2 by (by destruct root_dir).
  rewrite (proj2 (contains_char_false x00 _)) by (rewrite elem_of_app; tauto).
  by rewrite Et.
Qed.

End theorems.

Lemma secure_path_no_traversal_witness :
  IsPathSecure tt (bs "images/boot.img") (bs "/srv/tftp/") = true /\
  (is_absolute (bs "images/boot.img") = false /\ (x00 ∉ bs "images/boot.img") /\
   (dotdot ∉ split_on sep (bs "images/boot.img")) /\
   dotdot ∉ split_on x5c (bs "images/boot.img")).
Proof.
  split; [by vm_compute|].
  apply (secure_path_no_traversal tt (bs "images/boot.img") (bs "/srv/tftp/")). by vm_compute.
Defined.

