(* ===== verification/WinPath.v ===== *)
(** * Path security on Windows

    The branch of [IsPathSecure] ([src/tftp_util.cpp]) that is compiled on
    Windows, with what it uses of [std::filesystem::path] there: both slashes
    separate, a path may begin with a root name (a drive or a server), and
    [operator/] keeps or replaces it. *)

From Stdlib Require Import ZArith Lia Strings.Byte.
From stdpp Require Import base tactics numbers list gmap strings.
From S2P Require Import Prelude StdText StdPath Util.

(** ** Paths *)

Definition win_sep : byte := x5c.
Definition is_slash (b : byte) : bool := bool_decide (b = x2f) || bool_decide (b = x5c).
Definition is_letter (b : byte) : bool :=
  let n := Z.of_N (Byte.to_N b) in ((65 <=? n) && (n <=? 90)) || ((97 <=? n) && (n <=? 122)).

Fixpoint until_slash (p : bytes) : bytes :=
  match p with
  | [] => []
  | b :: p' => if is_slash b then [] else b :: until_slash p'
  end.

(** [C:] or [\\server]; empty without a root name. *)
Definition root_name (p : bytes) : bytes :=
  match p with
  | c :: x3a :: _ => if is_letter c then [c; x3a] else []
  | a :: b :: rest =>
      if is_slash a && is_slash b then
        match until_slash rest with [] => [] | name => a :: b :: name end
      else []
  | _ => []
  end.

Definition after_root (p : bytes) : bytes := drop (length (root_name p)) p.
Definition has_root_directory (p : bytes) : bool :=
  match after_root p with b :: _ => is_slash b | [] => false end.
Definition win_is_absolute (p : bytes) : bool :=
  negb (bool_decide (root_name p = [])) && has_root_directory p.
Definition has_filename (p : bytes) : bool :=
  match last (after_root p) with Some b => negb (is_slash b) | None => false end.

(** [p / q]. *)
Definition win_append (p q : bytes) : bytes :=
  if win_is_absolute q
     || (negb (bool_decide (root_name q = [])) && negb (bool_decide (root_name q = root_name p)))
  then q
  else if has_root_directory q then root_name p ++ after_root q
  else p ++ (if has_filename p then [win_sep] else []) ++ after_root q.

Example append_1 : win_append (bs "C:\srv\tftp") (bs "boot\a.img") = bs "C:\srv\tftp\boot\a.img".
Proof. reflexivity. Qed.
Example append_2 : win_append (bs "C:\srv\tftp\") (bs "a.img") = bs "C:\srv\tftp\a.img".
Proof. reflexivity. Qed.
Example append_3 : win_append (bs "C:\srv\tftp") (bs "D:\x") = bs "D:\x".
Proof. reflexivity. Qed.

(** ** The check *)

Definition win_with_separator (s : bytes) : bytes :=
  match last s with
  | Some b => if bool_decide (b = win_sep) then s else s ++ [win_sep]
  | None => s
  end.

(** [path.size() >= 2 && path[1] == ':'] and the test for a server name. *)
Definition win_refused (path : bytes) : bool :=
  ((2 <=? zlen path) && bool_decide (path !! 1%nat = Some x3a))
  || ((3 <=? zlen path)
      && (bool_decide (take 2 path = [x5c; x5c]) || bool_decide (take 2 path = [x2f; x2f]))).

Section check.
Context {FS : Type} `{F : FsOps FS}.

Definition win_path_check (fs : FS) (path root_dir : bytes) : res bool :=
  if bool_decide (path = []) || bool_decide (root_dir = []) then Ok false
  else if contains_char x00 path then Ok false
  else if win_refused path then Ok false
  else if existsb (fun pattern => contains pattern path) dangerous_patterns then Ok false
  else
    root_path ← fs_absolute fs root_dir;
    let target_path := win_append root_path path in
    canonical_root ← fs_weakly_canonical fs root_path;
    canonical_target ← fs_weakly_canonical fs target_path;
    let canonical_root_str := win_with_separator canonical_root in
    let is_within_root :=
      (zlen canonical_root_str <=? zlen canonical_target)
      && bool_decide (take (length canonical_root_str) canonical_target = canonical_root_str) in
    if negb is_within_root then Ok false
    else
      relative_path ← fs_relative fs canonical_target canonical_root;
      if contains (bs "..") relative_path then Ok false else Ok true.

Definition win_IsPathSecure (fs : FS) (path root_dir : bytes) : bool :=
  match win_path_check fs path root_dir with Ok b => b | Throw _ => false end.
End check.

Section facts.
Context {FS : Type} `{F : FsOps FS}.

(** C37: the path check on Windows: an accepted path names no drive and, with two equal
    slashes at its beginning, no server, has no NUL byte and no parent reference,
    with either separator, and leads below the canonical root directory. *)
Theorem win_secure_path fs path root_dir :
  win_IsPathSecure fs path root_dir = true ->
  path !! 1%nat <> Some x3a /\
  (3 <= zlen path -> take 2 path <> [x5c; x5c] /\ take 2 path <> [x2f; x2f]) /\ (x00 ∉ path) /\
  (dotdot ∉ split_on x2f path) /\ (dotdot ∉ split_on x5c path) /\
  exists root_path canonical_root rest,
    fs_absolute fs root_dir = Ok root_path /\
    fs_weakly_canonical fs root_path = Ok canonical_root /\
    fs_weakly_canonical fs (win_append root_path path) = Ok (win_with_separator canonical_root ++ rest).
Proof using.
  unfold win_IsPathSecure, win_path_check.
  destruct (bool_decide (path = []) || bool_decide (root_dir = [])) eqn:E0; [done|].
  destruct (contains_char x00 path) eqn:E1; [done|].
  destruct (win_refused path) eqn:E2; [done|].
  destruct (existsb _ _) eqn:E3; [done|].
  destruct (fs_absolute fs root_dir) as [rp|]; simpl; [|done].
  destruct (fs_weakly_canonical fs rp) as [cr|] eqn:Er; simpl; [|done].
  destruct (fs_weakly_canonical fs (win_append _ _)) as [ct|] eqn:Et; simpl; [|done].
  destruct (negb _) eqn:Ew; [done|]. intros _. apply negb_false_iff, andb_true_iff in Ew as [_ Ew].
  apply bool_decide_eq_true_1 in Ew.
  assert (Hdd : contains dotdot path = false).
  { destruct (contains dotdot path) eqn:Ec; [|done].
    assert (existsb (fun p => contains p path) dangerous_patterns = true); [|congruence].
    apply existsb_exists. exists dotdot. split; [by left|done]. }
  rewrite contains_false in Hdd. split_and!.
  - intros H. unfold win_refused in E2. apply orb_false_iff in E2 as [E2 _].
    rewrite (bool_decide_eq_true_2 _ H), andb_true_r in E2. apply lookup_lt_Some in H.
    unfold zlen in E2. lia.
  - intros H3. unfold win_refused in E2. apply orb_false_iff in E2 as [_ E2].
    rewrite (proj2 (Z.leb_le _ _) H3) in E2. simpl in E2. by bool_cases.
  - by apply contains_char_false.
  - intros (a & b & E)%split_on_piece. by destruct (Hdd a b).
  - intros (a & b & E)%split_on_piece. by destruct (Hdd a b).
  - exists rp, cr, (drop (length (win_with_separator cr)) ct). split_and!; [done..|].
    rewrite Et. f_equal. rewrite <- Ew at 1. by rewrite take_drop.
Qed.
End facts.

(** The test for a server name looks for two equal slashes only.  A name that
    begins with two different ones is not refused by it or by the patterns, and
    [operator/] replaces the root directory by it: the file system is asked for
    a path on a host of the client's choice before the path is refused. *)
Lemma win_server_name_passes :
  let path := bs "\/host/share/x" in
  win_refused path = false /\
  forallb (fun pattern => negb (contains pattern path)) dangerous_patterns = true /\
  root_name path = bs "\/host" /\ win_append (bs "C:\srv\tftp\") path = path.
Proof. by vm_compute. Qed.


(** ** Witness *)

(** A file system whose paths are canonical as they are. *)
#[local] Instance plain_paths : FsOps unit := {
  fs_absolute _ p := Ok p;
  fs_weakly_canonical _ p := Ok p;
  fs_relative _ p base := Ok (drop (length base) p);
}.

Lemma win_secure_path_witness :
  win_IsPathSecure tt (bs "images\boot.img") (bs "C:\srv\tftp") = true /\
  exists root_path canonical_root rest,
    fs_absolute tt (bs "C:\srv\tftp") = Ok root_path /\
    fs_weakly_canonical tt root_path = Ok canonical_root /\
    fs_weakly_canonical tt (win_append root_path (bs "images\boot.img")) =
      Ok (win_with_separator canonical_root ++ rest).
Proof.
  split; [vm_compute; reflexivity|].
  apply (win_secure_path tt (bs "images\boot.img") (bs "C:\srv\tftp")). vm_compute. reflexivity.
Defined.
