(* ===== verification/Validation.v ===== *)
(** * Input validation

    [src/tftp_validation.cpp] and [include/tftp/tftp_validation.h]: the checks
    the server and the client run on their configuration.  The logging the
    checks do is left out; nothing else depends on it. *)

From Stdlib Require Import ZArith Lia Strings.Byte.
From stdpp Require Import base tactics numbers list gmap strings.
From S2P Require Import Prelude Common StdText StdPath.

Definition kMinTimeout : Z := 1.
Definition kMaxTimeout : Z := 3600.
Definition kMinTransferSize : Z := 512.
Definition kMaxTransferSize : Z := 1024 * 1024 * 1024.
Definition kMaxPathLength : Z := 4096.
Definition kMaxHostnameLength : Z := 253.

(** ** Configuration values *)

(** Relative paths only log a warning. *)
Definition ValidateRootDirectory (root_dir : bytes) : bool :=
  if bool_decide (root_dir = []) then false
  else if kMaxPathLength <? zlen root_dir then false
  else if contains_char x00 root_dir then false
  else
    let normalized := lexically_normal root_dir in
    if contains (bs "..") normalized then false else true.

(** Privileged ports only log a warning. *)
Definition ValidatePort (port : Z) : bool := if port =? 0 then false else true.

Definition ValidateTimeout (timeout_seconds : Z) : bool :=
  if timeout_seconds <? kMinTimeout then false
  else if kMaxTimeout <? timeout_seconds then false
  else true.

Definition ValidateTransferSize (size : Z) : bool :=
  if size <? kMinTransferSize then false
  else if kMaxTransferSize <? size then false
  else true.

(** [std::function]'s conversion to [bool]: a callback may be empty. *)
Definition ValidateCallback {A} (callback : option A) : bool :=
  match callback with Some _ => true | None => false end.

(** ** Hosts *)

Definition char_dot : byte := x2e.

(** The regular expression [^(\d{1,3}\.){3}\d{1,3}$]. *)
Definition ipv4_pattern (host : bytes) : bool :=
  let octets := split_on char_dot host in
  (zlen octets =? 4)
  && forallb (fun o => (1 <=? zlen o) && (zlen o <=? 3) && forallb isdigit o) octets.

Definition isalnum_ascii (c : byte) : bool :=
  let v := byte_val c in
  isdigit c || ((97 <=? v) && (v <=? 122)) || ((65 <=? v) && (v <=? 90)).

(** One label, [[a-zA-Z0-9]([a-zA-Z0-9\-]{0,61}[a-zA-Z0-9])?]. *)
Definition hostname_label (l : bytes) : bool :=
  match l with
  | [] => false
  | c :: r =>
      isalnum_ascii c
      && match last r with
         | None => true
         | Some e => isalnum_ascii e && (zlen r <=? 62)
                     && forallb (fun x => isalnum_ascii x || bool_decide (x = x2d)) r
         end
  end.

Definition hostname_pattern (host : bytes) : bool := forallb hostname_label (split_on char_dot host).

(** The [getline] loop over the octets; an exception of [stoi] is caught by the
    surrounding handler, which answers [false]. *)
Fixpoint octets_valid (octets : list bytes) : bool :=
  match octets with
  | [] => true
  | octet :: rest =>
      match stoi octet with
      | Throw _ => false
      | Ok val => if (val <? 0) || (255 <? val) then false else octets_valid rest
      end
  end.

Definition ValidateHost (host : bytes) : bool :=
  if bool_decide (host = []) then false
  else if kMaxHostnameLength <? zlen host then false
  else if contains_char x00 host then false
  else if ipv4_pattern host then octets_valid (split_on char_dot host)
  else if hostname_pattern host then true
  else true.

(** ** File names and data *)

(** [std::iscntrl] in the C locale. *)
Definition iscntrl (c : byte) : bool := let v := byte_val c in (v <? 32) || (v =? 127).

Definition ValidateFilename (filename : bytes) : bool :=
  match filename with
  | [] => false
  | c0 :: rest =>
      if kMaxFilenameLength <? zlen filename then false
      else if contains_char x00 filename then false
      else if contains (bs "..") filename then false
      else if bool_decide (c0 = x2f) || bool_decide (c0 = x5c) then false
      else if match rest with c1 :: _ => bool_decide (c1 = x3a) | [] => false end then false
      else if existsb iscntrl filename then false
      else true
  end.

Definition ValidateTransferMode (mode : TransferMode) : bool :=
  match mode with kNetAscii | kOctet | kMail => true | TransferModeValue _ => false end.

Definition ValidateString (str : bytes) (max_length : Z) : bool :=
  if max_length <? zlen str then false
  else if contains_char x00 str then false
  else true.

Definition ValidateDataBuffer (data : bytes) (max_size : Z) : bool :=
  if max_size <? zlen data then false else true.

(** ** Ranges *)

Lemma ValidateTimeout_range n : ValidateTimeout n = true <-> kMinTimeout <= n <= kMaxTimeout.
Proof.
  unfold ValidateTimeout. destruct (n <? kMinTimeout) eqn:E1; bool_cases; [split; [done|lia]|].
  destruct (kMaxTimeout <? n) eqn:E2; bool_cases; (split; [done || (intros; lia)|]); try done. lia.
Qed.

Lemma ValidateTransferSize_range n :
  ValidateTransferSize n = true <-> kMinTransferSize <= n <= kMaxTransferSize.
Proof.
  unfold ValidateTransferSize.
  destruct (n <? kMinTransferSize) eqn:E1; bool_cases; [split; [done|lia]|].
  destruct (kMaxTransferSize <? n) eqn:E2; bool_cases; (split; [done || (intros; lia)|]); try done. lia.
Qed.

(** ** Hosts: which addresses are refused *)

Lemma octets_valid_iff os :
  Forall (fun o => o <> [] /\ zlen o <= 3 /\ forallb isdigit o = true) os ->
  octets_valid os = true <-> Forall (fun o => digits_val o <= 255) os.
Proof.
  induction 1 as [|o os (Hne & Hl & Hd) _ IH]; simpl; [done|].
  rewrite stoi_digits by (done || lia). rewrite Forall_cons, <- IH.
  pose proof (digits_val_nonneg o Hd). rewrite (proj2 (Z.ltb_ge _ 0)) by done. simpl.
  destruct (255 <? digits_val o) eqn:E; bool_cases; [|tauto]. split; [done|lia].
Qed.

Lemma ipv4_pattern_octets host :
  ipv4_pattern host = true ->
  Forall (fun o => o <> [] /\ zlen o <= 3 /\ forallb isdigit o = true) (split_on char_dot host).
Proof.
  unfold ipv4_pattern. intros [_ H]%andb_prop. apply Forall_forall. intros o Ho.
  rewrite forallb_forall in H. specialize (H o (proj1 (list_elem_of_In _ _) Ho)). bool_cases.
  split_and!; try done. intros ->. done.
Qed.

(** A host is refused only when it is empty, too long, contains a NUL byte or
    is a dotted quad with an octet above 255; no octet of a dotted quad makes
    the conversion fail.  Everything else is accepted. *)
Lemma validate_host_exact host :
  ValidateHost host = true <->
  host <> [] /\ zlen host <= kMaxHostnameLength /\ (x00 ∉ host) /\
  (ipv4_pattern host = true -> Forall (fun o => digits_val o <= 255) (split_on char_dot host)).
Proof.
  unfold ValidateHost. case_bool_decide; [split; [done|by intros (? & _)]|].
  destruct (_ <? _) eqn:E1; bool_cases; [split; [done|intros (_ & ? & _); lia]|].
  rewrite <- contains_char_false.
  destruct (contains_char x00 host); [split; [done|by intros (_ & _ & ? & _)]|].
  destruct (ipv4_pattern host) eqn:E2.
  - rewrite octets_valid_iff by (by apply ipv4_pattern_octets). naive_solver.
  - destruct (hostname_pattern host); naive_solver.
Qed.

(** ** File names: where they lead *)

(** Components that are no parent references only add to the path. *)
Lemma norm_steps_extend root st cs :
  dotdot ∉ cs -> exists pre, (foldl (norm_step root) st cs).1 = pre ++ st.1.
Proof.
  revert st. induction cs as [|c cs IH]; intros st H; [by exists []|].
  apply not_elem_of_cons in H as [Hc H]. simpl.
  destruct (IH (norm_step root st c) H) as [pre ->].
  destruct st as [stack tr]. unfold norm_step.
  repeat case_bool_decide; simpl; try congruence; [by exists pre..|].
  exists (pre ++ [c]). by rewrite <- app_assoc.
Qed.

Lemma validated_filename_parts f :
  ValidateFilename f = true ->
  f <> [] /\ is_absolute f = false /\ (x00 ∉ f) /\ zlen f <= kMaxFilenameLength /\
  dotdot ∉ split_on sep f.
Proof.
  unfold ValidateFilename. destruct f as [|c0 f]; [done|].
  destruct (_ <? _) eqn:E1; [done|]. destruct (contains_char x00 _) eqn:E2; [done|].
  destruct (contains (bs "..") _) eqn:E3; [done|].
  destruct (bool_decide (c0 = x2f) || _) eqn:E4; [done|]. intros _. bool_cases.
  split_and!; [done|..|done|].
  - simpl. by apply bool_decide_eq_false_2.
  - by apply contains_char_false.
  - intros (a & b & E)%split_on_piece. rewrite contains_false in E3. by destruct (E3 a b).
Qed.

(** A file name the client accepts stays below any root directory: the
    normal form of root and name has the components of the root, followed by
    components of the name. *)
Lemma validated_filename_confined root f :
  is_absolute root = true -> ValidateFilename f = true ->
  exists below,
    (normal_components (root ++ sep :: f)).1 = below ++ (normal_components root).1 /\
    forall c, c ∈ below -> c ∈ split_on sep f.
Proof.
  intros Hroot Hf. apply validated_filename_parts in Hf as (Hne & Ha & _ & _ & Hdd).
  unfold normal_components.
  replace (is_absolute (root ++ sep :: f)) with (is_absolute root) by (by destruct root).
  rewrite split_on_app, foldl_app, Hroot.
  set (st := foldl (norm_step true) ([], false) (split_on sep root)). clearbody st.
  revert Hdd. generalize (split_on sep f). intros cs. revert st.
  induction cs as [|c cs IH] using rev_ind; intros st Hdd; [by exists []|].
  rewrite foldl_app. simpl. rewrite not_elem_of_app in Hdd. destruct Hdd as [Hdd Hc].
  destruct (IH st Hdd) as (below & E & Hb). destruct (foldl _ st cs) as [stack tr].
  simpl in E. subst stack. unfold norm_step.
  repeat case_bool_decide; simpl; [exists below; split; [done|set_solver]..| |].
  - set_solver.
  - exists (c :: below). split; [done|]. set_solver.
Qed.

(** ** Root directories *)

Lemma join_snoc_nil c ps : ps <> [] -> join_with c (ps ++ [[]]) = join_with c ps ++ [c].
Proof.
  induction ps as [|p ps IH]; intros H; [done|]. destruct ps as [|q ps]; [done|].
  change (join_with c (p :: q :: ps)) with (p ++ c :: join_with c (q :: ps)).
  change (join_with c ((p :: q :: ps) ++ [[]])) with (p ++ c :: join_with c ((q :: ps) ++ [[]])).
  rewrite IH by done. by rewrite <- app_assoc.
Qed.

(** The normal form of an absolute path, as its components. *)
Lemma lexically_normal_absolute p :
  is_absolute p = true -> exists tail, (tail = [] \/ tail = [[]]) /\
    lexically_normal p = join_with sep ([] :: reverse (normal_components p).1 ++ tail).
Proof.
  intros Habs. unfold lexically_normal. rewrite bool_decide_eq_false_2 by (by destruct p).
  rewrite Habs. destruct (normal_components p) as [stack trailing]. simpl.
  destruct stack as [|t stack]; [by exists [[]]; auto|].
  set (ps := reverse (t :: stack)).
  assert (Hps : ps <> []) by (subst ps; rewrite reverse_cons; by destruct (reverse stack)).
  destruct (trailing && _).
  - exists [[]]. split; [auto|]. rewrite <- join_snoc_nil by done.
    destruct (ps ++ [[]]) eqn:E; [|done]. by destruct ps.
  - exists []. split; [auto|]. rewrite !app_nil_r. by destruct ps.
Qed.

(** The check for traversal in an absolute root directory looks at the
    normalised path, from which parent references have been removed: such
    references are accepted, wherever they lead. *)
Lemma root_traversal_accepted root :
  is_absolute root = true -> zlen root <= kMaxPathLength -> x00 ∉ root ->
  (forall c, c ∈ split_on sep root -> c <> dotdot -> contains dotdot c = false) ->
  ValidateRootDirectory root = true.
Proof.
  intros Habs Hlen Hnul Hc. unfold ValidateRootDirectory.
  rewrite bool_decide_eq_false_2 by (by destruct root).
  rewrite (proj2 (Z.ltb_ge _ _)) by done. rewrite (proj2 (contains_char_false _ _)) by done.
  cbv zeta. destruct (lexically_normal_absolute root Habs) as (tail & Htail & ->).
  rewrite contains_join; [done|done|by apply (bool_decide_unpack _)|].
  constructor; [done|]. apply Forall_app. split; [|by destruct Htail as [-> | ->]; repeat constructor].
  apply Forall_forall. intros c H. rewrite elem_of_reverse in H. apply Hc.
  - by apply normal_components_subset.
  - intros ->. by apply (normal_components_absolute root).
Qed.

Lemma validated_filename_confined_witness :
  exists below,
    (normal_components (bs "/srv/tftp" ++ sep :: bs "img/./boot")).1
    = below ++ (normal_components (bs "/srv/tftp")).1 /\
    forall c, c ∈ below -> c ∈ split_on sep (bs "img/./boot").
Proof. apply (validated_filename_confined (bs "/srv/tftp") (bs "img/./boot")); by vm_compute. Defined.

Lemma root_traversal_accepted_witness : ValidateRootDirectory (bs "/srv/tftp/../../etc") = true.
Proof.
  apply (root_traversal_accepted (bs "/srv/tftp/../../etc"));
    [by vm_compute|by vm_compute|by apply (bool_decide_unpack _)|].
  intros c Hc Hne. change (split_on sep _) with [[]; bs "srv"; bs "tftp"; dotdot; dotdot; bs "etc"] in Hc.
  repeat (apply elem_of_cons in Hc as [-> |Hc]; [try done|]). by apply elem_of_nil in Hc.
Defined.
