(* ===== verification/Logger.v ===== *)
(** * The logger

    [include/tftp/tftp_logger.h] and [src/tftp_logger.cpp]: the level of a build
    and its macros, [TftpLogger] with its file, and the text of a line.  The
    clock, [localtime] and whether a file can be opened are arguments.  What is
    written is kept as the list of the strings put to a file or to [cerr]. *)

From Stdlib Require Import ZArith Lia Strings.Byte.
From stdpp Require Import base tactics numbers list gmap strings.
From S2P Require Import Prelude StdText.

(** ** Levels *)

(** [enum LogLevel]. *)
Definition kLogTrace : Z := 0.
Definition kLogDebug : Z := 1.
Definition kLogInfo : Z := 2.
Definition kLogWarn : Z := 3.
Definition kLogError : Z := 4.
Definition kLogCritical : Z := 5.

(** How a level is written in the source: by its enumerator, or as a number. *)
Inductive pp_level :=
  | Enumerator (v : Z)
  | Literal (v : Z).

(** The macros a build defines. *)
Record build := Build {
  user_level : option pp_level;    (* [TFTP_LOG_LEVEL] *)
  minimal_logging : bool;          (* [TFTP_MINIMAL_LOGGING] *)
  production : bool;               (* [NDEBUG] or [TFTP_PRODUCTION_BUILD] *)
  debug : bool;                    (* [_DEBUG] or [DEBUG] *)
}.

Definition TFTP_LOG_LEVEL (b : build) : pp_level :=
  match user_level b with
  | Some l => l
  | None =>
      if minimal_logging b then Enumerator kLogError
      else if production b then Enumerator kLogWarn
      else if debug b then Enumerator kLogDebug
      else Enumerator kLogInfo
  end.

(** In [#if] an identifier that is no macro counts as 0; in the program it is
    the enumerator. *)
Definition in_directive (l : pp_level) : Z := match l with Enumerator _ => 0 | Literal v => v end.
Definition in_program (l : pp_level) : Z := match l with Enumerator v | Literal v => v end.

Definition TFTP_LOG_ENABLED (value : pp_level -> Z) (b : build) (level : pp_level) : bool :=
  value (TFTP_LOG_LEVEL b) <=? value level.

(** ** Lines *)

(** The broken-down time of [localtime]. *)
Record tm := Tm {
  tm_year : Z; tm_mon : Z; tm_mday : Z; tm_hour : Z; tm_min : Z; tm_sec : Z;
}.

(** Output with [setfill('0')] and [setw(w)]. *)
Definition pad (w : nat) (s : bytes) : bytes := replicate (w - length s) x30 ++ s.

(** [put_time(&t, "%Y-%m-%d %H:%M:%S")]. *)
Definition put_time (t : tm) : bytes :=
  to_string (tm_year t + 1900) ++ bs "-" ++ pad 2 (to_string (tm_mon t + 1)) ++ bs "-" ++
  pad 2 (to_string (tm_mday t)) ++ bs " " ++ pad 2 (to_string (tm_hour t)) ++ bs ":" ++
  pad 2 (to_string (tm_min t)) ++ bs ":" ++ pad 2 (to_string (tm_sec t)).

Definition level_str (level : Z) : bytes :=
  if level =? kLogTrace then bs "TRACE"
  else if level =? kLogDebug then bs "DEBUG"
  else if level =? kLogInfo then bs "INFO"
  else if level =? kLogWarn then bs "WARN"
  else if level =? kLogError then bs "ERROR"
  else if level =? kLogCritical then bs "CRITICAL"
  else bs "UNKNOWN".

Section logger.
(** The C library's time zone. *)
Context (localtime : Z -> tm).

(** The time as it is printed; [now] is in nanoseconds since the epoch. *)
Definition stamp (now : Z) : bytes :=
  let time := Z.quot now 1000000000 in
  let ms := Z.rem (Z.quot now 1000000) 1000 in
  put_time (localtime time) ++ bs "." ++ pad 3 (to_string ms).

Definition log_line (now level : Z) (message : bytes) : bytes :=
  stamp now ++ bs " [" ++ level_str level ++ bs "] " ++ message ++ [x0a].

(** ** The logger *)

Inductive dest := ToFile (name : bytes) | ToCerr.

Record TftpLogger := Logger {
  log_level_ : Z;
  log_file_ : option bytes;          (* the open file *)
  log_out : list (dest * bytes);     (* what was written, oldest first *)
}.

(** The singleton of a build before its first use. *)
Definition GetInstance (b : build) : TftpLogger := Logger (in_program (TFTP_LOG_LEVEL b)) None [].

(** [opens] tells whether the file can be opened for appending. *)
Definition SetLogFile (filename : bytes) (opens : bool) (s : TftpLogger) : TftpLogger :=
  Logger (log_level_ s) (if opens then Some filename else None) (log_out s).

Definition SetLogLevel (level : Z) (s : TftpLogger) : TftpLogger :=
  Logger level (log_file_ s) (log_out s).

(** The destructor closes the file. *)
Definition destroy_logger (s : TftpLogger) : TftpLogger := Logger (log_level_ s) None (log_out s).

Definition ShouldLog (level : Z) (s : TftpLogger) : bool := log_level_ s <=? level.
Definition GetLogLevel (s : TftpLogger) : Z := log_level_ s.

Definition Log (now level : Z) (message : bytes) (s : TftpLogger) : TftpLogger :=
  if level <? log_level_ s then s
  else
    let line := log_line now level message in
    Logger (log_level_ s) (log_file_ s)
      (log_out s ++
       [match log_file_ s with Some f => (ToFile f, line) | None => (ToCerr, line) end]).

(** A [char buffer[1024]] that [snprintf] has filled with [text], as the
    [std::string] made of it. *)
Fixpoint c_str (s : bytes) : bytes :=
  match s with
  | [] => []
  | c :: s' => if bool_decide (c = x00) then [] else c :: c_str s'
  end.
Definition buffer (text : bytes) : bytes := c_str (take 1023 text).

(** [text] is what the format and the arguments print. *)
Definition LogFormat (now level : Z) (text : bytes) (s : TftpLogger) : TftpLogger :=
  if log_level_ s <=? level then Log now level (buffer text) s else s.

(** The strings given to [OutputDebugStringA] on Windows by [LogFormat] and by
    [OutputDebugLog]. *)
Definition LogFormat_debug (level : Z) (text : bytes) (s : TftpLogger) : list bytes :=
  if log_level_ s <=? level then
    let name := if (kLogTrace <=? level) && (level <=? kLogCritical) then level_str level
                else bs "INFO" in
    [buffer (bs "[" ++ name ++ bs "] " ++ buffer text ++ [x0a])]
  else [].

Definition OutputDebugLog (level text : bytes) : list bytes :=
  let buf := buffer (bs "[SERVER " ++ level ++ bs "] ") in
  [buf ++ c_str (take (1023 - length buf) text); [x0a]].

(** The macros [TFTP_TRACE] to [TFTP_CRITICAL], by their level, and the two
    with a condition. *)
Definition TFTP_macro (b : build) (level now : Z) (text : bytes) (s : TftpLogger) : TftpLogger :=
  if TFTP_LOG_ENABLED in_directive b (Enumerator level) then LogFormat now level text s else s.

Definition TFTP_LOG_IF (b : build) (level : pp_level) (condition : bool) (now : Z) (text : bytes)
    (s : TftpLogger) : TftpLogger :=
  if TFTP_LOG_ENABLED in_program b level && condition
  then LogFormat now (in_program level) text s else s.

Definition TFTP_LOG_RUNTIME (level now : Z) (text : bytes) (s : TftpLogger) : TftpLogger :=
  if ShouldLog level s then LogFormat now level text s else s.

(** ** Sequences of calls

    [mutex_] makes the writes of concurrent calls one after the other, so a
    sequence is all there is to consider. *)

Inductive log_op :=
  | OpSetLogFile (filename : bytes) (opens : bool)
  | OpSetLogLevel (level : Z)
  | OpLog (now level : Z) (message : bytes)
  | OpLogFormat (now level : Z) (text : bytes).

Definition do_log (o : log_op) (s : TftpLogger) : TftpLogger :=
  match o with
  | OpSetLogFile f ok => SetLogFile f ok s
  | OpSetLogLevel n => SetLogLevel n s
  | OpLog now level m => Log now level m s
  | OpLogFormat now level t => LogFormat now level t s
  end.

Definition do_logs (os : list log_op) (s : TftpLogger) : TftpLogger := foldl (fun s o => do_log o s) s os.

(** ** Reading a log back *)

(** An entry: the time, the level and the message. *)
Definition entry : Type := bytes * bytes * bytes.

(** The part before the first [c], and the part after it. *)
Fixpoint break_at (c : byte) (s : bytes) : option (bytes * bytes) :=
  match s with
  | [] => None
  | b :: s' =>
      if bool_decide (b = c) then Some ([], s')
      else match break_at c s' with Some (x, y) => Some (b :: x, y) | None => None end
  end.

Definition parse_line (l : bytes) : option entry :=
  match break_at x5b l with
  | Some (time, rest) =>
      match break_at x5d rest with
      | Some (level, x20 :: message) => Some (time, level, message)
      | _ => None
      end
  | None => None
  end.

(** The lines of a text that ends in a newline. *)
Definition text_lines (text : bytes) : list bytes :=
  let ls := split_on x0a text in take (length ls - 1) ls.
Definition parse_log (text : bytes) : list (option entry) := map parse_line (text_lines text).

(** What was appended to the file [f]. *)
Definition file_text (f : bytes) (out : list (dest * bytes)) : bytes :=
  concat (map (fun o => match o.1 with
                        | ToFile g => if bool_decide (g = f) then o.2 else []
                        | ToCerr => []
                        end) out).

(** What the calls say should be in it: the messages whose level is at least
    the one set, while [f] is the file that is open. *)
Fixpoint entries (f : bytes) (level : Z) (file : option bytes) (os : list log_op) : list entry :=
  match os with
  | [] => []
  | OpSetLogFile g ok :: os' => entries f level (if ok then Some g else None) os'
  | OpSetLogLevel n :: os' => entries f n file os'
  | OpLog now l m :: os' =>
      (if (level <=? l) && bool_decide (file = Some f)
       then [(stamp now ++ [x20], level_str l, m)] else []) ++ entries f level file os'
  | OpLogFormat now l t :: os' =>
      (if (level <=? l) && bool_decide (file = Some f)
       then [(stamp now ++ [x20], level_str l, buffer t)] else []) ++ entries f level file os'
  end.

(** The message of a call has no line break. *)
Definition one_line (o : log_op) : Prop :=
  match o with OpLog _ _ m => x0a ∉ m | OpLogFormat _ _ t => x0a ∉ t | _ => True end.

Definition entry_line (e : entry) : bytes := let '(t, l, m) := e in t ++ [x5b] ++ l ++ [x5d; x20] ++ m.

Lemma file_text_app f o1 o2 : file_text f (o1 ++ o2) = file_text f o1 ++ file_text f o2.
Proof using. unfold file_text. by rewrite map_app, concat_app. Qed.

Lemma log_line_entry now l m :
  log_line now l m = entry_line (stamp now ++ [x20], level_str l, m) ++ [x0a].
Proof using. unfold log_line, entry_line. rewrite <- !app_assoc. done. Qed.

(** A message that is not below the level goes to the open file, and no other. *)
Lemma Log_text f now l m s :
  file_text f (log_out (Log now l m s)) =
  file_text f (log_out s) ++
  (if (log_level_ s <=? l) && bool_decide (log_file_ s = Some f) then log_line now l m else []) /\
  log_level_ (Log now l m s) = log_level_ s /\ log_file_ (Log now l m s) = log_file_ s.
Proof using.
  unfold Log. rewrite Z.ltb_antisym. destruct (log_level_ s <=? l); simpl; [|by rewrite app_nil_r].
  split; [|done]. rewrite file_text_app. f_equal. unfold file_text. simpl. rewrite app_nil_r.
  destruct (log_file_ s) as [g|]; simpl; [|done].
  destruct (decide (g = f)) as [-> |Hne]; [by rewrite !bool_decide_eq_true_2|].
  rewrite !bool_decide_eq_false_2; congruence.
Qed.

Lemma LogFormat_Log now l t s : LogFormat now l t s = Log now l (buffer t) s.
Proof using.
  unfold LogFormat, Log. rewrite Z.ltb_antisym. by destruct (log_level_ s <=? l).
Qed.

Lemma do_logs_text f os s :
  file_text f (log_out (do_logs os s)) =
  file_text f (log_out s) ++
  concat (map (fun e => entry_line e ++ [x0a]) (entries f (log_level_ s) (log_file_ s) os)).
Proof using.
  assert (Hlog : forall now l m s os, (forall s, file_text f (log_out (do_logs os s)) =
      file_text f (log_out s) ++
      concat (map (fun e => entry_line e ++ [x0a]) (entries f (log_level_ s) (log_file_ s) os))) ->
    file_text f (log_out (do_logs os (Log now l m s))) =
    file_text f (log_out s) ++
    concat (map (fun e => entry_line e ++ [x0a])
      ((if (log_level_ s <=? l) && bool_decide (log_file_ s = Some f)
        then [(stamp now ++ [x20], level_str l, m)] else [])
       ++ entries f (log_level_ s) (log_file_ s) os))).
  { intros now l m s1 os1 IH. rewrite IH. destruct (Log_text f now l m s1) as (-> & -> & ->).
    rewrite map_app, concat_app, app_assoc. f_equal. f_equal.
    destruct (_ && _); [|done]. cbn [map concat]. by rewrite app_nil_r, log_line_entry. }
  revert s. induction os as [|o os IH]; intros s; [by rewrite app_nil_r|].
  destruct o as [g ok|n|now l m|now l t]; cbn [do_logs foldl do_log entries].
  - exact (IH (SetLogFile g ok s)).
  - exact (IH (SetLogLevel n s)).
  - by apply Hlog.
  - rewrite LogFormat_Log. by apply Hlog.
Qed.

(** ** The characters of a line *)

(** Neither a bracket nor a line break. *)
Definition plain (s : bytes) : Prop := Forall (fun c => c <> x5b /\ c <> x5d /\ c <> x0a) s.

Lemma plain_check s :
  forallb (fun c => negb (bool_decide (c = x5b)) && negb (bool_decide (c = x5d))
                    && negb (bool_decide (c = x0a))) s = true -> plain s.
Proof using.
  intros H. apply Forall_forall. intros c Hc. rewrite forallb_forall in H.
  specialize (H c ltac:(by apply list_elem_of_In)). bool_cases. done.
Qed.

Lemma plain_digits fuel n acc : plain acc -> plain (to_digits fuel n acc).
Proof using.
  revert n acc. induction fuel as [|fuel IH]; intros n acc Ha; simpl; [done|].
  assert (Hd : plain (byte_of (48 + n mod 10) :: acc)).
  { constructor; [|done]. pose proof (Z.mod_pos_bound n 10).
    assert (Hv : byte_val (byte_of (48 + n mod 10)) = 48 + n mod 10).
    { rewrite byte_val_of. apply Z.mod_small. lia. }
    split_and!; intros E; rewrite E in Hv; change (byte_val x5b) with 91 in Hv;
      change (byte_val x5d) with 93 in Hv; change (byte_val x0a) with 10 in Hv; lia. }
  destruct (n <? 10); [done|by apply IH].
Qed.

Lemma plain_to_string n : plain (to_string n).
Proof using.
  unfold to_string. destruct (n <? 0); [constructor; [done|]|]; apply plain_digits; constructor.
Qed.

Lemma plain_pad w s : plain s -> plain (pad w s).
Proof using. intros H. apply Forall_app. split; [by apply Forall_replicate|done]. Qed.

Lemma plain_stamp now : plain (stamp now).
Proof using.
  unfold plain, stamp, put_time. rewrite !Forall_app.
  split_and!; (apply plain_to_string || apply plain_pad, plain_to_string || by apply plain_check).
Qed.

Lemma plain_level l : plain (level_str l).
Proof using. unfold level_str. repeat destruct (_ =? _); by apply plain_check. Qed.

Lemma plain_not_in c s : plain s -> c = x5b \/ c = x5d \/ c = x0a -> c ∉ s.
Proof using.
  intros H Hc Hin. unfold plain in H. rewrite Forall_forall in H.
  apply H in Hin as (? & ? & ?). destruct Hc as [?|[?|?]]; congruence.
Qed.

Lemma break_at_app c s r : c ∉ s -> break_at c (s ++ c :: r) = Some (s, r).
Proof using.
  induction s as [|b s IH]; simpl; intros H; [by rewrite bool_decide_eq_true_2|].
  rewrite bool_decide_eq_false_2 by (intros ->; apply H; left). rewrite IH; [done|].
  intros Hin. apply H. by right.
Qed.

Lemma buffer_sublist t : exists k, buffer t = take k t.
Proof using.
  unfold buffer. generalize 1023%nat. intros n. revert n.
  induction t as [|c t IH]; intros [|n]; simpl; try by exists 0%nat.
  case_bool_decide; [by exists 0%nat|]. destruct (IH n) as [k ->]. by exists (S k).
Qed.

(** ** Reading back *)

Lemma parse_entry e : plain e.1.1 -> plain e.1.2 -> parse_line (entry_line e) = Some e.
Proof using.
  destruct e as [[t l] m]. simpl. intros Ht Hl. unfold parse_line.
  rewrite break_at_app by (apply plain_not_in; auto).
  rewrite break_at_app by (apply plain_not_in; auto). done.
Qed.

Lemma text_lines_entries es :
  Forall (fun e => x0a ∉ entry_line e) es ->
  text_lines (concat (map (fun e => entry_line e ++ [x0a]) es)) = map entry_line es.
Proof using.
  intros H. unfold text_lines.
  assert (E : split_on x0a (concat (map (fun e => entry_line e ++ [x0a]) es)) = map entry_line es ++ [[]]).
  { induction H as [|e es He _ IH]; [done|]. cbn [map concat].
    rewrite <- app_assoc. cbn [app]. rewrite split_on_app, IH. cbn [app]. f_equal.
    rewrite split_on_none by done. done. }
  rewrite E, length_app, Nat.add_sub. apply take_app_length.
Qed.

Lemma entries_ok f level file os :
  Forall one_line os ->
  Forall (fun e => plain e.1.1 /\ plain e.1.2 /\ x0a ∉ entry_line e) (entries f level file os).
Proof using.
  intros H. revert level file.
  assert (Hone : forall now l m, x0a ∉ m ->
    let e := (stamp now ++ [x20], level_str l, m) in
    plain e.1.1 /\ plain e.1.2 /\ x0a ∉ entry_line e).
  { intros now l m Hm. cbv zeta. simpl. split_and!; [|apply plain_level|].
    - apply Forall_app. split; [apply plain_stamp|by apply plain_check].
    - pose proof (plain_not_in x0a _ (plain_stamp now) ltac:(auto)).
      pose proof (plain_not_in x0a _ (plain_level l) ltac:(auto)).
      rewrite !not_elem_of_app, !not_elem_of_cons, ?not_elem_of_app, ?not_elem_of_cons.
      split_and!; try done; by apply not_elem_of_nil. }
  induction H as [|o os Ho _ IH]; intros level file; [constructor|].
  destruct o as [g ok|n|now l m|now l t]; cbn [entries]; try apply IH;
    (destruct (_ && _); [|apply IH]); (constructor; [|apply IH]); apply Hone; [done|].
  intros Hin. destruct (buffer_sublist t) as [k Hk]. rewrite Hk in Hin.
  apply elem_of_take in Hin as (i & Hi & _). apply Ho. by eapply list_elem_of_lookup_2.
Qed.

(** C40: a log file holds exactly the messages it should: after any sequence of calls
    whose messages have no line break, the text appended to a file reads back,
    line by line, as the messages whose level was not below the one set at the
    time and which were logged while that file was open, in order, with their
    level and time; a message of [LogFormat] is cut at 1023 bytes, as its buffer
    does. *)
Theorem log_file_reads_back b f os :
  Forall one_line os ->
  parse_log (file_text f (log_out (do_logs os (GetInstance b)))) =
  map Some (entries f (in_program (TFTP_LOG_LEVEL b)) None os).
Proof using.
  intros H. rewrite do_logs_text. change (file_text f (log_out (GetInstance b))) with (@nil byte).
  cbn [app]. cbn [GetInstance log_level_ log_file_]. unfold parse_log.
  pose proof (entries_ok f (in_program (TFTP_LOG_LEVEL b)) None os H) as Hok.
  rewrite text_lines_entries.
  - rewrite map_map. apply map_ext_in. intros e He%list_elem_of_In.
    rewrite Forall_forall in Hok. destruct (Hok e He) as (? & ? & _). by apply parse_entry.
  - eapply Forall_impl; [exact Hok|]. by intros e (_ & _ & ?).
Qed.

(** The filter of the macros: unless the level is given as a number on the
    command line, every macro is compiled in, in every build; what filters is
    the level of the logger, which starts as that of the build.  With a level
    given as a positive number no macro is compiled in, not even for critical
    errors. *)
Lemma log_macro_filter b level now text s :
  match user_level b with
  | Some (Literal v) =>
      TFTP_macro b level now text s = if v <=? 0 then LogFormat now level text s else s
  | _ =>
      TFTP_macro b level now text s = LogFormat now level text s /\
      (log_level_ s = in_program (TFTP_LOG_LEVEL b) ->
       TFTP_macro b level now text s =
       TFTP_LOG_IF b (Enumerator level) true now text s)
  end.
Proof using.
  unfold TFTP_macro, TFTP_LOG_IF, TFTP_LOG_ENABLED, TFTP_LOG_LEVEL.
  destruct (user_level b) as [[v|v]|]; simpl.
  - split; [done|]. intros <-. unfold LogFormat. by destruct (_ <=? level).
  - done.
  - assert (Hd : forall l : pp_level, (exists v, l = Enumerator v) -> (in_directive l <=? 0) = true).
    { by intros l [v ->]. }
    rewrite Hd by (repeat case_match; eauto). split; [done|].
    intros <-. unfold LogFormat. rewrite andb_true_r. by destruct (_ <=? level).
Qed.

(** A line break in a message makes a line of its own: the name of a requested
    file is logged as it came from the client. *)
Lemma log_line_forged now level m fake :
  log_line now level (m ++ [x0a] ++ entry_line fake) = log_line now level m ++ entry_line fake ++ [x0a].
Proof using. unfold log_line. rewrite <- !app_assoc. done. Qed.
End logger.

(** ** Witness *)

(** A default build; messages before a file is set, at two levels, and to a
    second file. *)
Definition utc (t : Z) : tm := Tm 124 1 29 ((t / 3600) mod 24) ((t / 60) mod 60) (t mod 60).
Definition default_build : build := Build None false false false.
Definition sample_log_calls : list log_op :=
  [OpLogFormat 0 kLogError (bs "to stderr");
   OpSetLogFile (bs "a.log") true;
   OpLogFormat 1500000000 kLogInfo (bs "server started");
   OpLogFormat 2500000000 kLogDebug (bs "not logged");
   OpSetLogLevel kLogDebug;
   OpLog 3007000000 kLogDebug (bs "socket 5");
   OpSetLogFile (bs "b.log") true;
   OpLog 4000000000 kLogWarn (bs "elsewhere")].

Example sample_text :
  file_text (bs "a.log") (log_out (do_logs utc sample_log_calls (GetInstance default_build))) =
  bs "2024-02-29 00:00:01.500 [INFO] server started" ++ [x0a] ++
  bs "2024-02-29 00:00:03.007 [DEBUG] socket 5" ++ [x0a].
Proof. by vm_compute. Qed.

Lemma log_file_reads_back_witness :
  parse_log (file_text (bs "a.log") (log_out (do_logs utc sample_log_calls (GetInstance default_build)))) =
  map Some (entries utc (bs "a.log") (in_program (TFTP_LOG_LEVEL default_build)) None sample_log_calls).
Proof.
  apply (log_file_reads_back utc default_build (bs "a.log") sample_log_calls).
  repeat constructor; intros H%list_elem_of_In; vm_compute in H;
    repeat (destruct H as [H|H]; [discriminate H|]); destruct H.
Defined.
