(* ===== verification/Files.v ===== *)
(** * The default file callbacks

    [TftpServerImpl::DefaultReadHandler] and [DefaultWriteHandler] of
    [src/internal/tftp_server_impl.cpp].  The streams and the file system calls
    they use are an interface, [FileOps], over the state of the file system;
    [FileLaws] is what is relied on of them. *)

From Stdlib Require Import ZArith Lia Strings.Byte.
From stdpp Require Import base tactics numbers list gmap strings.
From S2P Require Import Prelude StdText StdPath.

(** ** [path::parent_path] *)

Fixpoint drop_while (f : byte -> bool) (s : bytes) : bytes :=
  match s with
  | c :: s' => if f c then drop_while f s' else s
  | [] => []
  end.

(** The path without its file name and the separators before it; the root
    directory is its own parent. *)
Definition parent_path (p : bytes) : bytes :=
  let is_sep c := bool_decide (c = sep) in
  match drop_while (fun c => negb (is_sep c)) (reverse p) with
  | [] => []
  | d =>
      match drop_while is_sep d with
      | [] => [sep]
      | s => reverse s
      end
  end.

Example parent_1 : parent_path (bs "/srv/tftp/a.txt") = bs "/srv/tftp".
Proof. reflexivity. Qed.
Example parent_2 : parent_path (bs "/a") = bs "/".
Proof. reflexivity. Qed.
Example parent_3 : parent_path (bs "a.txt") = [].
Proof. reflexivity. Qed.
Example parent_4 : parent_path (bs "a//b") = bs "a".
Proof. reflexivity. Qed.

(** ** Streams and file system calls *)

Class FileOps (FS : Type) := {
  (* [std::ifstream file(path, binary)] opened *)
  f_can_open : FS -> bytes -> bool;
  (* [tellg] after [seekg(0, end)]: -1 on failure *)
  f_size : FS -> bytes -> Z;
  (* [read] of so many bytes from the start: [None] when fewer came *)
  f_read : FS -> bytes -> Z -> option bytes;
  f_exists : FS -> bytes -> res bool;
  f_create_directories : FS -> bytes -> FS * res unit;
  (* [std::ofstream file(path, binary)]: the truncated file, when opened *)
  f_open_write : FS -> bytes -> option FS;
  (* [write]: the file system and the state of the stream *)
  f_write : FS -> bytes -> bytes -> FS * bool;
  (* [flush] and [close] *)
  f_flush : FS -> bytes -> FS * bool;
}.

(** What POSIX and the stream library promise of a file that was opened,
    written, flushed and closed without error: it has the bytes written. *)
Class FileLaws (FS : Type) `{FileOps FS} := {
  write_then_read : forall fs fs1 fs2 fs3 path d,
    f_open_write fs path = Some fs1 -> f_write fs1 path d = (fs2, true) ->
    f_flush fs2 path = (fs3, true) ->
    f_can_open fs3 path = true /\ f_size fs3 path = zlen d /\
    f_read fs3 path (zlen d) = Some d;
}.

(** [std::vector<uint8_t>::reserve]. *)
Definition vec_reserve (n : Z) : res unit :=
  if 2 ^ 63 - 1 <? n then Throw LengthError else Ok tt.

Section files.
Context {FS : Type} `{O : FileOps FS}.

Definition DefaultReadHandler (fs : FS) (path : bytes) : FS * res (option bytes) :=
  if negb (f_can_open fs path) then (fs, Ok None)
  else
    let file_size := f_size fs path in
    (fs,
     _ ← vec_reserve (file_size mod 2 ^ 64);
     match f_read fs path file_size with
     | None => Ok None
     | Some data => Ok (Some data)
     end).

(** The stream's state is looked at after [write], not after [flush] and
    [close]. *)
Definition write_file (fs : FS) (path data : bytes) : FS * res bool :=
  match f_open_write fs path with
  | None => (fs, Ok false)
  | Some fs1 =>
      let '(fs2, ok) := f_write fs1 path data in
      if negb ok then (fs2, Ok false)
      else
        let '(fs3, _) := f_flush fs2 path in
        (fs3,
         exists_now ← f_exists fs3 path;
         if negb exists_now then Ok false else Ok true)
  end.

Definition DefaultWriteHandler (fs : FS) (path data : bytes) : FS * res bool :=
  let parent := parent_path path in
  match (if bool_decide (parent = []) then Ok true else f_exists fs parent) with
  | Throw e => (fs, Throw e)
  | Ok true => write_file fs path data
  | Ok false =>
      let '(fs1, created) := f_create_directories fs parent in
      match created with
      | Throw _ => (fs1, Ok false)
      | Ok _ => write_file fs1 path data
      end
  end.

(** [write_file] went through without an error the streams reported. *)
Definition flushed (fs : FS) (path data : bytes) : Prop :=
  exists fs1 fs2 fs3, f_open_write fs path = Some fs1 /\ f_write fs1 path data = (fs2, true) /\
    f_flush fs2 path = (fs3, true).

(** The file system in which the file is opened for writing. *)
Definition prepared (fs : FS) (path : bytes) : FS :=
  let parent := parent_path path in
  match (if bool_decide (parent = []) then Ok true else f_exists fs parent) with
  | Ok false => (f_create_directories fs parent).1
  | _ => fs
  end.

Lemma DefaultWriteHandler_true fs fs' path data :
  DefaultWriteHandler fs path data = (fs', Ok true) ->
  write_file (prepared fs path) path data = (fs', Ok true).
Proof using.
  unfold DefaultWriteHandler, prepared.
  destruct (if bool_decide _ then _ else _) as [[|]|e]; [done| |done].
  destruct (f_create_directories _ _) as [fs1 [u|e]]; done.
Qed.

Context `{L : !FileLaws FS}.

Lemma write_read fs fs' path data :
  DefaultWriteHandler fs path data = (fs', Ok true) ->
  flushed (prepared fs path) path data -> zlen data < 2 ^ 63 ->
  DefaultReadHandler fs' path = (fs', Ok (Some data)).
Proof using L.
  intros H%DefaultWriteHandler_true (fs1 & fs2 & fs3 & H1 & H2 & H3) Hlen.
  destruct (write_then_read _ _ _ _ _ _ H1 H2 H3) as (Ho & Hs & Hr).
  unfold write_file in H. rewrite H1, H2, H3 in H. simpl in H. injection H as <- _.
  unfold DefaultReadHandler. rewrite Ho, Hs. simpl. unfold vec_reserve.
  pose proof (zlen_nonneg data). rewrite Z.mod_small by lia.
  rewrite (proj2 (Z.ltb_ge _ _)) by lia. simpl. by rewrite Hr.
Qed.

(** What the default write callback stores without a stream error, the default
    read callback gives back unchanged. *)
Lemma default_handlers_roundtrip fs fs' path data :
  DefaultWriteHandler fs path data = (fs', Ok true) ->
  flushed (prepared fs path) path data -> zlen data < 2 ^ 63 ->
  DefaultReadHandler fs' path = (fs', Ok (Some data)).
Proof using L. apply write_read. Qed.
End files.

(** The default read callback throws, instead of reporting a failure, when the
    size of the opened file cannot be told ([tellg] gives -1): the cast to
    [size_t] makes it the largest number. *)
Lemma default_read_throws_without_size {FS} `{FileOps FS} fs path :
  f_can_open fs path = true -> f_size fs path = -1 ->
  DefaultReadHandler fs path = (fs, Throw LengthError).
Proof. intros Ho Hs. unfold DefaultReadHandler. by rewrite Ho, Hs. Qed.

(** A write error that the stream notices only when it is flushed is not
    reported: the default write callback answers [true] although the file's
    data did not reach the disk. *)
Lemma default_write_ignores_flush_error {FS} `{FileOps FS} fs fs1 fs2 fs3 path data :
  f_exists fs (parent_path path) = Ok true ->
  f_open_write fs path = Some fs1 -> f_write fs1 path data = (fs2, true) ->
  f_flush fs2 path = (fs3, false) -> f_exists fs3 path = Ok true ->
  DefaultWriteHandler fs path data = (fs3, Ok true).
Proof.
  intros Hp H1 H2 H3 He. unfold DefaultWriteHandler, write_file.
  rewrite Hp, H1, H2, H3. destruct (bool_decide _); simpl; by rewrite He.
Qed.

(** ** A file system in memory

    A flat map from paths to contents with a limit on the size of a file: the
    stream takes any data, and the flush of too much data fails and leaves an
    empty file.  The path ["/dev/"] stands for a file without a size. *)

Record mem_fs := MemFs { mem_files : gmap bytes bytes; mem_limit : Z }.

Definition mem_set (fs : mem_fs) (path d : bytes) : mem_fs :=
  MemFs (<[path := d]> (mem_files fs)) (mem_limit fs).

#[export] Instance mem_file_ops : FileOps mem_fs := {
  f_can_open fs path :=
    bool_decide (path = bs "/dev/") || bool_decide (is_Some (mem_files fs !! path));
  f_size fs path := if bool_decide (path = bs "/dev/") then -1
                    else match mem_files fs !! path with Some d => zlen d | None => -1 end;
  f_read fs path n :=
    match mem_files fs !! path with
    | Some d => if zlen d <? n then None else Some (take (Z.to_nat n) d)
    | None => None
    end;
  f_exists fs path := Ok (bool_decide (is_Some (mem_files fs !! path))
                          || bool_decide (path = bs "/srv/tftp"));
  f_create_directories fs path := (fs, Ok tt);
  f_open_write fs path := if bool_decide (path = bs "/dev/") then None else Some (mem_set fs path []);
  f_write fs path d := (mem_set fs path d, true);
  f_flush fs path :=
    match mem_files fs !! path with
    | Some d => if mem_limit fs <? zlen d then (mem_set fs path [], false) else (fs, true)
    | None => (fs, true)
    end;
}.

#[export] Instance mem_file_laws : FileLaws mem_fs.
Proof.
  constructor. intros fs fs1 fs2 fs3 path d. simpl.
  destruct (bool_decide (path = bs "/dev/")) eqn:E; [done|]. intros _ [= <-].
  unfold mem_set. simpl. rewrite lookup_insert_eq.
  destruct (mem_limit fs1 <? zlen d); [done|]. intros [= <-]. simpl.
  rewrite lookup_insert_eq. split_and!; [done|done|]. rewrite Z.ltb_irrefl.
  unfold zlen. by rewrite Nat2Z.id, firstn_all.
Qed.

Definition mem_empty : mem_fs := MemFs ∅ 4.

(** The steps of a write of [d] to [path]. *)
Definition mem_opened (path : bytes) : mem_fs := mem_set mem_empty path [].
Definition mem_written (path d : bytes) : mem_fs := mem_set (mem_opened path) path d.

Lemma default_handlers_roundtrip_witness :
  DefaultReadHandler (mem_written (bs "/srv/tftp/a") (bs "abc")) (bs "/srv/tftp/a")
  = (mem_written (bs "/srv/tftp/a") (bs "abc"), Ok (Some (bs "abc"))).
Proof.
  apply (default_handlers_roundtrip mem_empty (mem_written (bs "/srv/tftp/a") (bs "abc"))
           (bs "/srv/tftp/a") (bs "abc")); [vm_compute; reflexivity| |vm_compute; reflexivity].
  exists (mem_opened (bs "/srv/tftp/a")), (mem_written (bs "/srv/tftp/a") (bs "abc")),
    (mem_written (bs "/srv/tftp/a") (bs "abc")).
  split_and!; vm_compute; reflexivity.
Defined.

Lemma default_read_throws_without_size_witness :
  DefaultReadHandler mem_empty (bs "/dev/") = (mem_empty, Throw LengthError).
Proof. apply (default_read_throws_without_size mem_empty (bs "/dev/")); reflexivity. Defined.

Lemma default_write_ignores_flush_error_witness :
  DefaultWriteHandler mem_empty (bs "/srv/tftp/a") (bs "too long")
  = (mem_set (mem_written (bs "/srv/tftp/a") (bs "too long")) (bs "/srv/tftp/a") [], Ok true).
Proof.
  apply (default_write_ignores_flush_error mem_empty (mem_opened (bs "/srv/tftp/a"))
           (mem_written (bs "/srv/tftp/a") (bs "too long"))); vm_compute; reflexivity.
Defined.
