(* ===== verification/Client.v ===== *)
(** * The client

    [src/tftp_client.cpp]: [TftpClient::Impl] and the wrapper around it.  The
    transfers are not implemented in the source: after the validation of the
    arguments both report failure.  A wrapper is [None] when its [impl_] is null;
    the constructor sets it and nothing resets it, as is proved below. *)

From Stdlib Require Import ZArith Lia Strings.Byte.
From stdpp Require Import base tactics numbers list gmap strings.
From S2P Require Import Prelude Common StdText StdPath Validation.

Record ClientImpl := MkClient {
  client_timeout_ : Z;
  client_mode_ : TransferMode;
  last_error_ : bytes;
}.

Definition TftpClient : ClientImpl := MkClient kDefaultTimeout kOctet (bs "No error").

Definition set_error (e : bytes) (c : ClientImpl) : ClientImpl :=
  MkClient (client_timeout_ c) (client_mode_ c) e.

(** The returned flag, the output buffer and the object. *)
Definition DownloadFile (c : ClientImpl) (host filename : bytes) (output_buffer : bytes) (port : Z)
    : bool * bytes * ClientImpl :=
  if negb (ValidateHost host)
  then (false, output_buffer, set_error (bs "Invalid host: " ++ host) c)
  else if negb (ValidateFilename filename)
  then (false, output_buffer, set_error (bs "Invalid filename: " ++ filename) c)
  else if negb (ValidatePort port)
  then (false, output_buffer, set_error (bs "Invalid port: " ++ to_string port) c)
  else (false, [], set_error (bs "DownloadFile not yet implemented") c).

Definition UploadFile (c : ClientImpl) (host filename data : bytes) (port : Z) : bool * ClientImpl :=
  if negb (ValidateHost host)
  then (false, set_error (bs "Invalid host: " ++ host) c)
  else if negb (ValidateFilename filename)
  then (false, set_error (bs "Invalid filename: " ++ filename) c)
  else if negb (ValidatePort port)
  then (false, set_error (bs "Invalid port: " ++ to_string port) c)
  else if negb (ValidateDataBuffer data kMaxTransferSize)
  then (false, set_error (bs "Invalid data buffer (too large): " ++ to_string (zlen data)) c)
  else (false, set_error (bs "UploadFile not yet implemented") c).

Definition client_SetTimeout (c : ClientImpl) (seconds : Z) : res ClientImpl :=
  if negb (ValidateTimeout seconds)
  then Throw (TftpException (bs "Invalid timeout: " ++ to_string seconds))
  else Ok (MkClient seconds (client_mode_ c) (last_error_ c)).

(** [static_cast<int>(mode)]. *)
Definition mode_value (mode : TransferMode) : Z :=
  match mode with kNetAscii => 0 | kOctet => 1 | kMail => 2 | TransferModeValue v => v end.

Definition client_SetTransferMode (c : ClientImpl) (mode : TransferMode) : res ClientImpl :=
  if negb (ValidateTransferMode mode)
  then Throw (TftpException (bs "Invalid transfer mode: " ++ to_string (mode_value mode)))
  else Ok (MkClient (client_timeout_ c) mode (last_error_ c)).

Definition GetLastError (c : ClientImpl) : bytes := last_error_ c.

(** ** The wrapper *)

Abbreviation client := (option ClientImpl).

Definition new_client : client := Some TftpClient.

Definition wrap_DownloadFile (this : client) (host filename output_buffer : bytes) (port : Z)
    : bool * bytes * client :=
  match this with
  | None => (false, output_buffer, None)
  | Some c => let '(b, o, c') := DownloadFile c host filename output_buffer port in (b, o, Some c')
  end.

Definition wrap_UploadFile (this : client) (host filename data : bytes) (port : Z) : bool * client :=
  match this with
  | None => (false, None)
  | Some c => let '(b, c') := UploadFile c host filename data port in (b, Some c')
  end.

Definition wrap_SetTimeout (this : client) (seconds : Z) : res client :=
  match this with
  | None => Ok None
  | Some c => c' ← client_SetTimeout c seconds; Ok (Some c')
  end.

Definition wrap_SetTransferMode (this : client) (mode : TransferMode) : res client :=
  match this with
  | None => Ok None
  | Some c => c' ← client_SetTransferMode c mode; Ok (Some c')
  end.

Definition wrap_GetLastError (this : client) : bytes :=
  match this with None => bs "Client not initialized" | Some c => GetLastError c end.

(** ** Sequences of calls *)

Inductive client_call :=
  | CallDownload (host filename output_buffer : bytes) (port : Z)
  | CallUpload (host filename data : bytes) (port : Z)
  | CallClientTimeout (seconds : Z)
  | CallTransferMode (mode : TransferMode).

(** The result of a transfer, and the object; a call that throws leaves it. *)
Definition client_do (o : client_call) (this : client) : option bool * client :=
  match o with
  | CallDownload h f b p => let '(r, _, this') := wrap_DownloadFile this h f b p in (Some r, this')
  | CallUpload h f d p => let '(r, this') := wrap_UploadFile this h f d p in (Some r, this')
  | CallClientTimeout n =>
      (None, match wrap_SetTimeout this n with Ok this' => this' | Throw _ => this end)
  | CallTransferMode m =>
      (None, match wrap_SetTransferMode this m with Ok this' => this' | Throw _ => this end)
  end.

Fixpoint client_run (os : list client_call) (this : client) : list bool * client :=
  match os with
  | [] => ([], this)
  | o :: os' =>
      let '(r, this1) := client_do o this in
      let '(rs, this2) := client_run os' this1 in
      (match r with Some b => b :: rs | None => rs end, this2)
  end.

(** Why a transfer fails: the first check its arguments do not pass, or that it
    is not implemented. *)
Definition transfer_error (o : client_call) : option bytes :=
  match o with
  | CallDownload h f _ p =>
      Some (if negb (ValidateHost h) then bs "Invalid host: " ++ h
            else if negb (ValidateFilename f) then bs "Invalid filename: " ++ f
            else if negb (ValidatePort p) then bs "Invalid port: " ++ to_string p
            else bs "DownloadFile not yet implemented")
  | CallUpload h f d p =>
      Some (if negb (ValidateHost h) then bs "Invalid host: " ++ h
            else if negb (ValidateFilename f) then bs "Invalid filename: " ++ f
            else if negb (ValidatePort p) then bs "Invalid port: " ++ to_string p
            else if negb (ValidateDataBuffer d kMaxTransferSize)
            then bs "Invalid data buffer (too large): " ++ to_string (zlen d)
            else bs "UploadFile not yet implemented")
  | _ => None
  end.

(** The text of the last transfer of a sequence. *)
Definition last_transfer_error (os : list client_call) : bytes :=
  default (bs "No error") (last (omap transfer_error os)).

Definition client_ok (e : bytes) (this : client) : Prop :=
  exists c, this = Some c /\ kMinTimeout <= client_timeout_ c <= kMaxTimeout /\
    ValidateTransferMode (client_mode_ c) = true /\ last_error_ c = e.

Lemma client_do_ok o e this :
  client_ok e this ->
  client_ok (default e (transfer_error o)) (client_do o this).2 /\
  ((client_do o this).1 = None \/ (client_do o this).1 = Some false).
Proof.
  intros (c & -> & Ht & Hm & He). destruct o as [h f b p|h f d p|n|m]; simpl.
  - unfold DownloadFile. destruct (negb (ValidateHost h)); [|destruct (negb (ValidateFilename f));
      [|destruct (negb (ValidatePort p))]]; (split; [by eexists|by right]).
  - unfold UploadFile. destruct (negb (ValidateHost h)); [|destruct (negb (ValidateFilename f));
      [|destruct (negb (ValidatePort p)); [|destruct (negb (ValidateDataBuffer _ _))]]];
      (split; [by eexists|by right]).
  - unfold client_SetTimeout. destruct (ValidateTimeout n) eqn:E; simpl; (split; [|by left]); [|by eexists].
    eexists. split_and!; [done|..]; simpl; try done; unfold ValidateTimeout in E;
      destruct (n <? kMinTimeout) eqn:E1; try done; destruct (kMaxTimeout <? n) eqn:E2; try done; bool_cases; lia.
  - unfold client_SetTransferMode. destruct (ValidateTransferMode m) eqn:E; simpl; (split; [|by left]); by eexists.
Qed.

Lemma client_run_ok os e this :
  client_ok e this ->
  client_ok (default e (last (omap transfer_error os))) (client_run os this).2 /\
  Forall (fun b => b = false) (client_run os this).1.
Proof.
  revert e this. induction os as [|o os IH]; intros e this Hc; simpl; [by split; [|constructor]|].
  destruct (client_do_ok o e this Hc) as [H1 H2]. destruct (client_do o this) as [r this1]. simpl in *.
  destruct (IH _ _ H1) as [H3 H4]. destruct (client_run os this1) as [rs this2]. simpl in *. split.
  - destruct (transfer_error o) as [x|]; simpl in *; [|done].
    change (list_omap _ _ transfer_error os) with (omap transfer_error os).
    rewrite last_cons. destruct (last (omap transfer_error os)); done.
  - destruct H2 as [-> | ->]; [done|by constructor].
Qed.

(** The client after any sequence of calls: its wrapper is never empty, its
    timeout is between 1 and 3600 seconds and its mode an enumerator, every
    transfer has reported failure, and the last error is that of the last
    transfer: the first check that its arguments did not pass or, when they
    passed all, that it is not implemented. *)
Lemma client_calls os :
  let '(results, this) := client_run os new_client in
  Forall (fun b => b = false) results /\
  wrap_GetLastError this = last_transfer_error os /\
  exists c, this = Some c /\ kMinTimeout <= client_timeout_ c <= kMaxTimeout /\
    ValidateTransferMode (client_mode_ c) = true.
Proof.
  destruct (client_run_ok os (bs "No error") new_client) as [H1 H2].
  { eexists. by split_and!. }
  destruct (client_run os new_client) as [rs this]. simpl in *.
  destruct H1 as (c & -> & Ht & Hm & He). split_and!; [done|done|]. by exists c.
Qed.
