(* ===== verification/ThreadPool.v ===== *)
(** * The thread pool

    [src/internal/tftp_thread_pool.h] and [.cpp] as an interleaving of atomic
    steps: the workers run [WorkerThread], one thread calls [Submit] (the
    server loop), one thread calls [Shutdown].  A step is what a thread does
    between two points where another thread can observe it: an access to an
    atomic, taking or releasing [queue_mutex_], blocking on [condition_]. *)

From Stdlib Require Import ZArith Lia Strings.Byte.
From stdpp Require Import base tactics numbers list gmap strings.
From S2P Require Import Prelude.

(** ** The number of threads *)

(** [num_threads] as the constructor adjusts it; [hardware] is
    [std::thread::hardware_concurrency()]. *)
Definition thread_count (hardware num_threads : Z) : Z :=
  let n := if num_threads =? 0 then (if hardware =? 0 then 4 else hardware) else num_threads in
  Z.max 1 (Z.min n 64).

(** ** Program counters *)

Inductive wpc (T : Type) :=
  | WTop            (* the test of [while (!stopping_)] *)
  | WLock           (* before [unique_lock lock(queue_mutex_)] *)
  | WPred           (* holding the lock, before the predicate of [wait] *)
  | WToWait         (* holding the lock, the predicate was false *)
  | WWaiting        (* blocked in [wait], the lock released *)
  | WWake           (* woken in [wait], before taking the lock again *)
  | WLocked         (* holding the lock, after [wait] *)
  | WRun (t : T)    (* the task taken, before [active_tasks_.fetch_add(1)] *)
  | WRunning (t : T)
  | WEnded (t : T)  (* the task has returned or thrown, before [fetch_sub(1)] *)
  | WDone.
Arguments WTop {T}.
Arguments WLock {T}.
Arguments WPred {T}.
Arguments WToWait {T}.
Arguments WWaiting {T}.
Arguments WWake {T}.
Arguments WLocked {T}.
Arguments WRun {T}.
Arguments WRunning {T}.
Arguments WEnded {T}.
Arguments WDone {T}.

Inductive upc (T : Type) :=
  | UIdle
  | UChecked (t : T)   (* after the first test of [stopping_] *)
  | ULocked (t : T)    (* holding the lock *)
  | UNotify.           (* before [condition_.notify_one()] *)
Arguments UIdle {T}.
Arguments UChecked {T}.
Arguments ULocked {T}.
Arguments UNotify {T}.

Inductive spc :=
  | SIdle
  | SFlagged               (* [stopping_] set, before [notify_all] *)
  | SJoining (k : nat)     (* before joining worker [k] *)
  | SClear                 (* before taking the lock *)
  | SClearLocked
  | SReturned.

Inductive owner := OWorker (i : nat) | OSubmit | OShutdown.

#[global] Instance owner_eq_dec : EqDecision owner.
Proof. solve_decision. Defined.
#[global] Instance spc_eq_dec : EqDecision spc.
Proof. solve_decision. Defined.

(** ** The state *)

Record pool (T : Type) := Pool {
  tasks_ : list T;
  stopping_ : bool;
  active_tasks_ : Z;
  queue_mutex_ : option owner;
  workers_ : list (wpc T);
  submitter : upc T;
  shutdown : spc;
  (* what happened so far *)
  submitted : list T;
  started : list T;
  finished : list T;
  dropped : list T;
  rejected : list T;
}.
Arguments Pool {T}.
Arguments tasks_ {T}.
Arguments stopping_ {T}.
Arguments active_tasks_ {T}.
Arguments queue_mutex_ {T}.
Arguments workers_ {T}.
Arguments submitter {T}.
Arguments shutdown {T}.
Arguments submitted {T}.
Arguments started {T}.
Arguments finished {T}.
Arguments dropped {T}.
Arguments rejected {T}.

Section pool.
Context {T : Type}.
Implicit Types p : pool T.

Definition TftpThreadPool (hardware num_threads : Z) : pool T :=
  Pool [] false 0 None (replicate (Z.to_nat (thread_count hardware num_threads)) WTop)
    UIdle SIdle [] [] [] [] [].

(** Updates of the state. *)
Definition set_worker (i : nat) (pc : wpc T) p : pool T :=
  Pool (tasks_ p) (stopping_ p) (active_tasks_ p) (queue_mutex_ p) (<[i := pc]> (workers_ p))
    (submitter p) (shutdown p) (submitted p) (started p) (finished p) (dropped p) (rejected p).
Definition set_lock (o : option owner) p : pool T :=
  Pool (tasks_ p) (stopping_ p) (active_tasks_ p) o (workers_ p)
    (submitter p) (shutdown p) (submitted p) (started p) (finished p) (dropped p) (rejected p).
Definition set_submitter (u : upc T) p : pool T :=
  Pool (tasks_ p) (stopping_ p) (active_tasks_ p) (queue_mutex_ p) (workers_ p)
    u (shutdown p) (submitted p) (started p) (finished p) (dropped p) (rejected p).
Definition set_shutdown (s : spc) p : pool T :=
  Pool (tasks_ p) (stopping_ p) (active_tasks_ p) (queue_mutex_ p) (workers_ p)
    (submitter p) s (submitted p) (started p) (finished p) (dropped p) (rejected p).
Definition set_active (n : Z) p : pool T :=
  Pool (tasks_ p) (stopping_ p) n (queue_mutex_ p) (workers_ p)
    (submitter p) (shutdown p) (submitted p) (started p) (finished p) (dropped p) (rejected p).
Definition set_stopping p : pool T :=
  Pool (tasks_ p) true (active_tasks_ p) (queue_mutex_ p) (workers_ p)
    (submitter p) (shutdown p) (submitted p) (started p) (finished p) (dropped p) (rejected p).
Definition set_workers (ws : list (wpc T)) p : pool T :=
  Pool (tasks_ p) (stopping_ p) (active_tasks_ p) (queue_mutex_ p) ws
    (submitter p) (shutdown p) (submitted p) (started p) (finished p) (dropped p) (rejected p).

Definition pop_task (t : T) (ts : list T) p : pool T :=
  Pool ts (stopping_ p) (active_tasks_ p) (queue_mutex_ p) (workers_ p)
    (submitter p) (shutdown p) (submitted p) (started p ++ [t]) (finished p) (dropped p) (rejected p).
Definition finish_task (t : T) p : pool T :=
  Pool (tasks_ p) (stopping_ p) (active_tasks_ p) (queue_mutex_ p) (workers_ p)
    (submitter p) (shutdown p) (submitted p) (started p) (finished p ++ [t]) (dropped p) (rejected p).
Definition push_task (t : T) p : pool T :=
  Pool (tasks_ p ++ [t]) (stopping_ p) (active_tasks_ p) (queue_mutex_ p) (workers_ p)
    (submitter p) (shutdown p) (submitted p ++ [t]) (started p) (finished p) (dropped p) (rejected p).
Definition reject_task (t : T) p : pool T :=
  Pool (tasks_ p) (stopping_ p) (active_tasks_ p) (queue_mutex_ p) (workers_ p)
    (submitter p) (shutdown p) (submitted p) (started p) (finished p) (dropped p) (rejected p ++ [t]).
Definition clear_tasks p : pool T :=
  Pool [] (stopping_ p) (active_tasks_ p) (queue_mutex_ p) (workers_ p)
    (submitter p) (shutdown p) (submitted p) (started p) (finished p)
    (dropped p ++ tasks_ p) (rejected p).

(** ** The threads *)

(** [lock] by [o], then [next]; [None] is blocked. *)
Definition with_lock (o : owner) (next : pool T -> pool T) p : option (pool T) :=
  match queue_mutex_ p with
  | None => Some (next (set_lock (Some o) p))
  | Some _ => None
  end.

(** The next step of worker [i]; [None] when it is blocked or has finished. *)
Definition WorkerThread (i : nat) p : option (pool T) :=
  match workers_ p !! i with
  | None => None
  | Some WTop => Some (set_worker i (if stopping_ p then WDone else WLock) p)
  | Some WLock | Some WWake => with_lock (OWorker i) (set_worker i WPred) p
  | Some WPred =>
      Some (set_worker i (if stopping_ p || negb (bool_decide (length (tasks_ p) = 0%nat))
                          then WLocked else WToWait) p)
  | Some WToWait => Some (set_worker i WWaiting (set_lock None p))
  | Some WWaiting => None
  | Some WLocked =>
      match tasks_ p with
      | [] => Some (set_worker i (if stopping_ p then WDone else WTop) (set_lock None p))
      | t :: ts => Some (set_worker i (WRun t) (set_lock None (pop_task t ts p)))
      end
  | Some (WRun t) => Some (set_worker i (WRunning t) (set_active (active_tasks_ p + 1) p))
  | Some (WRunning t) => Some (set_worker i (WEnded t) (finish_task t p))
  | Some (WEnded t) => Some (set_worker i WTop (set_active (active_tasks_ p - 1) p))
  | Some WDone => None
  end.

(** [condition_.wait] may return without a notification. *)
Definition spurious_wake (i : nat) p : option (pool T) :=
  match workers_ p !! i with
  | Some WWaiting => Some (set_worker i WWake p)
  | _ => None
  end.

Definition is_waiting (w : wpc T) : bool := match w with WWaiting => true | _ => false end.
Definition wake (w : wpc T) : wpc T := if is_waiting w then WWake else w.

(** [notify_one] wakes worker [j] if it waits; without a waiting worker it has
    no effect. *)
Definition notify_one (j : nat) p : option (pool T) :=
  if existsb is_waiting (workers_ p) then spurious_wake j p else Some p.

(** The next step of [Submit(t)]; [j] is the worker a notification wakes. *)
Definition Submit (t : T) (j : nat) p : option (pool T) :=
  match submitter p with
  | UIdle => Some (if stopping_ p then reject_task t p else set_submitter (UChecked t) p)
  | UChecked t => with_lock OSubmit (set_submitter (ULocked t)) p
  | ULocked t =>
      Some (set_lock None
              (if stopping_ p then set_submitter UIdle (reject_task t p)
               else set_submitter UNotify (push_task t p)))
  | UNotify => option_map (set_submitter UIdle) (notify_one j p)
  end.

(** The next step of [Shutdown()].  A second call finds [stopping_] set and
    returns. *)
Definition Shutdown p : option (pool T) :=
  match shutdown p with
  | SIdle => Some (set_shutdown SFlagged (set_stopping p))
  | SFlagged => Some (set_shutdown (SJoining 0) (set_workers (map wake (workers_ p)) p))
  | SJoining k =>
      match workers_ p !! k with
      | None => Some (set_shutdown SClear p)
      | Some WDone => Some (set_shutdown (SJoining (S k)) p)
      | Some _ => None
      end
  | SClear => with_lock OShutdown (set_shutdown SClearLocked) p
  | SClearLocked => Some (set_shutdown SReturned (set_lock None (clear_tasks p)))
  | SReturned => None
  end.

(** ** The getters *)

Definition IsShuttingDown p : bool := stopping_ p.
Definition GetActiveTaskCount p : Z := active_tasks_ p.
Definition GetQueuedTaskCount p : Z := zlen (tasks_ p).
Definition GetThreadCount p : Z := zlen (workers_ p).

(** ** Executions *)

Inductive step : pool T -> pool T -> Prop :=
  | step_worker i p p' : WorkerThread i p = Some p' -> step p p'
  | step_submit t j p p' : Submit t j p = Some p' -> step p p'
  | step_shutdown p p' : Shutdown p = Some p' -> step p p'
  | step_spurious i p p' : spurious_wake i p = Some p' -> step p p'.

Inductive reachable (p0 : pool T) : pool T -> Prop :=
  | reach_init : reachable p0 p0
  | reach_step p p' : reachable p0 p -> step p p' -> reachable p0 p'.
(** A schedule to evaluate: whose turn it is. *)
Inductive turn := TWorker (i : nat) | TSubmit (t : T) (j : nat) | TShutdown | TSpurious (i : nat).

Definition move (u : turn) p : option (pool T) :=
  match u with
  | TWorker i => WorkerThread i p
  | TSubmit t j => Submit t j p
  | TShutdown => Shutdown p
  | TSpurious i => spurious_wake i p
  end.

Fixpoint schedule (us : list turn) p : option (pool T) :=
  match us with
  | [] => Some p
  | u :: us' => match move u p with Some p' => schedule us' p' | None => None end
  end.

Lemma schedule_reachable us p0 p q :
  reachable p0 p -> schedule us p = Some q -> reachable p0 q.
Proof using.
  revert p. induction us as [|u us IH]; intros p Hr H; simpl in H; [congruence|].
  destruct (move u p) as [p'|] eqn:E; [|done]. eapply IH; [|done].
  eapply reach_step; [done|]. destruct u; simpl in E; by econstructor.
Qed.
End pool.
Arguments turn : clear implicits.
