(* ===== verification/ThreadPoolFacts.v ===== *)
(** * Properties of the thread pool

    Invariants of every interleaving: mutual exclusion, the count of active
    tasks, the order and number of task executions, the state after
    [Shutdown]; progress while the pool is running; and an execution in which
    [Shutdown] waits for ever. *)

From Stdlib Require Import ZArith Lia Strings.Byte.
From stdpp Require Import base tactics numbers list gmap strings.
From S2P Require Import Prelude ThreadPool.

(** The constructor always makes between 1 and 64 workers. *)
Lemma thread_count_range hardware num_threads : 1 <= thread_count hardware num_threads <= 64.
Proof. unfold thread_count. lia. Qed.

(** Replacing one element of a list, up to the order. *)
Lemma insert_perm {A} (l : list A) i (x y : A) :
  l !! i = Some x -> exists k, l ≡ₚ x :: k /\ <[i := y]> l ≡ₚ y :: k.
Proof.
  intros H. exists (take i l ++ drop (S i) l). split.
  - rewrite <- (take_drop_middle l i x H) at 1. by rewrite <- Permutation_middle.
  - rewrite insert_take_drop by (by eapply lookup_lt_Some). by rewrite <- Permutation_middle.
Qed.

Section facts.
Context {T : Type}.
Implicit Types p : pool T.

(** A worker in a critical section. *)
Definition holds_lock (w : wpc T) : Prop :=
  match w with WPred | WToWait | WLocked => True | _ => False end.

(** The task a worker has taken and not finished, and the task it is counted
    for in [active_tasks_]. *)
Definition in_flight (w : wpc T) : list T :=
  match w with WRun t | WRunning t => [t] | _ => [] end.
Definition counted (w : wpc T) : list T :=
  match w with WRunning t | WEnded t => [t] | _ => [] end.

Definition inv_lock p : Prop :=
  (forall i w, workers_ p !! i = Some w -> holds_lock w <-> queue_mutex_ p = Some (OWorker i)) /\
  (forall i, queue_mutex_ p = Some (OWorker i) -> (i < length (workers_ p))%nat) /\
  ((exists t, submitter p = ULocked t) <-> queue_mutex_ p = Some OSubmit) /\
  (shutdown p = SClearLocked <-> queue_mutex_ p = Some OShutdown).

Definition inv_tasks p : Prop :=
  submitted p = started p ++ dropped p ++ tasks_ p /\
  started p ≡ₚ finished p ++ flat_map in_flight (workers_ p) /\
  active_tasks_ p = zlen (flat_map counted (workers_ p)) /\
  (shutdown p <> SReturned -> dropped p = []).

Definition inv_stop p : Prop :=
  (stopping_ p = true <-> shutdown p <> SIdle) /\
  (forall i, workers_ p !! i = Some WDone -> stopping_ p = true) /\
  match shutdown p with
  | SJoining k => forall i w, (i < k)%nat -> workers_ p !! i = Some w -> w = WDone
  | SClear | SClearLocked | SReturned => Forall (fun w => w = WDone) (workers_ p)
  | _ => True
  end /\
  (shutdown p = SReturned -> tasks_ p = []).

(** A worker that will look at the queue before it waits. *)
Definition awake (w : wpc T) : Prop :=
  match w with WToWait | WWaiting | WDone => False | _ => True end.

Definition inv_wake p : Prop :=
  (forall i, workers_ p !! i = Some WToWait -> tasks_ p = []) /\
  (stopping_ p = false -> tasks_ p <> [] ->
     submitter p = UNotify \/ exists i w, workers_ p !! i = Some w /\ awake w).

(** ** Initial states *)

Lemma replicate_flat_map {A B} n (x : A) (f : A -> list B) :
  f x = [] -> flat_map f (replicate n x) = [].
Proof using. intros H. induction n; simpl; [done|]. by rewrite H. Qed.

Lemma inv_init h n :
  let p := TftpThreadPool (T := T) h n in inv_lock p /\ inv_tasks p /\ inv_stop p /\ inv_wake p.
Proof using.
  unfold inv_lock, inv_tasks, inv_stop, inv_wake, TftpThreadPool. simpl.
  rewrite !replicate_flat_map by done. split_and!; try done; try naive_solver.
  - intros i w [-> _]%lookup_replicate. done.
  - intros i [? _]%lookup_replicate. done.
Qed.
(** ** Mutual exclusion *)

(** A worker moves on without touching the lock, takes it, or releases it. *)
Lemma lock_worker_keep p q i w w' :
  inv_lock p -> workers_ p !! i = Some w -> (holds_lock w <-> holds_lock w') ->
  queue_mutex_ q = queue_mutex_ p -> workers_ q = <[i := w']> (workers_ p) ->
  submitter q = submitter p -> shutdown q = shutdown p -> inv_lock q.
Proof using.
  intros (H1 & H2 & H3 & H4) Hw Hh Hm Hws Hu Hs. unfold inv_lock. rewrite Hm, Hws, Hu, Hs.
  split_and!; [|by setoid_rewrite length_insert|done..].
  intros j v [(<- & <- & _)|(_ & Hj)]%list_lookup_insert_Some; [|by apply H1].
  rewrite <- Hh. by apply H1.
Qed.

Lemma lock_worker_take p q i w w' :
  inv_lock p -> workers_ p !! i = Some w -> holds_lock w' -> queue_mutex_ p = None ->
  queue_mutex_ q = Some (OWorker i) -> workers_ q = <[i := w']> (workers_ p) ->
  submitter q = submitter p -> shutdown q = shutdown p -> inv_lock q.
Proof using.
  intros (H1 & H2 & H3 & H4) Hw Hh Hm Hm' Hws Hu Hs. unfold inv_lock.
  rewrite Hm in *. rewrite Hm', Hws, Hu, Hs. split_and!.
  - intros j v [(<- & <- & _)|(Hne & Hj)]%list_lookup_insert_Some; [done|].
    specialize (H1 j v Hj). naive_solver.
  - intros j [= ->]. rewrite length_insert. by eapply lookup_lt_Some.
  - naive_solver.
  - naive_solver.
Qed.

Lemma lock_worker_release p q i w w' :
  inv_lock p -> workers_ p !! i = Some w -> holds_lock w -> ~ holds_lock w' ->
  queue_mutex_ q = None -> workers_ q = <[i := w']> (workers_ p) ->
  submitter q = submitter p -> shutdown q = shutdown p -> inv_lock q.
Proof using.
  intros (H1 & H2 & H3 & H4) Hw Hh Hh' Hm' Hws Hu Hs. unfold inv_lock.
  rewrite Hm', Hws, Hu, Hs. apply (H1 i w Hw) in Hh as Hm. rewrite Hm in *. split_and!.
  - intros j v [(<- & <- & _)|(Hne & Hj)]%list_lookup_insert_Some; [naive_solver|].
    specialize (H1 j v Hj). naive_solver.
  - done.
  - naive_solver.
  - naive_solver.
Qed.

Lemma with_lock_Some o f p q :
  with_lock o f p = Some q -> queue_mutex_ p = None /\ q = f (set_lock (Some o) p).
Proof using. unfold with_lock. destruct (queue_mutex_ p); [done|]. by intros [= <-]. Qed.

Lemma inv_lock_worker p q i : inv_lock p -> WorkerThread i p = Some q -> inv_lock q.
Proof using.
  intros Hinv H. unfold WorkerThread in H.
  destruct (workers_ p !! i) as [w|] eqn:Hw; [|done].
  destruct w; try done;
    try (apply with_lock_Some in H as [Hm ->];
         by apply (lock_worker_take p _ i _ WPred Hinv Hw)).
  - injection H as <-. eapply (lock_worker_keep p _ i _ _ Hinv Hw); [|reflexivity..]. by destruct (stopping_ p).
  - injection H as <-. eapply (lock_worker_keep p _ i _ _ Hinv Hw); [|reflexivity..]. by destruct (_ || _).
  - injection H as <-. by apply (lock_worker_release p _ i _ WWaiting Hinv Hw); [|intros []|..].
  - destruct (tasks_ p); injection H as <-;
      (eapply (lock_worker_release p _ i _ _ Hinv Hw I); [|reflexivity..]); [|by intros []].
    by destruct (stopping_ p); intros [].
  - injection H as <-. by apply (lock_worker_keep p _ i _ (WRunning t) Hinv Hw).
  - injection H as <-. by apply (lock_worker_keep p _ i _ (WEnded t) Hinv Hw).
  - injection H as <-. by apply (lock_worker_keep p _ i _ WTop Hinv Hw).
Qed.

(** Waking workers changes nothing of the lock. *)
Lemma spurious_wake_Some i p q :
  spurious_wake i p = Some q -> workers_ p !! i = Some WWaiting /\ q = set_worker i WWake p.
Proof using. unfold spurious_wake. destruct (_ !! i) as [[]|]; try done. by intros [= <-]. Qed.

Lemma notify_one_Some j p q : notify_one j p = Some q ->
  (forall i w, workers_ p !! i = Some w -> w <> WWaiting) /\ q = p \/
  workers_ p !! j = Some WWaiting /\ q = set_worker j WWake p.
Proof using.
  unfold notify_one. destruct (existsb _ _) eqn:E.
  - intros H%spurious_wake_Some. by right.
  - intros [= <-]. left. split; [|done]. intros i w Hw ->.
    assert (existsb is_waiting (workers_ p) = true); [|congruence].
    apply existsb_exists. exists WWaiting. split; [|done].
    apply list_elem_of_In. by eapply list_elem_of_lookup_2.
Qed.

Lemma inv_lock_submit p q t j : inv_lock p -> Submit t j p = Some q -> inv_lock q.
Proof using.
  intros Hinv H. unfold Submit in H. destruct (submitter p) as [|u|u|] eqn:Hu.
  - injection H as <-. destruct Hinv as (H1 & H2 & H3 & H4). rewrite Hu in H3.
    destruct (stopping_ p); unfold inv_lock; simpl; rewrite ?Hu; split_and!; naive_solver.
  - apply with_lock_Some in H as [Hm ->]. destruct Hinv as (H1 & H2 & H3 & H4).
    rewrite Hm in *. unfold inv_lock. simpl. split_and!; [|done|naive_solver..].
    intros i w Hw. specialize (H1 i w Hw). naive_solver.
  - injection H as <-. destruct Hinv as (H1 & H2 & H3 & H4).
    assert (Hm : queue_mutex_ p = Some OSubmit) by (apply H3; eauto). rewrite Hm in *.
    destruct (stopping_ p); unfold inv_lock; simpl; (split_and!; [|done|naive_solver..]);
      intros i w Hw; specialize (H1 i w Hw); naive_solver.
  - destruct (notify_one j p) as [q'|] eqn:E; [|done]. simpl in H. injection H as <-.
    assert (Hq' : inv_lock q').
    { apply notify_one_Some in E as [[_ ->]|[Hw ->]]; [done|].
      by apply (lock_worker_keep p _ j _ WWake Hinv Hw). }
    assert (Hm : queue_mutex_ q' <> Some OSubmit).
    { destruct Hq' as (_ & _ & H3 & _). intros [u Hu']%H3.
      apply notify_one_Some in E as [[_ ->]|[_ ->]]; simpl in Hu'; congruence. }
    destruct Hq' as (H1 & H2 & H3 & H4). unfold inv_lock. simpl. split_and!; naive_solver.
Qed.

Lemma lookup_wake (ws : list (wpc T)) i w :
  map wake ws !! i = Some w -> exists v, ws !! i = Some v /\ w = wake v.
Proof using. rewrite list_lookup_fmap. intros (v & ? & ->)%fmap_Some. eauto. Qed.

Lemma inv_lock_shutdown p q : inv_lock p -> Shutdown p = Some q -> inv_lock q.
Proof using.
  intros (H1 & H2 & H3 & H4) H. unfold Shutdown in H. destruct (shutdown p) eqn:Hs; try done.
  - injection H as <-. unfold inv_lock. simpl. split_and!; naive_solver.
  - injection H as <-. unfold inv_lock. simpl. rewrite length_map. split_and!; [|naive_solver..].
    intros i w (v & Hv & ->)%lookup_wake. rewrite <- (H1 i v Hv). by destruct v.
  - destruct (workers_ p !! k) as [[]|]; try done; injection H as <-;
      unfold inv_lock; simpl; split_and!; naive_solver.
  - apply with_lock_Some in H as [Hm ->]. rewrite Hm in *. unfold inv_lock. simpl.
    split_and!; [|done|naive_solver..]. intros i w Hw. specialize (H1 i w Hw). naive_solver.
  - injection H as <-. assert (Hm : queue_mutex_ p = Some OShutdown) by (by apply H4).
    rewrite Hm in *. unfold inv_lock. simpl. split_and!; [|done|naive_solver..].
    intros i w Hw. specialize (H1 i w Hw). naive_solver.
Qed.

Lemma inv_lock_spurious p q i : inv_lock p -> spurious_wake i p = Some q -> inv_lock q.
Proof using. intros Hinv [Hw ->]%spurious_wake_Some. by apply (lock_worker_keep p _ i _ WWake Hinv Hw). Qed.

Lemma inv_lock_step p q : inv_lock p -> step p q -> inv_lock q.
Proof using.
  intros Hinv H. revert Hinv.
  destruct H; eauto using inv_lock_worker, inv_lock_submit, inv_lock_shutdown, inv_lock_spurious.
Qed.

(** ** Tasks *)

Lemma perm_update (f : wpc T -> list T) p i w w' :
  workers_ p !! i = Some w -> exists k,
    flat_map f (workers_ p) ≡ₚ f w ++ k /\
    flat_map f (<[i := w']> (workers_ p)) ≡ₚ f w' ++ k.
Proof using.
  intros (k & E1 & E2)%(fun H => insert_perm _ _ _ w' H). exists (flat_map f k).
  by split; [rewrite E1|rewrite E2].
Qed.

(** A step that changes worker [i] and neither takes nor finishes a task. *)
Lemma tasks_worker_idle p q i w w' :
  inv_tasks p -> workers_ p !! i = Some w ->
  in_flight w' = in_flight w -> counted w' = counted w ->
  workers_ q = <[i := w']> (workers_ p) -> tasks_ q = tasks_ p -> submitted q = submitted p ->
  started q = started p -> finished q = finished p -> dropped q = dropped p ->
  active_tasks_ q = active_tasks_ p -> shutdown q = shutdown p -> inv_tasks q.
Proof using.
  intros (H1 & H2 & H3 & H4) Hw Hf Hc Hws Ht Hsub Hst Hfin Hd Ha Hs. unfold inv_tasks.
  rewrite Hws, Ht, Hsub, Hst, Hfin, Hd, Ha, Hs.
  destruct (perm_update in_flight p i w w' Hw) as (k1 & E1 & E1').
  destruct (perm_update counted p i w w' Hw) as (k2 & E2 & E2').
  split_and!; [done| | |done].
  - by rewrite H2, E1, E1', Hf.
  - by rewrite H3, E2, E2', Hc.
Qed.

(** A pool with a worker that has not finished has dropped nothing. *)
Lemma live_worker p i w :
  inv_stop p -> workers_ p !! i = Some w -> w <> WDone -> shutdown p <> SReturned.
Proof using.
  intros (_ & _ & H & _) Hw Hne Hs. rewrite Hs in H. rewrite Forall_lookup in H. eauto.
Qed.

Lemma inv_tasks_worker p q i :
  inv_stop p -> inv_tasks p -> WorkerThread i p = Some q -> inv_tasks q.
Proof using.
  intros Hstop Hinv H. unfold WorkerThread in H.
  destruct (workers_ p !! i) as [w|] eqn:Hw; [|done].
  assert (Hidle : forall q w', in_flight w' = in_flight w -> counted w' = counted w ->
    workers_ q = <[i := w']> (workers_ p) -> tasks_ q = tasks_ p -> submitted q = submitted p ->
    started q = started p -> finished q = finished p -> dropped q = dropped p ->
    active_tasks_ q = active_tasks_ p -> shutdown q = shutdown p -> inv_tasks q)
    by (intros; by eapply tasks_worker_idle).
  assert (Hupd : forall w', exists k1 k2,
    (flat_map in_flight (workers_ p) ≡ₚ in_flight w ++ k1 /\
     flat_map in_flight (<[i := w']> (workers_ p)) ≡ₚ in_flight w' ++ k1) /\
    (flat_map counted (workers_ p) ≡ₚ counted w ++ k2 /\
     flat_map counted (<[i := w']> (workers_ p)) ≡ₚ counted w' ++ k2)).
  { intros w'. destruct (perm_update in_flight p i w w' Hw) as (k1 & ?).
    destruct (perm_update counted p i w w' Hw) as (k2 & ?). eauto. }
  destruct w; try done.
  - injection H as <-. destruct (stopping_ p); [by apply (Hidle _ WDone)|by apply (Hidle _ WLock)].
  - apply with_lock_Some in H as [_ ->]. by apply (Hidle _ WPred).
  - injection H as <-. destruct (_ || _); [by apply (Hidle _ WLocked)|by apply (Hidle _ WToWait)].
  - injection H as <-. by apply (Hidle _ WWaiting).
  - apply with_lock_Some in H as [_ ->]. by apply (Hidle _ WPred).
  - destruct (tasks_ p) as [|t ts] eqn:Ht; injection H as <-.
    { destruct (stopping_ p); [by apply (Hidle _ WDone)|by apply (Hidle _ WTop)]. }
    destruct (Hupd (WRun t)) as (k1 & k2 & [E1 E1'] & [E2 E2']).
    destruct Hinv as (H1 & H2 & H3 & H4). unfold inv_tasks. simpl. rewrite E1', E2'.
    rewrite Ht in H1. rewrite H4 in * by (by eapply live_worker). split_and!; [| | |done].
    + by rewrite H1, <- app_assoc.
    + rewrite H2, E1. simpl. rewrite <- app_assoc. f_equiv. by rewrite Permutation_app_comm.
    + by rewrite H3, E2.
  - injection H as <-. destruct (Hupd (WRunning t)) as (k1 & k2 & [E1 E1'] & [E2 E2']).
    destruct Hinv as (H1 & H2 & H3 & H4). unfold inv_tasks. simpl. rewrite E1', E2'.
    split_and!; [done|by rewrite H2, E1| |done]. rewrite H3, E2. simpl. zlens.
  - injection H as <-. destruct (Hupd (WEnded t)) as (k1 & k2 & [E1 E1'] & [E2 E2']).
    destruct Hinv as (H1 & H2 & H3 & H4). unfold inv_tasks. simpl. rewrite E1', E2'.
    split_and!; [done| |by rewrite H3, E2|done]. rewrite H2, E1. by rewrite <- app_assoc.
  - injection H as <-. destruct (Hupd WTop) as (k1 & k2 & [E1 E1'] & [E2 E2']).
    destruct Hinv as (H1 & H2 & H3 & H4). unfold inv_tasks. simpl. rewrite E1', E2'.
    split_and!; [done|by rewrite H2, E1| |done]. rewrite H3, E2. simpl. zlens.
Qed.

Lemma inv_tasks_spurious p q i : inv_tasks p -> spurious_wake i p = Some q -> inv_tasks q.
Proof using.
  intros Hinv [Hw ->]%spurious_wake_Some. by apply (tasks_worker_idle p _ i _ WWake Hinv Hw).
Qed.

Lemma flat_map_wake {B} (f : wpc T -> list B) ws :
  f WWake = f WWaiting -> flat_map f (map wake ws) = flat_map f ws.
Proof using.
  intros H. induction ws as [|w ws IH]; [done|]. simpl. rewrite IH. f_equal.
  by destruct w.
Qed.

Lemma inv_tasks_submit p q t j :
  inv_stop p -> inv_tasks p -> Submit t j p = Some q -> inv_tasks q.
Proof using.
  intros Hstop Hinv H. unfold Submit in H. destruct (submitter p) as [|u|u|].
  - injection H as <-. by destruct (stopping_ p).
  - by apply with_lock_Some in H as [_ ->].
  - injection H as <-. destruct (stopping_ p) eqn:Es; [done|].
    destruct Hinv as (H1 & H2 & H3 & H4). unfold inv_tasks. simpl. split_and!; [|done..].
    by rewrite H1, !app_assoc.
  - destruct (notify_one j p) as [q'|] eqn:E; [|done]. injection H as <-.
    assert (inv_tasks q'); [|done].
    apply notify_one_Some in E as [[_ ->]|[Hw ->]]; [done|].
    by apply (tasks_worker_idle p _ j _ WWake Hinv Hw).
Qed.

Lemma inv_tasks_shutdown p q : inv_tasks p -> Shutdown p = Some q -> inv_tasks q.
Proof using.
  intros (H1 & H2 & H3 & H4) H. unfold Shutdown in H. unfold inv_tasks.
  destruct (shutdown p) as [| |k| | |]; try done.
  - injection H as <-. simpl. split_and!; auto.
  - injection H as <-. simpl. rewrite !flat_map_wake by done. split_and!; auto.
  - destruct (workers_ p !! k) as [[]|]; try done; injection H as <-; simpl; split_and!; auto.
  - apply with_lock_Some in H as [_ ->]. simpl. split_and!; auto.
  - injection H as <-. simpl. rewrite app_nil_r. by rewrite H1.
Qed.

(** ** Stopping *)

Lemma inv_stop_worker p q i : inv_stop p -> WorkerThread i p = Some q -> inv_stop q.
Proof using.
  intros (H1 & H2 & H3 & H4) H.
  assert (exists w w', workers_ p !! i = Some w /\ w <> WDone /\
    workers_ q = <[i := w']> (workers_ p) /\ shutdown q = shutdown p /\
    stopping_ q = stopping_ p /\ (w' = WDone -> stopping_ p = true) /\
    (tasks_ p = [] -> tasks_ q = [])) as (w & w' & Hw & Hne & Hws & Hs & Hst & Hd & Ht).
  { unfold WorkerThread in H. destruct (workers_ p !! i) as [w|] eqn:Hw; [|done].
    exists w. destruct w; try done; try (apply with_lock_Some in H as [_ ->]; by eexists _).
    all: try (destruct (tasks_ p) eqn:E); injection H as <-; eexists; split_and!;
      try done; try (by destruct (stopping_ p)); try (by destruct (_ || _)). }
  unfold inv_stop. rewrite Hws, Hs, Hst. split_and!; [done| | |auto].
  - intros j [(_ & E & _)|(_ & Hj)]%list_lookup_insert_Some; [auto|eauto].
  - destruct (shutdown p) as [| |k| | |]; try done.
    + intros j v Hjk [(<- & _ & _)|(_ & Hj)]%list_lookup_insert_Some; [|eauto].
      by destruct (Hne (H3 i w Hjk Hw)).
    + rewrite Forall_lookup in H3. by destruct (Hne (H3 i w Hw)).
    + rewrite Forall_lookup in H3. by destruct (Hne (H3 i w Hw)).
    + rewrite Forall_lookup in H3. by destruct (Hne (H3 i w Hw)).
Qed.
(** Waking a worker. *)
Lemma inv_stop_wake p q i :
  inv_stop p -> workers_ p !! i = Some WWaiting -> workers_ q = <[i := WWake]> (workers_ p) ->
  shutdown q = shutdown p -> stopping_ q = stopping_ p -> tasks_ q = tasks_ p -> inv_stop q.
Proof using.
  intros (H1 & H2 & H3 & H4) Hw Hws Hs Hst Ht. unfold inv_stop. rewrite Hws, Hs, Hst, Ht.
  split_and!; [done| | |done].
  - intros j [(_ & [=] & _)|(_ & Hj)]%list_lookup_insert_Some. eauto.
  - destruct (shutdown p) as [| |k| | |]; try done.
    1: { intros j v Hjk [(<- & _ & _)|(_ & Hj)]%list_lookup_insert_Some; [|eauto].
         by specialize (H3 i _ Hjk Hw). }
    all: rewrite Forall_lookup in H3; by specialize (H3 i _ Hw).
Qed.

Lemma inv_stop_submit p q t j : inv_stop p -> Submit t j p = Some q -> inv_stop q.
Proof using.
  intros Hinv H. unfold Submit in H. destruct (submitter p) as [|u|u|].
  - injection H as <-. by destruct (stopping_ p).
  - by apply with_lock_Some in H as [_ ->].
  - injection H as <-. destruct Hinv as (H1 & H2 & H3 & H4).
    destruct (stopping_ p) eqn:Es; unfold inv_stop; simpl; rewrite Es; [done|].
    split_and!; try done. intros Hs. assert (false = true); [|done]. apply H1. by rewrite Hs.
  - destruct (notify_one j p) as [q'|] eqn:E; [|done]. injection H as <-.
    assert (inv_stop q'); [|done].
    apply notify_one_Some in E as [[_ ->]|[Hw ->]]; [done|]. by apply (inv_stop_wake p _ j).
Qed.

Lemma inv_stop_shutdown p q : inv_stop p -> Shutdown p = Some q -> inv_stop q.
Proof using.
  intros (H1 & H2 & H3 & H4) H. unfold Shutdown in H. unfold inv_stop.
  destruct (shutdown p) as [| |k| | |] eqn:Hs; try done.
  - injection H as <-. simpl. split_and!; naive_solver.
  - injection H as <-. simpl. split_and!; [naive_solver| |lia|done].
    intros i (v & Hv & E)%lookup_wake. destruct v; try done. eauto.
  - destruct (workers_ p !! k) as [w|] eqn:Hk.
    + destruct w; try done. injection H as <-. simpl. split_and!; [naive_solver|done| |done].
      intros i w Hi Hw. destruct (decide (i = k)) as [-> |]; [congruence|].
      apply (H3 i); [lia|done].
    + injection H as <-. simpl. split_and!; [naive_solver|done| |done].
      apply Forall_lookup. intros i w Hw. apply (H3 i); [|done].
      apply lookup_lt_Some in Hw. apply lookup_ge_None in Hk. lia.
  - apply with_lock_Some in H as [_ ->]. simpl. split_and!; naive_solver.
  - injection H as <-. simpl. split_and!; naive_solver.
Qed.

(** ** Waking *)

Lemma inv_wake_worker p q i :
  inv_lock p -> inv_wake p -> WorkerThread i p = Some q -> inv_wake q.
Proof using.
  intros (Hl & _) (H1 & H2) H. unfold WorkerThread in H.
  destruct (workers_ p !! i) as [w|] eqn:Hw; [|done].
  (* the step leaves a worker that is still awake, or the queue empty *)
  assert (Hgo : forall q w', workers_ q = <[i := w']> (workers_ p) -> w' <> WToWait -> awake w' ->
    (tasks_ q = tasks_ p \/ exists t, tasks_ p = t :: tasks_ q /\ holds_lock w) -> inv_wake q).
  { intros q0 w' Hws Hnw Haw Ht. split.
    - intros j. rewrite Hws. intros [(_ & E & _)|(Hij & Hj)]%list_lookup_insert_Some; [done|].
      destruct Ht as [-> |(t & _ & Hh)]; [by eapply H1|].
      apply (Hl i w Hw) in Hh. pose proof (proj1 (Hl j WToWait Hj) I). congruence.
    - intros _ _. right. exists i, w'. split; [|done]. rewrite Hws.
      apply list_lookup_insert_eq. by eapply lookup_lt_Some. }
  destruct w; try done.
  - injection H as <-. destruct (stopping_ p) eqn:Es; [|(apply (Hgo _ WLock); try done; by left)].
    split; simpl; [|by rewrite Es].
    intros j [(_ & [=] & _)|(_ & Hj)]%list_lookup_insert_Some. eauto.
  - apply with_lock_Some in H as [_ ->]. (apply (Hgo _ WPred); try done; by left).
  - injection H as <-. destruct (_ || _) eqn:E; [(apply (Hgo _ WLocked); try done; by left)|].
    bool_cases. assert (tasks_ p = []) as Ht by (by apply nil_length_inv).
    split; simpl; by rewrite Ht.
  - injection H as <-. assert (Ht : tasks_ p = []) by eauto. split; simpl; by rewrite Ht.
  - apply with_lock_Some in H as [_ ->]. (apply (Hgo _ WPred); try done; by left).
  - destruct (tasks_ p) as [|t ts] eqn:Ht; injection H as <-.
    + split; simpl; by rewrite Ht.
    + apply (Hgo _ (WRun t)); try done. right. by exists t.
  - injection H as <-. (apply (Hgo _ (WRunning t)); try done; by left).
  - injection H as <-. (apply (Hgo _ (WEnded t)); try done; by left).
  - injection H as <-. (apply (Hgo _ WTop); try done; by left).
Qed.

Lemma inv_wake_set_wake p q i :
  inv_wake p -> workers_ p !! i = Some WWaiting -> workers_ q = <[i := WWake]> (workers_ p) ->
  tasks_ q = tasks_ p -> inv_wake q.
Proof using.
  intros (H1 & H2) Hw Hws Ht. unfold inv_wake. rewrite Hws, Ht. split.
  - intros j [(_ & [=] & _)|(_ & Hj)]%list_lookup_insert_Some. eauto.
  - intros _ _. right. exists i, WWake. split; [|done].
    apply list_lookup_insert_eq. by eapply lookup_lt_Some.
Qed.

(** [notify_one] without a waiting worker: some worker is awake already. *)
Lemma inv_wake_submit p q t j :
  inv_lock p -> inv_stop p -> inv_wake p -> workers_ p <> [] ->
  Submit t j p = Some q -> inv_wake q.
Proof using.
  intros (Hl & _ & Hlu & _) (_ & Hdone & _) (H1 & H2) Hne H. unfold Submit in H.
  destruct (submitter p) as [|u|u|] eqn:Hu.
  - injection H as <-. unfold inv_wake.
    destruct (stopping_ p) eqn:Es; simpl; (split; [done|]); [by rewrite Es|].
    intros _ Ht. right. destruct (H2 eq_refl Ht) as [?|?]; [congruence|done].
  - apply with_lock_Some in H as [_ ->]. split; simpl; [done|].
    intros Hs Ht. right. destruct (H2 Hs Ht) as [?|?]; [congruence|done].
  - injection H as <-. assert (Hm : queue_mutex_ p = Some OSubmit) by (apply Hlu; eauto).
    assert (Hno : forall i, workers_ p !! i <> Some WToWait).
    { intros i Hi. pose proof (proj1 (Hl i WToWait Hi) I). congruence. }
    destruct (stopping_ p) eqn:Es; split; simpl.
    + intros i Hi. by destruct (Hno i).
    + by rewrite Es.
    + intros i Hi. by destruct (Hno i).
    + by left.
  - destruct (notify_one j p) as [q'|] eqn:E; [|done]. injection H as <-.
    apply notify_one_Some in E as [[Hnow ->]|[Hw ->]].
    + split; [done|]. simpl. intros Hs Ht. right.
      destruct (workers_ p) as [|w ws] eqn:Ews; [done|]. exists 0%nat, w. split; [done|].
      destruct w; try done.
      * by rewrite (H1 0%nat eq_refl) in Ht.
      * by destruct (Hnow 0%nat WWaiting eq_refl).
      * by rewrite (Hdone 0%nat eq_refl) in Hs.
    + apply (inv_wake_set_wake p _ j); try done. split; [done|by left].
Qed.

Lemma inv_wake_shutdown p q : inv_stop p -> inv_wake p -> Shutdown p = Some q -> inv_wake q.
Proof using.
  intros (Hst & _) (H1 & H2) H. unfold Shutdown in H.
  destruct (shutdown p) as [| |k| | |] eqn:Hs; try done.
  - injection H as <-. split; simpl; [done|discriminate].
  - injection H as <-. split; simpl.
    + intros i (v & Hv & E)%lookup_wake. destruct v; try done. eauto.
    + rewrite (proj2 Hst) by done. discriminate.
  - destruct (workers_ p !! k) as [[]|]; try done; by injection H as <-.
  - by apply with_lock_Some in H as [_ ->].
  - injection H as <-. split; simpl; done.
Qed.
(** ** Reachable states *)

Definition pool_inv p : Prop :=
  inv_lock p /\ inv_tasks p /\ inv_stop p /\ inv_wake p /\ workers_ p <> [] /\
  zlen (workers_ p) <= 64.

Lemma workers_length p q : step p q -> length (workers_ q) = length (workers_ p).
Proof using.
  intros [i p0 p' H|t j p0 p' H|p0 p' H|i p0 p' H].
  - unfold WorkerThread in H. destruct (workers_ p0 !! i) as [[]|]; try done;
      try (apply with_lock_Some in H as [_ ->]); try (destruct (tasks_ p0));
      try injection H as <-; simpl; by rewrite length_insert.
  - unfold Submit in H. destruct (submitter p0).
    + injection H as <-. by destruct (stopping_ p0).
    + by apply with_lock_Some in H as [_ ->].
    + injection H as <-. by destruct (stopping_ p0).
    + destruct (notify_one j p0) as [q'|] eqn:E; [|done]. injection H as <-.
      apply notify_one_Some in E as [[_ ->]|[_ ->]]; [done|]. simpl. by rewrite length_insert.
  - unfold Shutdown in H. destruct (shutdown p0); try done.
    + by injection H as <-.
    + injection H as <-. simpl. by rewrite length_map.
    + destruct (workers_ p0 !! k) as [[]|]; try done; by injection H as <-.
    + by apply with_lock_Some in H as [_ ->].
    + by injection H as <-.
  - apply spurious_wake_Some in H as [_ ->]. simpl. by rewrite length_insert.
Qed.

Lemma pool_inv_step p q : pool_inv p -> step p q -> pool_inv q.
Proof using.
  intros (Hl & Ht & Hs & Hw & Hne & Hn) H.
  pose proof (inv_lock_step _ _ Hl H) as Hl'. pose proof (workers_length _ _ H) as Hlen.
  assert (Hrest : inv_tasks q /\ inv_stop q /\ inv_wake q).
  { revert Hl Ht Hs Hw Hne.
    destruct H as [i p p' H|t j p p' H|p p' H|i p p' H]; intros Hl Ht Hs Hw Hne.
    - split_and!; [by eapply inv_tasks_worker|by eapply inv_stop_worker|by eapply inv_wake_worker].
    - split_and!; [by eapply inv_tasks_submit|by eapply inv_stop_submit|by eapply inv_wake_submit].
    - split_and!;
        [by eapply inv_tasks_shutdown|by eapply inv_stop_shutdown|by eapply inv_wake_shutdown].
    - apply spurious_wake_Some in H as Hq. destruct Hq as [Hi ->]. split_and!.
      + by eapply inv_tasks_spurious.
      + by apply (inv_stop_wake p _ i).
      + by apply (inv_wake_set_wake p _ i). }
  destruct Hrest as (? & ? & ?). split_and!; try done.
  - intros E. rewrite E in Hlen. destruct (workers_ p); done.
  - unfold zlen in *. lia.
Qed.

Lemma pool_inv_reachable h n p : reachable (TftpThreadPool h n) p -> pool_inv p.
Proof using.
  induction 1 as [|p p' _ IH Hs]; [|by eapply pool_inv_step].
  pose proof (inv_init h n) as (? & ? & ? & ?). split_and!; try done; simpl.
  - pose proof (thread_count_range h n). destruct (Z.to_nat (thread_count h n)) eqn:E; [lia|done].
  - unfold zlen. rewrite length_replicate. pose proof (thread_count_range h n). lia.
Qed.

(** In every reachable state at most one thread is in a section guarded by
    [queue_mutex_]: two workers there are the same worker, and neither
    [Submit] nor the clearing of [Shutdown] is in its section. *)
Lemma pool_mutual_exclusion h n p i w :
  reachable (TftpThreadPool h n) p -> workers_ p !! i = Some w -> holds_lock w ->
  (forall j v, workers_ p !! j = Some v -> holds_lock v -> j = i) /\
  (forall t, submitter p <> ULocked t) /\ shutdown p <> SClearLocked.
Proof using.
  intros ((Hl & _ & Hu & Hs) & _)%pool_inv_reachable Hw Hh.
  apply (Hl i w Hw) in Hh as Hm. rewrite Hm in *. split_and!.
  - intros j v Hj Hv. pose proof (proj1 (Hl j v Hj) Hv). congruence.
  - intros t Ht. assert (Some (OWorker i) = Some OSubmit) by (apply Hu; eauto). done.
  - intros Hc. assert (Some (OWorker i) = Some OShutdown) by (by apply Hs). done.
Qed.

(** C9: in every interleaving tasks are started in the order they were submitted,
    each once: the submitted tasks are the started ones, then the dropped ones,
    then those in the queue; the started ones are the finished ones and those
    that a worker is running.  [active_tasks_] is the number of workers between
    the two updates of it, at most 64, so it never wraps around. *)
Theorem pool_runs_tasks_in_order h n p :
  reachable (TftpThreadPool h n) p ->
  submitted p = started p ++ dropped p ++ tasks_ p /\
  started p ≡ₚ finished p ++ flat_map in_flight (workers_ p) /\
  GetActiveTaskCount p = zlen (flat_map counted (workers_ p)) /\
  0 <= GetActiveTaskCount p <= 64 /\
  (shutdown p <> SReturned -> dropped p = []).
Proof using.
  intros (_ & (H1 & H2 & H3 & H4) & _ & _ & _ & Hn)%pool_inv_reachable. split_and!; try done.
  - unfold GetActiveTaskCount. rewrite H3. zlens.
  - unfold GetActiveTaskCount. rewrite H3. etransitivity; [|exact Hn]. clear.
    induction (workers_ p) as [|w ws IH]; [done|]. simpl. rewrite zlen_app, zlen_cons.
    assert (zlen (counted w) <= 1) by (by destruct w). lia.
Qed.

(** C11: when [Shutdown] returns, every worker has ended, no task is queued or
    running, every started task has finished, and the tasks that were never
    started are exactly the last ones submitted. *)
Theorem pool_shutdown_complete h n p :
  reachable (TftpThreadPool h n) p -> shutdown p = SReturned ->
  Forall (fun w => w = WDone) (workers_ p) /\ tasks_ p = [] /\ active_tasks_ p = 0 /\
  submitted p = started p ++ dropped p /\ started p ≡ₚ finished p.
Proof using.
  intros (_ & (H1 & H2 & H3 & _) & (_ & _ & H4 & H5) & _)%pool_inv_reachable Hs.
  rewrite Hs in H4. specialize (H5 Hs). rewrite H5, app_nil_r in H1.
  assert (Hnil : forall f : wpc T -> list T, f WDone = [] -> flat_map f (workers_ p) = []).
  { intros f Hf. induction H4 as [|w ws -> _ IH]; [done|]. simpl. by rewrite Hf, IH. }
  rewrite Hnil in H2, H3 by done. rewrite app_nil_r in H2. done.
Qed.

(** The owner of the lock is never blocked. *)
Lemma owner_moves p i :
  inv_lock p -> queue_mutex_ p = Some (OWorker i) -> exists q, WorkerThread i p = Some q.
Proof using.
  intros (Hl & Hlen & _) Hm. apply Hlen in Hm as Hi. apply lookup_lt_is_Some in Hi as [w Hw].
  apply (Hl i w Hw) in Hm. unfold WorkerThread. rewrite Hw. destruct w; try done; eauto.
  destruct (tasks_ p); eauto.
Qed.

(** C10: while the pool is running and a task is queued, some thread can make a
    step of its own program, without waiting for a spurious wake-up: no
    notification of a submitted task is lost. *)
Theorem pool_progress h n p :
  reachable (TftpThreadPool h n) p -> stopping_ p = false -> tasks_ p <> [] ->
  (exists i q, WorkerThread i p = Some q) \/
  (submitter p <> UIdle /\ forall t, exists j q, Submit t j p = Some q).
Proof using.
  intros (Hl & _ & (Hst & _) & (_ & Hw) & _)%pool_inv_reachable Hs Ht.
  destruct (queue_mutex_ p) as [[i| |]|] eqn:Hm.
  - left. exists i. by apply owner_moves.
  - right. destruct Hl as (_ & _ & [_ Hu] & _). destruct (Hu Hm) as [t E].
    rewrite E. split; [done|]. intros t'. unfold Submit. rewrite E. exists 0%nat. eauto.
  - destruct Hl as (_ & _ & _ & [_ Hu]). assert (stopping_ p = true); [|congruence].
    apply Hst. by rewrite (Hu Hm).
  - destruct (Hw Hs Ht) as [Hu|(i & w & Hi & Ha)].
    + right. rewrite Hu. split; [done|]. intros t. unfold Submit, notify_one. rewrite Hu.
      destruct (existsb is_waiting (workers_ p)) eqn:E; [|by exists 0%nat; eauto].
      apply existsb_exists in E as (w & Hin & Hwait).
      apply list_elem_of_In, list_elem_of_lookup in Hin as [j Hj].
      exists j. unfold spurious_wake. rewrite Hj. destruct w; try done. eauto.
    + left. exists i. unfold WorkerThread, with_lock. rewrite Hi, Hm.
      destruct w; try done; eauto. destruct (tasks_ p); eauto.
Qed.

(** ** A shutdown that does not end *)

(** No thread can move except by a spurious wake-up, and [Submit] only throws. *)
Definition deadlocked p : Prop :=
  (forall i, WorkerThread i p = None) /\ Shutdown p = None /\
  submitter p = UIdle /\ stopping_ p = true /\ shutdown p <> SReturned.

Definition lost_wakeup : pool T :=
  Pool [] true 0 None [WWaiting] UIdle (SJoining 0) [] [] [] [] [].

(** C28: [Shutdown] sets [stopping_] and notifies without holding [queue_mutex_]:
    when a worker has found nothing to do and not yet begun to wait, it misses
    the notification, and [Shutdown] waits for it for ever. *)
Theorem pool_shutdown_deadlock h :
  reachable (TftpThreadPool h 1) lost_wakeup /\ deadlocked lost_wakeup.
Proof using.
  split; [|split_and!; try done; by intros [|[|]]].
  eapply (schedule_reachable [TWorker 0; TWorker 0; TWorker 0; TShutdown; TShutdown; TWorker 0]);
    [apply reach_init|done].
Qed.
End facts.

(** ** Witnesses *)

(** One worker takes the first of two tasks; then the pool is shut down. *)
Definition busy_turns : list (turn Z) :=
  [TSubmit 10 0; TSubmit 0 0; TSubmit 0 0; TSubmit 0 0;
   TSubmit 20 0; TSubmit 0 0; TSubmit 0 0;
   TWorker 0; TWorker 0].
Definition busy_pool : pool Z :=
  default (TftpThreadPool 8 1) (schedule busy_turns (TftpThreadPool 8 1)).

Definition closing_turns : list (turn Z) :=
  [TWorker 0; TWorker 0; TWorker 0; TWorker 0; TWorker 0; TShutdown; TShutdown;
   TWorker 0; TShutdown; TShutdown; TShutdown; TShutdown].
Definition closed_pool : pool Z := default busy_pool (schedule closing_turns busy_pool).

Lemma busy_reachable : reachable (TftpThreadPool 8 1) busy_pool.
Proof.
  assert (E : schedule busy_turns (TftpThreadPool 8 1) = Some busy_pool) by (by vm_compute).
  exact (schedule_reachable _ _ _ _ (reach_init _) E).
Qed.

Lemma closed_reachable : reachable (TftpThreadPool 8 1) closed_pool.
Proof.
  assert (E : schedule closing_turns busy_pool = Some closed_pool) by (by vm_compute).
  exact (schedule_reachable _ _ _ _ busy_reachable E).
Qed.

Lemma pool_mutual_exclusion_witness :
  (forall j v, workers_ busy_pool !! j = Some v -> holds_lock v -> j = 0%nat) /\
  (forall t, submitter busy_pool <> ULocked t) /\ shutdown busy_pool <> SClearLocked.
Proof. by apply (pool_mutual_exclusion 8 1 busy_pool 0 WPred busy_reachable). Defined.

Lemma pool_runs_tasks_in_order_witness :
  submitted closed_pool = [10; 20] /\ started closed_pool = [10] /\
  dropped closed_pool = [20] /\
  (submitted closed_pool = started closed_pool ++ dropped closed_pool ++ tasks_ closed_pool /\
   started closed_pool ≡ₚ finished closed_pool ++ flat_map in_flight (workers_ closed_pool) /\
   GetActiveTaskCount closed_pool = zlen (flat_map counted (workers_ closed_pool)) /\
   0 <= GetActiveTaskCount closed_pool <= 64 /\
   (shutdown closed_pool <> SReturned -> dropped closed_pool = [])).
Proof.
  split; [done|]. split; [done|]. split; [done|].
  exact (pool_runs_tasks_in_order 8 1 closed_pool closed_reachable).
Defined.

Lemma pool_shutdown_complete_witness :
  shutdown closed_pool = SReturned /\
  (Forall (fun w => w = WDone) (workers_ closed_pool) /\ tasks_ closed_pool = [] /\
   active_tasks_ closed_pool = 0 /\
   submitted closed_pool = started closed_pool ++ dropped closed_pool /\
   started closed_pool ≡ₚ finished closed_pool).
Proof. split; [done|]. by apply (pool_shutdown_complete 8 1 closed_pool closed_reachable). Defined.

Lemma pool_progress_witness :
  (exists i q, WorkerThread i busy_pool = Some q) \/
  (submitter busy_pool <> UIdle /\ forall t, exists j q, Submit t j busy_pool = Some q).
Proof. by apply (pool_progress 8 1 busy_pool busy_reachable). Defined.
