(* ===== verification/Net.v ===== *)
(** * The operating system the server runs on

    The server's handlers call [socket], [setsockopt], [bind], [sendto],
    [select], [recvfrom], [close], sleep, and the two file callbacks.  [IO] is a state
    monad with exceptions over a [world] that holds what those calls will
    answer, as arbitrary scripts, and the trace of the calls made.  The
    theorems quantify over the scripts, so they hold for every network. *)

From Stdlib Require Import ZArith Lia Strings.Byte.
From stdpp Require Import base tactics numbers list gmap strings.
From S2P Require Import Prelude Common.

Record sockaddr_in := SockAddr {
  sin_addr : Z;
  sin_port : Z;
}.

#[global] Instance sockaddr_in_eq_dec : EqDecision sockaddr_in.
Proof. solve_decision. Defined.

(** What a [select] and the [recvfrom] after it find. *)
Inductive rx_event :=
  | RxTimeout
  | RxSelectError
  | RxRecvError
  | RxDatagram (from : sockaddr_in) (payload : bytes).

(** The calls of a run, oldest first.  [EvOutOfFuel] is not a call: it is left
    by a loop that was stopped by the bound of its definition and not by itself,
    which the theorems exclude. *)
Inductive event :=
  | EvSocket (ret : Z)
  | EvBind (sock : Z) (addr : sockaddr_in) (ok : bool)
  | EvSendto (sock : Z) (dst : sockaddr_in) (payload : bytes) (ret : Z)
  | EvSetsockopt (sock : Z) (reuse : Z) (ret : Z)   (* [SO_REUSEADDR] *)
  | EvSelect (nfds sock : Z) (tv_sec tv_usec : Z)
  | EvRecvfrom (sock : Z) (from : sockaddr_in) (payload : bytes)
  | EvSleep (ms : Z)
  | EvRead (path : bytes)
  | EvWrite (path data : bytes)
  | EvClose (sock : Z)
  | EvOutOfFuel.

Section io.
Context {FS : Type}.

Record world := World {
  w_socket : list Z;              (* results of [socket]; then -1 *)
  w_bind : sockaddr_in -> bool;   (* whether an address can be bound *)
  w_tx : list Z;                  (* results of [sendto]; then complete sends *)
  w_rx : list rx_event;           (* arrivals; then silence *)
  w_fs : FS;
  w_trace : list event;
}.

Definition IO (A : Type) : Type := world -> res A * world.

#[global] Instance io_ret : MRet IO := fun A a w => (Ok a, w).
#[global] Instance io_bind : MBind IO := fun A B f m w =>
  match m w with
  | (Ok a, w') => f a w'
  | (Throw e, w') => (Throw e, w')
  end.

Definition lift_res {A} (r : res A) : IO A := fun w => (r, w).

Definition catch_all (m : IO unit) : IO unit := fun w =>
  match m w with
  | (Ok a, w') => (Ok a, w')
  | (Throw _, w') => (Ok tt, w')
  end.

Definition add_event (e : event) (w : world) : world :=
  World (w_socket w) (w_bind w) (w_tx w) (w_rx w) (w_fs w) (w_trace w ++ [e]).

Definition os_socket : IO Z := fun w =>
  match w_socket w with
  | [] => (Ok (-1), add_event (EvSocket (-1)) w)
  | r :: rs =>
      (Ok r, add_event (EvSocket r)
               (World rs (w_bind w) (w_tx w) (w_rx w) (w_fs w) (w_trace w)))
  end.

(** 0 or -1. *)
Definition os_bind (sock : Z) (addr : sockaddr_in) : IO Z := fun w =>
  (Ok (if w_bind w addr then 0 else -1), add_event (EvBind sock addr (w_bind w addr)) w).

(** [setsockopt] of [SO_REUSEADDR] to [reuse]; [ret] is its answer. *)
Definition os_setsockopt (sock reuse ret : Z) : IO Z := fun w =>
  (Ok ret, add_event (EvSetsockopt sock reuse ret) w).

Definition os_close (sock : Z) : IO unit := fun w => (Ok tt, add_event (EvClose sock) w).

Definition os_sleep (ms : Z) : IO unit := fun w => (Ok tt, add_event (EvSleep ms) w).

(** The number of bytes sent, or a negative error value. *)
Definition os_sendto (sock : Z) (data : bytes) (addr : sockaddr_in) : IO Z := fun w =>
  match w_tx w with
  | [] => (Ok (zlen data), add_event (EvSendto sock addr data (zlen data)) w)
  | r :: rs =>
      (Ok r, add_event (EvSendto sock addr data r)
               (World (w_socket w) (w_bind w) rs (w_rx w) (w_fs w) (w_trace w)))
  end.

(** Positive when a datagram (or a pending error) can be read, 0 at the
    timeout, -1 on error.  What was found stays for [recvfrom]. *)
Definition os_select (nfds sock : Z) (tv_sec tv_usec : Z) : IO Z := fun w =>
  let w1 := add_event (EvSelect nfds sock tv_sec tv_usec) w in
  let drop_rx := World (w_socket w1) (w_bind w1) (w_tx w1) (tl (w_rx w1)) (w_fs w1) (w_trace w1) in
  match w_rx w with
  | [] | RxTimeout :: _ => (Ok 0, drop_rx)
  | RxSelectError :: _ => (Ok (-1), drop_rx)
  | RxRecvError :: _ | RxDatagram _ _ :: _ => (Ok 1, w1)
  end.

(** [recvfrom] into a buffer of [cap] bytes: the sender and the bytes stored,
    [None] for a result of -1.  The part of a datagram that does not fit the
    buffer is discarded. *)
Definition os_recvfrom (sock cap : Z) : IO (option (sockaddr_in * bytes)) := fun w =>
  match w_rx w with
  | RxDatagram from payload :: rx =>
      let stored := take (Z.to_nat cap) payload in
      (Ok (Some (from, stored)),
       add_event (EvRecvfrom sock from stored)
         (World (w_socket w) (w_bind w) (w_tx w) rx (w_fs w) (w_trace w)))
  | rx => (Ok None, World (w_socket w) (w_bind w) (w_tx w) (tl rx) (w_fs w) (w_trace w))
  end.

(** [do body while] with a bound on the number of iterations: [inl] asks for
    another iteration, [inr] leaves the loop.  A loop that reaches the bound
    says so in the trace. *)
Fixpoint io_loop {S R} (fuel : nat) (body : S -> IO (S + R)) (s : S) : IO (S + R) :=
  match fuel with
  | O => fun w => (Ok (inl s), add_event EvOutOfFuel w)
  | Datatypes.S n =>
      r ← body s;
      match r with
      | inl s' => io_loop n body s'
      | inr v => mret (inr v)
      end
  end.
End io.
Arguments world : clear implicits.
Arguments IO : clear implicits.
Arguments World {FS}.

(** ** Reading traces *)

(** The datagrams that were completely handed to the network, with their
    destinations. *)
Definition sent_of (e : event) : list (sockaddr_in * bytes) :=
  match e with
  | EvSendto _ dst payload ret => if ret =? zlen payload then [(dst, payload)] else []
  | _ => []
  end.

Definition sent (t : list event) : list (sockaddr_in * bytes) := concat (map sent_of t).

Definition writes_of (e : event) : list (bytes * bytes) :=
  match e with EvWrite p d => [(p, d)] | _ => [] end.
Definition writes (t : list event) : list (bytes * bytes) := concat (map writes_of t).

Definition reads_of (e : event) : list bytes :=
  match e with EvRead p => [p] | _ => [] end.
Definition reads (t : list event) : list bytes := concat (map reads_of t).

(** The sockets a trace leaves open. *)
Definition sock_step (open : list Z) (e : event) : list Z :=
  match e with
  | EvSocket r => if r <? 0 then open else r :: open
  | EvClose s => filter (fun x => x <> s) open
  | _ => open
  end.
Definition open_socks (t : list event) : list Z := foldl sock_step [] t.

(** No loop was stopped by its bound. *)
Definition loops_end (t : list event) : Prop := EvOutOfFuel ∉ t.

Lemma loops_end_app t1 t2 : loops_end (t1 ++ t2) <-> loops_end t1 /\ loops_end t2.
Proof. unfold loops_end. rewrite elem_of_app. tauto. Qed.

Lemma sent_app t1 t2 : sent (t1 ++ t2) = sent t1 ++ sent t2.
Proof. unfold sent. by rewrite map_app, concat_app. Qed.
Lemma writes_app t1 t2 : writes (t1 ++ t2) = writes t1 ++ writes t2.
Proof. unfold writes. by rewrite map_app, concat_app. Qed.
Lemma reads_app t1 t2 : reads (t1 ++ t2) = reads t1 ++ reads t2.
Proof. unfold reads. by rewrite map_app, concat_app. Qed.

Create Rewrite HintDb tftp_trace.
#[export] Hint Rewrite sent_app writes_app reads_app : tftp_trace.
