(* ===== verification/Transfer.v ===== *)
(** * The request handlers of the server

    [src/internal/tftp_server_impl.cpp]: [SendPacket], [ReceivePacket],
    [SendError], [HandleReadRequest], [HandleWriteRequest] and [HandleClient],
    as computations of the [IO] monad.  A [config] holds the members of
    [TftpServerImpl] the handlers read. *)

From Stdlib Require Import ZArith Lia Strings.Byte.
From stdpp Require Import base tactics numbers list gmap strings.
From S2P Require Import Prelude Common Packet StdText StdPath Util Net.

Definition kMaxRetries : nat := 5.
Definition kRetryTimeoutMs : Z := 1000.

(** [htons(0)] in [sin_port], and the zero-initialised address [{}]. *)
Definition zero_addr : sockaddr_in := SockAddr 0 0.

(** The members the handlers read.  A callback sees and changes the file
    system; it answers [true] with the data or [false], or throws. *)
Record config (FS : Type) := Config {
  root_dir_ : bytes;
  secure_mode_ : bool;
  max_transfer_size_ : Z;
  timeout_seconds_ : Z;
  read_callback_ : FS -> bytes -> FS * res (option bytes);
  write_callback_ : FS -> bytes -> bytes -> FS * res bool;
}.
Arguments Config {FS}.
Arguments root_dir_ {FS}.
Arguments secure_mode_ {FS}.
Arguments max_transfer_size_ {FS}.
Arguments timeout_seconds_ {FS}.
Arguments read_callback_ {FS}.
Arguments write_callback_ {FS}.

Section handlers.
Context `{P : Platform} {FS : Type} `{F : FsOps FS}.
Implicit Types cfg : config FS.

Definition call_read cfg (path : bytes) : IO FS (option bytes) := fun w =>
  let '(fs', r) := read_callback_ cfg (w_fs w) path in
  (r, add_event (EvRead path)
        (World (w_socket w) (w_bind w) (w_tx w) (w_rx w) fs' (w_trace w))).

Definition call_write cfg (path data : bytes) : IO FS bool := fun w =>
  let '(fs', r) := write_callback_ cfg (w_fs w) path data in
  (r, add_event (EvWrite path data)
        (World (w_socket w) (w_bind w) (w_tx w) (w_rx w) fs' (w_trace w))).

(** ** Sending *)

(** The loop of [SendPacket] with [n] attempts left. *)
Fixpoint send_attempts (n : nat) (sock : Z) (addr : sockaddr_in) (data : bytes) : IO FS bool :=
  match n with
  | O => mret false
  | S n' =>
      sent_bytes ← os_sendto sock data addr;
      if sent_bytes =? zlen data then mret true
      else os_sleep kRetryTimeoutMs;; send_attempts n' sock addr data
  end.

Definition SendPacket (sock : Z) (addr : sockaddr_in) (packet : TftpPacket) : IO FS bool :=
  data ← lift_res (Serialize packet);
  send_attempts kMaxRetries sock addr data.

Fixpoint error_attempts (n : nat) (sock : Z) (addr : sockaddr_in) (packet : TftpPacket)
    : IO FS unit :=
  match n with
  | O => mret tt
  | S n' =>
      sent ← SendPacket sock addr packet;
      if sent : bool then mret tt
      else os_sleep (kRetryTimeoutMs / 2);; error_attempts n' sock addr packet
  end.

Definition SendError (sock : Z) (addr : sockaddr_in) (code : ErrorCode) (message : bytes)
    : IO FS unit :=
  error_attempts kMaxRetries sock addr (CreateError code message).

(** ** Receiving: the returned flag and the two output parameters. *)

Definition ReceivePacket (sock : Z) (addr : sockaddr_in) (packet : TftpPacket)
    (timeout_ms : Z) : IO FS (bool * sockaddr_in * TftpPacket) :=
  result ← os_select (sock + 1) sock (Z.quot timeout_ms 1000) (Z.rem timeout_ms 1000 * 1000);
  if result <=? 0 then mret (false, addr, packet)
  else
    r ← os_recvfrom sock kMaxPacketSize;
    match r with
    | None => mret (false, addr, packet)
    | Some (from, buffer) =>
        if zlen buffer <=? 0 then mret (false, from, packet)
        else
          let '(ok, packet') := Deserialize packet buffer in
          mret (ok, from, packet')
    end.

(** ** Read requests *)

(** One iteration of the [do] loop from [(block_number, offset)]: [inr true]
    is the end after the last block, [inr false] a [return] from inside. *)
Definition read_block (timeout_secs : Z) (sock : Z) (client_addr : sockaddr_in)
    (file_data : bytes) (s : Z * Z) : IO FS (Z * Z + bool) :=
  let '(block_number, offset) := s in
  let remaining := zlen file_data - offset in
  let block_size := if kMaxDataSize <? remaining then kMaxDataSize else remaining in
  let block_data := take (Z.to_nat block_size) (drop (Z.to_nat offset) file_data) in
  data_packet ← lift_res (CreateData block_number block_data);
  ok ← SendPacket sock client_addr data_packet;
  if negb ok then mret (inr false)
  else
    '(ok, ack_addr, ack_packet) ← ReceivePacket sock zero_addr default_packet (timeout_secs * 1000);
    if negb ok then mret (inr false)
    else if negb (bool_decide (op_code_ ack_packet = kAcknowledge))
            || negb (block_number_ ack_packet =? block_number)
    then mret (inr false)
    else if block_size <? kMaxDataSize then mret (inr true)
    else mret (inl (u16 (block_number + 1), offset + block_size)).

(** A block of 512 bytes leaves the loop running, so there are at most
    [size / 512 + 1] iterations: the bound is not reached (a loop that reached it
    would leave [EvOutOfFuel] in the trace). *)
Definition read_fuel (file_data : bytes) : nat := S (Z.to_nat (zlen file_data / kMaxDataSize)).

Definition HandleReadRequest cfg (sock : Z) (client_addr : sockaddr_in) (filepath : bytes)
    (mode : TransferMode) : IO FS unit :=
  r ← call_read cfg filepath;
  match r with
  | None => SendError sock client_addr kFileNotFound (bs "File not found")
  | Some file_data =>
      if max_transfer_size_ cfg <? zlen file_data
      then SendError sock client_addr kDiskFull (bs "File size too large")
      else
        io_loop (read_fuel file_data)
          (read_block (timeout_seconds_ cfg) sock client_addr file_data) (1, 0);;
        mret tt
  end.

(** ** Write requests *)

(** The [tsize] option: [has_expected_size] and [expected_file_size]. *)
Definition expected_size (packet : TftpPacket) : option Z :=
  if HasOption packet (bs "tsize") then
    match stoull (GetOption packet (bs "tsize")) with
    | Ok v => Some v
    | Throw _ => None
    end
  else None.

(** The value the OACK carries for an option of the request. *)
Definition negotiated_value (name value : bytes) : bytes :=
  if bool_decide (name = bs "tsize") then value
  else if bool_decide (name = bs "blksize") then
    match stoi value with
    | Ok blksize => if (8 <=? blksize) && (blksize <=? 65464) then value else bs "512"
    | Throw _ => bs "512"
    end
  else if bool_decide (name = bs "timeout") then
    match stoi value with
    | Ok timeout_val => if (1 <=? timeout_val) && (timeout_val <=? 255) then value else bs "6"
    | Throw _ => bs "6"
    end
  else value.

(** The hand-made OACK datagram. *)
Definition oack_bytes (opts : options) : bytes :=
  put_u16 6 ++
  concat (map (fun o => o.1 ++ [x00] ++ negotiated_value o.1 o.2 ++ [x00]) (map_iter opts)).

(** One iteration of the receiving loop from [(file_data, expected_block)]:
    [inr (Some d)] is the end after the last block, [inr None] a [return]. *)
Definition write_block (max_size timeout_secs : Z) (expected : option Z) (sock : Z)
    (client_addr : sockaddr_in) (s : bytes * Z) : IO FS (bytes * Z + option bytes) :=
  let '(file_data, expected_block) := s in
  '(ok, data_addr, data_packet) ←
    ReceivePacket sock zero_addr default_packet (timeout_secs * 1000);
  if negb ok then mret (inr None)
  else if negb (bool_decide (op_code_ data_packet = kData)) then
    SendError sock client_addr kIllegalOperation (bs "Illegal operation");;
    mret (inr None)
  else if negb (block_number_ data_packet =? expected_block) then mret (inr None)
  else
    let block_data := data_ data_packet in
    let file_data := file_data ++ block_data in
    ok ← SendPacket sock data_addr (CreateAck expected_block);
    if negb ok then mret (inr None)
    else
      let last_packet := zlen block_data <? kMaxDataSize in
      if max_size <? zlen file_data then
        SendError sock client_addr kDiskFull (bs "File size too large");;
        mret (inr None)
      else if match expected with
              | Some n => (n + kMaxDataSize) mod 2 ^ 64 <? zlen file_data
              | None => false
              end then
        SendError sock client_addr kDiskFull (bs "File size exceeds tsize");;
        mret (inr None)
      else if last_packet then mret (inr (Some file_data))
      else mret (inl (file_data, u16 (expected_block + 1))).

(** An iteration that goes on has received 512 bytes and is within the limit. *)
Definition write_fuel (max_size : Z) : nat := S (Z.to_nat (max_size / kMaxDataSize)).

(** The answer to the request itself: OACK or ACK 0. *)
Definition accept_write (sock : Z) (client_addr : sockaddr_in) (packet : TftpPacket) : IO FS bool :=
  if negb (bool_decide (options_ packet = ∅)) then
    let oack_data := oack_bytes (options_ packet) in
    sent_bytes ← os_sendto sock oack_data client_addr;
    mret (sent_bytes =? zlen oack_data)
  else SendPacket sock client_addr (CreateAck 0).

Definition HandleWriteRequest cfg (sock : Z) (client_addr : sockaddr_in) (filepath : bytes)
    (mode : TransferMode) (packet : TftpPacket) : IO FS unit :=
  let max_size := max_transfer_size_ cfg in
  let expected := expected_size packet in
  ok ← accept_write sock client_addr packet;
  if negb ok then mret tt
  else
    r ← io_loop (write_fuel max_size)
          (write_block max_size (timeout_seconds_ cfg) expected sock client_addr) ([], 1);
    match r with
    | inr (Some file_data) =>
        success ← call_write cfg filepath file_data;
        if negb success
        then SendError sock client_addr kAccessViolation (bs "File write failed")
        else mret tt
    | _ => mret tt
    end.

(** ** Dispatch *)

(** The part of [HandleClient] between the creation of the client socket and
    the last [close]. *)
Definition serve cfg (client_sock : Z) (client_addr : sockaddr_in) (packet : TftpPacket)
    : IO FS unit := fun w =>
  let mode := mode_ packet in
  let filename := filename_ packet in
  if secure_mode_ cfg && negb (IsPathSecure (w_fs w) filename (root_dir_ cfg)) then
    (SendError client_sock client_addr kAccessViolation (bs "Access denied");;
     os_close client_sock) w
  else
    let filepath := NormalizePath (w_fs w) (root_dir_ cfg ++ filename) in
    (match op_code_ packet with
     | kReadRequest => HandleReadRequest cfg client_sock client_addr filepath mode
     | kWriteRequest => HandleWriteRequest cfg client_sock client_addr filepath mode packet
     | _ => SendError client_sock client_addr kIllegalOperation (bs "Illegal operation")
     end;;
     os_close client_sock) w.

Definition HandleClient cfg (initial_packet : bytes) (client_addr : sockaddr_in) : IO FS unit :=
  catch_all
    (let '(ok, packet) := Deserialize default_packet initial_packet in
     if negb ok then mret tt
     else
       client_sock ← os_socket;
       if client_sock <? 0 then mret tt
       else
         let client := SockAddr (sin_addr client_addr) 0 in
         r ← os_bind client_sock client;
         if r <? 0 then os_close client_sock
         else serve cfg client_sock client_addr packet).
End handlers.
