(* ===== verification/IOFacts.v ===== *)
(** * Reasoning about [IO] computations

    [wp m w Q]: running [m] from [w] extends the trace by some [t] such that
    [Q] holds of the result, of [t] and of the world reached.  The rules below
    are the weakest preconditions of the monad, of the calls of [Net.v], and of
    loops; the client proofs never unfold the monad. *)

From Stdlib Require Import ZArith Lia Strings.Byte.
From stdpp Require Import base tactics numbers list gmap strings.
From S2P Require Import Prelude Common Net.

Create HintDb ends discriminated.

Section wp.
Context {FS : Type}.
Implicit Types w : world FS.

Definition wp {A} (m : IO FS A) w (Q : res A -> list event -> world FS -> Prop) : Prop :=
  exists t, w_trace (m w).2 = w_trace w ++ t /\ Q (m w).1 t (m w).2.

Lemma wp_mono {A} (m : IO FS A) w (Q R : res A -> list event -> world FS -> Prop) :
  wp m w Q -> (forall r t w', Q r t w' -> R r t w') -> wp m w R.
Proof using. intros (t & Ht & HQ) H. exists t. auto. Qed.

Lemma wp_ret {A} (a : A) w (Q : res A -> list event -> world FS -> Prop) :
  Q (Ok a) [] w -> wp (mret a) w Q.
Proof using. intros. exists []. by rewrite app_nil_r. Qed.

Lemma wp_lift {A} (r : res A) w (Q : res A -> list event -> world FS -> Prop) :
  Q r [] w -> wp (lift_res r) w Q.
Proof using. intros. exists []. by rewrite app_nil_r. Qed.

Lemma wp_bind {A B} (m : IO FS A) (f : A -> IO FS B) w (Q : res B -> list event -> world FS -> Prop) :
  wp m w (fun r t w' =>
    match r with
    | Ok a => wp (f a) w' (fun r' t' w'' => Q r' (t ++ t') w'')
    | Throw e => Q (Throw e) t w'
    end) ->
  wp (m ≫= f) w Q.
Proof using.
  unfold wp, mbind, io_bind. intros (t & Ht & HQ).
  destruct (m w) as [[a|e] w'] eqn:E; simpl in *; [|eauto].
  destruct HQ as (t' & Ht' & HQ). exists (t ++ t').
  by rewrite app_assoc, <- Ht, <- Ht'.
Qed.

Lemma wp_catch_all (m : IO FS unit) w (Q : res unit -> list event -> world FS -> Prop) :
  wp m w (fun _ t w' => Q (Ok tt) t w') -> wp (catch_all m) w Q.
Proof using.
  unfold wp, catch_all. intros (t & Ht & HQ). exists t.
  by destruct (m w) as [[[]|] ?].
Qed.

(** What two specifications say, of the one run there is. *)
Lemma wp_and {A} (m : IO FS A) w (Q R : res A -> list event -> world FS -> Prop) :
  wp m w Q -> wp m w R -> wp m w (fun r t w' => Q r t w' /\ R r t w').
Proof using.
  intros (t & Ht & HQ) (t' & Ht' & HR). rewrite Ht in Ht'. apply app_inv_head in Ht' as <-.
  by exists t.
Qed.

(** Every loop of [m] ends by itself. *)
Definition ends {A} (m : IO FS A) : Prop := forall w, wp m w (fun _ t _ => loops_end t).

Lemma ends_ret {A} (a : A) : ends (mret a).
Proof using. intros w. apply wp_ret, not_elem_of_nil. Qed.
Lemma ends_lift {A} (r : res A) : ends (lift_res r).
Proof using. intros w. apply wp_lift, not_elem_of_nil. Qed.
Lemma ends_bind {A B} (m : IO FS A) (f : A -> IO FS B) :
  ends m -> (forall a, ends (f a)) -> ends (m ≫= f).
Proof using.
  intros Hm Hf w. apply wp_bind. eapply wp_mono; [apply Hm|]. intros [a|e] t w' Ht; [|done].
  eapply wp_mono; [apply Hf|]. intros r t' w'' Ht'. by apply loops_end_app.
Qed.
Lemma ends_catch_all (m : IO FS unit) : ends m -> ends (catch_all m).
Proof using. intros Hm w. apply wp_catch_all, Hm. Qed.

(** A step that adds one event and changes the scripts. *)
Lemma wp_event {A} (m : IO FS A) w (Q : res A -> list event -> world FS -> Prop) r e w' :
  m w = (r, w') -> w_trace w' = w_trace w ++ [e] -> Q r [e] w' -> wp m w Q.
Proof using. intros E Ht HQ. exists [e]. by rewrite E. Qed.

Definition set_tx (tx : list Z) w : world FS :=
  World (w_socket w) (w_bind w) tx (w_rx w) (w_fs w) (w_trace w).
Definition set_rx (rx : list rx_event) w : world FS :=
  World (w_socket w) (w_bind w) (w_tx w) rx (w_fs w) (w_trace w).

Lemma wp_sendto sock data addr w (Q : res Z -> list event -> world FS -> Prop) :
  (let r := match w_tx w with [] => zlen data | r :: _ => r end in
   let e := EvSendto sock addr data r in
   Q (Ok r) [e] (add_event e (set_tx (tl (w_tx w)) w))) ->
  wp (os_sendto sock data addr) w Q.
Proof using.
  destruct w as [a b [|r rs] c d t]; simpl; intros HQ; eapply wp_event; eauto.
Qed.

Lemma wp_sleep ms w (Q : res unit -> list event -> world FS -> Prop) :
  Q (Ok tt) [EvSleep ms] (add_event (EvSleep ms) w) -> wp (os_sleep ms) w Q.
Proof using. intros. by eapply wp_event. Qed.

Lemma wp_close s w (Q : res unit -> list event -> world FS -> Prop) :
  Q (Ok tt) [EvClose s] (add_event (EvClose s) w) -> wp (os_close s) w Q.
Proof using. intros. by eapply wp_event. Qed.

Lemma ends_close s : ends (os_close s).
Proof using. intros w. apply wp_close. by intros [=]%list_elem_of_singleton. Qed.
Lemma ends_socket : ends os_socket.
Proof using.
  intros w. destruct w as [[|r rs] b c d e t]; (eapply wp_event; [done..|]); by intros [=]%list_elem_of_singleton.
Qed.
Lemma ends_os_bind s a : ends (os_bind s a).
Proof using. intros w. eapply wp_event; [done..|]. by intros [=]%list_elem_of_singleton. Qed.

(** The loop rule: [I] holds with the trace so far before every iteration,
    and the bound on the iterations is not reached. *)
Lemma wp_loop {S R} (body : S -> IO FS (S + R)) (m : S -> nat)
    (I : list event -> S -> world FS -> Prop)
    (Q : res (S + R) -> list event -> world FS -> Prop) n s w t0 :
  (forall t s w, I t s w ->
     wp (body s) w (fun r t' w' =>
       match r with
       | Ok (inl s') => I (t ++ t') s' w' /\ (m s' < m s)%nat
       | Ok (inr v) => Q (Ok (inr v)) (t ++ t') w'
       | Throw e => Q (Throw e) (t ++ t') w'
       end)) ->
  (m s < n)%nat -> I t0 s w ->
  wp (io_loop n body s) w (fun r t w' => Q r (t0 ++ t) w').
Proof using.
  intros Hbody. revert s w t0. induction n as [|n IH]; intros s w t0 Hn HI; [lia|].
  simpl. apply wp_bind. eapply wp_mono; [by apply Hbody|].
  intros [[s'|v]|e] t w' H; simpl; [|by apply wp_ret; rewrite app_nil_r|done].
  destruct H as [HI' Hm]. eapply wp_mono; [apply (IH s' w' (t0 ++ t)); [lia|done]|].
  intros r t' w'' HQ. by rewrite app_assoc.
Qed.
End wp.

#[export] Hint Resolve ends_ret ends_lift ends_bind ends_catch_all ends_close ends_socket ends_os_bind : ends.

(** Symbolic execution: one monadic step of the goal. *)
Ltac wp_step :=
  lazymatch goal with
  | |- wp (_ ≫= _) _ _ => apply wp_bind
  | |- wp (mret _) _ _ => apply wp_ret
  | |- wp (lift_res _) _ _ => apply wp_lift
  | |- wp (os_sendto _ _ _) _ _ => apply wp_sendto
  | |- wp (os_sleep _) _ _ => apply wp_sleep
  | |- wp (os_close _) _ _ => apply wp_close
  | |- wp (catch_all _) _ _ => apply wp_catch_all
  end.
