(* ===== verification/Protocol.v ===== *)
(** * The lock-step transfer of RFC 1350, as a specification

    A file as the stream of DATA datagrams that carries it, and the receiver
    that puts the stream together again.  The handlers of the server are
    compared with these two: a download sends the stream of the file, an upload
    stores what the receiver makes of the datagrams received. *)

From Stdlib Require Import ZArith Lia Strings.Byte.
From stdpp Require Import base tactics numbers list gmap strings.
From S2P Require Import Prelude Common Packet PacketFacts Net Transfer.

(** Block [i] of a file, counted from 0. *)
Definition chunk (file : bytes) (i : nat) : bytes :=
  take (Z.to_nat kMaxDataSize) (drop (Z.to_nat kMaxDataSize * i) file).

(** The wire form of a DATA and of an ACK packet. *)
Definition data_bytes (bn : Z) (d : bytes) : bytes := be16 3 ++ be16 bn ++ d.
Definition ack_bytes (bn : Z) : bytes := be16 4 ++ be16 bn.

(** The number on the wire of block [i]: it starts at 1 and wraps around. *)
Definition wire_number (i : nat) : Z := u16 (Z.of_nat i + 1).

(** The stream ends with the first short block, which may be empty. *)
Definition data_stream (file : bytes) : list bytes :=
  map (fun i => data_bytes (wire_number i) (chunk file i)) (seq 0 (read_fuel file)).

(** The receiver: blocks in order from [bn], up to and including a short one. *)
Fixpoint receive_file `{P : Platform} (raws : list bytes) (bn : Z) : option bytes :=
  match raws with
  | [] => None
  | raw :: rest =>
      match Deserialize default_packet raw with
      | (true, p) =>
          if bool_decide (op_code_ p = kData) && (block_number_ p =? bn) then
            if zlen (data_ p) <? kMaxDataSize then
              match rest with [] => Some (data_ p) | _ => None end
            else
              match receive_file rest (u16 (bn + 1)) with
              | Some d => Some (data_ p ++ d)
              | None => None
              end
          else None
      | (false, _) => None
      end
  end.

(** ** Blocks *)

Lemma chunk_len file i : zlen (chunk file i) <= kMaxDataSize.
Proof. unfold chunk, zlen, kMaxDataSize. rewrite length_take. lia. Qed.

Lemma chunk_full file i :
  kMaxDataSize * (Z.of_nat i + 1) <= zlen file -> zlen (chunk file i) = kMaxDataSize.
Proof. unfold chunk, zlen, kMaxDataSize. rewrite length_take, length_drop. lia. Qed.

Lemma chunk_short file i :
  zlen file < kMaxDataSize * (Z.of_nat i + 1) ->
  zlen (chunk file i) < kMaxDataSize /\ chunk file i = drop (Z.to_nat kMaxDataSize * i) file.
Proof.
  unfold chunk, zlen, kMaxDataSize. intros H. split.
  - rewrite length_take, length_drop. lia.
  - apply take_ge. rewrite length_drop. lia.
Qed.

Lemma chunk_drop file i j : chunk (drop (Z.to_nat kMaxDataSize * i) file) j = chunk file (i + j).
Proof. unfold chunk. rewrite drop_drop. f_equal. f_equal. lia. Qed.

Lemma read_fuel_lt file i :
  kMaxDataSize * Z.of_nat i <= zlen file <-> (i < read_fuel file)%nat.
Proof.
  unfold read_fuel, kMaxDataSize. pose proof (zlen_nonneg file).
  pose proof (Z.div_mod (zlen file) 512). pose proof (Z.mod_pos_bound (zlen file) 512).
  split; intros; zify; Z.to_euclidean_division_equations; lia.
Qed.

Lemma chunks_concat file n :
  concat (map (chunk file) (seq 0 n)) = take (Z.to_nat kMaxDataSize * n) file.
Proof.
  induction n as [|n IH]; [by rewrite Nat.mul_0_r|].
  rewrite seq_S, map_app, concat_app, IH. cbn [map concat]. rewrite app_nil_r. unfold chunk.
  replace (Z.to_nat kMaxDataSize * S n)%nat
    with (Z.to_nat kMaxDataSize * n + Z.to_nat kMaxDataSize)%nat by lia.
  by rewrite take_take_drop.
Qed.

(** ** Sending and putting together again *)

Section stream.
Context `{P : Platform}.

Lemma u16_range z : 0 <= u16 z < 65536.
Proof using. apply Z.mod_pos_bound. lia. Qed.

Lemma u16_succ z : u16 (u16 z + 1) = u16 (z + 1).
Proof using. unfold u16. by rewrite Z.add_mod_idemp_l. Qed.

Lemma wire_number_range i : 0 <= wire_number i < 65536.
Proof using. apply u16_range. Qed.

Lemma wire_number_S i : u16 (wire_number i + 1) = wire_number (S i).
Proof using. unfold wire_number. rewrite u16_succ. f_equal. lia. Qed.

Lemma deserialize_data_bytes q bn d :
  0 <= bn < 65536 -> zlen d <= kMaxDataSize ->
  Deserialize q (data_bytes bn d) = (true, MkPacket kData bn kNotDefined [] kOctet d [] ∅).
Proof using.
  intros Hb Hd. apply deserialize_complete; [|by apply wire_data].
  unfold data_bytes, kMinPacketSize, kMaxPacketSize, kMaxDataSize in *. zlens.
Qed.

Lemma deserialize_ack_bytes q bn :
  0 <= bn < 65536 -> Deserialize q (ack_bytes bn) = (true, CreateAck bn).
Proof using. intros Hb. apply deserialize_complete; [done|by apply wire_ack]. Qed.

Lemma serialize_data_bytes bn d :
  0 <= bn < 65536 -> zlen d <= kMaxDataSize ->
  exists p, CreateData bn d = Ok p /\ Serialize p = Ok (data_bytes bn d).
Proof using.
  intros Hb Hd. unfold CreateData. rewrite (proj2 (Z.ltb_ge _ _)) by done.
  eexists. split; [done|]. unfold Serialize. simpl. by rewrite !put_u16_be by done.
Qed.

Lemma serialize_ack_bytes bn :
  0 <= bn < 65536 -> Serialize (CreateAck bn) = Ok (ack_bytes bn).
Proof using. intros Hb. unfold Serialize. simpl. by rewrite !put_u16_be by done. Qed.

(** The stream from block [i] on is put together to the rest of the file. *)
Lemma receive_from file n i :
  (i + n = read_fuel file)%nat -> (0 < n)%nat ->
  receive_file (map (fun i => data_bytes (wire_number i) (chunk file i)) (seq i n)) (wire_number i)
  = Some (drop (Z.to_nat kMaxDataSize * i) file).
Proof using.
  revert i. induction n as [|n IH]; intros i Hi Hn; [lia|]. cbn [map seq receive_file].
  rewrite deserialize_data_bytes by (apply u16_range || apply chunk_len).
  cbn [op_code_ block_number_ data_]. rewrite Z.eqb_refl, bool_decide_eq_true_2 by done.
  cbn [andb]. destruct n as [|n].
  - assert (zlen file < kMaxDataSize * (Z.of_nat i + 1)) as Hs.
    { apply Z.nle_gt. replace (Z.of_nat i + 1) with (Z.of_nat (S i)) by lia.
      intros H%read_fuel_lt. lia. }
    apply chunk_short in Hs as [Hs E].
    rewrite (proj2 (Z.ltb_lt _ _)) by done. by rewrite E.
  - rewrite chunk_full; cycle 1.
    { replace (Z.of_nat i + 1) with (Z.of_nat (S i)) by lia. apply read_fuel_lt. lia. }
    rewrite (proj2 (Z.ltb_ge _ _)) by done. rewrite wire_number_S, IH by lia.
    unfold chunk. f_equal.
    replace (Z.to_nat kMaxDataSize * S i)%nat
      with (Z.to_nat kMaxDataSize * i + Z.to_nat kMaxDataSize)%nat by lia.
    rewrite <- drop_drop. by rewrite take_drop.
Qed.

(** The receiver of a file's stream gets the file, whatever its size, through the
    wrap-around of the block number and for multiples of the block size. *)
Lemma receive_stream file : receive_file (data_stream file) 1 = Some file.
Proof using.
  unfold data_stream. change 1 with (wire_number 0).
  rewrite receive_from by (unfold read_fuel; lia). by rewrite Nat.mul_0_r.
Qed.
End stream.

#[export] Hint Resolve u16_range wire_number_range chunk_len : tftp.
