(* ===== verification/TransferFacts.v ===== *)
(** * What the packet exchange of the server does

    Specifications of [SendPacket], [SendError] and [ReceivePacket] for every
    network, which the theorems about the handlers build on. *)

From Stdlib Require Import ZArith Lia Strings.Byte.
From stdpp Require Import base tactics numbers list gmap strings.
From S2P Require Import Prelude Common Packet PacketFacts StdText StdPath Util Net Transfer IOFacts Protocol.

(** The payloads [recvfrom] delivered. *)
Definition received_of (e : event) : list bytes :=
  match e with EvRecvfrom _ _ p => [p] | _ => [] end.
Definition received (t : list event) : list bytes := concat (map received_of t).

Lemma received_app t1 t2 : received (t1 ++ t2) = received t1 ++ received t2.
Proof. unfold received. by rewrite map_app, concat_app. Qed.
#[export] Hint Rewrite received_app : tftp_trace.

(** The number of [sendto] calls. *)
Definition is_sendto (e : event) : bool := match e with EvSendto _ _ _ _ => true | _ => false end.
Definition sendto_count (t : list event) : nat := length (List.filter is_sendto t).

Lemma sendto_count_app t1 t2 :
  sendto_count (t1 ++ t2) = (sendto_count t1 + sendto_count t2)%nat.
Proof. unfold sendto_count. by rewrite List.filter_app, length_app. Qed.

(** Events of the packet exchange: no file access, no socket made or closed. *)
Definition net_event (e : event) : Prop :=
  match e with
  | EvSendto _ _ _ _ | EvSleep _ | EvSelect _ _ _ _ | EvRecvfrom _ _ _ => True
  | _ => False
  end.

Lemma net_events t :
  Forall net_event t -> writes t = [] /\ reads t = [] /\ forall o, foldl sock_step o t = o.
Proof.
  induction 1 as [|e t He Ht (IHw & IHr & IHs)]; [done|].
  destruct e; try done; repeat split; try done; try (by intros ->).
Qed.

Lemma net_loops_end t : Forall net_event t -> loops_end t.
Proof. intros H Hin. by apply (proj1 (Forall_forall _ _) H) in Hin. Qed.

Section exchange.
Context `{P : Platform} {FS : Type}.
Implicit Types w : world FS.

(** What the packet exchange leaves alone. *)
Definition frame w w' : Prop :=
  w_fs w' = w_fs w /\ w_socket w' = w_socket w /\ w_bind w' = w_bind w.

Lemma frame_trans w1 w2 w3 : frame w1 w2 -> frame w2 w3 -> frame w1 w3.
Proof using. unfold frame. intuition congruence. Qed.

(** Sending [d] to [addr]: success means exactly one complete datagram went
    out; a network that accepts everything makes it succeed. *)
Definition send_post (n : nat) addr d w (b : bool) t w' : Prop :=
  frame w w' /\ w_rx w' = w_rx w /\ Forall net_event t /\ received t = [] /\
  sent t = (if b then [(addr, d)] else []) /\
  (sendto_count t <= n)%nat /\
  (w_tx w = [] -> (0 < n)%nat -> b = true /\ w_tx w' = []).

Lemma send_attempts_spec n sock addr d w :
  wp (send_attempts n sock addr d) w (fun r t w' =>
    exists b, r = Ok b /\ send_post n addr d w b t w').
Proof using.
  revert w. induction n as [|n IH]; intros w; simpl.
  { wp_step. exists false. repeat split; try done. lia. }
  do 2 wp_step. set (r := match w_tx w with [] => _ | _ => _ end). simpl.
  destruct (r =? zlen d) eqn:E.
  - wp_step. exists true. split; [done|]. repeat split; try done.
    + by repeat constructor.
    + unfold sent. simpl. by rewrite E.
    + unfold sendto_count. simpl. lia.
    + by rewrite H.
  - do 2 wp_step. eapply wp_mono; [apply IH|].
    intros ? t w' (b & -> & Hf & Hrx & Hn & Hrec & Hs & Hc & Htx).
    exists b. split; [done|]. split; [exact Hf|]. split; [done|].
    split; [by repeat constructor|]. split; [done|].
    change (?a :: [?b] ++ t) with ([a; b] ++ t).
    rewrite !sent_app, !sendto_count_app, Hs.
    split; [unfold sent; simpl; by rewrite E|].
    split; [unfold sendto_count in *; simpl; lia|].
    intros H. subst r. rewrite H in E. simpl in E. by rewrite Z.eqb_refl in E.
Qed.

Lemma SendPacket_spec sock addr p d w :
  Serialize p = Ok d ->
  wp (SendPacket sock addr p) w (fun r t w' =>
    exists b, r = Ok b /\ send_post kMaxRetries addr d w b t w').
Proof using.
  intros E. unfold SendPacket. do 2 wp_step. rewrite E.
  eapply wp_mono; [apply send_attempts_spec|]. done.
Qed.

(** The answers of the next [n] calls of [sendto] for a datagram of [len] bytes. *)
Definition next_sends (n : nat) (len : Z) w : list Z := take n (w_tx w ++ replicate n len).

Lemma next_sends_S n len w :
  next_sends (S n) len w
  = match w_tx w with [] => len | r :: _ => r end
    :: take n (tl (w_tx w) ++ replicate n len).
Proof using.
  unfold next_sends. destruct (w_tx w) as [|r tx]; simpl; [done|]. f_equal.
  replace (len :: replicate n len) with (replicate n len ++ [len])
    by (rewrite <- replicate_cons_app; done).
  rewrite app_assoc, take_app_le; [done|]. rewrite length_app, length_replicate. lia.
Qed.

Lemma send_attempts_retries n sock addr d w :
  wp (send_attempts n sock addr d) w (fun r t w' => exists b, r = Ok b /\
    (b = true <-> zlen d ∈ next_sends n (zlen d) w) /\
    (sendto_count t <= n)%nat /\ (b = false -> sendto_count t = n)).
Proof using.
  revert w. induction n as [|n IH]; intros w; simpl.
  { wp_step. exists false. split_and!; try done. split; [done|]. by intros ?%elem_of_nil. }
  do 2 wp_step. rewrite next_sends_S. set (r := match w_tx w with [] => _ | _ => _ end). simpl.
  destruct (r =? zlen d) eqn:E; bool_cases.
  - wp_step. exists true. split_and!; try done.
    + split; [|done]. intros _. rewrite E. left.
    + unfold sendto_count. simpl. lia.
  - do 2 wp_step. eapply wp_mono; [apply IH|]. intros ? t w' (b & -> & Hb & Hle & Hf).
    exists b. rewrite Hb, elem_of_cons. unfold next_sends. simpl.
    unfold sendto_count in *. simpl. split_and!; [done| |lia|].
    + split; [by right|]. by intros [?%symmetry|?].
    + intros ->. by rewrite Hf.
Qed.

(** An error report: the same, with a bound of the product of the retries. *)
Definition error_post (n : nat) addr d w t w' : Prop :=
  frame w w' /\ w_rx w' = w_rx w /\ Forall net_event t /\ received t = [] /\
  (sent t = [(addr, d)] \/ sent t = []) /\
  (sendto_count t <= n * kMaxRetries)%nat /\
  (w_tx w = [] -> (0 < n)%nat -> sent t = [(addr, d)] /\ w_tx w' = []).

Lemma error_attempts_spec n sock addr p d w :
  Serialize p = Ok d ->
  wp (error_attempts n sock addr p) w (fun r t w' =>
    r = Ok tt /\ error_post n addr d w t w').
Proof using.
  intros E. revert w. induction n as [|n IH]; intros w; simpl.
  { wp_step. repeat split; try done; try lia. by right. }
  wp_step. eapply wp_mono; [by apply SendPacket_spec|].
  intros ? t w1 (b & -> & Hf & Hrx & Hn & Hrec & Hs & Hc & Htx). simpl.
  destruct b.
  - wp_step. rewrite app_nil_r. repeat split; try apply Hf; try done; [by left|lia|].
    apply Htx; [done|]. unfold kMaxRetries. lia.
  - do 2 wp_step. eapply wp_mono; [apply IH|].
    intros ? t2 w2 (-> & Hf2 & Hrx2 & Hn2 & Hrec2 & Hs2 & Hc2 & Htx2).
    split; [done|]. split; [by eapply frame_trans|]. split; [by rewrite Hrx2|].
    split; [apply Forall_app; split; [done|by constructor]|].
    rewrite received_app, sent_app, sendto_count_app, Hs, Hrec. simpl.
    split; [done|]. split; [done|]. split.
    + change (sendto_count (?e :: t2)) with (sendto_count t2). unfold kMaxRetries in *. lia.
    + intros H. destruct (Htx H); [unfold kMaxRetries; lia|done].
Qed.

Lemma SendError_spec sock addr code msg d w :
  Serialize (CreateError code msg) = Ok d ->
  wp (SendError sock addr code msg) w (fun r t w' =>
    r = Ok tt /\ error_post kMaxRetries addr d w t w').
Proof using. apply error_attempts_spec. Qed.

(** Receiving takes the next arrival: the flag is that of the parser on the
    first 516 bytes. *)
Definition receive_post p w (r : res (bool * sockaddr_in * TftpPacket)) t w' : Prop :=
  frame w w' /\ w_tx w' = w_tx w /\ Forall net_event t /\ sent t = [] /\
  w_rx w' = tl (w_rx w) /\
  exists ok a p', r = Ok (ok, a, p') /\
    match w_rx w with
    | RxDatagram from payload :: _ =>
        let stored := take (Z.to_nat kMaxPacketSize) payload in
        received t = [stored] /\ a = from /\
        ok = (Deserialize p stored).1 /\ (ok = true -> Deserialize p stored = (true, p'))
    | _ => ok = false /\ received t = []
    end.

Lemma ReceivePacket_spec sock a p timeout_ms w :
  wp (ReceivePacket sock a p timeout_ms) w (receive_post p w).
Proof using.
  unfold ReceivePacket, wp, mbind, io_bind, os_select, os_recvfrom, receive_post, frame.
  destruct w as [so bi tx rx fs tr]; simpl.
  destruct rx as [|[| | |from payload] rx]; simpl.
  1,2,3,4: eexists [_]; split; [done|]; repeat split; try done; [by repeat constructor|];
    do 3 eexists; done.
  set (stored := take (Z.to_nat kMaxPacketSize) payload).
  assert (Hd : forall b q, Deserialize p stored = (b, q) -> zlen stored <= 0 -> b = false).
  { intros b q Hd H0. assert (stored = []) as -> by (apply zlen_0_inv; zlens).
    by injection Hd as <-. }
  destruct (Deserialize p stored) as [ok p'] eqn:E.
  destruct (zlen stored <=? 0) eqn:E0; simpl.
  all: eexists [_; _]; split; [by rewrite <- app_assoc|]; repeat split; try done;
    try by repeat constructor.
  all: do 3 eexists; split; [done|]; repeat split; try done; try (by intros ->).
  bool_cases. by erewrite (Hd ok).
Qed.

(** The packet exchange has no loop that could be stopped by a bound. *)
Lemma ends_SendPacket sock addr p : ends (FS := FS) (SendPacket sock addr p).
Proof using.
  apply ends_bind; [apply ends_lift|]. intros d w. eapply wp_mono; [apply send_attempts_spec|].
  intros r t w' (b & _ & _ & _ & Hn & _). by apply net_loops_end.
Qed.

Lemma ends_SendError sock addr code msg : ends (FS := FS) (SendError sock addr code msg).
Proof using.
  unfold SendError. generalize (CreateError code msg). intros p. induction kMaxRetries as [|n IH]; simpl.
  { apply ends_ret. }
  apply ends_bind; [apply ends_SendPacket|]. intros [|]; [apply ends_ret|].
  apply ends_bind; [|done]. intros w. apply wp_sleep. by intros [=]%list_elem_of_singleton.
Qed.

(** The descriptor is put into an [fd_set] whatever it is: nothing compares it
    with [FD_SETSIZE]. *)
Lemma ReceivePacket_any_descriptor sock a p timeout_ms w :
  wp (ReceivePacket sock a p timeout_ms) w (fun _ t _ => exists s u t', t = EvSelect (sock + 1) sock s u :: t').
Proof using.
  unfold ReceivePacket, wp, mbind, io_bind, os_select, os_recvfrom.
  destruct w as [so bi tx rx fs tr]. simpl. destruct rx as [|[| | |from d] rx]; simpl.
  1-4: eexists [_]; eauto.
  destruct (zlen _ <=? 0); [|destruct (Deserialize _ _)]; simpl;
    (eexists [_; _]; split; [by rewrite <- app_assoc|eauto]).
Qed.
(** The wire form of an ERROR packet. *)
Definition error_bytes (code : ErrorCode) (msg : bytes) : bytes :=
  be16 5 ++ be16 (error_value code) ++ msg ++ [x00].

Lemma serialize_error_bytes code msg :
  0 <= error_value code < 65536 -> Serialize (CreateError code msg) = Ok (error_bytes code msg).
Proof using. intros Hc. unfold Serialize. simpl. by rewrite !put_u16_be by done. Qed.

(** At most the one ERROR packet is sent; exactly it when nothing is lost. *)
Definition reports (addr : sockaddr_in) (code : ErrorCode) (msg : bytes) w t : Prop :=
  (sent t = [(addr, error_bytes code msg)] \/ sent t = []) /\
  (w_tx w = [] -> sent t = [(addr, error_bytes code msg)]).

Lemma SendError_reports sock addr code msg w :
  0 <= error_value code < 65536 ->
  wp (SendError sock addr code msg) w (fun r t w' =>
    r = Ok tt /\ frame w w' /\ w_rx w' = w_rx w /\ Forall net_event t /\
    received t = [] /\ (sendto_count t <= kMaxRetries * kMaxRetries)%nat /\
    reports addr code msg w t).
Proof using.
  intros Hc. eapply wp_mono; [by apply SendError_spec, serialize_error_bytes|].
  intros r t w' (-> & Hf & Hrx & Hn & Hrec & Hs & Hcount & Htx).
  split_and!; try done. split; [done|]. intros H. apply Htx; [done|]. unfold kMaxRetries. lia.
Qed.

(** The callbacks: one event, and the file system they leave. *)
Definition set_fs (fs : FS) w : world FS :=
  World (w_socket w) (w_bind w) (w_tx w) (w_rx w) fs (w_trace w).

Lemma wp_read cfg path w (Q : res (option bytes) -> list event -> world FS -> Prop) fs r :
  read_callback_ cfg (w_fs w) path = (fs, r) ->
  Q r [EvRead path] (add_event (EvRead path) (set_fs fs w)) -> wp (call_read cfg path) w Q.
Proof using. intros E HQ. eapply wp_event; [unfold call_read; by rewrite E|done..]. Qed.

Lemma wp_write cfg path data w (Q : res bool -> list event -> world FS -> Prop) fs r :
  write_callback_ cfg (w_fs w) path data = (fs, r) ->
  Q r [EvWrite path data] (add_event (EvWrite path data) (set_fs fs w)) ->
  wp (call_write cfg path data) w Q.
Proof using. intros E HQ. eapply wp_event; [unfold call_write; by rewrite E|done..]. Qed.
End exchange.
#[export] Hint Resolve ends_SendPacket ends_SendError : ends.

Section retries.
Context `{P : Platform} {FS : Type}.

(** [SendPacket] succeeds exactly when one of the next five calls of [sendto]
    takes the whole datagram; it makes at most five calls, and exactly five
    before it gives up. *)
Lemma send_packet_retries sock addr p d (w : world FS) :
  Serialize p = Ok d ->
  wp (SendPacket sock addr p) w (fun r t w' => exists b, r = Ok b /\
    (b = true <-> zlen d ∈ next_sends kMaxRetries (zlen d) w) /\
    (sendto_count t <= kMaxRetries)%nat /\ (b = false -> sendto_count t = kMaxRetries)).
Proof using.
  intros E. unfold SendPacket. do 2 wp_step. rewrite E. apply send_attempts_retries.
Qed.
End retries.

(** ** A server to evaluate with *)

Definition sample_cfg : config unit :=
  Config (bs "/srv/tftp/") true (1024 * 1024 * 1024) 5
    (fun fs path => (fs, Ok (if bool_decide (path = bs "/srv/tftp/boot.img")
                             then Some (bs "kernel") else None)))
    (fun fs path data => (fs, Ok true)).

Definition sample_world (rx : list rx_event) : world unit :=
  World [7] (fun _ => true) [] rx tt [].

Definition sample_client : sockaddr_in := SockAddr 2130706433 4000.

(** Four failed sends, then a success. *)
Lemma send_packet_retries_witness :
  let w := World [] (fun _ => true) [-1; 0; 3; -1; 4] [] tt [] in
  wp (SendPacket (P := platform_le) 7 sample_client (CreateAck 1)) w (fun r t w' =>
    exists b, r = Ok b /\
      (b = true <-> zlen (ack_bytes 1) ∈ next_sends kMaxRetries (zlen (ack_bytes 1)) w) /\
      (sendto_count t <= kMaxRetries)%nat /\ (b = false -> sendto_count t = kMaxRetries)).
Proof. by apply (send_packet_retries (P := platform_le)). Defined.
