(* ===== verification/Socket.v ===== *)
(** * Addresses and the Unix socket implementation

    [SocketAddress] of [src/tftp_socket.cpp] as a value, and [SocketImpl] of
    [src/internal/tftp_socket_impl_unix.cpp].  The socket operations are
    computations of [Net]; what the system reports with an error
    ([strerror(errno)]) is an argument, and so is the answer of [setsockopt].
    At the end: what a computation does with descriptors, for [UdpSocket]. *)

From Stdlib Require Import ZArith Lia Strings.Byte.
From stdpp Require Import base tactics numbers list gmap strings.
From S2P Require Import Prelude Common Packet PacketFacts StdText Net IOFacts TransferFacts.

(** ** Addresses *)

(** [inet_pton] and [inet_ntop] for [AF_INET], on the 32-bit address as stored. *)
Class InetOps := {
  inet_pton : bytes -> option Z;
  inet_ntop : Z -> option bytes;
}.

Definition INADDR_ANY : Z := 0.

Section address.
Context `{P : Platform} `{I : InetOps}.

(** Both constructors, [Set], [GetIP] and [GetPort]. *)
Definition SocketAddress : sockaddr_in := SockAddr INADDR_ANY (htons 0).

Definition SetAddress (ip : bytes) (port : Z) (a : sockaddr_in) : sockaddr_in :=
  if bool_decide (ip = []) || bool_decide (ip = bs "0.0.0.0")
  then SockAddr INADDR_ANY (htons port)
  else match inet_pton ip with
       | Some x => SockAddr x (htons port)
       | None => SockAddr INADDR_ANY (htons port)
       end.

Definition SocketAddress_of (ip : bytes) (port : Z) : sockaddr_in := SetAddress ip port SocketAddress.

Definition GetIP (a : sockaddr_in) : bytes := default (bs "0.0.0.0") (inet_ntop (sin_addr a)).

Definition GetPort (a : sockaddr_in) : Z := ntohs (sin_port a).

Lemma ntohs_htons v : 0 <= v < 65536 -> ntohs (htons v) = v.
Proof using.
  intros Hv. unfold ntohs, htons. destruct host_endian; [|done]. rewrite !bswap16_eq.
  Z.to_euclidean_division_equations. lia.
Qed.
End address.

(** What is relied on of the conversions: the text printed for an address is
    read back as the address. *)
Class InetLaws `{I : InetOps} := {
  pton_ntop : forall x ip, inet_ntop x = Some ip -> inet_pton ip = Some x;
}.

(** An address set from the text of an IPv4 address and a port gives both back,
    on a host of either byte order. *)
Lemma address_roundtrip `{P : Platform} `{I : InetOps} `{L : !InetLaws} x ip port :
  inet_ntop x = Some ip -> ip <> [] -> ip <> bs "0.0.0.0" -> 0 <= port < 65536 ->
  GetIP (SocketAddress_of ip port) = ip /\ GetPort (SocketAddress_of ip port) = port.
Proof.
  intros Hx H1 H2 Hp. unfold SocketAddress_of, SetAddress, GetIP, GetPort.
  rewrite !bool_decide_eq_false_2 by done. simpl.
  rewrite (pton_ntop _ _ Hx). simpl. rewrite Hx. split; [done|by apply ntohs_htons].
Qed.

(** ** Sockets *)

Definition kInvalidSocket : Z := -1.

(** [static_cast<int>]. *)
Definition cast_int (n : Z) : Z := (n + 2 ^ 31) mod 2 ^ 32 - 2 ^ 31.

Lemma cast_int_small n : - 2 ^ 31 <= n < 2 ^ 31 -> cast_int n = n.
Proof. intros H. unfold cast_int. rewrite Z.mod_small; lia. Qed.

Record SocketImpl := MkSocket {
  socket_ : Z;
  socket_error_ : bytes;
}.

Definition new_socket : SocketImpl := MkSocket kInvalidSocket [].

Definition SetLastError (e : bytes) (s : SocketImpl) : SocketImpl := MkSocket (socket_ s) e.

Section socket.
Context {FS : Type}.
(** [strerror(errno)] after a failed call. *)
Context (strerror : bytes).

Definition Close (s : SocketImpl) : IO FS SocketImpl :=
  if negb (socket_ s =? kInvalidSocket) then
    os_close (socket_ s);; mret (MkSocket kInvalidSocket (socket_error_ s))
  else mret s.

Definition Create (s : SocketImpl) : IO FS (bool * SocketImpl) :=
  s ← Close s;
  fd ← os_socket;
  let s := MkSocket fd (socket_error_ s) in
  if fd =? kInvalidSocket
  then mret (false, SetLastError (bs "Failed to create UDP socket: " ++ strerror) s)
  else mret (true, s).

Definition Bind (s : SocketImpl) (addr : sockaddr_in) : IO FS (bool * SocketImpl) :=
  if socket_ s =? kInvalidSocket
  then mret (false, SetLastError (bs "Cannot bind invalid socket") s)
  else
    result ← os_bind (socket_ s) addr;
    if negb (result =? 0)
    then mret (false, SetLastError (bs "Failed to bind socket: " ++ strerror) s)
    else mret (true, s).

(** [result] is the answer of [setsockopt]. *)
Definition SetReuseAddress (s : SocketImpl) (reuse : bool) (result : Z) : IO FS (bool * SocketImpl) :=
  if socket_ s =? kInvalidSocket
  then mret (false, SetLastError (bs "Cannot set option on invalid socket") s)
  else
    let opt := if reuse then 1 else 0 in
    result ← os_setsockopt (socket_ s) opt result;
    if negb (result =? 0)
    then mret (false, SetLastError (bs "Failed to set SO_REUSEADDR: " ++ strerror) s)
    else mret (true, s).

(** A null pointer is [None]. *)
Definition SendTo (s : SocketImpl) (data : option bytes) (addr : sockaddr_in)
    : IO FS (Z * SocketImpl) :=
  if socket_ s =? kInvalidSocket
  then mret (-1, SetLastError (bs "Cannot send on invalid socket") s)
  else
    match data with
    | None | Some [] => mret (-1, SetLastError (bs "Invalid send parameters") s)
    | Some d =>
        sent ← os_sendto (socket_ s) d addr;
        if sent <? 0
        then mret (-1, SetLastError (bs "Failed to send data: " ++ strerror) s)
        else mret (cast_int sent, s)
    end.

(** The result, the sender and the bytes stored.  [buffer_size] is [None] for a
    null buffer. *)
Definition ReceiveFrom (s : SocketImpl) (buffer_size : option Z) (sender : sockaddr_in)
    : IO FS (Z * sockaddr_in * bytes * SocketImpl) :=
  if socket_ s =? kInvalidSocket
  then mret (-1, sender, [], SetLastError (bs "Cannot receive on invalid socket") s)
  else
    match buffer_size with
    | None | Some 0 => mret (-1, sender, [], SetLastError (bs "Invalid receive parameters") s)
    | Some n =>
        r ← os_recvfrom (socket_ s) n;
        match r with
        | None => mret (-1, sender, [], SetLastError (bs "Failed to receive data: " ++ strerror) s)
        | Some (from, stored) => mret (cast_int (zlen stored), from, stored, s)
        end
    end.

Definition ReceiveFromTimeout (s : SocketImpl) (buffer_size : option Z) (sender : sockaddr_in)
    (timeout_ms : Z) : IO FS (Z * sockaddr_in * bytes * SocketImpl) :=
  if socket_ s =? kInvalidSocket
  then mret (-1, sender, [], SetLastError (bs "Cannot receive on invalid socket") s)
  else
    result ← os_select (socket_ s + 1) (socket_ s) (Z.quot timeout_ms 1000) (Z.rem timeout_ms 1000 * 1000);
    if result <? 0
    then mret (-1, sender, [], SetLastError (bs "Select failed: " ++ strerror) s)
    else if result =? 0
    then mret (0, sender, [], SetLastError (bs "Receive timeout") s)
    else ReceiveFrom s buffer_size sender.

Definition IsValid (s : SocketImpl) : bool := negb (socket_ s =? kInvalidSocket).

Definition socket_GetLastError (s : SocketImpl) : bytes := socket_error_ s.
Definition GetNativeHandle (s : SocketImpl) : Z := socket_ s.

(** The move constructor, and [this = std::move(other)] for two objects; the
    first of the result is [this], the second [other]. *)
Definition move_construct (other : SocketImpl) : SocketImpl * SocketImpl :=
  (MkSocket (socket_ other) (socket_error_ other), MkSocket kInvalidSocket []).
Definition move_assign (this other : SocketImpl) : IO FS (SocketImpl * SocketImpl) :=
  _ ← Close this; mret (move_construct other).

(** ** The operations, as values *)

Inductive socket_op :=
  | OpCreate
  | OpBind (addr : sockaddr_in)
  | OpSetReuseAddress (reuse : bool) (result : Z)
  | OpSendTo (data : option bytes) (addr : sockaddr_in)
  | OpReceiveFrom (buffer_size : option Z) (sender : sockaddr_in)
  | OpReceiveFromTimeout (buffer_size : option Z) (sender : sockaddr_in) (timeout_ms : Z)
  | OpClose.

#[global] Instance socket_op_eq_dec : EqDecision socket_op.
Proof. solve_decision. Defined.
End socket.

(** ** Ownership of descriptors *)

(** The descriptor an object owns. *)
Definition owned (s : SocketImpl) : list Z :=
  if socket_ s =? kInvalidSocket then [] else [socket_ s].

(** A move hands the descriptor over. *)
Lemma move_construct_owned s :
  owned (move_construct s).1 = owned s /\ owned (move_construct s).2 = [].
Proof. done. Qed.

Section ownership.
Context {FS : Type}.
Implicit Types w : world FS.

(** A computation that returns a value with [R] and neither opens nor closes a
    socket. *)
Definition quiet {A} (m : IO FS A) (R : A -> Prop) : Prop :=
  forall w, wp m w (fun r t w' =>
    (exists a, r = Ok a /\ R a) /\ (forall o, foldl sock_step o t = o) /\ w_socket w' = w_socket w).

Lemma quiet_ret {A} (a : A) (R : A -> Prop) : R a -> quiet (mret a) R.
Proof using. intros HR w. wp_step. split; eauto. Qed.

Lemma quiet_bind {A B} (m : IO FS A) (f : A -> IO FS B) (R : A -> Prop) (S : B -> Prop) :
  quiet m R -> (forall a, R a -> quiet (f a) S) -> quiet (m ≫= f) S.
Proof using.
  intros Hm Hf w. wp_step. eapply wp_mono; [apply Hm|].
  intros r t w' ((a & -> & Ha) & Ho & Hs). eapply wp_mono; [by apply Hf|].
  intros r2 t2 w2 (Hr & Ho2 & Hs2). split_and!; [done| |by rewrite Hs2].
  intros o. by rewrite foldl_app, Ho, Ho2.
Qed.

Lemma quiet_os_bind s a : quiet (os_bind s a) (fun _ => True).
Proof using. intros w. eapply wp_event; [done..|]. split; eauto. Qed.

Lemma quiet_os_sendto s d a : quiet (os_sendto s d a) (fun _ => True).
Proof using. intros w. wp_step. simpl. split; eauto. Qed.

Lemma quiet_os_setsockopt s o r : quiet (os_setsockopt s o r) (fun _ => True).
Proof using. intros w. eapply wp_event; [done..|]. split; eauto. Qed.

Lemma quiet_os_select k s x y : quiet (os_select k s x y) (fun _ => True).
Proof using.
  intros w. unfold wp, os_select.
  destruct (w_rx w) as [|[]]; exists [EvSelect k s x y]; (split; [done|]); split; eauto.
Qed.

Lemma quiet_os_recvfrom s n : quiet (os_recvfrom s n) (fun _ => True).
Proof using.
  intros w. unfold wp, os_recvfrom. destruct (w_rx w) as [|[| | |from d] rx]; simpl.
  1-4: exists []; rewrite app_nil_r; split; eauto.
  exists [EvRecvfrom s from (take (Z.to_nat n) d)]. split; [done|]. split; eauto.
Qed.

(** [socket] answers a descriptor or -1. *)
Definition socket_answers w : Prop := Forall (fun r => -1 <= r) (w_socket w).

Lemma wp_socket w (Q : res Z -> list event -> world FS -> Prop) :
  socket_answers w ->
  (forall fd w', -1 <= fd -> socket_answers w' -> Q (Ok fd) [EvSocket fd] w') -> wp os_socket w Q.
Proof using.
  unfold socket_answers. intros Hw HQ. destruct w as [so bi tx rx fs tr]. simpl in Hw.
  destruct so as [|fd so].
  - eapply wp_event; [done..|]. by apply HQ.
  - apply Forall_cons in Hw as [? ?]. eapply wp_event; [done..|]. by apply HQ.
Qed.
End ownership.

(** ** Witnesses *)

(** A table with one address. *)
#[local] Instance inet_table : InetOps := {
  inet_pton ip := if bool_decide (ip = bs "127.0.0.1") then Some 16777343 else None;
  inet_ntop x := if x =? 16777343 then Some (bs "127.0.0.1") else None;
}.
#[local] Instance inet_table_laws : InetLaws.
Proof.
  constructor. intros x ip. simpl. destruct (x =? 16777343) eqn:E; [|done].
  intros [= <-]. bool_cases. by subst x.
Qed.

Lemma address_roundtrip_witness :
  GetIP (SocketAddress_of (P := platform_le) (bs "127.0.0.1") 69) = bs "127.0.0.1" /\
  GetPort (P := platform_le) (SocketAddress_of (P := platform_le) (bs "127.0.0.1") 69) = 69.
Proof. by apply (address_roundtrip (P := platform_le) 16777343). Defined.
