(* ===== verification/WinSocket.v ===== *)
(** * The Windows socket implementation

    [src/internal/tftp_socket_impl_win32.cpp], the other definition of the class
    [SocketImpl], and its comparison with the Unix one of [Socket].  Handles are
    integers and [INVALID_SOCKET] is -1 in both.  What Windows does differently:
    sizes are cast to [int], [recvfrom] fails for a datagram that does not fit
    the buffer, the first argument of [select] is 0, and the text of an error
    comes from [FormatMessageA]. *)

From Stdlib Require Import ZArith Lia Strings.Byte.
From stdpp Require Import base tactics numbers list gmap strings.
From S2P Require Import Prelude Common StdText Net IOFacts Socket.

(** ** Error texts *)

(** Without the white space at its end. *)
Definition rtrim (s : bytes) : bytes := rev (skip_spaces (rev s)).

(** [error_code] is the answer of [WSAGetLastError], [formatted] the message
    [FormatMessageA] allocated, empty when it failed. *)
Definition win_GetSystemErrorMessage (error_code : Z) (formatted : bytes) : bytes :=
  if 0 <? zlen formatted then rtrim formatted
  else bs "WSA Error code " ++ to_string error_code.

(** The message does not end in white space (a line break, as the system's
    messages do). *)
Lemma win_message_trimmed code formatted :
  match last (win_GetSystemErrorMessage code formatted) with
  | Some c => formatted <> [] -> isspace c = false
  | None => True
  end.
Proof.
  unfold win_GetSystemErrorMessage. destruct (0 <? zlen formatted) eqn:E.
  - unfold rtrim. generalize (rev formatted). intros l.
    induction l as [|c l IH]; simpl; [done|]. destruct (isspace c) eqn:Ec; [done|].
    simpl. rewrite last_snoc. done.
  - bool_cases. assert (formatted = []) as -> by (apply zlen_0_inv; zlens).
    by destruct (last _).
Qed.

(** ** Operations *)

Section win.
Context {FS : Type}.
(** The text of a system error. *)
Context (message : bytes).

(** [recvfrom]: a datagram that is longer than the buffer is an error
    ([WSAEMSGSIZE]) and lost. *)
Definition wsa_recvfrom (sock cap : Z) : IO FS (option (sockaddr_in * bytes)) := fun w =>
  match w_rx w with
  | RxDatagram from payload :: rx =>
      if cap <? zlen payload
      then (Ok None, World (w_socket w) (w_bind w) (w_tx w) rx (w_fs w) (w_trace w))
      else os_recvfrom sock cap w
  | _ => os_recvfrom sock cap w
  end.

Definition win_new_socket : SocketImpl := MkSocket kInvalidSocket [].

Definition win_SetLastError (e : bytes) (s : SocketImpl) : SocketImpl := MkSocket (socket_ s) e.

Definition win_Close (s : SocketImpl) : IO FS SocketImpl :=
  if negb (socket_ s =? kInvalidSocket) then
    os_close (socket_ s);; mret (MkSocket kInvalidSocket (socket_error_ s))
  else mret s.

(** The move constructor and the move assignment: this object and the other. *)
Definition win_move (other : SocketImpl) : SocketImpl * SocketImpl :=
  (MkSocket (socket_ other) (socket_error_ other), MkSocket kInvalidSocket []).
Definition win_move_assign (this other : SocketImpl) : IO FS (SocketImpl * SocketImpl) :=
  _ ← win_Close this; mret (win_move other).

Definition win_Create (s : SocketImpl) : IO FS (bool * SocketImpl) :=
  s ← win_Close s;
  fd ← os_socket;
  let s := MkSocket fd (socket_error_ s) in
  if fd =? kInvalidSocket
  then mret (false, win_SetLastError (bs "Failed to create UDP socket: " ++ message) s)
  else mret (true, s).

Definition win_Bind (s : SocketImpl) (addr : sockaddr_in) : IO FS (bool * SocketImpl) :=
  if socket_ s =? kInvalidSocket
  then mret (false, win_SetLastError (bs "Cannot bind invalid socket") s)
  else
    result ← os_bind (socket_ s) addr;
    if negb (result =? 0)
    then mret (false, win_SetLastError (bs "Failed to bind socket: " ++ message) s)
    else mret (true, s).

Definition win_SetReuseAddress (s : SocketImpl) (reuse : bool) (result : Z)
    : IO FS (bool * SocketImpl) :=
  if socket_ s =? kInvalidSocket
  then mret (false, win_SetLastError (bs "Cannot set option on invalid socket") s)
  else
    let opt := if reuse then 1 else 0 in
    result ← os_setsockopt (socket_ s) opt result;
    if negb (result =? 0)
    then mret (false, win_SetLastError (bs "Failed to set SO_REUSEADDR: " ++ message) s)
    else mret (true, s).

(** [sendto] is given the first [static_cast<int>(size)] bytes. *)
Definition win_SendTo (s : SocketImpl) (data : option bytes) (addr : sockaddr_in)
    : IO FS (Z * SocketImpl) :=
  if socket_ s =? kInvalidSocket
  then mret (-1, win_SetLastError (bs "Cannot send on invalid socket") s)
  else
    match data with
    | None | Some [] => mret (-1, win_SetLastError (bs "Invalid send parameters") s)
    | Some d =>
        sent ← os_sendto (socket_ s) (take (Z.to_nat (cast_int (zlen d))) d) addr;
        if sent <? 0
        then mret (-1, win_SetLastError (bs "Failed to send data: " ++ message) s)
        else mret (sent, s)
    end.

Definition win_ReceiveFrom (s : SocketImpl) (buffer_size : option Z) (sender : sockaddr_in)
    : IO FS (Z * sockaddr_in * bytes * SocketImpl) :=
  if socket_ s =? kInvalidSocket
  then mret (-1, sender, [], win_SetLastError (bs "Cannot receive on invalid socket") s)
  else
    match buffer_size with
    | None | Some 0 => mret (-1, sender, [], win_SetLastError (bs "Invalid receive parameters") s)
    | Some n =>
        r ← wsa_recvfrom (socket_ s) (cast_int n);
        match r with
        | None => mret (-1, sender, [], win_SetLastError (bs "Failed to receive data: " ++ message) s)
        | Some (from, stored) => mret (zlen stored, from, stored, s)
        end
    end.

Definition win_ReceiveFromTimeout (s : SocketImpl) (buffer_size : option Z) (sender : sockaddr_in)
    (timeout_ms : Z) : IO FS (Z * sockaddr_in * bytes * SocketImpl) :=
  if socket_ s =? kInvalidSocket
  then mret (-1, sender, [], win_SetLastError (bs "Cannot receive on invalid socket") s)
  else
    result ← os_select 0 (socket_ s) (Z.quot timeout_ms 1000) (Z.rem timeout_ms 1000 * 1000);
    if result <? 0
    then mret (-1, sender, [], win_SetLastError (bs "Select failed: " ++ message) s)
    else if result =? 0
    then mret (0, sender, [], win_SetLastError (bs "Receive timeout") s)
    else win_ReceiveFrom s buffer_size sender.

Definition win_IsValid (s : SocketImpl) : bool := negb (socket_ s =? kInvalidSocket).
Definition win_GetLastError (s : SocketImpl) : bytes := socket_error_ s.
Definition win_GetNativeHandle (s : SocketImpl) : Z := socket_ s.
End win.

(** ** The class

    [internal/tftp_socket_impl.h]: the operations that the two files define. *)

Record socket_class (FS : Type) := SocketClass {
  c_new : SocketImpl;
  c_Create : SocketImpl -> IO FS (bool * SocketImpl);
  c_Bind : SocketImpl -> sockaddr_in -> IO FS (bool * SocketImpl);
  c_SetReuseAddress : SocketImpl -> bool -> Z -> IO FS (bool * SocketImpl);
  c_SendTo : SocketImpl -> option bytes -> sockaddr_in -> IO FS (Z * SocketImpl);
  c_ReceiveFrom : SocketImpl -> option Z -> sockaddr_in ->
    IO FS (Z * sockaddr_in * bytes * SocketImpl);
  c_ReceiveFromTimeout : SocketImpl -> option Z -> sockaddr_in -> Z ->
    IO FS (Z * sockaddr_in * bytes * SocketImpl);
  c_Close : SocketImpl -> IO FS SocketImpl;
  c_IsValid : SocketImpl -> bool;
}.
Arguments SocketClass {FS}.
Arguments c_new {FS}.
Arguments c_Create {FS}.
Arguments c_Bind {FS}.
Arguments c_SetReuseAddress {FS}.
Arguments c_SendTo {FS}.
Arguments c_ReceiveFrom {FS}.
Arguments c_ReceiveFromTimeout {FS}.
Arguments c_Close {FS}.
Arguments c_IsValid {FS}.

Section equivalence.
Context {FS : Type}.
Implicit Types (w : world FS) (c : socket_class FS).

Definition unix_class (strerror : bytes) : socket_class FS :=
  SocketClass new_socket (Create strerror) (Bind strerror) (SetReuseAddress strerror)
    (SendTo strerror) (ReceiveFrom strerror) (ReceiveFromTimeout strerror) Close IsValid.

Definition win_class (message : bytes) : socket_class FS :=
  SocketClass win_new_socket (win_Create message) (win_Bind message) (win_SetReuseAddress message)
    (win_SendTo message) (win_ReceiveFrom message) (win_ReceiveFromTimeout message) win_Close
    win_IsValid.

(** What a call returns: its value (a [bool] as 0 or 1), and for a receiving
    call the sender and the bytes stored. *)
Definition outcome : Type := Z * option sockaddr_in * bytes.

Definition of_bool (r : bool * SocketImpl) : outcome * SocketImpl := ((Z.b2z r.1, None, []), r.2).
Definition of_recv (r : Z * sockaddr_in * bytes * SocketImpl) : outcome * SocketImpl :=
  let '(n, a, d, s) := r in ((n, Some a, d), s).

Definition run c (o : socket_op) (s : SocketImpl) : IO FS (outcome * SocketImpl) :=
  match o with
  | OpCreate => r ← c_Create c s; mret (of_bool r)
  | OpBind a => r ← c_Bind c s a; mret (of_bool r)
  | OpSetReuseAddress b n => r ← c_SetReuseAddress c s b n; mret (of_bool r)
  | OpSendTo d a => r ← c_SendTo c s d a; mret ((r.1, None, []), r.2)
  | OpReceiveFrom n a => r ← c_ReceiveFrom c s n a; mret (of_recv r)
  | OpReceiveFromTimeout n a t => r ← c_ReceiveFromTimeout c s n a t; mret (of_recv r)
  | OpClose => s ← c_Close c s; mret ((Z.b2z (c_IsValid c s), None, []), s)
  end.

Fixpoint runs c (os : list socket_op) (s : SocketImpl) : IO FS (list outcome * SocketImpl) :=
  match os with
  | [] => mret ([], s)
  | o :: os' =>
      r ← run c o s;
      rs ← runs c os' r.2;
      mret (r.1 :: rs.1, rs.2)
  end.

(** Equal up to the text of the system's errors. *)
Definition same_text (e m x y : bytes) : Prop := x = y \/ exists pre, x = pre ++ e /\ y = pre ++ m.
Definition same_socket (e m : bytes) (s s' : SocketImpl) : Prop :=
  socket_ s = socket_ s' /\ same_text e m (socket_error_ s) (socket_error_ s').

(** Sizes that an [int] can hold, and buffers for datagrams of [n] bytes. *)
Definition small_op (n : Z) (o : socket_op) : Prop :=
  match o with
  | OpSendTo (Some d) _ => zlen d < 2 ^ 31
  | OpReceiveFrom (Some b) _ | OpReceiveFromTimeout (Some b) _ _ => b = 0 \/ 0 < b < 2 ^ 31 /\ n <= b
  | _ => True
  end.
Definition small_world (n : Z) w : Prop :=
  Forall (fun r => match r with RxDatagram _ d => zlen d <= n | _ => True end) (w_rx w) /\
  Forall (fun r => r < 2 ^ 31) (w_tx w).

(** The same calls on Windows, where [select] is given 0 for the number of
    descriptors. *)
Definition win_event (e : event) : event :=
  match e with EvSelect _ s sec usec => EvSelect 0 s sec usec | _ => e end.
Definition on_windows w : world FS :=
  World (w_socket w) (w_bind w) (w_tx w) (w_rx w) (w_fs w) (map win_event (w_trace w)).

(** Two computations that do the same and give related results. *)
Definition agree {A} (R : A -> A -> Prop) n (m1 m2 : IO FS A) w : Prop :=
  exists a1 a2 w', m1 w = (Ok a1, w') /\ m2 (on_windows w) = (Ok a2, on_windows w') /\
    R a1 a2 /\ small_world n w'.

Lemma agree_ret {A} (R : A -> A -> Prop) n a1 a2 w :
  small_world n w -> R a1 a2 -> agree R n (mret a1) (mret a2) w.
Proof using. intros. by exists a1, a2, w. Qed.

Lemma agree_bind {A B} (R : A -> A -> Prop) (S : B -> B -> Prop) n m1 m2 f1 f2 w :
  agree R n m1 m2 w ->
  (forall a1 a2 w', small_world n w' -> R a1 a2 -> agree S n (f1 a1) (f2 a2) w') ->
  agree S n (m1 ≫= f1) (m2 ≫= f2) w.
Proof using.
  intros (a1 & a2 & w' & H1 & H2 & HR & Hw) Hf. destruct (Hf a1 a2 w' Hw HR) as (b1 & b2 & w'' & E1 & E2 & ?).
  exists b1, b2, w''. unfold mbind, io_bind. by rewrite H1, H2.
Qed.

(** A call both make, which takes at most the first of each script. *)
Lemma agree_call {A} (R : A -> A -> Prop) n (m1 m2 : IO FS A) w a w' :
  small_world n w -> m1 w = (Ok a, w') -> m2 (on_windows w) = (Ok a, on_windows w') ->
  (w_rx w' = w_rx w \/ w_rx w' = tl (w_rx w)) -> (w_tx w' = w_tx w \/ w_tx w' = tl (w_tx w)) ->
  R a a -> agree R n m1 m2 w.
Proof using.
  intros [Hrx Htx] E1 E2 Erx Etx HR. exists a, a, w'. split_and!; try done. split.
  - destruct Erx as [-> | ->]; [done|]. destruct (w_rx w); [done|]. by apply Forall_cons in Hrx as [_ ?].
  - destruct Etx as [-> | ->]; [done|]. destruct (w_tx w); [done|]. by apply Forall_cons in Htx as [_ ?].
Qed.

Ltac agree_call :=
  eapply agree_call; [done|done|unfold on_windows; simpl; rewrite ?map_app; done|first [by left|by right]..|try done].

Lemma agree_socket n w : small_world n w -> agree (=) n os_socket os_socket w.
Proof using. intros Hw. destruct w as [[|r rs] bi tx rx fs tr]; agree_call. Qed.

Lemma agree_bind_call n s a w : small_world n w -> agree (=) n (os_bind s a) (os_bind s a) w.
Proof using. intros Hw. agree_call. Qed.

Lemma agree_setsockopt n s o r w : small_world n w -> agree (=) n (os_setsockopt s o r) (os_setsockopt s o r) w.
Proof using. intros Hw. agree_call. Qed.

Lemma agree_close n s w : small_world n w -> agree (=) n (os_close s) (os_close s) w.
Proof using. intros Hw. agree_call. Qed.

Lemma agree_sendto n s d a w :
  small_world n w -> zlen d < 2 ^ 31 ->
  agree (fun r r' => r = r' /\ r < 2 ^ 31) n (os_sendto s d a) (os_sendto s d a) w.
Proof using.
  intros Hw Hd. destruct w as [so bi [|r rs] rx fs tr]; agree_call.
  destruct Hw as [_ [? _]%Forall_cons]. done.
Qed.

Lemma agree_select n k s x y w : small_world n w -> agree (=) n (os_select k s x y) (os_select 0 s x y) w.
Proof using.
  intros Hw. destruct w as [so bi tx rx fs tr]. destruct rx as [|[| | |from d] rx]; agree_call.
Qed.

Lemma agree_recvfrom n s b w :
  small_world n w -> n <= b ->
  agree (fun r r' => r = r' /\ match r with Some (_, d) => zlen d <= n | None => True end) n
    (os_recvfrom s b) (wsa_recvfrom s b) w.
Proof using.
  intros Hw Hb. destruct w as [so bi tx rx fs tr]. pose proof Hw as [Hrx _]. simpl in Hrx.
  destruct rx as [|[| | |from d] rx]; try agree_call. apply Forall_cons in Hrx as [Hd _].
  eapply agree_call; [done|done| |by right|by left|].
  - unfold wsa_recvfrom, on_windows. simpl. rewrite (proj2 (Z.ltb_ge b (zlen d))) by lia. by rewrite map_app.
  - split; [done|]. unfold zlen in *. rewrite length_take. lia.
Qed.

Section operations.
Context (e m : bytes) (n : Z).
Implicit Types s : SocketImpl.

(** The same value, and objects that are equal up to the error texts. *)
Definition same {A} (r1 r2 : A * SocketImpl) : Prop := r1.1 = r2.1 /\ same_socket e m r1.2 r2.2.

Lemma same_error s s' x : same_socket e m s s' -> same_socket e m (SetLastError x s) (win_SetLastError x s').
Proof using. intros [? _]. split; [done|by left]. Qed.
Lemma same_sys s s' pre :
  same_socket e m s s' -> same_socket e m (SetLastError (pre ++ e) s) (win_SetLastError (pre ++ m) s').
Proof using. intros [? _]. split; [done|]. right. eauto. Qed.

Lemma agree_Close s s' w :
  small_world n w -> same_socket e m s s' -> agree (same_socket e m) n (Close s) (win_Close s') w.
Proof using.
  intros Hw [Hs He]. unfold Close, win_Close. rewrite <- Hs. destruct (negb _).
  - eapply agree_bind; [by apply agree_close|]. intros a1 a2 w' Hw' _. by apply agree_ret.
  - by apply agree_ret.
Qed.

Lemma agree_Create s s' w :
  small_world n w -> same_socket e m s s' -> agree same n (Create e s) (win_Create m s') w.
Proof using.
  intros Hw Hs. unfold Create, win_Create. eapply agree_bind; [by apply agree_Close|].
  intros s1 s2 w1 Hw1 [_ He]. eapply agree_bind; [by apply agree_socket|]. intros fd _ w2 Hw2 <-.
  destruct (fd =? kInvalidSocket); apply agree_ret; try done. split; [done|].
  by apply (same_sys (MkSocket fd (socket_error_ s1)) (MkSocket fd (socket_error_ s2))).
Qed.

Lemma agree_Bind s s' a w :
  small_world n w -> same_socket e m s s' -> agree same n (Bind e s a) (win_Bind m s' a) w.
Proof using.
  intros Hw Hs. pose proof Hs as [Hfd _]. unfold Bind, win_Bind. rewrite <- Hfd.
  destruct (_ =? kInvalidSocket); [apply agree_ret; [done|split; [done|by apply same_error]]|].
  eapply agree_bind; [by apply agree_bind_call|]. intros r _ w2 Hw2 <-.
  destruct (negb _); (apply agree_ret; [done|]); (split; [done|]);
    [by apply same_sys|done].
Qed.

Lemma agree_SetReuseAddress s s' b r w :
  small_world n w -> same_socket e m s s' ->
  agree same n (SetReuseAddress e s b r) (win_SetReuseAddress m s' b r) w.
Proof using.
  intros Hw Hs. pose proof Hs as [Hfd _]. unfold SetReuseAddress, win_SetReuseAddress. rewrite <- Hfd.
  destruct (_ =? kInvalidSocket); [apply agree_ret; [done|split; [done|by apply same_error]]|].
  eapply agree_bind; [by apply agree_setsockopt|]. intros x _ w2 Hw2 <-.
  destruct (negb _); (apply agree_ret; [done|]); (split; [done|]);
    [by apply same_sys|done].
Qed.

Lemma agree_SendTo s s' d a w :
  small_world n w -> same_socket e m s s' -> small_op n (OpSendTo d a) ->
  agree same n (SendTo e s d a) (win_SendTo m s' d a) w.
Proof using.
  intros Hw Hs Hsmall. pose proof Hs as [Hfd _]. unfold SendTo, win_SendTo. rewrite <- Hfd.
  destruct (_ =? kInvalidSocket); [apply agree_ret; [done|split; [done|by apply same_error]]|].
  destruct d as [[|b d]|]; try (apply agree_ret; [done|split; [done|by apply same_error]]).
  rewrite cast_int_small by (simpl in Hsmall; pose proof (zlen_nonneg (b :: d)); lia).
  rewrite take_ge by (unfold zlen; lia).
  eapply agree_bind; [by apply agree_sendto|]. intros r _ w2 Hw2 [<- Hr].
  destruct (r <? 0) eqn:Er; (apply agree_ret; [done|]); bool_cases.
  - split; [done|by apply same_sys].
  - rewrite cast_int_small by lia. by split.
Qed.

Lemma agree_ReceiveFrom s s' b a w :
  small_world n w -> same_socket e m s s' -> small_op n (OpReceiveFrom b a) ->
  agree same n (ReceiveFrom e s b a) (win_ReceiveFrom m s' b a) w.
Proof using.
  intros Hw Hs Hsmall. pose proof Hs as [Hfd _]. unfold ReceiveFrom, win_ReceiveFrom. rewrite <- Hfd.
  assert (Herr : forall x, agree same n (mret (-1, a, @nil byte, SetLastError x s))
                             (mret (-1, a, @nil byte, win_SetLastError x s')) w).
  { intros x. apply agree_ret; [done|split; [done|by apply same_error]]. }
  destruct (_ =? kInvalidSocket); [apply Herr|].
  destruct b as [[|b|b]|]; try apply Herr; simpl in Hsmall.
  - rewrite cast_int_small by lia.
    eapply agree_bind; [apply agree_recvfrom; [done|lia]|]. intros r _ w2 Hw2 [<- Hr].
    destruct r as [[from d]|]; (apply agree_ret; [done|]); [|split; [done|by apply same_sys]].
    rewrite cast_int_small by (pose proof (zlen_nonneg d); lia). by split.
  - lia.
Qed.

Lemma agree_ReceiveFromTimeout s s' b a t w :
  small_world n w -> same_socket e m s s' -> small_op n (OpReceiveFrom b a) ->
  agree same n (ReceiveFromTimeout e s b a t) (win_ReceiveFromTimeout m s' b a t) w.
Proof using.
  intros Hw Hs Hsmall. pose proof Hs as [Hfd _].
  unfold ReceiveFromTimeout, win_ReceiveFromTimeout. rewrite <- Hfd.
  destruct (_ =? kInvalidSocket); [apply agree_ret; [done|split; [done|by apply same_error]]|].
  eapply agree_bind; [by apply agree_select|]. intros r _ w2 Hw2 <-.
  destruct (r <? 0); [apply agree_ret; [done|split; [done|by apply same_sys]]|].
  destruct (r =? 0); [apply agree_ret; [done|split; [done|by apply same_error]]|].
  by apply agree_ReceiveFrom.
Qed.

Lemma agree_run o s s' w :
  small_world n w -> same_socket e m s s' -> small_op n o ->
  agree same n (run (unix_class e) o s) (run (win_class m) o s') w.
Proof using.
  intros Hw Hs Ho.
  assert (Hb : forall m1 m2 : IO FS (bool * SocketImpl), agree same n m1 m2 w ->
    agree same n (r ← m1; mret (of_bool r)) (r ← m2; mret (of_bool r)) w).
  { intros m1 m2 Ha. eapply agree_bind; [done|]. intros [b1 s1] [b2 s2] w' Hw' [E Hs2].
    apply agree_ret; [done|]. split; [|done]. simpl in *. by subst. }
  assert (Hr : forall m1 m2 : IO FS (Z * sockaddr_in * bytes * SocketImpl), agree same n m1 m2 w ->
    agree same n (r ← m1; mret (of_recv r)) (r ← m2; mret (of_recv r)) w).
  { intros m1 m2 Ha. eapply agree_bind; [done|]. intros [[[z1 a1] d1] s1] [[[z2 a2] d2] s2] w' Hw' [E Hs2].
    apply agree_ret; [done|]. split; [|done]. simpl in *. by injection E as -> -> ->. }
  destruct o as [|a|b r|d a|b a|b a t|]; cbn [run].
  - apply Hb. by apply agree_Create.
  - apply Hb. by apply agree_Bind.
  - apply Hb. by apply agree_SetReuseAddress.
  - eapply agree_bind; [by apply agree_SendTo|]. intros [z1 s1] [z2 s2] w' Hw' [E Hs2].
    apply agree_ret; [done|]. split; [|done]. simpl in *. by subst.
  - apply Hr. by apply agree_ReceiveFrom.
  - apply Hr. by apply agree_ReceiveFromTimeout.
  - eapply agree_bind; [by apply agree_Close|]. intros s1 s2 w' Hw' Hs2. apply agree_ret; [done|].
    split; [|done]. destruct Hs2 as [Hfd _]. simpl. unfold IsValid, win_IsValid. by rewrite Hfd.
Qed.

Lemma agree_runs os s s' w :
  small_world n w -> same_socket e m s s' -> Forall (small_op n) os ->
  agree same n (runs (unix_class e) os s) (runs (win_class m) os s') w.
Proof using.
  intros Hw Hs Hos. revert s s' w Hw Hs. induction Hos as [|o os Ho _ IH]; intros s s' w Hw Hs; cbn [runs].
  - by apply agree_ret.
  - eapply agree_bind; [by apply agree_run|]. intros [o1 s1] [o2 s2] w1 Hw1 [E1 Hs1].
    eapply agree_bind; [by apply IH|]. intros [l1 s3] [l2 s4] w2 Hw2 [E2 Hs2].
    apply agree_ret; [done|]. split; [|done]. simpl in *. by subst.
Qed.
End operations.

(** C38: the Windows and the Unix implementation of the socket class agree: for every
    sequence of operations with sizes below 2^31 and buffers that the arriving
    datagrams fit, both make the same system calls with the same arguments,
    except that Windows gives [select] 0 for the number of descriptors, and
    return the same values, senders and bytes; the objects differ at most in the
    text after "...: " of a system error. *)
Theorem win_socket_equivalent e m n os w :
  small_world n w -> Forall (small_op n) os -> w_trace w = [] ->
  exists outs s1 s2 w',
    runs (unix_class e) os (c_new (unix_class e)) w = (Ok (outs, s1), w') /\
    runs (win_class m) os (c_new (win_class m)) w = (Ok (outs, s2), on_windows w') /\
    same_socket e m s1 s2.
Proof using.
  intros Hw Hos Ht.
  destruct (agree_runs e m n os new_socket win_new_socket w Hw) as ([o1 s1] & [o2 s2] & w' & E1 & E2 & [E Hs] & _);
    [split; [done|by left]|done|]. simpl in E. subst o2.
  replace (on_windows w) with w in E2 by (destruct w; simpl in *; by subst). by exists o1, s1, s2, w'.
Qed.

(** Without that condition they differ: a datagram that is longer than the
    buffer is cut off on Unix and lost with an error on Windows. *)
Lemma win_oversized_datagram e m s from d b rest w :
  socket_ s <> kInvalidSocket -> 0 < b < 2 ^ 31 -> b < zlen d -> w_rx w = RxDatagram from d :: rest ->
  (exists w1, ReceiveFrom e s (Some b) from w = (Ok (b, from, take (Z.to_nat b) d, s), w1)) /\
  (exists w2, win_ReceiveFrom m s (Some b) from w
     = (Ok (-1, from, [], SetLastError (bs "Failed to receive data: " ++ m) s), w2)).
Proof using.
  intros Hs Hb Hd Hrx. apply Z.eqb_neq in Hs. unfold ReceiveFrom, win_ReceiveFrom. rewrite Hs.
  destruct b as [|b|b]; try lia. rewrite cast_int_small by lia.
  unfold mbind, io_bind, wsa_recvfrom, os_recvfrom. rewrite Hrx. apply Z.ltb_lt in Hd as Hlt. rewrite Hlt.
  assert (Hl : zlen (take (Z.to_nat (Z.pos b)) d) = Z.pos b).
  { unfold zlen in *. rewrite length_take. lia. }
  split; eexists; [|done]. rewrite Hl, cast_int_small by lia. done.
Qed.
End equivalence.

(** ** Witness *)

Definition win_sample_ops : list socket_op :=
  [OpCreate; OpSetReuseAddress true 0; OpBind (SockAddr 0 0); OpReceiveFromTimeout (Some 1024) (SockAddr 0 0) 1000;
   OpSendTo (Some (bs "pong")) (SockAddr 1 9); OpReceiveFromTimeout (Some 1024) (SockAddr 0 0) 1000; OpClose].
Definition win_sample_world : world unit :=
  World [5] (fun _ => true) [-1] [RxDatagram (SockAddr 1 9) (bs "ping")] tt [].

Lemma win_socket_equivalent_witness :
  exists outs s1 s2 w',
    runs (unix_class (bs "EIO")) win_sample_ops (c_new (unix_class (FS := unit) (bs "EIO"))) win_sample_world
    = (Ok (outs, s1), w') /\
    runs (win_class (bs "WSA")) win_sample_ops (c_new (win_class (FS := unit) (bs "WSA"))) win_sample_world
    = (Ok (outs, s2), on_windows w') /\
    same_socket (bs "EIO") (bs "WSA") s1 s2.
Proof.
  apply (win_socket_equivalent (bs "EIO") (bs "WSA") 1024 win_sample_ops win_sample_world).
  - by split; repeat constructor.
  - unfold win_sample_ops. rewrite !Forall_cons, Forall_nil.
    split_and!; try done; right; lia.
  - reflexivity.
Defined.
