(* ===== verification/UdpSocket.v ===== *)
(** * Socket objects

    [include/tftp/tftp_socket.h] and [src/tftp_socket.cpp]: [UdpSocket], which
    owns a [SocketImpl] through a pointer and can be moved; [SocketAddress] as an
    object; and the guard of the socket library.  The class [SocketLaws] is what
    the wrapper relies on of an implementation; both implementations have it.  A
    program declares, moves, uses and destroys objects held in variables. *)

From Stdlib Require Import ZArith Lia Strings.Byte.
From stdpp Require Import base tactics numbers list gmap strings.
From S2P Require Import Prelude Common StdText Net IOFacts TransferFacts Socket WinSocket.

(** ** What an implementation promises about descriptors *)

(** The effect of the destructor, and of a descriptor made, on the open
    descriptors. *)
Definition close_step (s : SocketImpl) (open : list Z) : list Z :=
  if socket_ s =? kInvalidSocket then open else filter (fun x => x <> socket_ s) open.
Definition open_step (s : SocketImpl) (open : list Z) : list Z :=
  if socket_ s =? kInvalidSocket then open else socket_ s :: open.

(** [socket] gives a descriptor that is not in use. *)
Fixpoint fresh (open : list Z) (t : list event) : Prop :=
  match t with
  | [] => True
  | e :: t' =>
      match e with EvSocket r => r < 0 \/ r ∉ open | _ => True end /\ fresh (sock_step open e) t'
  end.

Lemma fresh_app open t1 t2 : fresh open (t1 ++ t2) <-> fresh open t1 /\ fresh (foldl sock_step open t1) t2.
Proof.
  revert open. induction t1 as [|e t1 IH]; intros open; simpl; [by intuition|].
  rewrite IH. intuition.
Qed.

Section laws.
Context {FS : Type}.
Implicit Types w : world FS.

Class SocketLaws (c : socket_class FS) := {
  law_new : socket_ (c_new c) = kInvalidSocket;
  law_close s w : socket_answers w ->
    wp (c_Close c s) w (fun r t w' => socket_answers w' /\
      exists s', r = Ok s' /\ socket_ s' = kInvalidSocket /\
        forall open, foldl sock_step open t = close_step s open);
  law_run o s w : socket_answers w ->
    wp (run c o s) w (fun r t w' => socket_answers w' /\
      exists out s', r = Ok (out, s') /\
        forall open,
          match o with
          | OpCreate =>
              foldl sock_step open t = open_step s' (close_step s open) /\
              (fresh open t -> socket_ s' <> kInvalidSocket -> socket_ s' ∉ close_step s open)
          | OpClose => socket_ s' = kInvalidSocket /\ foldl sock_step open t = close_step s open
          | _ => socket_ s' = socket_ s /\ foldl sock_step open t = open
          end);
}.

(** The two parts of [Create], for either implementation. *)
Lemma close_law s w :
  socket_answers w ->
  wp (Close s) w (fun r t w' => socket_answers w' /\
    exists s', r = Ok s' /\ socket_ s' = kInvalidSocket /\
      forall open, foldl sock_step open t = close_step s open).
Proof using.
  intros Hw. unfold Close, close_step. destruct (socket_ s =? kInvalidSocket) eqn:E; simpl.
  - wp_step. split; [done|]. bool_cases. eauto.
  - do 2 wp_step. wp_step. simpl. split; [done|]. eexists. split_and!; [done|done|]. done.
Qed.

Lemma create_law (m : IO FS SocketImpl) (f : SocketImpl -> Z -> bool * SocketImpl) s w :
  socket_answers w ->
  (forall s' fd, socket_ (f s' fd).2 = fd) ->
  wp m w (fun r t w' => socket_answers w' /\
    exists s', r = Ok s' /\ socket_ s' = kInvalidSocket /\
      forall open, foldl sock_step open t = close_step s open) ->
  wp (s' ← m; fd ← os_socket; mret (of_bool (f s' fd))) w (fun r t w' => socket_answers w' /\
    exists out s', r = Ok (out, s') /\
      forall open, foldl sock_step open t = open_step s' (close_step s open) /\
        (fresh open t -> socket_ s' <> kInvalidSocket -> socket_ s' ∉ close_step s open)).
Proof using.
  intros Hw Hf Hm. wp_step. eapply wp_mono; [exact Hm|].
  intros r t w1 (Hw1 & s1 & -> & _ & Ho). wp_step. apply wp_socket; [done|].
  intros fd w2 Hfd Hw2. wp_step. split; [done|]. eexists _, _. split; [done|]. intros open.
  rewrite app_nil_r, foldl_app, fresh_app, Ho. simpl. unfold open_step. rewrite Hf.
  unfold kInvalidSocket in *. split.
  - destruct (fd <? 0) eqn:E, (fd =? -1) eqn:E'; bool_cases; try done; lia.
  - intros (_ & [?|?] & _) Hne; [lia|done].
Qed.
End laws.

(** ** The implementations keep the promise *)

(** One step through a body that makes no socket. *)
Ltac quiet_step :=
  lazymatch goal with
  | |- quiet (mret _) _ => by apply quiet_ret
  | |- quiet (if ?b then _ else _) _ => destruct b
  | |- quiet (match ?d with _ => _ end) _ => destruct d
  | |- quiet (os_bind _ _ ≫= _) _ => eapply quiet_bind; [apply quiet_os_bind|intros ? _]
  | |- quiet (os_sendto _ _ _ ≫= _) _ => eapply quiet_bind; [apply quiet_os_sendto|intros ? _]
  | |- quiet (os_setsockopt _ _ _ ≫= _) _ => eapply quiet_bind; [apply quiet_os_setsockopt|intros ? _]
  | |- quiet (os_select _ _ _ _ ≫= _) _ => eapply quiet_bind; [apply quiet_os_select|intros ? _]
  | |- quiet (os_recvfrom _ _ ≫= _) _ => eapply quiet_bind; [apply quiet_os_recvfrom|intros ? _]
  end.

Section instances.
Context {FS : Type}.
Implicit Types w : world FS.

Lemma quiet_wsa_recvfrom s n : quiet (FS := FS) (wsa_recvfrom s n) (fun _ => True).
Proof using.
  intros w. destruct (quiet_os_recvfrom s n w) as (t & Ht & HQ).
  unfold wp, wsa_recvfrom. destruct (w_rx w) as [|[| | |from d] rx] eqn:E; try by exists t.
  destruct (n <? zlen d); [|by exists t]. exists []. rewrite app_nil_r. split; [done|].
  split; eauto.
Qed.

Lemma unix_recv_quiet e s n a :
  quiet (FS := FS) (ReceiveFrom e s n a) (fun r => socket_ r.2 = socket_ s).
Proof using. unfold ReceiveFrom. repeat quiet_step. Qed.
Lemma win_recv_quiet m s n a :
  quiet (FS := FS) (win_ReceiveFrom m s n a) (fun r => socket_ r.2 = socket_ s).
Proof using.
  unfold win_ReceiveFrom. repeat quiet_step;
    (eapply quiet_bind; [apply quiet_wsa_recvfrom|intros ? _]; repeat quiet_step).
Qed.

Lemma quiet_map {A B} (m : IO FS (A * SocketImpl)) (g : A * SocketImpl -> B * SocketImpl) s :
  (forall r, (g r).2 = r.2) ->
  quiet m (fun r => socket_ r.2 = socket_ s) ->
  quiet (r ← m; mret (g r)) (fun r => socket_ r.2 = socket_ s).
Proof using. intros Hg Hm. eapply quiet_bind; [exact Hm|]. intros r Hr. apply quiet_ret. by rewrite Hg. Qed.

Lemma of_recv_snd r : (of_recv r).2 = r.2.
Proof using. by destruct r as [[[? ?] ?] ?]. Qed.

Lemma unix_run_quiet e o s :
  o <> OpCreate -> o <> OpClose -> quiet (FS := FS) (run (unix_class e) o s) (fun r => socket_ r.2 = socket_ s).
Proof using.
  intros H1 H2. destruct o as [|a|b n|d a|n a|n a t|]; try done; cbn [run unix_class c_Bind c_SetReuseAddress c_SendTo c_ReceiveFrom c_ReceiveFromTimeout].
  - apply quiet_map; [done|]. unfold Bind. repeat quiet_step.
  - apply quiet_map; [done|]. unfold SetReuseAddress. repeat quiet_step.
  - apply (quiet_map _ (fun r => ((r.1, None, []), r.2))); [done|]. unfold SendTo. repeat quiet_step.
  - apply quiet_map; [apply of_recv_snd|apply unix_recv_quiet].
  - apply quiet_map; [apply of_recv_snd|]. unfold ReceiveFromTimeout. repeat quiet_step. apply unix_recv_quiet.
Qed.

Lemma win_run_quiet m o s :
  o <> OpCreate -> o <> OpClose -> quiet (FS := FS) (run (win_class m) o s) (fun r => socket_ r.2 = socket_ s).
Proof using.
  intros H1 H2. destruct o as [|a|b n|d a|n a|n a t|]; try done; cbn [run win_class c_Bind c_SetReuseAddress c_SendTo c_ReceiveFrom c_ReceiveFromTimeout].
  - apply quiet_map; [done|]. unfold win_Bind. repeat quiet_step.
  - apply quiet_map; [done|]. unfold win_SetReuseAddress. repeat quiet_step.
  - apply (quiet_map _ (fun r => ((r.1, None, []), r.2))); [done|]. unfold win_SendTo. repeat quiet_step.
  - apply quiet_map; [apply of_recv_snd|apply win_recv_quiet].
  - apply quiet_map; [apply of_recv_snd|]. unfold win_ReceiveFromTimeout. repeat quiet_step. apply win_recv_quiet.
Qed.

(** The law of [run] from its three cases. *)
Lemma run_law_cases c :
  (forall s w, socket_answers w -> wp (c_Close c s) w (fun r t w' => socket_answers w' /\
     exists s', r = Ok s' /\ socket_ s' = kInvalidSocket /\
       forall open, foldl sock_step open t = close_step s open)) ->
  (forall s w, socket_answers w -> wp (run c OpCreate s) w (fun r t w' => socket_answers w' /\
     exists out s', r = Ok (out, s') /\
       forall open, foldl sock_step open t = open_step s' (close_step s open) /\
         (fresh open t -> socket_ s' <> kInvalidSocket -> socket_ s' ∉ close_step s open))) ->
  (forall o s, o <> OpCreate -> o <> OpClose -> quiet (run c o s) (fun r => socket_ r.2 = socket_ s)) ->
  socket_ (c_new c) = kInvalidSocket -> SocketLaws (FS := FS) c.
Proof using.
  intros Hclose Hcreate Hquiet Hnew. constructor; [done|done|]. intros o s w Hw.
  assert (Hq : o <> OpCreate -> o <> OpClose ->
    wp (run c o s) w (fun r t w' => socket_answers w' /\ exists out s', r = Ok (out, s') /\
      forall open, socket_ s' = socket_ s /\ foldl sock_step open t = open)).
  { intros H1 H2. eapply wp_mono; [by apply Hquiet|].
    intros r t w' (([out s'] & -> & Hs) & Ho & Hsock). split; [unfold socket_answers; by rewrite Hsock|].
    exists out, s'. auto. }
  destruct o; try (by apply Hq); [by apply Hcreate|].
  cbn [run]. wp_step. eapply wp_mono; [by apply Hclose|].
  intros r t w1 (Hw1 & s1 & -> & Hs1 & Ho). wp_step. split; [done|]. eexists _, s1. split; [done|].
  intros open. rewrite app_nil_r. auto.
Qed.

Lemma wp_ext {A} (m m' : IO FS A) w (Q : res A -> list event -> world FS -> Prop) :
  m w = m' w -> wp m' w Q -> wp m w Q.
Proof using. intros E. unfold wp. by rewrite E. Qed.

(** What [Create] returns for the answer of [socket]. *)
Definition created (msg : bytes) (s' : SocketImpl) (fd : Z) : bool * SocketImpl :=
  if fd =? kInvalidSocket
  then (false, MkSocket fd (bs "Failed to create UDP socket: " ++ msg))
  else (true, MkSocket fd (socket_error_ s')).

Lemma created_fd msg s' fd : socket_ (created msg s' fd).2 = fd.
Proof using. unfold created. by destruct (fd =? _). Qed.

#[global] Instance unix_laws e : SocketLaws (unix_class (FS := FS) e).
Proof using.
  apply run_law_cases; [apply close_law| |apply unix_run_quiet|done]. intros s w Hw.
  eapply wp_ext; [|apply (create_law (Close s) (created e)); [done|apply created_fd|by apply close_law]].
  cbn [run unix_class c_Create]. unfold Create, mbind, io_bind.
  destruct (Close s w) as [[s1|x] w1]; [|done]. destruct (os_socket w1) as [[fd|x] w2]; [|done].
  unfold created. by destruct (fd =? kInvalidSocket).
Qed.

#[global] Instance win_laws m : SocketLaws (win_class (FS := FS) m).
Proof using.
  apply run_law_cases; [exact close_law| |apply win_run_quiet|done]. intros s w Hw.
  eapply wp_ext; [|apply (create_law (win_Close s) (created m)); [done|apply created_fd|by apply close_law]].
  cbn [run win_class c_Create]. unfold win_Create, mbind, io_bind.
  destruct (win_Close s w) as [[s1|x] w1]; [|done]. destruct (os_socket w1) as [[fd|x] w2]; [|done].
  unfold created. by destruct (fd =? kInvalidSocket).
Qed.
End instances.

(** ** Programs over socket objects *)

(** A [UdpSocket]: its pointer [impl_], null after it was moved from. *)
Definition UdpSocket : Type := option SocketImpl.

(** Declarations, moves, calls and the end of a variable's life. *)
Inductive stmt :=
  | Construct (x : nat)               (* [UdpSocket x;] *)
  | MoveConstruct (x y : nat)         (* [UdpSocket x(std::move(y));] *)
  | MoveAssign (x y : nat)            (* [x = std::move(y);] *)
  | Call (x : nat) (o : socket_op)    (* [x.o(...);] *)
  | Destroy (x : nat).

(** The variables in scope. *)
Abbreviation store := (gmap nat UdpSocket).

Section programs.
Context {FS : Type} (c : socket_class FS).
Implicit Types (w : world FS) (σ : store).

(** [unique_ptr] destroys the object it owns. *)
Definition delete_impl (u : UdpSocket) : IO FS unit :=
  match u with
  | Some s => _ ← c_Close c s; mret tt
  | None => mret tt
  end.

(** A method call through the pointer; [None] is the use of a null pointer. *)
Definition forward (o : socket_op) (u : UdpSocket) : IO FS (option (outcome * UdpSocket)) :=
  match u with
  | Some s => r ← run c o s; mret (Some (r.1, Some r.2))
  | None => mret None
  end.

(** [None] stands for undefined behaviour: a method of an object that was moved
    from, and names that are not in scope or already taken. *)
Definition exec (st : stmt) (σ : store) : IO FS (option store) :=
  match st with
  | Construct x =>
      match σ !! x with
      | Some _ => mret None
      | None => mret (Some (<[x := Some (c_new c)]> σ))
      end
  | MoveConstruct x y =>
      match σ !! x, σ !! y with
      | None, Some u => mret (Some (<[x := u]> (<[y := None]> σ)))
      | _, _ => mret None
      end
  | MoveAssign x y =>
      match σ !! x, σ !! y with
      | Some u, Some v =>
          if bool_decide (x = y) then mret (Some σ)
          else delete_impl u;; mret (Some (<[x := v]> (<[y := None]> σ)))
      | _, _ => mret None
      end
  | Call x o =>
      match σ !! x with
      | Some u =>
          r ← forward o u;
          match r with
          | Some (_, u') => mret (Some (<[x := u']> σ))
          | None => mret None
          end
      | None => mret None
      end
  | Destroy x =>
      match σ !! x with
      | Some u => delete_impl u;; mret (Some (base.delete x σ))
      | None => mret None
      end
  end.

Fixpoint execs (sts : list stmt) (σ : store) : IO FS (option store) :=
  match sts with
  | [] => mret (Some σ)
  | st :: sts' =>
      r ← exec st σ;
      match r with
      | Some σ' => execs sts' σ'
      | None => mret None
      end
  end.

(** ** Ownership *)

Lemma filter_all_eq (P : Z -> Prop) `{!forall x, Decision (P x)} (l : list Z) :
  (forall x, x ∈ l -> P x) -> filter P l = l.
Proof using.
  induction l as [|x l IH]; intros Hall; [done|].
  rewrite filter_cons_True by (apply Hall; left). f_equal. apply IH. intros y Hy. apply Hall. by right.
Qed.

Definition udp_owned (u : UdpSocket) : list Z := match u with Some s => owned s | None => [] end.
Definition store_owned σ : list Z := concat (map (fun p => udp_owned p.2) (map_to_list σ)).

Lemma store_owned_insert σ x u :
  σ !! x = None -> store_owned (<[x := u]> σ) ≡ₚ udp_owned u ++ store_owned σ.
Proof using.
  intros Hx. unfold store_owned. rewrite (map_to_list_insert σ x u Hx). done.
Qed.

Lemma store_owned_split σ x u :
  σ !! x = Some u -> store_owned σ ≡ₚ udp_owned u ++ store_owned (base.delete x σ).
Proof using.
  intros Hx. rewrite <- (insert_delete_id σ x u Hx) at 1. apply store_owned_insert. apply lookup_delete_eq.
Qed.

Lemma store_owned_update σ x u v :
  σ !! x = Some u -> exists rest, store_owned σ ≡ₚ udp_owned u ++ rest /\
    store_owned (<[x := v]> σ) ≡ₚ udp_owned v ++ rest.
Proof using.
  intros Hx. exists (store_owned (base.delete x σ)). split; [by apply store_owned_split|].
  rewrite <- (insert_delete_eq σ x v). apply store_owned_insert. apply lookup_delete_eq.
Qed.

(** The open descriptors are those of the objects in scope, each of one object. *)
Definition owns_all (open : list Z) σ : Prop := open ≡ₚ store_owned σ /\ NoDup (store_owned σ).

Lemma close_step_perm s open rest :
  open ≡ₚ owned s ++ rest -> NoDup (owned s ++ rest) -> close_step s open ≡ₚ rest.
Proof using.
  unfold close_step, owned. destruct (socket_ s =? kInvalidSocket); [done|]. simpl.
  intros Hp [Hn _]%NoDup_cons. rewrite Hp, filter_cons_False by (by intros ?).
  rewrite filter_all_eq; [done|]. intros x Hx ->. done.
Qed.

Context `{L : !SocketLaws c}.

Definition exec_post σ (r : res (option store)) (t : list event) w' : Prop :=
  socket_answers w' /\ exists ρ, r = Ok ρ /\
    forall open, owns_all open σ -> fresh open t ->
      match ρ with Some σ' => owns_all (foldl sock_step open t) σ' | None => True end.

Lemma exec_ret σ (ρ : option store) w :
  socket_answers w -> match ρ with Some σ' => store_owned σ' ≡ₚ store_owned σ | None => True end ->
  wp (mret ρ) w (exec_post σ).
Proof using.
  intros Hw H. wp_step. split; [done|]. exists ρ. split; [done|]. intros open [Hp Hn] _.
  destruct ρ as [σ'|]; [|done]. simpl. unfold owns_all. by rewrite H.
Qed.

(** Destroying an object, then going on with the others. *)
Lemma delete_owns σ u σ' w :
  socket_answers w -> store_owned σ ≡ₚ udp_owned u ++ store_owned σ' ->
  wp (delete_impl u;; mret (Some σ')) w (exec_post σ).
Proof using L.
  intros Hw Hσ. wp_step. unfold delete_impl. destruct u as [s|].
  - wp_step. eapply wp_mono; [by apply law_close|]. intros r t w1 (Hw1 & s' & -> & _ & Ho).
    do 2 wp_step. split; [done|]. exists (Some σ'). split; [done|]. intros open [Hp Hn] _.
    rewrite !app_nil_r, Ho. rewrite Hσ in Hp, Hn.
    split; [by apply close_step_perm|]. by apply NoDup_app in Hn as (_ & _ & ?).
  - do 2 wp_step. split; [done|]. exists (Some σ'). split; [done|]. intros open [Hp Hn] _.
    rewrite Hσ in Hp, Hn. by split.
Qed.

Lemma call_owns x o s σ w :
  socket_answers w -> σ !! x = Some (Some s) ->
  wp (r ← forward o (Some s);
      match r with Some (_, u') => mret (Some (<[x := u']> σ)) | None => mret None end) w
    (exec_post σ).
Proof using L.
  intros Hw Hx. wp_step. unfold forward. wp_step. eapply wp_mono; [by apply law_run|].
  intros r t w1 (Hw1 & out & s' & -> & Ho). do 2 wp_step. split; [done|].
  exists (Some (<[x := Some s']> σ)). split; [done|]. rewrite !app_nil_r. intros open [Hp Hn] Hfresh.
  destruct (store_owned_update σ x (Some s) (Some s') Hx) as (rest & E1 & E2).
  rewrite E1 in Hp, Hn. unfold owns_all. rewrite E2. simpl in *. specialize (Ho open).
  assert (Hrest : NoDup rest) by (by apply NoDup_app in Hn as (_ & _ & ?)).
  pose proof (close_step_perm s open rest Hp Hn) as Hclose.
  assert (Hkeep : socket_ s' = socket_ s /\ foldl sock_step open t = open ->
    foldl sock_step open t ≡ₚ owned s' ++ rest /\ NoDup (owned s' ++ rest)).
  { intros [Hs ->]. unfold owned in *. by rewrite Hs. }
  destruct o; try (by apply Hkeep).
  - destruct Ho as [-> Hf]. specialize (Hf Hfresh). unfold open_step, owned.
    destruct (socket_ s' =? kInvalidSocket) eqn:E; bool_cases; simpl; [by split|].
    split; [by rewrite Hclose|]. constructor; [|done]. rewrite <- Hclose. by apply Hf.
  - destruct Ho as [Hs ->]. unfold owned. rewrite Hs. simpl. by split.
Qed.

Lemma exec_owns st σ w : socket_answers w -> wp (exec st σ) w (exec_post σ).
Proof using L.
  intros Hw. destruct st as [x|x y|x y|x o|x]; simpl.
  - destruct (σ !! x) eqn:Hx; apply exec_ret; try done.
    rewrite store_owned_insert by done. simpl. unfold owned. by rewrite law_new.
  - destruct (σ !! x) eqn:Hx; [by apply exec_ret|].
    destruct (σ !! y) as [u|] eqn:Hy; apply exec_ret; try done.
    assert (Hne : y <> x) by congruence.
    destruct (store_owned_update σ y u None Hy) as (rest & E1 & E2).
    rewrite store_owned_insert by (by rewrite lookup_insert_ne). by rewrite E1, E2.
  - destruct (σ !! x) as [u|] eqn:Hx; [|by apply exec_ret].
    destruct (σ !! y) as [v|] eqn:Hy; [|by apply exec_ret].
    case_bool_decide as Hne; [by apply exec_ret|]. apply delete_owns; [done|].
    destruct (store_owned_update σ y v None Hy) as (r1 & E1 & E2).
    assert (Hx' : (<[y := None]> σ : store) !! x = Some u) by (by rewrite lookup_insert_ne).
    destruct (store_owned_update (<[y := None]> σ) x u v Hx') as (r2 & E3 & E4).
    rewrite E4, E1. simpl in E2. rewrite <- E2, E3. by rewrite Permutation_app_swap_app.
  - destruct (σ !! x) as [[s|]|] eqn:Hx; [by apply call_owns| |by apply exec_ret].
    wp_step. unfold forward. do 2 wp_step. split; [done|]. by exists None.
  - destruct (σ !! x) as [u|] eqn:Hx; [|by apply exec_ret].
    apply delete_owns; [done|]. by apply store_owned_split.
Qed.

Lemma execs_owns sts σ w : socket_answers w -> wp (execs sts σ) w (exec_post σ).
Proof using L.
  revert σ w. induction sts as [|st sts IH]; intros σ w Hw; simpl; [by apply exec_ret|].
  wp_step. eapply wp_mono; [by apply exec_owns|].
  intros r t w1 (Hw1 & [σ1|] & -> & H1); [|wp_step; split; [done|]; by exists None].
  eapply wp_mono; [by apply IH|]. intros r2 t2 w2 (Hw2 & ρ & -> & H2). split; [done|].
  exists ρ. split; [done|]. intros open Hown Hf. apply fresh_app in Hf as [Hf1 Hf2].
  specialize (H1 open Hown Hf1). specialize (H2 _ H1 Hf2). by rewrite foldl_app.
Qed.

(** C36: a program of any number of socket objects that are declared, moved, used and
    destroyed in any order never leaks a descriptor and never shares one: as
    long as it calls no method of an object that was moved from, the open
    descriptors are exactly those of the objects in scope, each held by one
    object, and with no object in scope none is open.  It holds of both
    implementations of the socket class. *)
Theorem udp_sockets_never_leak sts w :
  socket_answers w ->
  wp (execs sts ∅) w (fun r t _ => exists ρ, r = Ok ρ /\
    (fresh [] t -> match ρ with
     | Some σ => open_socks t ≡ₚ store_owned σ /\ NoDup (store_owned σ) /\
                 (σ = ∅ -> open_socks t = [])
     | None => True
     end)).
Proof using L.
  intros Hw. eapply wp_mono; [by apply execs_owns|]. intros r t w' (_ & ρ & -> & H). exists ρ.
  split; [done|]. intros Hf. destruct ρ as [σ|]; [|done].
  assert (H0 : owns_all [] ∅) by (split; [done|constructor]).
  destruct (H [] H0 Hf) as [Hp Hn]. split_and!; [done|done|]. intros ->.
  apply Permutation_nil_r. exact Hp.
Qed.
End programs.

(** A method of an object that was moved from is a use of a null pointer,
    [IsValid] and [Close] included. *)
Lemma moved_from_unusable {FS} (c : socket_class FS) o (u : UdpSocket) w :
  (r ← exec c (MoveConstruct 1 0) {[ 0%nat := u ]};
   match r with Some σ => exec c (Call 0 o) σ | None => mret (Some ∅) end) w = (Ok None, w).
Proof. done. Qed.

(** The questions a program may ask; [None] again for a null pointer. *)
Definition udp_IsValid (u : UdpSocket) : option bool := option_map IsValid u.
Definition udp_GetLastError (u : UdpSocket) : option bytes := option_map socket_GetLastError u.
Definition udp_GetNativeHandle (u : UdpSocket) : option Z := option_map GetNativeHandle u.

(** A valid object has an open descriptor, and no other object has it. *)
Lemma valid_handle_open open σ x y u v fd :
  owns_all open σ -> σ !! x = Some u -> σ !! y = Some v -> udp_IsValid u = Some true ->
  udp_GetNativeHandle u = Some fd ->
  fd ∈ open /\ (x <> y -> udp_GetNativeHandle v <> Some fd \/ udp_IsValid v = Some false).
Proof.
  intros [Ho Hn] Hx Hy Hv Hfd. destruct u as [s|]; [|done]. injection Hv as Hv. injection Hfd as Hfd.
  assert (Hs : udp_owned (Some s) = [fd]).
  { simpl. unfold owned, IsValid, GetNativeHandle in *. by destruct (socket_ s =? kInvalidSocket); simplify_eq. }
  rewrite (store_owned_split σ x _ Hx), Hs in Ho, Hn. split; [rewrite Ho; by left|]. intros Hne.
  destruct v as [s'|]; [|by left]. simpl. destruct (IsValid s') eqn:Ev; [left|by right].
  intros [= E]. apply NoDup_cons in Hn as [Hin _]. apply Hin.
  rewrite (store_owned_split (base.delete x σ) y (Some s')) by (by rewrite lookup_delete_ne).
  apply elem_of_app. left. simpl. unfold owned, IsValid, GetNativeHandle in *.
  destruct (socket_ s' =? kInvalidSocket); [done|]. rewrite E. by left.
Qed.

(** ** Address objects

    A [SocketAddress] owns its [sockaddr_in] through a pointer, too.  [None] in
    the result is the use of a null pointer. *)

Definition AddressObject : Type := option sockaddr_in.

Definition address_from (a : sockaddr_in) : AddressObject := Some a.
Definition address_copy (other : AddressObject) : option AddressObject :=
  match other with Some a => Some (Some a) | None => None end.
Definition address_move (other : AddressObject) : AddressObject * AddressObject := (other, None).

(** [self] tells whether both are the same object. *)
Definition address_copy_assign (self : bool) (this other : AddressObject) : option AddressObject :=
  if self then Some this
  else match this, other with
       | Some _, Some b => Some (Some b)
       | _, _ => None
       end.
Definition address_move_assign (self : bool) (this other : AddressObject)
    : AddressObject * AddressObject :=
  if self then (this, other) else (other, None).

Definition GetSockAddr (this : AddressObject) : option sockaddr_in := this.

(** A copy is independent and equal, a move hands the value over, and moving
    back and forth changes nothing; but an address that was moved from cannot
    be assigned to by copying. *)
Lemma address_objects a b :
  address_copy (address_from a) = Some (address_from a) /\
  GetSockAddr (address_move (address_from a)).1 = Some a /\
  address_move_assign false (address_move (address_from a)).2 (address_from b) = (address_from b, None) /\
  address_copy_assign false (address_move (address_from a)).2 (address_from b) = None.
Proof. done. Qed.

(** ** The socket library

    [windows] is the platform, [startup] the answer of [WSAStartup]; the state
    is the number of its successful calls not yet undone. *)

Definition InitializeSocketLibrary (windows : bool) (startup : Z) (uses : Z) : bool * Z :=
  if windows then (if negb (startup =? 0) then (false, uses) else (true, uses + 1)) else (true, uses).
Definition CleanupSocketLibrary (windows : bool) (uses : Z) : Z := if windows then uses - 1 else uses.

(** [initialized_] and the state after the constructor; the destructor. *)
Definition SocketLibraryGuard (windows : bool) (startup uses : Z) : bool * Z :=
  InitializeSocketLibrary windows startup uses.
Definition guard_destroy (windows : bool) (initialized_ : bool) (uses : Z) : Z :=
  if initialized_ then CleanupSocketLibrary windows uses else uses.

(** Guards that live inside each other, with these answers of [WSAStartup]. *)
Fixpoint nested_guards (windows : bool) (startups : list Z) (uses : Z) : Z :=
  match startups with
  | [] => uses
  | a :: rest =>
      let '(ok, uses) := SocketLibraryGuard windows a uses in
      guard_destroy windows ok (nested_guards windows rest uses)
  end.

Lemma guards_balanced windows startups uses : nested_guards windows startups uses = uses.
Proof.
  revert uses. induction startups as [|a rest IH]; intros uses; simpl; [done|].
  unfold SocketLibraryGuard, InitializeSocketLibrary, guard_destroy, CleanupSocketLibrary.
  destruct windows; [destruct (negb (a =? 0))|]; rewrite IH; lia.
Qed.

(** ** Witness *)

(** Two sockets are made, one is moved into a new variable and then over the
    other. *)
Definition sample_program : list stmt :=
  [Construct 1; Call 1 OpCreate; Call 1 (OpBind sample_client); MoveConstruct 2 1;
   Construct 3; Call 3 OpCreate; MoveAssign 3 2; Call 3 (OpSendTo (Some (bs "x")) sample_client);
   Destroy 1; Destroy 2].
Definition sample_os : world unit := World [5; 6] (fun _ => true) [] [] tt [].

Example sample_program_result :
  let '(r, w) := execs (unix_class (bs "error")) sample_program ∅ sample_os in
  r = Ok (Some {[ 3%nat := Some (MkSocket 5 []) ]}) /\ open_socks (w_trace w) = [5].
Proof. by vm_compute. Qed.

Lemma udp_sockets_never_leak_witness :
  wp (execs (unix_class (bs "error")) sample_program ∅) sample_os (fun r t _ => exists ρ, r = Ok ρ /\
    (fresh [] t -> match ρ with
     | Some σ => open_socks t ≡ₚ store_owned σ /\ NoDup (store_owned σ) /\
                 (σ = ∅ -> open_socks t = [])
     | None => True
     end)).
Proof.
  apply (udp_sockets_never_leak (unix_class (bs "error")) sample_program sample_os).
  by repeat constructor.
Defined.
