(* ===== verification/ReadFacts.v ===== *)
(** * Downloads

    The read handler compared with the protocol: for every network the complete
    datagrams it sends are a prefix of the file's DATA stream; with a client
    that acknowledges every block they are the whole stream. *)

From Stdlib Require Import ZArith Lia Strings.Byte.
From stdpp Require Import base tactics numbers list gmap strings.
From S2P Require Import Prelude Common Packet PacketFacts StdText StdPath Util Net Transfer IOFacts Protocol TransferFacts.

(** Datagrams with their destination. *)
Definition to_client (client : sockaddr_in) (l : list bytes) : list (sockaddr_in * bytes) :=
  map (pair client) l.

Lemma map_snd_to_client client l : map snd (to_client client l) = l.
Proof. unfold to_client. rewrite map_map. simpl. apply map_id. Qed.

(** The client that acknowledges every block of the file, from any address. *)
Definition ack_stream (peer : sockaddr_in) (file : bytes) : list rx_event :=
  map (fun i => RxDatagram peer (ack_bytes (wire_number i))) (seq 0 (read_fuel file)).

Section read.
Context `{P : Platform} {FS : Type} `{F : FsOps FS}.
Context (timeout_secs sock : Z) (client : sockaddr_in) (file : bytes).
Implicit Types w : world FS.

Definition block_no (i : nat) : bytes := data_bytes (wire_number i) (chunk file i).

(** The loop variables before block [i]. *)
Definition read_vars (i : nat) : Z * Z := (wire_number i, kMaxDataSize * Z.of_nat i).

(** The next arrival acknowledges block [i]. *)
Definition next_is_ack (i : nat) w : Prop :=
  exists peer, head (w_rx w) = Some (RxDatagram peer (ack_bytes (wire_number i))).

Definition read_block_post (i : nat) w (r : res (Z * Z + bool)) t w' : Prop :=
  frame w w' /\ Forall net_event t /\
  match r with
  | Ok (inl s') =>
      sent t = [(client, block_no i)] /\ s' = read_vars (S i) /\
      kMaxDataSize * Z.of_nat (S i) <= zlen file
  | Ok (inr true) => sent t = [(client, block_no i)] /\ S i = read_fuel file
  | Ok (inr false) => sent t = [(client, block_no i)] \/ sent t = []
  | Throw _ => False
  end /\
  (w_tx w = [] -> next_is_ack i w ->
     r <> Ok (inr false) /\ w_tx w' = [] /\ w_rx w' = tl (w_rx w)).

(** The size the code computes for block [i], and the bytes it copies. *)
Definition block_size_at (i : nat) : Z :=
  let remaining := zlen file - kMaxDataSize * Z.of_nat i in
  if kMaxDataSize <? remaining then kMaxDataSize else remaining.

Lemma block_size_chunk i :
  take (Z.to_nat (block_size_at i)) (drop (Z.to_nat (kMaxDataSize * Z.of_nat i)) file)
  = chunk file i.
Proof using.
  unfold chunk, block_size_at.
  replace (Z.to_nat (kMaxDataSize * Z.of_nat i)) with (Z.to_nat kMaxDataSize * i)%nat
    by (unfold kMaxDataSize; lia).
  destruct (_ <? _) eqn:E; [done|]. bool_cases. unfold kMaxDataSize, zlen in *.
  rewrite !take_ge; [done|rewrite length_drop; lia..].
Qed.

Lemma block_size_cases i :
  (i < read_fuel file)%nat ->
  (block_size_at i = kMaxDataSize /\ kMaxDataSize * Z.of_nat (S i) <= zlen file)
  \/ (block_size_at i < kMaxDataSize /\ S i = read_fuel file).
Proof using.
  intros Hi. apply read_fuel_lt in Hi as Hle. unfold block_size_at.
  pose proof (read_fuel_lt file (S i)) as Hf.
  destruct (_ <? _) eqn:E; bool_cases; unfold kMaxDataSize in *; [left; lia|].
  destruct (decide (zlen file - 512 * Z.of_nat i = 512)); [left; lia|right; lia].
Qed.

(** What the acknowledgement of a cooperating client is received as. *)
Lemma receive_ack i w r t w' :
  next_is_ack i w -> receive_post default_packet w r t w' ->
  exists a, r = Ok (true, a, CreateAck (wire_number i)).
Proof using.
  intros [peer Hh] (_ & _ & _ & _ & _ & ok & a & p' & -> & Hr).
  destruct (w_rx w) as [|e rx]; [done|]. injection Hh as ->.
  destruct Hr as (_ & _ & Hok & Hp).
  change (take _ (ack_bytes _)) with (ack_bytes (wire_number i)) in *.
  rewrite deserialize_ack_bytes in Hok, Hp by auto with tftp. subst ok.
  injection (Hp eq_refl) as ->. eauto.
Qed.

Lemma read_block_spec i w :
  (i < read_fuel file)%nat ->
  wp (read_block timeout_secs sock client file (read_vars i)) w (read_block_post i w).
Proof using.
  intros Hi. unfold read_block, read_vars. fold (block_size_at i).
  pose proof (block_size_cases i Hi) as Hbs. rewrite block_size_chunk.
  destruct (serialize_data_bytes (wire_number i) (chunk file i)) as (p & -> & Hser);
    [auto with tftp..|].
  do 2 wp_step. simpl. wp_step. eapply wp_mono; [by apply SendPacket_spec|].
  intros ? t1 w1 (b & -> & Hf1 & Hrx1 & Hn1 & _ & Hs1 & _ & Htx1).
  destruct b; simpl.
  2: { wp_step. rewrite app_nil_r. split; [done|]. split; [done|]. split; [by right|].
       intros H. destruct (Htx1 H); [unfold kMaxRetries; lia|done]. }
  wp_step. eapply wp_mono; [apply ReceivePacket_spec|]. intros r2 t2 w2 Hr2.
  assert (Hcoop : w_tx w = [] -> next_is_ack i w ->
    (exists a, r2 = Ok (true, a, CreateAck (wire_number i))) /\
    w_tx w2 = [] /\ w_rx w2 = tl (w_rx w)).
  { intros H Hack. destruct (Htx1 H) as [_ Htx]; [unfold kMaxRetries; lia|].
    split; [eapply receive_ack; [|done]; unfold next_is_ack; by rewrite Hrx1|].
    destruct Hr2 as (_ & -> & _ & _ & -> & _). by rewrite Hrx1. }
  destruct Hr2 as (Hf2 & _ & Hn2 & Hs2 & _ & ok & a & p' & -> & _).
  assert (Hs : sent (t1 ++ t2 ++ []) = [(client, block_no i)])
    by (autorewrite with tftp_trace; by rewrite Hs1, Hs2).
  assert (Hn : Forall net_event (t1 ++ t2 ++ [])) by (rewrite !Forall_app; by repeat split).
  assert (Hf : frame w w2) by (by eapply frame_trans).
  destruct (negb ok || (negb (bool_decide (op_code_ p' = kAcknowledge))
                        || negb (block_number_ p' =? wire_number i))) eqn:Eack.
  { assert (Hw : wp (FS := FS) (mret (inr false)) w2 (fun r t => read_block_post i w r (t1 ++ t2 ++ t))).
    { wp_step. split; [done|]. split; [done|]. split; [by left|].
      intros H1 H2. destruct (Hcoop H1 H2) as ([? [= -> _ ->]] & _).
      simpl in Eack. by rewrite Z.eqb_refl in Eack. }
    destruct ok; [|exact Hw]. simpl in Eack |- *. rewrite Eack. exact Hw. }
  apply orb_false_elim in Eack as [Eok Eack]. rewrite Eok, Eack. simpl.
  destruct (block_size_at i <? kMaxDataSize) eqn:Elast; bool_cases; wp_step;
    (split; [done|]); (split; [done|]); (split; [|intros H1 H2; split; [done|];
      by destruct (Hcoop H1 H2)]).
  - split; [done|]. destruct Hbs as [?|[_ ?]]; [lia|done].
  - destruct Hbs as [[-> Hl]|[? _]]; [|lia]. split; [done|]. split; [|done].
    unfold read_vars. rewrite wire_number_S. f_equal. unfold kMaxDataSize. lia.
Qed.
(** ** The loop *)

(** The client of [ack_stream], and a network that accepts every datagram. *)
Definition cooperates (peer : sockaddr_in) w : Prop :=
  w_tx w = [] /\ exists rest, w_rx w = ack_stream peer file ++ rest.

(** Before block [i]: the blocks before it have been sent, and acknowledged. *)
Definition read_inv (peer : sockaddr_in) w0 t (s : Z * Z) w : Prop :=
  exists i, s = read_vars i /\ (i < read_fuel file)%nat /\
    sent t = take i (to_client client (data_stream file)) /\
    frame w0 w /\ Forall net_event t /\
    (cooperates peer w0 ->
       w_tx w = [] /\ exists rest, w_rx w = drop i (ack_stream peer file) ++ rest).

Definition read_loop_post (peer : sockaddr_in) w0 (r : res (Z * Z + bool)) t w : Prop :=
  frame w0 w /\ Forall net_event t /\
  exists b i, r = Ok (inr b) /\ sent t = take i (to_client client (data_stream file)) /\
    (b = true -> i = read_fuel file) /\ (cooperates peer w0 -> b = true).

Lemma stream_lookup i :
  (i < read_fuel file)%nat ->
  to_client client (data_stream file) !! i = Some (client, block_no i).
Proof using.
  intros Hi. unfold to_client, data_stream. rewrite map_map, list_lookup_fmap.
  rewrite lookup_seq_lt by done. done.
Qed.

Lemma stream_length : length (to_client client (data_stream file)) = read_fuel file.
Proof using. unfold to_client, data_stream. by rewrite !length_map, length_seq. Qed.

Lemma ack_stream_lookup peer i :
  (i < read_fuel file)%nat ->
  ack_stream peer file !! i = Some (RxDatagram peer (ack_bytes (wire_number i))).
Proof using.
  intros Hi. unfold ack_stream. rewrite list_lookup_fmap, lookup_seq_lt by done. done.
Qed.

Lemma read_vars_measure i :
  (i < read_fuel file)%nat ->
  Z.to_nat ((zlen file - (read_vars i).2) / kMaxDataSize)
  = (Z.to_nat (zlen file / kMaxDataSize) - i)%nat.
Proof using.
  intros Hi%read_fuel_lt. unfold read_vars, kMaxDataSize in *. simpl.
  replace (zlen file - 512 * Z.of_nat i) with (zlen file + (- Z.of_nat i) * 512) by lia.
  rewrite Z.div_add by lia. lia.
Qed.

Lemma read_loop_spec peer w :
  wp (io_loop (read_fuel file) (read_block timeout_secs sock client file) (1, 0)) w
     (read_loop_post peer w).
Proof using.
  change (1, 0) with (read_vars 0).
  apply (wp_loop _ (fun s => Z.to_nat ((zlen file - s.2) / kMaxDataSize)) (read_inv peer w)
           (read_loop_post peer w) _ _ _ []).
  - intros t s w1 (i & -> & Hi & Hs & Hf & Hn & Hc).
    eapply wp_mono; [by apply read_block_spec|].
    intros r t' w2 (Hf2 & Hn2 & Hr & Hc2).
    assert (Hf' : frame w w2) by (by eapply frame_trans).
    assert (Hn' : Forall net_event (t ++ t')) by (by apply Forall_app).
    assert (Htake : sent t' = [(client, block_no i)] ->
      sent (t ++ t') = take (S i) (to_client client (data_stream file))).
    { intros E. rewrite sent_app, Hs, E. symmetry. by apply take_S_r, stream_lookup. }
    assert (Hcoop : cooperates peer w -> r <> Ok (inr false) /\ w_tx w2 = [] /\
      exists rest, w_rx w2 = drop (S i) (ack_stream peer file) ++ rest).
    { intros [Htx [rest Hrx]]%Hc. rewrite (drop_S _ _ _ (ack_stream_lookup peer i Hi)) in Hrx.
      destruct Hc2 as (Hc2 & Htx2 & Hrx2); [done|exists peer; by rewrite Hrx|].
      rewrite Hrx in Hrx2. split_and!; [done|done|by exists rest]. }
    destruct r as [[s'|[|]]|e]; [|split; [done|]; split; [done|]..|done].
    + destruct Hr as (E & -> & Hle). apply read_fuel_lt in Hle as Hi'. split.
      * exists (S i). repeat split; try apply Hf'; auto; by apply Hcoop.
      * rewrite !read_vars_measure by done. unfold read_fuel in *. lia.
    + destruct Hr as [E Hi']. exists true, (S i). auto.
    + exists false. destruct Hr as [E|E]; [exists (S i)|exists i];
        (split; [done|]); (split; [|split; [done|]]); auto.
      1,3: intros H; by destruct (Hcoop H).
      by rewrite sent_app, E, app_nil_r.
  - rewrite read_vars_measure by (unfold read_fuel; lia). unfold read_fuel. lia.
  - exists 0%nat. repeat split; try done; try apply H. unfold read_fuel. lia.
Qed.
End read.

(** ** The handler *)

Section handler.
Context `{P : Platform} {FS : Type}.
Implicit Types (w : world FS) (cfg : config FS).

(** The whole handler, by the answer of the read callback. *)
Definition read_request_post cfg client path peer w (r : res unit) t w' : Prop :=
  let '(fs, answer) := read_callback_ cfg (w_fs w) path in
  w_fs w' = fs /\ reads t = [path] /\ writes t = [] /\ (forall o, foldl sock_step o t = o) /\
  match answer with
  | Throw e => r = Throw e /\ sent t = []
  | Ok None => r = Ok tt /\ reports client kFileNotFound (bs "File not found") w t
  | Ok (Some file) =>
      r = Ok tt /\
      if max_transfer_size_ cfg <? zlen file
      then reports client kDiskFull (bs "File size too large") w t
      else exists i, sent t = take i (to_client client (data_stream file)) /\
             (cooperates file peer w -> i = read_fuel file)
  end.

Lemma HandleReadRequest_spec cfg sock client path mode peer w :
  wp (HandleReadRequest cfg sock client path mode) w (read_request_post cfg client path peer w).
Proof using.
  unfold HandleReadRequest, read_request_post.
  destruct (read_callback_ cfg (w_fs w) path) as [fs answer] eqn:E.
  wp_step. eapply wp_read; [done|]. set (w1 := add_event _ _).
  assert (Hw1 : w_fs w1 = fs /\ w_tx w1 = w_tx w /\ w_rx w1 = w_rx w) by done.
  destruct Hw1 as (Hfs1 & Htx1 & Hrx1). clearbody w1.
  destruct answer as [[file|]|e]; simpl; [|eapply wp_mono; [by apply SendError_reports|]|done].
  - destruct (max_transfer_size_ cfg <? zlen file).
    + eapply wp_mono; [by apply SendError_reports|].
      intros r t w' (-> & [Hf _] & _ & (Hw & Hr & Ho)%net_events & _ & _ & Hrep).
      unfold reads, writes, reports in *. simpl. rewrite Hr, Hw, Hf, <- Htx1. done.
    + wp_step. eapply wp_mono; [apply (read_loop_spec _ _ _ _ peer)|].
      intros r t w' ([Hf _] & (Hw & Hr & Ho)%net_events & b & i & -> & Hs & Hb & Hc).
      wp_step. rewrite app_nil_r. unfold reads, writes in *. simpl. rewrite Hr, Hw, Hf.
      split_and!; try done. exists i. split; [done|]. intros [H1 H2]. apply Hb, Hc.
      split; [by rewrite Htx1|by rewrite Hrx1].
  - intros r t w' (-> & [Hf _] & _ & (Hw & Hr & Ho)%net_events & _ & _ & Hrep).
    unfold reads, writes, reports in *. simpl. rewrite Hr, Hw, Hf, <- Htx1. done.
Qed.

Lemma ends_HandleReadRequest cfg sock client path mode :
  ends (HandleReadRequest (FS := FS) cfg sock client path mode).
Proof using.
  unfold HandleReadRequest. apply ends_bind.
  { intros w. destruct (read_callback_ cfg (w_fs w) path) as [fs answer] eqn:E. eapply wp_read; [done|].
    by intros [=]%list_elem_of_singleton. }
  intros [file|]; [|auto with ends]. destruct (_ <? _); [auto with ends|].
  apply ends_bind; [|auto with ends]. intros w. eapply wp_mono; [apply (read_loop_spec _ _ _ _ zero_addr)|].
  intros r t w' (_ & Hn & _). by apply net_loops_end.
Qed.

(** C6: a read request calls the read callback once, on the path it is given, and
    nothing else of the file system.  A missing file and a file over the size
    limit are answered with one ERROR packet; for every other file, whatever
    the network does, the datagrams sent are the first blocks of the file, in
    order and without gap or repetition.  The loop always ends and the only
    exception is that of the callback. *)
Theorem read_request_outcome cfg sock client path mode w :
  wp (HandleReadRequest cfg sock client path mode) w (fun r t w' =>
    loops_end t /\ reads t = [path] /\ writes t = [] /\
    match (read_callback_ cfg (w_fs w) path).2 with
    | Throw e => r = Throw e /\ sent t = []
    | Ok None => r = Ok tt /\ reports client kFileNotFound (bs "File not found") w t
    | Ok (Some file) =>
        r = Ok tt /\
        if max_transfer_size_ cfg <? zlen file
        then reports client kDiskFull (bs "File size too large") w t
        else exists i, sent t = take i (to_client client (data_stream file))
    end).
Proof using.
  eapply wp_mono; [apply wp_and; [apply ends_HandleReadRequest|apply (HandleReadRequest_spec _ _ _ _ _ zero_addr)]|].
  intros r t w' [Hend H]. split; [done|]. revert H. unfold read_request_post.
  destruct (read_callback_ cfg (w_fs w) path) as [fs [[file|]|e]]; simpl.
  - intros (_ & ? & ? & _ & -> & H). split_and!; [done..|].
    destruct (_ <? _); [done|]. destruct H as (i & Hi & _). eauto.
  - intuition.
  - intuition.
Qed.

End handler.

