(* ===== verification/WriteFacts.v ===== *)
(** * Uploads

    The write handler compared with the protocol: for every network, what the
    write callback is given is what the receiver of [Protocol.v] makes of the
    datagrams received, within the size limits; with a client that sends the
    DATA stream of a file it is the file. *)

From Stdlib Require Import ZArith Lia Strings.Byte.
From stdpp Require Import base tactics numbers list gmap strings.
From S2P Require Import Prelude Common Packet PacketFacts StdText StdPath Util Net Transfer IOFacts Protocol TransferFacts ReadFacts.

(** A datagram that carries block [bn] with the data [d]. *)
Definition carries `{Platform} (raw : bytes) (bn : Z) (d : bytes) : Prop :=
  exists p, Deserialize default_packet raw = (true, p) /\
    op_code_ p = kData /\ block_number_ p = bn /\ data_ p = d.

(** The size limit and, when the request announced one, the expected size. *)
Definition within (max_size : Z) (expected : option Z) (n : Z) : Prop :=
  n <= max_size /\ match expected with Some e => n <= (e + kMaxDataSize) mod 2 ^ 64 | None => True end.

(** Nothing, or one ERROR packet. *)
Definition at_most_error (l : list bytes) : Prop :=
  l = [] \/ exists code msg, l = [error_bytes code msg].

(** ACK 1 to ACK [n]. *)
Definition acks (n : nat) : list bytes := map (fun i => ack_bytes (wire_number i)) (seq 0 n).

Lemma acks_S n : acks (S n) = acks n ++ [ack_bytes (wire_number n)].
Proof. unfold acks. by rewrite seq_S, map_app. Qed.

(** The datagrams of a client that uploads [file]. *)
Definition upload_stream (peer : sockaddr_in) (file : bytes) : list rx_event :=
  map (RxDatagram peer) (data_stream file).

Section block.
Context `{P : Platform} {FS : Type}.
Context (max_size timeout_secs : Z) (expected : option Z) (sock : Z) (client : sockaddr_in).
Implicit Types w : world FS.

Lemma carries_full raw bn d rest :
  carries raw bn d -> zlen d = kMaxDataSize ->
  receive_file (raw :: rest) bn = app d <$> receive_file rest (u16 (bn + 1)).
Proof using.
  intros (p & Hd & Ho & Hb & <-) Hl. cbn [receive_file]. rewrite Hd, Ho, Hb, Z.eqb_refl, Hl.
  rewrite bool_decide_eq_true_2 by done. cbn [andb]. rewrite Z.ltb_irrefl.
  by destruct (receive_file rest _).
Qed.

Lemma carries_last raw bn d :
  carries raw bn d -> zlen d < kMaxDataSize -> receive_file [raw] bn = Some d.
Proof using.
  intros (p & Hd & Ho & Hb & <-) Hl. cbn [receive_file]. rewrite Hd, Ho, Hb, Z.eqb_refl.
  rewrite bool_decide_eq_true_2 by done. cbn [andb]. by rewrite (proj2 (Z.ltb_lt _ _)).
Qed.

Lemma carries_len raw bn d : carries raw bn d -> zlen d <= kMaxDataSize.
Proof using.
  intros (p & Hd & Ho & _ & <-). apply deserialize_sound in Hd.
  destruct Hd as [o ? ? ? ? ? [-> | ->]| | | |]; done.
Qed.

Lemma carries_data_bytes bn d :
  0 <= bn < 65536 -> zlen d <= kMaxDataSize -> carries (data_bytes bn d) bn d.
Proof using. intros Hb Hd. eexists. split; [by apply deserialize_data_bytes|done]. Qed.
(** One received block, before any decision on it. *)
Definition takes_block (bn : Z) (fd fd' : bytes) t : Prop :=
  exists raw d, received t = [raw] /\ carries raw bn d /\ fd' = fd ++ d /\
    map snd (sent t) = [ack_bytes bn] /\ within max_size expected (zlen fd').

Definition write_block_post (fd : bytes) (bn : Z) w
    (r : res (bytes * Z + option bytes)) t w' : Prop :=
  frame w w' /\ Forall net_event t /\
  match r with
  | Ok (inl (fd', bn')) =>
      takes_block bn fd fd' t /\ bn' = u16 (bn + 1) /\ zlen fd' = zlen fd + kMaxDataSize
  | Ok (inr (Some fd')) => takes_block bn fd fd' t /\ zlen fd' < zlen fd + kMaxDataSize
  | Ok (inr None) =>
      exists l e, map snd (sent t) = l ++ e /\ (l = [] \/ l = [ack_bytes bn]) /\ at_most_error e
  | Throw _ => False
  end /\
  (forall peer d rx,
     w_tx w = [] -> w_rx w = RxDatagram peer (data_bytes bn d) :: rx ->
     zlen d <= kMaxDataSize -> within max_size expected (zlen fd + zlen d) ->
     r <> Ok (inr None) /\ received t = [data_bytes bn d] /\ w_tx w' = [] /\ w_rx w' = rx).

(** What the DATA packet of a cooperating client is received as. *)
Lemma receive_data bn d peer rx w r t w' :
  0 <= bn < 65536 -> zlen d <= kMaxDataSize ->
  w_rx w = RxDatagram peer (data_bytes bn d) :: rx -> receive_post default_packet w r t w' ->
  received t = [data_bytes bn d] /\ w_rx w' = rx /\
  r = Ok (true, peer, MkPacket kData bn kNotDefined [] kOctet d [] ∅).
Proof using.
  intros Hb Hd Hrx (_ & _ & _ & _ & Hrx' & ok & a & p' & -> & Hr). rewrite Hrx in *.
  rewrite take_ge in Hr.
  - destruct Hr as (Hrec & -> & Hok & Hp). rewrite deserialize_data_bytes in Hok, Hp by done.
    subst ok. by injection (Hp eq_refl) as <-.
  - unfold data_bytes, be16, kMaxPacketSize, kMaxDataSize, zlen in *. simpl. lia.
Qed.

(** A [return] from the loop body. *)
Lemma write_stops fd bn w w' t l e :
  frame w w' -> Forall net_event t ->
  map snd (sent t) = l ++ e -> (l = [] \/ l = [ack_bytes bn]) -> at_most_error e ->
  (forall peer d rx, w_tx w = [] -> w_rx w = RxDatagram peer (data_bytes bn d) :: rx ->
     zlen d <= kMaxDataSize -> within max_size expected (zlen fd + zlen d) -> False) ->
  write_block_post fd bn w (Ok (inr None)) t w'.
Proof using.
  intros Hf Hn Hs Hl He Hno. split_and!; [done..|by exists l, e|].
  intros. exfalso. eauto.
Qed.

Lemma reports_at_most_error addr code msg w t :
  reports (FS := FS) addr code msg w t -> at_most_error (map snd (sent t)).
Proof using. intros [[-> | ->] _]; [right; by eexists _, _|by left]. Qed.

(** The end of the body: the limits and the decision on the last block. *)
Definition write_decide (fd' : bytes) (bn : Z) (d : bytes) : IO FS (bytes * Z + option bytes) :=
  if max_size <? zlen fd' then
    SendError sock client kDiskFull (bs "File size too large");; mret (inr None)
  else if match expected with
          | Some n => (n + kMaxDataSize) mod 2 ^ 64 <? zlen fd'
          | None => false
          end then
    SendError sock client kDiskFull (bs "File size exceeds tsize");; mret (inr None)
  else if zlen d <? kMaxDataSize then mret (inr (Some fd'))
  else mret (inl (fd', u16 (bn + 1))).

Lemma write_decide_spec fd' bn d w :
  wp (write_decide fd' bn d) w (fun r t w' =>
    frame w w' /\ Forall net_event t /\ w_rx w' = w_rx w /\ received t = [] /\
    match r with
    | Ok (inl s) => t = [] /\ s = (fd', u16 (bn + 1)) /\ kMaxDataSize <= zlen d /\
        within max_size expected (zlen fd') /\ w' = w
    | Ok (inr (Some x)) => t = [] /\ x = fd' /\ zlen d < kMaxDataSize /\
        within max_size expected (zlen fd') /\ w' = w
    | Ok (inr None) => at_most_error (map snd (sent t)) /\ ~ within max_size expected (zlen fd')
    | Throw _ => False
    end).
Proof using.
  assert (Herr : forall msg, ~ within max_size expected (zlen fd') ->
    wp (SendError sock client kDiskFull msg;; mret (inr None)) w (fun r t w' =>
      frame w w' /\ Forall net_event t /\ w_rx w' = w_rx w /\ received t = [] /\
      exists e : bytes * Z + option bytes, r = Ok e /\ e = inr None /\
      at_most_error (map snd (sent t)) /\ ~ within max_size expected (zlen fd'))).
  { intros msg Hno. wp_step. eapply wp_mono; [by apply SendError_reports|].
    intros r t w' (-> & Hf & Hrx & Hn & Hrec & _ & Hrep%reports_at_most_error).
    wp_step. rewrite app_nil_r. split_and!; eauto 6. }
  unfold write_decide, within in *.
  destruct (max_size <? zlen fd') eqn:E1; bool_cases.
  { eapply wp_mono; [apply Herr; lia|]. intros r t w' (? & ? & ? & ? & ? & -> & -> & ?). done. }
  destruct (match expected with Some _ => _ | None => _ end) eqn:E2.
  { eapply wp_mono; [apply Herr|intros r t w' (? & ? & ? & ? & ? & -> & -> & ?); done].
    destruct expected; [bool_cases; lia|done]. }
  destruct (zlen d <? kMaxDataSize) eqn:E3; bool_cases; wp_step; split_and!; try done;
    destruct expected; bool_cases; done.
Qed.

(** From the acknowledgement of a good block on. *)
Definition write_accept (fd : bytes) (bn : Z) (d : bytes) (addr : sockaddr_in)
    : IO FS (bytes * Z + option bytes) :=
  ok ← SendPacket sock addr (CreateAck bn);
  if negb ok then mret (inr None) else write_decide (fd ++ d) bn d.

Lemma write_accept_spec fd bn d addr w :
  0 <= bn < 65536 ->
  wp (write_accept fd bn d addr) w (fun r t w' =>
    frame w w' /\ Forall net_event t /\ w_rx w' = w_rx w /\ received t = [] /\
    match r with
    | Ok (inl s) => map snd (sent t) = [ack_bytes bn] /\ s = (fd ++ d, u16 (bn + 1)) /\
        kMaxDataSize <= zlen d /\ within max_size expected (zlen (fd ++ d))
    | Ok (inr (Some x)) => map snd (sent t) = [ack_bytes bn] /\ x = fd ++ d /\
        zlen d < kMaxDataSize /\ within max_size expected (zlen (fd ++ d))
    | Ok (inr None) =>
        exists l e, map snd (sent t) = l ++ e /\ (l = [] \/ l = [ack_bytes bn]) /\ at_most_error e
    | Throw _ => False
    end /\
    (w_tx w = [] -> within max_size expected (zlen (fd ++ d)) -> r <> Ok (inr None) /\ w_tx w' = [])).
Proof using.
  intros Hbn. unfold write_accept. wp_step.
  eapply wp_mono; [by apply SendPacket_spec, serialize_ack_bytes|].
  intros ? t w1 (b & -> & Hf & Hrx & Hn & Hrec & Hs & _ & Htx).
  destruct b; simpl; cycle 1.
  { wp_step. rewrite app_nil_r. split_and!; try done.
    - exists [], []. rewrite Hs. split_and!; [done|by left|by left].
    - intros H. destruct Htx; [done|unfold kMaxRetries; lia|done]. }
  eapply wp_mono; [apply write_decide_spec|]. intros r t2 w2 (Hf2 & Hn2 & Hrx2 & Hrec2 & Hr).
  split; [by eapply frame_trans|]. split; [by apply Forall_app|]. split; [by rewrite Hrx2|].
  rewrite received_app, sent_app, map_app, Hs, Hrec, Hrec2. split; [done|].
  assert (Htx' : w_tx w = [] -> w_tx w1 = []).
  { intros H. apply Htx; [done|]. unfold kMaxRetries. lia. }
  destruct r as [[s|[x|]]|e]; [| | |done].
  - destruct Hr as (-> & -> & ? & ? & ->). split_and!; auto.
  - destruct Hr as (-> & -> & ? & ? & ->). split_and!; auto.
  - destruct Hr as [He Hno]. split; [|done]. eexists _, _. split; [done|]. auto.
Qed.

Lemma write_block_spec fd bn w :
  0 <= bn < 65536 ->
  wp (write_block max_size timeout_secs expected sock client (fd, bn)) w (write_block_post fd bn w).
Proof using.
  intros Hbn. unfold write_block. wp_step. eapply wp_mono; [apply ReceivePacket_spec|].
  intros r1 t1 w1 Hr1.
  pose proof (fun peer d rx Hd Hrx => receive_data bn d peer rx w r1 t1 w1 Hbn Hd Hrx Hr1) as Hcoop.
  destruct Hr1 as (Hf1 & Htx1 & Hn1 & Hs1 & _ & ok & a & p & -> & Hrx1).
  destruct ok; simpl; cycle 1.
  { wp_step. rewrite app_nil_r. apply (write_stops _ _ _ _ _ [] []); try done;
      [by rewrite Hs1|by left|by left|].
    intros peer d rx _ H2 H3 _. by destruct (Hcoop peer d rx H3 H2) as (_ & _ & [=]). }
  destruct (bool_decide (op_code_ p = kData)) eqn:Eop; simpl; bool_cases; cycle 1.
  { wp_step. eapply wp_mono; [by apply SendError_reports|].
    intros ? t2 w2 (-> & Hf2 & _ & Hn2 & _ & _ & Hrep%reports_at_most_error).
    wp_step. rewrite app_nil_r. eapply (write_stops _ _ _ _ _ []); [by eapply frame_trans|
      by apply Forall_app|by rewrite sent_app, Hs1|by left|done|].
    intros peer d rx _ H2 H3 _. by destruct (Hcoop peer d rx H3 H2) as (_ & _ & [= _ ->]). }
  destruct (block_number_ p =? bn) eqn:Ebn; simpl; bool_cases; cycle 1.
  { wp_step. rewrite app_nil_r. apply (write_stops _ _ _ _ _ [] []); try done;
      [by rewrite Hs1|by left|by left|].
    intros peer d rx _ H2 H3 _. by destruct (Hcoop peer d rx H3 H2) as (_ & _ & [= _ ->]). }
  assert (exists raw, received t1 = [raw] /\ carries raw bn (data_ p)) as (raw & Hrec1 & Hcar).
  { destruct (w_rx w) as [|[| | |from payload] rx]; try by destruct Hrx1.
    destruct Hrx1 as (Hrec & _ & _ & Hp). eexists. split; [done|]. exists p. auto. }
  fold (write_decide (fd ++ data_ p) bn (data_ p)). fold (write_accept fd bn (data_ p) a).
  eapply wp_mono; [by apply write_accept_spec|].
  intros r t w' (Hf & Hn & Hrx & Hrec & Hr & Hok). unfold write_block_post, takes_block.
  split; [by eapply frame_trans|]. split; [by apply Forall_app|].
  rewrite received_app, sent_app, Hs1, Hrec, Hrec1. simpl. split.
  - apply carries_len in Hcar as Hle. destruct r as [[s|[x|]]|e]; [| |done..].
    + destruct Hr as (Hs & -> & ? & ?). rewrite zlen_app in *. split_and!; [|done|lia].
      by exists raw, (data_ p).
    + destruct Hr as (Hs & -> & ? & ?). rewrite zlen_app in *. split; [|lia].
      by exists raw, (data_ p).
  - intros peer d rx H1 H2 H3 H4. destruct (Hcoop peer d rx H3 H2) as (Hr1 & Hrx' & [= -> ->]).
    simpl in Hok. rewrite Htx1, zlen_app in Hok. destruct (Hok H1 H4) as [? ?].
    rewrite Hrec1 in Hr1. split_and!; [done..|by rewrite Hrx].
Qed.
(** ** The loop *)

(** The client sends the DATA stream of [file], which respects the limits, and
    the network takes every datagram. *)
Definition uploads (peer : sockaddr_in) (file : bytes) w : Prop :=
  w_tx w = [] /\ (exists rest, w_rx w = upload_stream peer file ++ rest) /\
  within max_size expected (zlen file).

Definition write_inv (peer : sockaddr_in) (file : bytes) w0 t (s : bytes * Z) w : Prop :=
  exists i, s.2 = wire_number i /\ zlen s.1 = kMaxDataSize * Z.of_nat i /\
    frame w0 w /\ Forall net_event t /\ map snd (sent t) = acks i /\
    (forall rest, receive_file (received t ++ rest) 1 = app s.1 <$> receive_file rest s.2) /\
    (uploads peer file w0 ->
       (i < read_fuel file)%nat /\ received t = take i (data_stream file) /\ w_tx w = [] /\
       exists rest, w_rx w = drop i (upload_stream peer file) ++ rest).

Definition write_loop_post (peer : sockaddr_in) (file : bytes) w0
    (r : res (bytes * Z + option bytes)) t w : Prop :=
  frame w0 w /\ Forall net_event t /\
  (exists i e, map snd (sent t) = acks i ++ e /\ at_most_error e /\
     (e = [] \/ r = Ok (inr None))) /\
  (uploads peer file w0 -> r = Ok (inr (Some file))) /\
  match r with
  | Ok (inr (Some d)) => receive_file (received t) 1 = Some d /\ within max_size expected (zlen d)
  | Ok (inr None) => True
  | _ => False
  end.

Lemma carries_inj raw bn d d' : carries raw bn d -> carries raw bn d' -> d = d'.
Proof using. intros (p & Hp & _ & _ & <-) (p' & Hp' & _ & _ & <-). congruence. Qed.

Lemma data_stream_lookup file i :
  (i < read_fuel file)%nat ->
  data_stream file !! i = Some (data_bytes (wire_number i) (chunk file i)).
Proof using.
  intros Hi. unfold data_stream. rewrite list_lookup_fmap, lookup_seq_lt by done. done.
Qed.

Lemma data_stream_length file : length (data_stream file) = read_fuel file.
Proof using. unfold data_stream. by rewrite length_map, length_seq. Qed.

Lemma chunk_within file i :
  (i < read_fuel file)%nat -> within max_size expected (zlen file) ->
  within max_size expected (kMaxDataSize * Z.of_nat i + zlen (chunk file i)).
Proof using.
  intros Hi%read_fuel_lt [H1 H2].
  assert (kMaxDataSize * Z.of_nat i + zlen (chunk file i) <= zlen file).
  { unfold chunk, zlen, kMaxDataSize in *. rewrite length_take, length_drop. lia. }
  split; [lia|]. destruct expected; [lia|done].
Qed.

Lemma chunk_full_inv file i :
  (i < read_fuel file)%nat ->
  if zlen (chunk file i) <? kMaxDataSize then S i = read_fuel file else (S i < read_fuel file)%nat.
Proof using.
  intros Hi. pose proof (read_fuel_lt file (S i)) as HS.
  destruct (Z.le_gt_cases (kMaxDataSize * Z.of_nat (S i)) (zlen file)) as [H|H].
  - rewrite chunk_full by (unfold kMaxDataSize in *; lia). rewrite Z.ltb_irrefl. by apply HS.
  - destruct (chunk_short file i) as [Hs _]; [unfold kMaxDataSize in *; lia|].
    rewrite (proj2 (Z.ltb_lt _ _)) by done. lia.
Qed.

(** A cooperating client's block [i], from the state of the invariant. *)
Lemma upload_step peer file w0 t fd w i r t' w' :
  (uploads peer file w0 ->
     (i < read_fuel file)%nat /\ received t = take i (data_stream file) /\ w_tx w = [] /\
     exists rest, w_rx w = drop i (upload_stream peer file) ++ rest) ->
  zlen fd = kMaxDataSize * Z.of_nat i ->
  write_block_post fd (wire_number i) w r t' w' ->
  uploads peer file w0 ->
  (i < read_fuel file)%nat /\ r <> Ok (inr None) /\
  received t' = [data_bytes (wire_number i) (chunk file i)] /\
  received (t ++ t') = take (S i) (data_stream file) /\ w_tx w' = [] /\
  exists rest, w_rx w' = drop (S i) (upload_stream peer file) ++ rest.
Proof using.
  intros Hc Hl (_ & _ & _ & Hb) Hu. destruct (Hc Hu) as (Hi & Hrec & Htx & rest & Hrx).
  assert (Hlk : upload_stream peer file !! i
    = Some (RxDatagram peer (data_bytes (wire_number i) (chunk file i)))).
  { unfold upload_stream. by rewrite list_lookup_fmap, data_stream_lookup. }
  rewrite (drop_S _ _ _ Hlk) in Hrx. simpl in Hrx.
  destruct (Hb peer (chunk file i) _ Htx Hrx) as (Hr & Hrec' & Htx' & Hrx').
  - auto with tftp.
  - rewrite Hl. apply chunk_within; [done|apply Hu].
  - split_and!; try done; [|by exists rest].
    rewrite received_app, Hrec, Hrec'. symmetry. by apply take_S_r, data_stream_lookup.
Qed.

Lemma takes_block_chunk fd fd' t i file :
  takes_block (wire_number i) fd fd' t ->
  received t = [data_bytes (wire_number i) (chunk file i)] -> fd' = fd ++ chunk file i.
Proof using.
  intros (raw & d & E & Hc & -> & _) Hr. rewrite E in Hr. injection Hr as ->. f_equal.
  eapply carries_inj; [done|]. apply carries_data_bytes; auto with tftp.
Qed.

Lemma write_body_inv peer file w0 t s w :
  write_inv peer file w0 t s w ->
  wp (write_block max_size timeout_secs expected sock client s) w (fun r t' w' =>
    match r with
    | Ok (inl s') => write_inv peer file w0 (t ++ t') s' w' /\
        zlen s'.1 = zlen s.1 + kMaxDataSize /\ zlen s'.1 <= max_size
    | Ok (inr v) => write_loop_post peer file w0 (Ok (inr v)) (t ++ t') w'
    | Throw e => False
    end).
Proof using.
  destruct s as [fd bn]. intros (i & Hbn & Hl & Hf & Hn & Hs & Hrf & Hc). simpl in Hbn. subst bn.
  eapply wp_mono; [apply write_block_spec; auto with tftp|]. intros r t' w' Hp.
  pose proof (upload_step _ _ _ _ fd _ _ _ _ _ Hc Hl Hp) as Hu.
  destruct Hp as (Hf' & Hn' & Hr & _). cbn [fst snd] in *.
  assert (Hf2 : frame w0 w') by (by eapply frame_trans).
  assert (Hn2 : Forall net_event (t ++ t')) by (by apply Forall_app).
  destruct r as [[[fd' bn']|[fd'|]]|e]; [| | |done].
  - destruct Hr as (Htb & -> & Hlen). pose proof Htb as (raw & d & Hrec & Hcar & -> & Hs' & Hin).
    rewrite zlen_app in Hlen. split_and!; [|simpl; by rewrite zlen_app|apply Hin].
    exists (S i). simpl. rewrite wire_number_S. split_and!; [done|rewrite zlen_app; lia|done..| | |].
    + by rewrite sent_app, map_app, Hs, Hs', acks_S.
    + intros rest. rewrite received_app, <- app_assoc, Hrec, Hrf. cbn [app].
      rewrite (carries_full _ _ _ _ Hcar) by lia. rewrite wire_number_S.
      destruct (receive_file rest _); simpl; [|done]. by rewrite app_assoc.
    + intros H. destruct (Hu H) as (Hi & _ & Hrec' & Hrec2 & ? & ?). split_and!; try done.
      pose proof (takes_block_chunk _ _ _ _ _ Htb Hrec') as ->%app_inv_head.
      pose proof (chunk_full_inv _ _ Hi) as Hfull. rewrite (proj2 (Z.ltb_ge _ _)) in Hfull by lia. done.
  - destruct Hr as (Htb & Hlen). pose proof Htb as (raw & d & Hrec & Hcar & -> & Hs' & Hin).
    rewrite zlen_app in Hlen.
    assert (Hres : receive_file (received (t ++ t')) 1 = Some (fd ++ d)).
    { rewrite received_app, Hrec, Hrf, (carries_last _ _ _ Hcar) by lia. done. }
    split_and!; [done..| | |done|done].
    + exists (S i), []. rewrite app_nil_r, sent_app, map_app, Hs, Hs', acks_S.
      split_and!; [done|by left|by left].
    + intros H. destruct (Hu H) as (Hi & _ & Hrec' & Hrec2 & ? & ?).
      pose proof (takes_block_chunk _ _ _ _ _ Htb Hrec') as ->%app_inv_head.
      pose proof (chunk_full_inv _ _ Hi) as Hfull. rewrite (proj2 (Z.ltb_lt _ _)) in Hfull by lia.
      rewrite Hrec2, Hfull, <- data_stream_length, firstn_all, receive_stream in Hres. congruence.
  - destruct Hr as (l & e & Hs' & Hle & He). split_and!; [done..| | |done].
    + destruct Hle as [-> | ->]; [exists i, e|exists (S i), e]; (split; [|split; [done|by right]]);
        rewrite sent_app, map_app, Hs, Hs'; [done|]. by rewrite acks_S, <- app_assoc.
    + intros H. by destruct (Hu H) as (_ & ? & _).
Qed.
Lemma write_loop_spec peer file w :
  wp (io_loop (write_fuel max_size) (write_block max_size timeout_secs expected sock client) ([], 1))
     w (write_loop_post peer file w).
Proof using.
  apply (wp_loop _ (fun s => Z.to_nat ((max_size - zlen s.1) / kMaxDataSize))
           (write_inv peer file w) (write_loop_post peer file w) _ _ _ []).
  - intros t s w1 Hinv. eapply wp_mono; [by apply write_body_inv|].
    intros [[s'|v]|e] t' w2; [|done..]. intros (Hi & Hl & Hm). split; [done|].
    rewrite Hl in *. unfold kMaxDataSize in *.
    replace (max_size - zlen s.1) with (max_size - (zlen s.1 + 512) + 1 * 512) by lia.
    rewrite Z.div_add by lia. pose proof (Z.div_pos (max_size - (zlen s.1 + 512)) 512). lia.
  - simpl. rewrite zlen_nil, Z.sub_0_r. unfold write_fuel. lia.
  - exists 0%nat. simpl. split_and!; try done.
    + intros rest. by destruct (receive_file rest 1).
    + intros (Htx & Hrx & _). split_and!; try done. unfold read_fuel. lia.
Qed.
End block.

(** ** The handler *)

Section handler.
Context `{P : Platform} {FS : Type}.
Implicit Types (w : world FS) (cfg : config FS).

(** The first answer to a write request. *)
Definition accept_bytes (packet : TftpPacket) : bytes :=
  if bool_decide (options_ packet = ∅) then ack_bytes 0 else oack_bytes (options_ packet).

Lemma accept_write_spec sock client packet w :
  wp (accept_write sock client packet) w (fun r t w' =>
    exists b, r = Ok b /\ send_post kMaxRetries client (accept_bytes packet) w b t w').
Proof using.
  unfold accept_write, accept_bytes. destruct (bool_decide (options_ packet = ∅)); simpl.
  { by apply SendPacket_spec, serialize_ack_bytes. }
  do 2 wp_step. simpl. wp_step. eexists. split; [done|].
  split_and!; try done.
  - by repeat constructor.
  - unfold sent. simpl. by destruct (_ =? _).
  - unfold sendto_count, kMaxRetries. simpl. lia.
  - intros ->. by rewrite Z.eqb_refl.
Qed.

(** What a write request may do, by whether the write callback was called. *)
Definition stored_nothing w (r : res unit) t w' : Prop :=
  writes t = [] /\ w_fs w' = w_fs w /\ r = Ok tt.

Definition stored cfg path packet w (r : res unit) t w' (d : bytes) : Prop :=
  writes t = [(path, d)] /\ receive_file (received t) 1 = Some d /\
  within (max_transfer_size_ cfg) (expected_size packet) (zlen d) /\
  w_fs w' = (write_callback_ cfg (w_fs w) path d).1 /\
  r = (_ ← (write_callback_ cfg (w_fs w) path d).2; Ok tt).

Definition write_request_post cfg path packet peer file w (r : res unit) t w' : Prop :=
  reads t = [] /\ (forall o, foldl sock_step o t = o) /\
  (stored_nothing w r t w' \/ exists d, stored cfg path packet w r t w' d) /\
  (sent t = [] \/ exists i e, map snd (sent t) = accept_bytes packet :: acks i ++ e /\ at_most_error e) /\
  (uploads (max_transfer_size_ cfg) (expected_size packet) peer file w ->
     stored cfg path packet w r t w' file).

(** The end of the handler: the write callback and the report of its failure. *)
Definition store cfg sock client path (d : bytes) : IO FS unit :=
  success ← call_write cfg path d;
  if negb success
  then SendError sock client kAccessViolation (bs "File write failed")
  else mret tt.

Lemma store_spec cfg sock client path d w :
  wp (store cfg sock client path d) w (fun r t w' =>
    exists t', t = EvWrite path d :: t' /\ Forall net_event t' /\ received t' = [] /\
      at_most_error (map snd (sent t')) /\
      w_fs w' = (write_callback_ cfg (w_fs w) path d).1 /\
      r = (_ ← (write_callback_ cfg (w_fs w) path d).2; Ok tt)).
Proof using.
  destruct (write_callback_ cfg (w_fs w) path d) as [fs wr] eqn:Ewr. unfold store. wp_step.
  eapply wp_write; [done|]. set (w3 := add_event _ _).
  destruct wr as [[|]|ex']; simpl.
  - wp_step. exists []. split_and!; [done..|by left|done|done].
  - eapply wp_mono; [by apply SendError_reports|].
    intros r t w' (-> & Hf & _ & Hn & Hrec & _ & Hrep%reports_at_most_error).
    exists t. split_and!; try done. by destruct Hf as [-> _].
  - exists []. split_and!; [done..|by left|done|done].
Qed.

Lemma HandleWriteRequest_spec cfg sock client path mode packet peer file w :
  wp (HandleWriteRequest cfg sock client path mode packet) w
     (write_request_post cfg path packet peer file w).
Proof using.
  unfold HandleWriteRequest. set (max := max_transfer_size_ cfg). set (ex := expected_size packet).
  wp_step. eapply wp_mono; [apply accept_write_spec|].
  intros ? t1 w1 (b & -> & Hf1 & Hrx1 & Hn1 & Hrec1 & Hs1 & _ & Htx1).
  pose proof (net_events _ Hn1) as (Hw1 & Hr1 & Ho1). destruct b; simpl; cycle 1.
  { wp_step. rewrite app_nil_r. split_and!; try done.
    - left. split_and!; [done|apply Hf1|done].
    - by left.
    - intros (H & _). destruct Htx1; [done|unfold kMaxRetries; lia|done]. }
  wp_step. eapply wp_mono; [apply (write_loop_spec _ _ _ _ _ peer file)|].
  intros r2 t2 w2 (Hf2 & Hn2 & (i & e & Hs2 & He & Her) & Hu & Hr).
  pose proof (net_events _ Hn2) as (Hw2 & Hr2 & Ho2).
  assert (Hs12 : map snd (sent (t1 ++ t2)) = accept_bytes packet :: acks i ++ e)
    by (by rewrite sent_app, map_app, Hs1, Hs2).
  assert (Hfs : w_fs w2 = w_fs w) by (destruct Hf1 as [<- _]; apply Hf2).
  assert (Hu' : uploads max ex peer file w -> r2 = Ok (inr (Some file))).
  { intros (H1 & H2 & H3). apply Hu. split_and!; [|by rewrite Hrx1|done].
    apply Htx1; [done|unfold kMaxRetries; lia]. }
  destruct r2 as [[s|[d|]]|]; try done; simpl; cycle 1.
  { wp_step. rewrite app_nil_r. split_and!.
    - by rewrite reads_app, Hr1, Hr2.
    - intros o. by rewrite foldl_app, Ho1, Ho2.
    - left. split_and!; [by rewrite writes_app, Hw1, Hw2|done..].
    - right. by exists i, e.
    - by intros ?%Hu'. }
  destruct Hr as [Hrec Hin]. destruct Her as [-> |[=]]. rewrite app_nil_r in Hs12.
  fold (store cfg sock client path d). eapply wp_mono; [apply store_spec|].
  intros r t3 w3 (t4 & -> & (Hw4 & Hr4 & Ho4)%net_events & Hrec4 & He4 & Hfs4 & ->).
  change (EvWrite path d :: t4) with ([EvWrite path d] ++ t4). rewrite Hfs in *.
  assert (Hst : stored cfg path packet w (_ ← (write_callback_ cfg (w_fs w) path d).2; Ok tt)
                  (t1 ++ t2 ++ [EvWrite path d] ++ t4) w3 d).
  { unfold stored. autorewrite with tftp_trace. rewrite Hw1, Hw2, Hw4, Hrec1, Hrec4.
    simpl. by rewrite app_nil_r. }
  split_and!.
  - autorewrite with tftp_trace. by rewrite Hr1, Hr2, Hr4.
  - intros o. by rewrite !foldl_app, Ho1, Ho2, Ho4.
  - right. by exists d.
  - right. exists i, (map snd (sent t4)). split; [|done].
    rewrite app_assoc, sent_app, map_app, Hs12, sent_app. done.
  - by intros [= ->]%Hu'.
Qed.
Lemma ends_HandleWriteRequest cfg sock client path mode packet :
  ends (HandleWriteRequest (FS := FS) cfg sock client path mode packet).
Proof using.
  unfold HandleWriteRequest. apply ends_bind.
  { intros w. eapply wp_mono; [apply accept_write_spec|]. intros r t w' (b & _ & _ & _ & Hn & _).
    by apply net_loops_end. }
  intros [|]; simpl; [|auto with ends]. apply ends_bind.
  { intros w. eapply wp_mono; [apply (write_loop_spec _ _ _ _ _ zero_addr [])|]. intros r t w' (_ & Hn & _).
    by apply net_loops_end. }
  intros [s|[d|]]; [auto with ends| |auto with ends]. intros w.
  eapply wp_mono; [apply store_spec|]. intros r t w' (t' & -> & Hn & _).
  apply (loops_end_app [_]). split; [by intros [=]%list_elem_of_singleton|by apply net_loops_end].
Qed.

(** C5: whatever the network delivers, a write request calls the write callback
    at most once and never reads, and its loop ends by itself; what it stores is the file that a receiver
    following the protocol puts together from the datagrams received, its size
    is within the configured limit and, when the request announced a size, at
    most one block (modulo 2^64) beyond it. *)
Theorem upload_integrity cfg sock client path mode packet w :
  wp (HandleWriteRequest cfg sock client path mode packet) w (fun r t w' =>
    loops_end t /\ reads t = [] /\
    (stored_nothing w r t w' \/ exists d, stored cfg path packet w r t w' d)).
Proof using.
  eapply wp_mono; [apply wp_and;
    [apply ends_HandleWriteRequest|apply (HandleWriteRequest_spec _ _ _ _ _ _ zero_addr [])]|].
  by intros r t w' (? & ? & _ & ? & _).
Qed.

(** C30: the datagrams of an upload are the acceptance of the request (OACK when it
    has options, else ACK 0), then ACK 1, 2, ... in order without gap or
    repetition, then at most one ERROR. *)
Theorem upload_replies cfg sock client path mode packet w :
  wp (HandleWriteRequest cfg sock client path mode packet) w (fun _ t _ =>
    sent t = [] \/ exists i e,
      map snd (sent t) = accept_bytes packet :: acks i ++ e /\ at_most_error e).
Proof using.
  eapply wp_mono; [apply (HandleWriteRequest_spec _ _ _ _ _ _ zero_addr [])|].
  by intros r t w' (_ & _ & _ & ? & _).
Qed.

(** A DATA block longer than 512 bytes, which a client sends after the OACK
    has confirmed its larger block size, is received as a good block with only
    its first 512 bytes: the rest of the data is lost without an error. *)
Lemma oversized_block_truncated sock a timeout_ms bn d peer rx w :
  0 <= bn < 65536 -> kMaxDataSize <= zlen d ->
  w_rx w = RxDatagram peer (data_bytes bn d) :: rx ->
  (ReceivePacket sock a default_packet timeout_ms w).1
  = Ok (true, peer, MkPacket kData bn kNotDefined [] kOctet (take 512 d) [] ∅).
Proof using.
  intros Hb Hd Hrx. destruct (ReceivePacket_spec sock a default_packet timeout_ms w)
    as (t & _ & _ & _ & _ & _ & _ & ok & b & p & -> & H).
  rewrite Hrx in H. cbv zeta in H.
  change (take (Z.to_nat kMaxPacketSize) (data_bytes bn d)) with (data_bytes bn (take 512 d)) in H.
  rewrite deserialize_data_bytes in H; [|done|].
  - destruct H as (_ & -> & -> & H). by injection (H eq_refl) as <-.
  - unfold zlen, kMaxDataSize. rewrite length_take. lia.
Qed.
End handler.

(** ** Negotiation *)

Section oack.
Context `{P : Platform}.

(** The options of the OACK. *)
Definition negotiated (opts : options) : options := map_imap (fun k v => Some (negotiated_value k v)) opts.

Lemma negotiated_value_cases k v : negotiated_value k v = v \/
  (k = bs "blksize" /\ negotiated_value k v = bs "512") \/
  (k = bs "timeout" /\ negotiated_value k v = bs "6").
Proof using.
  unfold negotiated_value. repeat case_bool_decide; subst; try (by left).
  - destruct (stoi v) as [b|]; [|auto]. destruct (_ && _); auto.
  - destruct (stoi v) as [b|]; [|auto]. destruct (_ && _); auto.
Qed.
Definition negotiate (o : bytes * bytes) : bytes * bytes := (o.1, negotiated_value o.1 o.2).

Lemma negotiated_list m : map negotiate (map_to_list m) ≡ₚ map_to_list (negotiated m).
Proof using.
  apply NoDup_Permutation.
  - apply (NoDup_fmap_1 fst). rewrite <- list_fmap_compose.
    rewrite (list_fmap_ext _ fst) by done. apply NoDup_fst_map_to_list.
  - apply NoDup_map_to_list.
  - intros [k v]. rewrite elem_of_map_to_list. unfold negotiated. rewrite map_lookup_imap.
    rewrite list_elem_of_fmap. split.
    + intros ([k0 v0] & [= -> ->] & H%elem_of_map_to_list). by rewrite H.
    + destruct (m !! k) as [v0|] eqn:E; simpl; [|done]. intros [= <-].
      exists (k, v0). split; [done|]. by apply elem_of_map_to_list.
Qed.

Lemma negotiate_wf o : wf_option o -> wf_option (negotiate o).
Proof using.
  intros [Hk Hv]. split; [done|]. unfold negotiate. simpl.
  destruct (negotiated_value_cases o.1 o.2) as [-> |[[_ ->]|[_ ->]]]; [done|..];
    by apply (bool_decide_unpack _).
Qed.

(** Only the value of [blksize] can get longer, by two characters. *)
Lemma negotiate_len l :
  NoDup l.*1 -> Forall wf_option l ->
  opts_len (map negotiate l) <= opts_len l + (if bool_decide (bs "blksize" ∈ l.*1) then 2 else 0).
Proof using.
  induction l as [|[k v] l IH]; [done|]. intros [Hk Hl]%NoDup_cons [[_ (Hv & _)] Hf]%Forall_cons.
  specialize (IH Hl Hf). simpl in *. assert (1 <= zlen v) by (destruct v; [done|zlens]).
  destruct (negotiated_value_cases k v) as [-> |[[-> ->]|[-> ->]]].
  - destruct (bool_decide (bs "blksize" ∈ l.*1)) eqn:E; bool_cases; [|case_bool_decide; lia].
    rewrite bool_decide_eq_true_2 by (by right). lia.
  - rewrite (bool_decide_eq_false_2 (_ ∈ l.*1)) in IH by done.
    rewrite bool_decide_eq_true_2 by (by left). change (zlen (bs "512")) with 3. lia.
  - change (zlen (bs "6")) with 1.
    destruct (bool_decide (bs "blksize" ∈ l.*1)) eqn:E; bool_cases; [|case_bool_decide; lia].
    rewrite bool_decide_eq_true_2 by (by right). lia.
Qed.

Lemma oack_bytes_eq m : oack_bytes m = be16 6 ++ concat (map put_option (map negotiate (map_iter m))).
Proof using. unfold oack_bytes. rewrite put_u16_be by done. by rewrite map_map. Qed.

(** C31: the OACK the server builds by hand for an accepted write request is a
    well-formed datagram: a client that parses it finds exactly the options of
    the request, each with its negotiated value. *)
Theorem oack_wire q d packet q' :
  Deserialize q d = (true, packet) -> op_code_ packet = kWriteRequest -> options_ packet <> ∅ ->
  Deserialize q' (oack_bytes (options_ packet)) = (true, CreateOACK (negotiated (options_ packet))).
Proof using.
  intros H Hop Hne. apply deserialize_size in H as Hsz. apply deserialize_sound, wire_wf in H; [|lia].
  destruct H as [H| ->]; [|done]. revert Hop Hne.
  destruct H as [o fn mode opts Ho (Hfn & _) Hm Hw Hlen| | | |]; simpl; intros Hop Hne; try done.
  pose proof (wf_options_len _ Hne Hw) as Hmin. destruct Hw as [Hn Hf].
  set (l := map negotiate (map_iter opts)).
  assert (Hperm : l ≡ₚ map_to_list (negotiated opts))
    by (unfold l; rewrite map_iter_perm; apply negotiated_list).
  assert (Hl : Forall wf_option l).
  { apply Forall_fmap, (Forall_impl wf_option); [by rewrite map_iter_perm|apply negotiate_wf]. }
  assert (Hlen' : opts_len l <= options_len opts + 2).
  { unfold options_len, l. rewrite map_iter_perm.
    pose proof (negotiate_len (map_to_list opts) (NoDup_fst_map_to_list opts) Hf).
    destruct (bool_decide _); lia. }
  assert (Hmin' : 2 <= opts_len l).
  { subst l. destruct (map_iter opts) as [|o' l'] eqn:E; simpl.
    - pose proof (map_iter_perm opts) as Hp. rewrite E in Hp.
      apply Permutation_nil_l in Hp. symmetry in Hp. by apply map_to_list_empty_iff in Hp.
    - pose proof (opts_len_nonneg (map negotiate l')). zlens. }
  rewrite oack_bytes_eq. fold l. rewrite <- (opts_of_list_perm l _ Hperm).
  apply deserialize_complete.
  - unfold kMinPacketSize, kMaxPacketSize in *. rewrite zlen_app, concat_options_len.
    change (zlen (be16 6)) with 2.
    assert (1 <= zlen fn) by (destruct fn; [done|zlens]).
    assert (1 <= zlen (mode_name mode)) by (by destruct Hm as [-> | [-> | ->]]). lia.
  - apply wire_oack, opts_tail_print; [|done]. unfold l. rewrite length_map, map_iter_perm.
    unfold zlen in Hn. lia.
Qed.
End oack.

(** ** Witnesses *)

Definition sample_put : TftpPacket := CreateWriteRequest (bs "up.cfg") kOctet.

Lemma oversized_block_truncated_witness :
  let d := replicate 600 x41 in
  let w := sample_world [RxDatagram sample_client (data_bytes 1 d)] in
  (ReceivePacket (P := platform_le) 7 zero_addr default_packet 5000 w).1
  = Ok (true, sample_client, MkPacket kData 1 kNotDefined [] kOctet (take 512 d) [] ∅).
Proof.
  by apply (oversized_block_truncated (P := platform_le) 7 zero_addr 5000 1 (replicate 600 x41)
              sample_client [] (sample_world [RxDatagram sample_client (data_bytes 1 (replicate 600 x41))])).
Defined.

Definition sample_wrq_bytes : bytes :=
  be16 2 ++ bs "up.cfg" ++ [x00] ++ bs "octet" ++ [x00] ++ bs "blksize" ++ [x00] ++ bs "4" ++ [x00].

Definition sample_blksize : TftpPacket := SetOption sample_put (bs "blksize") (bs "4").

Lemma oack_wire_witness :
  Deserialize (P := platform_le) default_packet (oack_bytes (P := platform_le) (options_ sample_blksize))
  = (true, CreateOACK (negotiated (options_ sample_blksize))).
Proof.
  apply (oack_wire (P := platform_le) default_packet sample_wrq_bytes sample_blksize default_packet);
    [vm_compute; reflexivity|reflexivity|discriminate].
Defined.
