(* ===== verification/Termination.v ===== *)
(** * Requests end

    For every datagram, network and file system [HandleClient] makes a bounded
    number of system calls and waits a bounded time, so a worker always comes
    back to its queue.  The bounds that the definitions of the transfer loops
    carry play no part: they are never reached, and with any larger bound the
    loops give the same result. *)

From Stdlib Require Import ZArith Lia Strings.Byte.
From stdpp Require Import base tactics numbers list gmap strings.
From S2P Require Import Prelude Common Packet PacketFacts StdText StdPath Util Net Transfer IOFacts Protocol TransferFacts ReadFacts WriteFacts.

(** ** What a run costs *)

(** The longest a call can take, in milliseconds, where it waits by itself. *)
Definition event_ms (e : event) : Z :=
  match e with
  | EvSleep ms => ms
  | EvSelect _ _ tv_sec tv_usec => tv_sec * 1000 + tv_usec / 1000
  | _ => 0
  end.
Definition wait_ms (t : list event) : Z := foldr (fun e n => event_ms e + n) 0 t.

Lemma wait_ms_app t1 t2 : wait_ms (t1 ++ t2) = wait_ms t1 + wait_ms t2.
Proof. induction t1 as [|e t IH]; simpl; lia. Qed.

(** The number of calls; the mark of a loop that was stopped is none. *)
Definition event_calls (e : event) : nat := match e with EvOutOfFuel => 0 | _ => 1 end.
Definition n_calls (t : list event) : nat := foldr (fun e n => event_calls e + n)%nat 0%nat t.

Lemma n_calls_app t1 t2 : n_calls (t1 ++ t2) = (n_calls t1 + n_calls t2)%nat.
Proof. induction t1 as [|e t IH]; simpl; lia. Qed.

Lemma n_calls_all t : loops_end t -> n_calls t = length t.
Proof.
  unfold loops_end. induction t as [|e t IH]; [done|]. rewrite not_elem_of_cons. intros [He Ht]. simpl.
  rewrite IH by done. by destruct e.
Qed.

(** A number of calls and a time. *)
Record cost := Cost { c_calls : nat; c_ms : Z }.
Definition cost_add (a b : cost) : cost := Cost (c_calls a + c_calls b) (c_ms a + c_ms b).
Definition cost_scale (n : nat) (a : cost) : cost := Cost (n * c_calls a) (Z.of_nat n * c_ms a).
Definition cost_le (a b : cost) : Prop := (c_calls a <= c_calls b)%nat /\ c_ms a <= c_ms b.
Definition trace_cost (t : list event) : cost := Cost (n_calls t) (wait_ms t).

Declare Scope cost_scope.
Delimit Scope cost_scope with cost.
Bind Scope cost_scope with cost.
Infix "+" := cost_add : cost_scope.
Infix "<=" := cost_le : cost_scope.

#[global] Instance cost_le_preorder : PreOrder cost_le.
Proof. split; [by intros ?|]. intros a b c [? ?] [? ?]. split; lia. Qed.

#[global] Instance cost_add_proper : Proper (cost_le ==> cost_le ==> cost_le) cost_add.
Proof. intros a a' [? ?] b b' [? ?]. split; simpl; lia. Qed.

Lemma trace_cost_app t1 t2 : trace_cost (t1 ++ t2) = (trace_cost t1 + trace_cost t2)%cost.
Proof. unfold trace_cost, cost_add. simpl. by rewrite n_calls_app, wait_ms_app. Qed.

(** Linear arithmetic on costs. *)
Ltac cost_arith :=
  unfold trace_cost, kRetryTimeoutMs, kMaxRetries in *;
  repeat match goal with H : cost_le _ _ |- _ => destruct H end;
  repeat match goal with |- _ /\ _ => split | |- cost_le _ _ => split end;
  cbn [c_calls c_ms cost_add cost_scale app wait_ms n_calls foldr event_ms event_calls] in *;
  rewrite ?Nat2Z.inj_succ in *; nia.

Section costs.
Context `{P : Platform} {FS : Type} `{F : FsOps FS}.
Implicit Types (w : world FS) (cfg : config FS).

(** Every run of [m] costs at most [c] of its result. *)
Definition costs {A} (m : IO FS A) (c : res A -> cost) : Prop :=
  forall w, wp m w (fun r t _ => (trace_cost t <= c r)%cost).

Lemma costs_mono {A} (m : IO FS A) c c' :
  costs m c -> (forall r, (c r <= c' r)%cost) -> costs m c'.
Proof using.
  intros Hm Hc w. eapply wp_mono; [apply Hm|]. intros r t w' H.
  etransitivity; [exact H|apply Hc].
Qed.

Lemma costs_ret {A} (a : A) (c : res A -> cost) : (Cost 0 0 <= c (Ok a))%cost -> costs (mret a) c.
Proof using. intros H w. by wp_step. Qed.

Lemma costs_lift {A} (r : res A) (c : res A -> cost) : (Cost 0 0 <= c r)%cost -> costs (lift_res r) c.
Proof using. intros H w. by wp_step. Qed.

(** Sequencing: the second computation pays on top of the first. *)
Lemma costs_bind {A B} (m : IO FS A) (f : A -> IO FS B) (a : cost) (b : res B -> cost) :
  (forall r, Cost 0 0 <= b r)%cost -> costs m (fun _ => a) -> (forall x, costs (f x) b) ->
  costs (m ≫= f) (fun r => (a + b r)%cost).
Proof using.
  intros Hb Hm Hf w. wp_step. eapply wp_mono; [apply Hm|]. intros [x|e] t w' Ht; cbn beta in Ht.
  - eapply wp_mono; [apply Hf|]. intros r t' w'' Ht'. rewrite trace_cost_app. cbn beta in Ht'.
    by apply cost_add_proper.
  - specialize (Hb (Throw e)). cost_arith.
Qed.

(** A loop whose iterations cost [a] each, and the last one [b] more. *)
Lemma costs_loop {S R} (body : S -> IO FS (S + R)) (a : cost) (b : res (S + R) -> cost) n s :
  (Cost 0 0 <= a)%cost -> (forall r, Cost 0 0 <= b r)%cost ->
  (forall s, costs (body s) (fun r => match r with Ok (inl _) => a | _ => a + b r end)%cost) ->
  costs (io_loop n body s) (fun r => cost_scale n a + b r)%cost.
Proof using.
  intros Ha Hb Hbody. revert s. induction n as [|n IH]; intros s; simpl.
  { intros w. eapply wp_event; [done..|]. specialize (Hb (Ok (inl s))). cost_arith. }
  intros w. wp_step. eapply wp_mono; [apply Hbody|].
  intros [[s'|v]|e] t w1 Ht; cbn beta iota in Ht.
  - eapply wp_mono; [apply IH|]. intros r t' w2 Ht'. rewrite trace_cost_app.
    cost_arith.
  - wp_step. rewrite app_nil_r. cost_arith.
  - cost_arith.
Qed.

(** ** The calls *)

Lemma costs_sendto sock d addr : costs (os_sendto sock d addr) (fun _ => Cost 1 0).
Proof using. intros w. wp_step. by split. Qed.

Lemma costs_sleep ms : costs (os_sleep ms) (fun _ => Cost 1 ms).
Proof using. intros w. wp_step. split; simpl; lia. Qed.

Lemma costs_close s : costs (os_close s) (fun _ => Cost 1 0).
Proof using. intros w. wp_step. by split. Qed.

Lemma costs_socket : costs os_socket (fun _ => Cost 1 0).
Proof using.
  intros w. destruct w as [[|r so] bi tx rx fs tr]; eapply wp_event; done || by split.
Qed.

Lemma costs_os_bind s a : costs (os_bind s a) (fun _ => Cost 1 0).
Proof using. intros w. eapply wp_event; done || by split. Qed.

Lemma costs_call_read cfg path : costs (call_read cfg path) (fun _ => Cost 1 0).
Proof using.
  intros w. destruct (read_callback_ cfg (w_fs w) path) as [fs r] eqn:E.
  eapply wp_read; [done|]. by split.
Qed.

Lemma costs_call_write cfg path d : costs (call_write cfg path d) (fun _ => Cost 1 0).
Proof using.
  intros w. destruct (write_callback_ cfg (w_fs w) path d) as [fs r] eqn:E.
  eapply wp_write; [done|]. by split.
Qed.

(** [cost_seq a b] for a sequence that costs at most [a] and then [b]. *)
Lemma costs_seq {A B} (m : IO FS A) (f : A -> IO FS B) (a b c : cost) :
  (Cost 0 0 <= b)%cost -> (a + b <= c)%cost ->
  costs m (fun _ => a) -> (forall x, costs (f x) (fun _ => b)) -> costs (m ≫= f) (fun _ => c).
Proof using.
  intros Hb Hc Hm Hf. eapply costs_mono; [by apply (costs_bind _ _ a (fun _ => b))|done].
Qed.

(** ** The packet exchange *)

Lemma costs_send_attempts n sock addr d :
  costs (send_attempts n sock addr d) (fun _ => cost_scale n (Cost 2 kRetryTimeoutMs)).
Proof using.
  unfold kRetryTimeoutMs. induction n as [|n IH]; simpl; [apply costs_ret; cost_arith|].
  eapply (costs_seq _ _ (Cost 1 0) (Cost (1 + 2 * n) (1000 + 1000 * Z.of_nat n)));
    [cost_arith..|apply costs_sendto|].
  intros r. destruct (r =? zlen d); [apply costs_ret; cost_arith|].
  eapply costs_seq; [..|apply costs_sleep|intros _; apply IH]; cost_arith.
Qed.

Definition send_cost : cost := Cost 10 5000.
Definition error_cost : cost := Cost 55 27500.

Lemma costs_SendPacket sock addr p : costs (SendPacket sock addr p) (fun _ => send_cost).
Proof using.
  unfold SendPacket. eapply (costs_seq _ _ (Cost 0 0)); [..|intros x; apply costs_send_attempts];
    [cost_arith| |apply costs_lift; cost_arith].
  unfold send_cost, kMaxRetries, kRetryTimeoutMs. cost_arith.
Qed.

Lemma costs_SendError sock addr code msg : costs (SendError sock addr code msg) (fun _ => error_cost).
Proof using.
  assert (H : forall n p, costs (error_attempts n sock addr p) (fun _ => cost_scale n (Cost 11 5500))).
  { intros n p. induction n as [|n IH]; simpl; [apply costs_ret; cost_arith|].
    eapply (costs_seq _ _ send_cost (Cost (1 + 11 * n) (500 + 5500 * Z.of_nat n)));
      [unfold send_cost; cost_arith..|apply costs_SendPacket|].
    intros b. destruct b; [apply costs_ret; cost_arith|].
    eapply costs_seq; [..|apply costs_sleep|intros _; apply IH];
      change (kRetryTimeoutMs / 2) with 500; cost_arith. }
  unfold SendError. eapply costs_mono; [apply H|]. intros r. unfold error_cost. cost_arith.
Qed.

Lemma select_ms ms : 0 <= ms ->
  Z.quot ms 1000 * 1000 + Z.rem ms 1000 * 1000 / 1000 = ms.
Proof using.
  intros H. rewrite Z.div_mul by lia. pose proof (Z.quot_rem ms 1000). lia.
Qed.

Lemma costs_ReceivePacket sock a p ms :
  0 <= ms -> costs (ReceivePacket sock a p ms) (fun _ => Cost 2 ms).
Proof using.
  intros Hms w. unfold ReceivePacket, wp, mbind, io_bind, os_select, os_recvfrom.
  pose proof (select_ms ms Hms) as Hsel.
  destruct w as [so bi tx rx fs tr]; simpl.
  destruct rx as [|[| | |from payload] rx]; simpl.
  1-4: eexists [_]; split; [done|]; cost_arith.
  set (stored := take (Z.to_nat kMaxPacketSize) payload).
  destruct (Deserialize p stored) as [ok p']. destruct (zlen stored <=? 0); simpl;
    (eexists [_; _]; split; [by rewrite <- app_assoc|]; cost_arith).
Qed.

(** ** The handlers *)

(** One block of a transfer, and a whole request. *)
Definition block_cost (timeout_secs : Z) : cost := Cost 12 (5000 + 1000 * timeout_secs).
Definition request_cost cfg : cost :=
  (cost_scale (write_fuel (max_transfer_size_ cfg)) (block_cost (timeout_seconds_ cfg))
   + Cost 69 32500)%cost.

Lemma costs_read_block timeout sock client file s :
  0 <= timeout -> costs (read_block timeout sock client file s) (fun _ => block_cost timeout).
Proof using.
  intros Ht. unfold read_block, block_cost. destruct s as [bn off].
  eapply (costs_seq _ _ (Cost 0 0) (Cost 12 (5000 + 1000 * timeout)));
    [cost_arith..|apply costs_lift; cost_arith|intros p].
  eapply (costs_seq _ _ send_cost (Cost 2 (1000 * timeout)));
    [unfold send_cost; cost_arith..|apply costs_SendPacket|intros ok].
  destruct (negb ok); [apply costs_ret; cost_arith|].
  eapply (costs_seq _ _ (Cost 2 (timeout * 1000)) (Cost 0 0));
    [cost_arith..|apply costs_ReceivePacket; lia|intros [[ok2 a2] p2]].
  repeat case_match; apply costs_ret; cost_arith.
Qed.

Lemma read_fuel_le file max : zlen file <= max -> (read_fuel file <= write_fuel max)%nat.
Proof using.
  intros H. unfold read_fuel, write_fuel. apply le_n_S, Z2Nat.inj_le.
  - apply Z.div_pos; [zlens|done].
  - apply Z.div_pos; [zlens|done].
  - by apply Z.div_le_mono.
Qed.

Lemma costs_HandleReadRequest cfg sock client path mode :
  0 <= timeout_seconds_ cfg ->
  costs (HandleReadRequest cfg sock client path mode)
    (fun _ => cost_scale (write_fuel (max_transfer_size_ cfg)) (block_cost (timeout_seconds_ cfg))
              + Cost 56 27500)%cost.
Proof using.
  intros Ht. unfold HandleReadRequest.
  set (blocks := write_fuel _).
  eapply (costs_seq _ _ (Cost 1 0) (cost_scale blocks (block_cost (timeout_seconds_ cfg)) + error_cost)%cost);
    [unfold block_cost, error_cost; cost_arith..|apply costs_call_read|].
  assert (Herr : forall code msg, costs (SendError sock client code msg)
    (fun _ => cost_scale blocks (block_cost (timeout_seconds_ cfg)) + error_cost)%cost).
  { intros. eapply costs_mono; [apply costs_SendError|]. intros r. unfold block_cost, error_cost. cost_arith. }
  intros [file|]; [|done]. destruct (max_transfer_size_ cfg <? zlen file) eqn:E; [done|]. bool_cases.
  apply read_fuel_le in E. fold blocks in E.
  eapply (costs_seq _ _ (cost_scale (read_fuel file) (block_cost (timeout_seconds_ cfg)) + Cost 0 0)%cost
            (Cost 0 0)); [cost_arith| | |intros _; apply costs_ret; cost_arith];
    [|apply (costs_loop _ (block_cost (timeout_seconds_ cfg)) (fun _ => Cost 0 0))].
  - unfold block_cost, error_cost. cost_arith.
  - unfold block_cost. cost_arith.
  - reflexivity.
  - intros s. eapply costs_mono; [by apply costs_read_block|]. intros [[?|?]|?]; unfold block_cost; cost_arith.
Qed.

(** Only a receiving loop that gives up can have reported an error. *)
Definition upload_end_cost (r : res (bytes * Z + option bytes)) : cost :=
  match r with Ok (inl _) | Ok (inr (Some _)) => Cost 0 0 | _ => error_cost end.

Lemma costs_error_end sock client code msg :
  costs (SendError sock client code msg;; mret (inr None)) upload_end_cost.
Proof using.
  intros w. wp_step. eapply wp_mono; [apply costs_SendError|].
  intros [[]|e] t w' Ht; [wp_step; by rewrite app_nil_r|done].
Qed.

Lemma costs_write_block max timeout expected sock client s :
  0 <= timeout ->
  costs (write_block max timeout expected sock client s)
    (fun r => block_cost timeout + upload_end_cost r)%cost.
Proof using.
  intros Ht. assert (H0 : forall r, (Cost 0 0 <= upload_end_cost r)%cost).
  { intros [[?|[?|]]|?]; simpl; unfold error_cost; cost_arith. }
  unfold write_block. destruct s as [fd bn].
  eapply costs_mono; [apply (costs_bind _ _ (Cost 2 (timeout * 1000))
    (fun r => send_cost + upload_end_cost r)%cost)|].
  - intros r. specialize (H0 r). unfold send_cost. cost_arith.
  - apply costs_ReceivePacket. lia.
  - intros [[ok a] p].
    assert (Hret : forall v, costs (mret v) (fun r => send_cost + upload_end_cost r)%cost).
    { intros v. apply costs_ret. specialize (H0 (Ok v)). unfold send_cost. cost_arith. }
    destruct (negb ok); [apply Hret|]. destruct (negb (bool_decide _)).
    { eapply costs_mono; [apply costs_error_end|]. intros r. unfold send_cost. cost_arith. }
    destruct (negb (_ =? _)); [apply Hret|].
    apply costs_bind; [done|apply costs_SendPacket|]. intros ok2.
    assert (Hret2 : forall v, costs (mret v) upload_end_cost) by (intros v; by apply costs_ret).
    destruct (negb ok2); [apply Hret2|].
    destruct (max <? _); [apply costs_error_end|].
    destruct expected as [n|]; [destruct (_ <? zlen (fd ++ _)); [apply costs_error_end|]|];
      (destruct (_ <? kMaxDataSize); apply Hret2).
  - intros r. unfold block_cost, send_cost. cost_arith.
Qed.

Lemma costs_accept_write sock client packet : costs (accept_write sock client packet) (fun _ => send_cost).
Proof using.
  unfold accept_write. destruct (negb _); [|apply costs_SendPacket].
  eapply (costs_seq _ _ (Cost 1 0) (Cost 0 0)); [unfold send_cost; cost_arith..|apply costs_sendto|].
  intros r. by apply costs_ret.
Qed.

Lemma costs_HandleWriteRequest cfg sock client path mode packet :
  0 <= timeout_seconds_ cfg ->
  costs (HandleWriteRequest cfg sock client path mode packet)
    (fun _ => cost_scale (write_fuel (max_transfer_size_ cfg)) (block_cost (timeout_seconds_ cfg))
              + Cost 66 32500)%cost.
Proof using.
  intros Ht. unfold HandleWriteRequest.
  set (blocks := write_fuel _). set (bc := block_cost _).
  assert (Hbc : (Cost 0 0 <= bc)%cost) by (unfold bc, block_cost; cost_arith).
  eapply (costs_seq _ _ send_cost (cost_scale blocks bc + Cost 56 27500)%cost);
    [unfold send_cost; cost_arith..|apply costs_accept_write|]. intros ok.
  destruct (negb ok); [apply costs_ret; cost_arith|].
  intros w. wp_step. eapply wp_mono.
  { apply (costs_loop _ bc upload_end_cost); [done| |].
    - intros [[?|[?|]]|?]; simpl; unfold error_cost; cost_arith.
    - intros s. eapply costs_mono; [by apply costs_write_block|]. intros [[?|[?|]]|?]; fold bc; simpl; cost_arith. }
  intros [[s|[d|]]|e] t w1 Ht1; cbn [upload_end_cost] in Ht1.
  - wp_step. rewrite app_nil_r. cost_arith.
  - eapply wp_mono; [apply (costs_seq _ _ (Cost 1 0) error_cost (Cost 56 27500))|].
    1,2: unfold error_cost; cost_arith.
    + apply costs_call_write.
    + intros b. destruct (negb b); [apply costs_SendError|apply costs_ret; unfold error_cost; cost_arith].
    + intros r t' w2 Ht'. cbn beta in Ht'. rewrite trace_cost_app. cost_arith.
  - wp_step. rewrite app_nil_r. unfold error_cost in Ht1. cost_arith.
  - unfold error_cost in Ht1. cost_arith.
Qed.

Lemma costs_serve cfg sock client packet :
  0 <= timeout_seconds_ cfg ->
  costs (serve cfg sock client packet)
    (fun _ => cost_scale (write_fuel (max_transfer_size_ cfg)) (block_cost (timeout_seconds_ cfg))
              + Cost 67 32500)%cost.
Proof using.
  intros Ht w. set (bc := cost_scale _ (block_cost _)).
  assert (Hbc : (Cost 0 0 <= bc)%cost) by (unfold bc, block_cost; cost_arith).
  assert (Hclose : forall m : IO FS unit, costs m (fun _ => bc + Cost 66 32500)%cost ->
    costs (m;; os_close sock) (fun _ => bc + Cost 67 32500)%cost).
  { intros m Hm. eapply costs_seq; [..|exact Hm|intros _; apply costs_close]; cost_arith. }
  assert (Herr : forall code msg, costs (SendError sock client code msg) (fun _ => bc + Cost 66 32500)%cost).
  { intros. eapply costs_mono; [apply costs_SendError|]. intros r. unfold error_cost. cost_arith. }
  unfold serve, wp. cbv zeta. destruct (secure_mode_ cfg && _);
    [exact (Hclose _ (Herr _ _) w)|refine (Hclose _ _ w)].
  destruct (op_code_ packet); try apply Herr.
  - eapply costs_mono; [by apply costs_HandleReadRequest|]. intros r. fold bc. cost_arith.
  - by apply costs_HandleWriteRequest.
Qed.

Lemma costs_HandleClient cfg d client :
  0 <= timeout_seconds_ cfg -> costs (HandleClient cfg d client) (fun _ => request_cost cfg).
Proof using.
  intros Ht. unfold request_cost. set (bc := cost_scale _ (block_cost _)).
  assert (Hbc : (Cost 0 0 <= bc)%cost) by (unfold bc, block_cost; cost_arith).
  intros w. unfold HandleClient. wp_step. destruct (Deserialize default_packet d) as [ok packet].
  destruct (negb ok); [wp_step; cost_arith|].
  revert w. change (costs (s ← os_socket;
    if s <? 0 then mret tt
    else r ← os_bind s (SockAddr (sin_addr client) 0);
         if r <? 0 then os_close s else serve cfg s client packet) (fun _ => bc + Cost 69 32500)%cost).
  eapply (costs_seq _ _ (Cost 1 0) (bc + Cost 68 32500)%cost); [cost_arith..|apply costs_socket|intros s].
  destruct (s <? 0); [apply costs_ret; cost_arith|].
  eapply (costs_seq _ _ (Cost 1 0) (bc + Cost 67 32500)%cost); [cost_arith..|apply costs_os_bind|intros r].
  destruct (r <? 0); [|by apply costs_serve].
  eapply costs_mono; [apply costs_close|]. intros ?. cost_arith.
Qed.

(** ** The loops *)

(** A loop that ended within [n] iterations gives the same with any larger
    bound. *)
Lemma io_loop_stable {S R} (body : S -> IO FS (S + R)) n m s w :
  (forall s', (io_loop n body s w).1 <> Ok (inl s')) -> (n <= m)%nat ->
  io_loop m body s w = io_loop n body s w.
Proof using.
  revert m s w. induction n as [|n IH]; intros m s w H Hle; [by destruct (H s)|].
  destruct m as [|m]; [lia|]. simpl in *. unfold mbind, io_bind in *.
  destruct (body s w) as [[[s1|v]|e] w1]; [|done..]. apply IH; [done|lia].
Qed.

Lemma read_loop_ends timeout sock client file w :
  exists b, (io_loop (read_fuel file) (read_block timeout sock client file) (1, 0) w).1 = Ok (inr b).
Proof using.
  destruct (read_loop_spec timeout sock client file zero_addr w) as (t & _ & _ & _ & b & i & H & _).
  eauto.
Qed.

Lemma write_loop_ends max timeout expected sock client w :
  exists o, (io_loop (write_fuel max) (write_block max timeout expected sock client) ([], 1) w).1
            = Ok (inr o).
Proof using.
  destruct (write_loop_spec max timeout expected sock client zero_addr [] w) as (t & _ & _ & _ & _ & _ & H).
  destruct (io_loop _ _ _ w).1 as [[s|o]|e]; try done. eauto.
Qed.

(** C27: the loops of both transfers end by themselves, for every network: after at
    most one iteration per 512 bytes of the file, or of the transfer limit, and
    one more, a [return] or the test for the last block is reached, and a larger
    bound on the iterations changes nothing. *)
Theorem transfer_loops_terminate timeout sock client file max expected w :
  (exists b, forall n, (read_fuel file <= n)%nat ->
     (io_loop n (read_block timeout sock client file) (1, 0) w).1 = Ok (inr b)) /\
  (exists o, forall n, (write_fuel max <= n)%nat ->
     (io_loop n (write_block max timeout expected sock client) ([], 1) w).1 = Ok (inr o)).
Proof using.
  split.
  - destruct (read_loop_ends timeout sock client file w) as [b Hb]. exists b. intros n Hn.
    rewrite (io_loop_stable _ (read_fuel file)); [done| |done]. intros s'. by rewrite Hb.
  - destruct (write_loop_ends max timeout expected sock client w) as [o Ho]. exists o. intros n Hn.
    rewrite (io_loop_stable _ (write_fuel max)); [done| |done]. intros s'. by rewrite Ho.
Qed.

Lemma ends_HandleClient cfg d client : ends (HandleClient cfg d client).
Proof using.
  unfold HandleClient. apply ends_catch_all. destruct (Deserialize default_packet d) as [ok packet].
  destruct (negb ok); [auto with ends|]. apply ends_bind; [auto with ends|]. intros s.
  destruct (s <? 0); [auto with ends|]. apply ends_bind; [auto with ends|]. intros r.
  destruct (r <? 0); [auto with ends|]. intros w. unfold serve.
  assert (H : ends (match op_code_ packet with
    | kReadRequest => HandleReadRequest cfg s client (NormalizePath (w_fs w) (root_dir_ cfg ++ filename_ packet)) (mode_ packet)
    | kWriteRequest => HandleWriteRequest cfg s client (NormalizePath (w_fs w) (root_dir_ cfg ++ filename_ packet)) (mode_ packet) packet
    | _ => SendError s client kIllegalOperation (bs "Illegal operation")
    end)) by (destruct (op_code_ packet); auto using ends_HandleReadRequest, ends_HandleWriteRequest with ends).
  unfold wp. cbv zeta. destruct (secure_mode_ cfg && _).
  - apply (ends_bind (SendError s client kAccessViolation (bs "Access denied")) (fun _ => os_close s));
      auto with ends.
  - apply (ends_bind _ (fun _ => os_close s)); auto with ends.
Qed.

Lemma request_calls cfg d client w :
  0 <= timeout_seconds_ cfg ->
  let blocks := max_transfer_size_ cfg / kMaxDataSize + 1 in
  0 <= max_transfer_size_ cfg ->
  wp (HandleClient cfg d client) w (fun r t _ =>
    r = Ok tt /\ loops_end t /\
    zlen t <= 12 * blocks + 69 /\
    wait_ms t <= (5000 + 1000 * timeout_seconds_ cfg) * blocks + 32500).
Proof using.
  intros Ht blocks Hmax.
  assert (Hr : (HandleClient cfg d client w).1 = Ok tt).
  { unfold HandleClient, catch_all. by destruct (_ w) as [[[]|] ?]. }
  destruct (costs_HandleClient cfg d client Ht w) as (t & Htr & Hc).
  destruct (ends_HandleClient cfg d client w) as (t' & Htr' & Hend).
  rewrite Htr in Htr'. apply app_inv_head in Htr' as <-.
  exists t. split; [done|]. split; [done|]. split; [done|].
  assert (Hb : Z.of_nat (write_fuel (max_transfer_size_ cfg)) = blocks).
  { unfold write_fuel, blocks. pose proof (Z.div_pos (max_transfer_size_ cfg) kMaxDataSize Hmax).
    unfold kMaxDataSize in *. lia. }
  unfold request_cost, block_cost in Hc. destruct Hc as [Hn Hms].
  cbn [c_calls c_ms cost_add cost_scale trace_cost] in Hn, Hms. rewrite n_calls_all in Hn by done. unfold zlen.
  rewrite Hb in Hms. split; lia.
Qed.

(** C15: a request ends, whatever the datagram, the network and the file system: its
    loops end by themselves and no exception leaves the handler, which makes at most twelve system calls per block that the transfer limit
    allows and 69 more, and the time it waits is at most five seconds of
    retries and one receive timeout per block, and 32.5 seconds. *)
Theorem request_bounded cfg d client w :
  0 <= timeout_seconds_ cfg ->
  let blocks := max_transfer_size_ cfg / kMaxDataSize + 1 in
  0 <= max_transfer_size_ cfg ->
  wp (HandleClient cfg d client) w (fun r t _ =>
    r = Ok tt /\ loops_end t /\
    zlen t <= 12 * blocks + 69 /\
    wait_ms t <= (5000 + 1000 * timeout_seconds_ cfg) * blocks + 32500).
Proof using. apply request_calls. Qed.
End costs.

(** ** Witness *)

(** A request for a file that is read without an acknowledgement. *)
Lemma request_bounded_witness :
  wp (HandleClient (P := platform_le) sample_cfg (be16 1 ++ bs "boot.img" ++ [x00] ++ bs "octet" ++ [x00])
        sample_client) (sample_world []) (fun r t _ =>
    r = Ok tt /\ loops_end t /\ zlen t <= 12 * (1073741824 / 512 + 1) + 69 /\
    wait_ms t <= (5000 + 1000 * 5) * (1073741824 / 512 + 1) + 32500).
Proof. apply (request_bounded (P := platform_le) sample_cfg); by vm_compute. Defined.
