(* ===== verification/ClientFacts.v ===== *)
(** * One client from the first datagram on

    [HandleClient] for every datagram, file system and network: what it does
    with the file system, what it answers, and that it closes its socket. *)

From Stdlib Require Import ZArith Lia Strings.Byte.
From stdpp Require Import base tactics numbers list gmap strings.
From S2P Require Import Prelude Common Packet PacketFacts StdText StdPath Util Net Transfer IOFacts Protocol TransferFacts ReadFacts WriteFacts.

Section client.
Context `{P : Platform} {FS : Type} `{F : FsOps FS}.
Implicit Types (w : world FS) (cfg : config FS).

(** The path the callbacks are given. *)
Definition served_path cfg (packet : TftpPacket) w : bytes :=
  NormalizePath (w_fs w) (root_dir_ cfg ++ filename_ packet).

(** Whether the request is refused before it is dispatched. *)
Definition refused cfg (packet : TftpPacket) w : bool :=
  secure_mode_ cfg && negb (IsPathSecure (w_fs w) (filename_ packet) (root_dir_ cfg)).

(** The handler's run [r0], [t0] followed by [close], which an exception skips. *)
Definition closed_after (s : Z) (r0 : res unit) t0 w0 (r : res unit) t w : Prop :=
  w_fs w = w_fs w0 /\
  match r0 with
  | Ok _ => r = Ok tt /\ t = t0 ++ [EvClose s]
  | Throw e => r = Throw e /\ t = t0
  end.

Definition dispatch_post cfg client packet peer file w (r : res unit) t w' : Prop :=
  match op_code_ packet with
  | kReadRequest => read_request_post cfg client (served_path cfg packet w) peer w r t w'
  | kWriteRequest =>
      write_request_post cfg (served_path cfg packet w) packet peer file w r t w'
  | _ => r = Ok tt /\ Forall net_event t /\
      reports client kIllegalOperation (bs "Illegal operation") w t
  end.

Definition serve_post cfg s client packet peer file w (r : res unit) t w' : Prop :=
  exists r0 t0 w0, closed_after s r0 t0 w0 r t w' /\
  if refused cfg packet w
  then r0 = Ok tt /\ Forall net_event t0 /\ reports client kAccessViolation (bs "Access denied") w t0
  else dispatch_post cfg client packet peer file w r0 t0 w0.

Lemma wp_then_close (m : IO FS unit) s w (Q : res unit -> list event -> world FS -> Prop) :
  wp m w Q ->
  wp (m;; os_close s) w (fun r t w' => exists r0 t0 w0, closed_after s r0 t0 w0 r t w' /\ Q r0 t0 w0).
Proof using.
  intros Hm. wp_step. eapply wp_mono; [done|]. intros [[]|e] t w1 HQ.
  - wp_step. by exists (Ok tt), t, w1.
  - by exists (Throw e), t, w1.
Qed.

Lemma serve_spec cfg s client packet peer file w :
  wp (serve cfg s client packet) w (serve_post cfg s client packet peer file w).
Proof using.
  assert (Hrep : forall code msg, 0 <= error_value code < 65536 ->
    wp (SendError s client code msg) w (fun r t _ =>
      r = Ok tt /\ Forall net_event t /\ reports client code msg w t)).
  { intros code msg Hc. eapply wp_mono; [by apply SendError_reports|].
    intros r t w' (? & _ & _ & ? & _ & _ & ?). done. }
  unfold wp at 1, serve. fold (refused cfg packet w). unfold serve_post.
  destruct (refused cfg packet w).
  - by apply wp_then_close, Hrep.
  - fold (served_path cfg packet w).
    apply (wp_then_close _ _ _ (dispatch_post cfg client packet peer file w)).
    unfold dispatch_post. destruct (op_code_ packet); try by apply Hrep.
    + apply HandleReadRequest_spec.
    + apply HandleWriteRequest_spec.
Qed.

(** The whole of [HandleClient].  [w1] is the world after the socket calls. *)
Definition client_post cfg d client peer file w (t : list event) w' : Prop :=
  match Deserialize default_packet d with
  | (false, _) => t = []
  | (true, packet) =>
      let s := default (-1) (head (w_socket w)) in
      let local := SockAddr (sin_addr client) 0 in
      if s <? 0 then t = [EvSocket s]
      else if w_bind w local then
        exists r0 t0 w1, t = [EvSocket s; EvBind s local true] ++ t0 /\
          w_fs w1 = w_fs w /\ w_tx w1 = w_tx w /\ w_rx w1 = w_rx w /\
          serve_post cfg s client packet peer file w1 r0 t0 w'
      else t = [EvSocket s; EvBind s local false; EvClose s]
  end.

Lemma HandleClient_spec cfg d client peer file w :
  wp (HandleClient cfg d client) w (fun r t w' => r = Ok tt /\ client_post cfg d client peer file w t w').
Proof using.
  unfold HandleClient, client_post. wp_step.
  destruct (Deserialize default_packet d) as [[|] packet]; simpl; [|by wp_step].
  wp_step. destruct w as [so bi tx rx fs tr].
  assert (Hsock : forall Q : res Z -> list event -> world FS -> Prop,
    let s := default (-1) (head so) in
    Q (Ok s) [EvSocket s] (World (tl so) bi tx rx fs (tr ++ [EvSocket s])) ->
    wp os_socket (World so bi tx rx fs tr) Q).
  { intros Q s HQ. destruct so; by eapply wp_event. }
  apply Hsock. simpl. set (s := default (-1) (head so)). set (w1 := World _ _ _ _ _ _).
  destruct (s <? 0); [by wp_step|]. wp_step. eapply wp_event; [done..|]. simpl.
  set (w2 := add_event _ _). destruct (bi _); simpl; [|by wp_step].
  eapply wp_mono; [apply (serve_spec _ _ _ _ peer file)|]. intros r t w' H. split; [done|].
  by exists r, t, w2.
Qed.
(** ** Consequences *)

(** The paths a trace gave to the callbacks. *)
Definition touched (t : list event) : list bytes := reads t ++ map fst (writes t).

Lemma closed_after_trace s r0 t0 w0 r t w :
  closed_after s r0 t0 w0 r t w -> touched t = touched t0 /\ sent t = sent t0 /\ writes t = writes t0.
Proof using.
  unfold touched. destruct r0; intros (_ & -> & ->); [|done].
  rewrite reads_app, writes_app, sent_app. by rewrite !app_nil_r.
Qed.

Lemma net_events_touched t : Forall net_event t -> touched t = [].
Proof using. intros (Hw & Hr & _)%net_events. unfold touched. by rewrite Hw, Hr. Qed.

Lemma dispatch_touched cfg client packet peer file w r t w' path :
  dispatch_post cfg client packet peer file w r t w' -> path ∈ touched t ->
  path = served_path cfg packet w.
Proof using.
  unfold dispatch_post, touched. intros Hd Hp. destruct (op_code_ packet);
    try (destruct Hd as (_ & Hn%net_events_touched & _); unfold touched in Hn; rewrite Hn in Hp;
         by apply elem_of_nil in Hp).
  - unfold read_request_post in Hd. destruct (read_callback_ _ _ _) as [fs a].
    destruct Hd as (_ & Hr & Hw & _). rewrite Hr, Hw in Hp.
    by apply list_elem_of_singleton in Hp.
  - destruct Hd as (Hr & _ & [[Hw _]|(d & Hw & _)] & _); rewrite Hr, Hw in Hp.
    + by apply elem_of_nil in Hp.
    + by apply list_elem_of_singleton in Hp.
Qed.

Lemma serve_touched cfg s client packet peer file w r t w' path :
  serve_post cfg s client packet peer file w r t w' -> path ∈ touched t ->
  path = served_path cfg packet w /\ refused cfg packet w = false.
Proof using.
  intros (r0 & t0 & w0 & (-> & _)%closed_after_trace & H) Hp.
  destruct (refused cfg packet w).
  - destruct H as (_ & Hn%net_events_touched & _). rewrite Hn in Hp. by apply elem_of_nil in Hp.
  - split; [|done]. by eapply dispatch_touched.
Qed.

(** A callback that answers instead of throwing. *)
Definition total_callbacks cfg : Prop :=
  (forall fs path e, (read_callback_ cfg fs path).2 <> Throw e) /\
  (forall fs path data e, (write_callback_ cfg fs path data).2 <> Throw e).

Lemma dispatch_no_throw cfg client packet peer file w r t w' :
  total_callbacks cfg -> dispatch_post cfg client packet peer file w r t w' -> r = Ok tt.
Proof using.
  intros [Hr Hw] Hd. unfold dispatch_post in Hd. destruct (op_code_ packet); try apply Hd.
  - specialize (Hr (w_fs w) (served_path cfg packet w)). unfold read_request_post in Hd.
    destruct (read_callback_ _ _ _) as [fs [[a|]|e]]; [apply Hd..|]. by destruct (Hr e).
  - destruct Hd as (_ & _ & [(_ & _ & ->)|(d & _ & _ & _ & _ & ->)] & _); [done|].
    specialize (Hw (w_fs w) (served_path cfg packet w) d).
    destruct (write_callback_ _ _ _ _) as [fs [a|e]]; [done|]. by destruct (Hw e).
Qed.

Lemma dispatch_sockets cfg client packet peer file w r t w' o :
  dispatch_post cfg client packet peer file w r t w' -> foldl sock_step o t = o.
Proof using.
  unfold dispatch_post. intros Hd.
  destruct (op_code_ packet); try (destruct Hd as (_ & (_ & _ & Ho)%net_events & _); apply Ho).
  - unfold read_request_post in Hd. destruct (read_callback_ _ _ _) as [fs a]. apply Hd.
  - apply Hd.
Qed.

Lemma serve_sockets cfg s client packet peer file w r t w' :
  serve_post cfg s client packet peer file w r t w' ->
  foldl sock_step [s] t = match r with Ok _ => [] | Throw _ => [s] end /\
  (total_callbacks cfg -> r = Ok tt).
Proof using.
  intros (r0 & t0 & w0 & Hc & H).
  assert (Ho : foldl sock_step [s] t0 = [s] /\ (total_callbacks cfg -> r0 = Ok tt)).
  { destruct (refused cfg packet w).
    - destruct H as (-> & (_ & _ & Ho)%net_events & _). by rewrite Ho.
    - split; [by eapply dispatch_sockets|]. intros. by eapply dispatch_no_throw. }
  destruct Ho as [Ho Hr]. destruct Hc as [_ Hc]. destruct r0; destruct Hc as [-> ->]; [|done].
  rewrite foldl_app, Ho. simpl. rewrite filter_cons_False by (intros ?; done). done.
Qed.
(** The datagram is a request that passes the checks, and the socket calls
    succeed. *)
Definition serves cfg d client w (packet : TftpPacket) (s : Z) : Prop :=
  Deserialize default_packet d = (true, packet) /\
  head (w_socket w) = Some s /\ 0 <= s /\ w_bind w (SockAddr (sin_addr client) 0) = true /\
  refused cfg packet w = false.

Lemma serves_post cfg d client peer file w packet s t w' :
  serves cfg d client w packet s -> client_post cfg d client peer file w t w' ->
  exists r0 t0 r1 t1 w0 w1,
    w_fs w1 = w_fs w /\ w_tx w1 = w_tx w /\ w_rx w1 = w_rx w /\
    t = [EvSocket s; EvBind s (SockAddr (sin_addr client) 0) true] ++ t1 /\
    closed_after s r0 t0 w0 r1 t1 w' /\ dispatch_post cfg client packet peer file w1 r0 t0 w0.
Proof using.
  intros (Hd & Hs & Hpos & Hb & Hr) H. unfold client_post in H. rewrite Hd, Hs, Hb in H.
  simpl in H. rewrite (proj2 (Z.ltb_ge _ _)) in H by done.
  destruct H as (r1 & t1 & w1 & -> & Hfs & Htx & Hrx & r0 & t0 & w0 & Hc & Hp).
  unfold refused in *. rewrite Hfs, Hr in Hp. naive_solver.
Qed.

Lemma client_confined `{!FsLaws FS} cfg d client w :
  secure_mode_ cfg = true -> is_absolute (root_dir_ cfg) = true ->
  last (root_dir_ cfg) = Some sep -> x00 ∉ root_dir_ cfg ->
  wp (HandleClient cfg d client) w (fun r t _ => r = Ok tt /\
    forall path, path ∈ touched t -> exists canonical_root rest,
      fs_weakly_canonical (w_fs w) (root_dir_ cfg) = Ok canonical_root /\
      path = with_separator canonical_root ++ rest).
Proof using.
  intros Hsec Habs Hlast Hnul.
  eapply wp_mono; [apply (HandleClient_spec _ _ _ zero_addr [])|].
  intros r t w' [-> H]. split; [done|]. intros path Hp. unfold client_post in H.
  destruct (Deserialize _ _) as [[|] packet]; [|subst t; by apply elem_of_nil in Hp].
  destruct (_ <? 0); [subst t; by apply elem_of_nil in Hp|].
  destruct (w_bind _ _); [|subst t; by apply elem_of_nil in Hp].
  destruct H as (r0 & t0 & w1 & -> & Hfs & _ & _ & Hs).
  destruct (serve_touched _ _ _ _ _ _ _ _ _ _ path Hs Hp) as [-> Href].
  unfold refused, served_path in *. rewrite Hfs, Hsec in *.
  apply negb_false_iff in Href. by apply secure_normalized.
Qed.

(** C34: in secure mode a request whose name fails the path check is answered with
    the one ERROR packet "Access denied"; no callback runs and the socket is
    closed. *)
Theorem secure_client_denied cfg d client w packet s :
  Deserialize default_packet d = (true, packet) ->
  head (w_socket w) = Some s -> 0 <= s -> w_bind w (SockAddr (sin_addr client) 0) = true ->
  secure_mode_ cfg = true -> IsPathSecure (w_fs w) (filename_ packet) (root_dir_ cfg) = false ->
  wp (HandleClient cfg d client) w (fun r t _ =>
    r = Ok tt /\ touched t = [] /\ open_socks t = [] /\
    reports client kAccessViolation (bs "Access denied") w t).
Proof using.
  intros Hd Hs Hpos Hb Hsec Hins.
  eapply wp_mono; [apply (HandleClient_spec _ _ _ zero_addr [])|].
  intros r t w' [-> H]. split; [done|]. unfold client_post in H. rewrite Hd, Hs, Hb in H.
  simpl in H. rewrite (proj2 (Z.ltb_ge _ _)) in H by done.
  destruct H as (r0 & t0 & w1 & -> & Hfs & Htx & _ & Hserve).
  pose proof (serve_sockets _ _ _ _ _ _ _ _ _ _ Hserve) as [Ho _].
  destruct Hserve as (r1 & t1 & w2 & Hc & Hp). unfold refused, reports in *.
  rewrite Hfs, Hsec, Hins, Htx in Hp. simpl in Hp. destruct Hp as (-> & Hn%net_events_touched & Hr).
  pose proof (closed_after_trace _ _ _ _ _ _ _ Hc) as (Ht & Hsent & _). destruct Hc as (_ & -> & _).
  change (sent (_ :: _ :: t0)) with (sent t0). rewrite Hsent.
  split_and!; [by etransitivity|..|apply Hr|apply Hr].
  unfold open_socks. simpl. by rewrite (proj2 (Z.ltb_ge _ _)).
Qed.

(** In secure mode every well-formed packet that is not a request (DATA, ACK,
    ERROR or OACK) carries no file name, so it is refused by the path check:
    the "Illegal operation" answer of the dispatch is never reached. *)
Lemma secure_non_request_refused cfg d packet w :
  Deserialize default_packet d = (true, packet) ->
  op_code_ packet <> kReadRequest -> op_code_ packet <> kWriteRequest ->
  secure_mode_ cfg = true -> refused cfg packet w = true.
Proof using.
  intros Hd%deserialize_sound Hr Hw Hsec. unfold refused. rewrite Hsec.
  destruct Hd as [o ? ? ? ? ? [-> | ->]| | | |]; done.
Qed.

(** When the callbacks answer without throwing, [HandleClient] closes every
    socket it opens, whatever the datagram, the file system and the network. *)
Lemma client_socket_closed cfg d client w :
  total_callbacks cfg ->
  wp (HandleClient cfg d client) w (fun r t _ => r = Ok tt /\ open_socks t = []).
Proof using.
  intros Hcb. eapply wp_mono; [apply (HandleClient_spec _ _ _ zero_addr [])|].
  intros r t w' [-> H]. split; [done|]. unfold client_post in H.
  destruct (Deserialize _ _) as [[|] packet]; [|by subst t].
  set (s := default _ _) in *. cbv zeta in H. destruct (s <? 0) eqn:E.
  { subst t. unfold open_socks. simpl. by rewrite E. }
  destruct (w_bind _ _).
  - destruct H as (r0 & t0 & w1 & -> & _ & _ & _ & [Ho Hr]%serve_sockets).
    rewrite (Hr Hcb) in Ho. unfold open_socks. rewrite foldl_app. simpl. by rewrite E.
  - subst t. unfold open_socks. simpl. rewrite E.
    rewrite filter_cons_False by (intros ?; done). done.
Qed.

(** C39: a read callback that throws makes the server drop the request without an
    answer and without closing the client's socket. *)
Theorem callback_exception_leaks_socket cfg d client w packet s e :
  serves cfg d client w packet s -> op_code_ packet = kReadRequest ->
  (read_callback_ cfg (w_fs w) (served_path cfg packet w)).2 = Throw e ->
  wp (HandleClient cfg d client) w (fun r t _ => r = Ok tt /\ sent t = [] /\ open_socks t = [s]).
Proof using.
  intros Hserve Hop Hthrow. eapply wp_mono; [apply (HandleClient_spec _ _ _ zero_addr [])|].
  intros r t w' [-> H]. split; [done|].
  destruct (serves_post _ _ _ _ _ _ _ _ _ _ Hserve H)
    as (r0 & t0 & r1 & t1 & w0 & w1 & Hfs & _ & _ & -> & Hc & Hp).
  unfold dispatch_post, read_request_post, served_path in *. rewrite Hop, Hfs in Hp.
  destruct (read_callback_ _ _ _) as [fs a]. simpl in Hthrow. subst a.
  destruct Hp as (_ & _ & _ & Ho & -> & Hs). destruct Hc as (_ & -> & ->).
  rewrite sent_app. split; [done|]. unfold open_socks. rewrite foldl_app, Ho. simpl.
  destruct Hserve as (_ & _ & Hpos & _). by rewrite (proj2 (Z.ltb_ge _ _)).
Qed.

(** The client socket is bound to the client's own address; when that address
    is not one of the host's, the request gets no answer at all. *)
Lemma remote_client_unserved cfg d client w :
  w_bind w (SockAddr (sin_addr client) 0) = false ->
  wp (HandleClient cfg d client) w (fun r t _ => r = Ok tt /\ sent t = [] /\ touched t = []).
Proof using.
  intros Hb. eapply wp_mono; [apply (HandleClient_spec _ _ _ zero_addr [])|].
  intros r t w' [-> H]. split; [done|]. unfold client_post in H.
  destruct (Deserialize _ _) as [[|] packet]; [|by subst t]. rewrite Hb in H. cbv zeta in H.
  by destruct (_ <? 0); subst t.
Qed.

Lemma read_session_delivers cfg d client peer w packet s fs file :
  serves cfg d client w packet s -> op_code_ packet = kReadRequest ->
  read_callback_ cfg (w_fs w) (served_path cfg packet w) = (fs, Ok (Some file)) ->
  zlen file <= max_transfer_size_ cfg -> cooperates file peer w ->
  wp (HandleClient cfg d client) w (fun r t _ =>
    r = Ok tt /\ touched t = [served_path cfg packet w] /\
    sent t = to_client client (data_stream file) /\
    receive_file (map snd (sent t)) 1 = Some file).
Proof using.
  intros Hserve Hop Hcb Hmax Hcoop. eapply wp_mono; [apply (HandleClient_spec _ _ _ peer file)|].
  intros r t w' [-> H]. split; [done|].
  destruct (serves_post _ _ _ _ _ _ _ _ _ _ Hserve H)
    as (r0 & t0 & r1 & t1 & w0 & w1 & Hfs & Htx & Hrx & -> & Hc & Hp).
  unfold dispatch_post, read_request_post, served_path, cooperates in *.
  rewrite Hop, Hfs, Hcb, (proj2 (Z.ltb_ge _ _)), Htx, Hrx in Hp by done.
  destruct Hp as (_ & Hr & Hw & _ & -> & i & Hs & Hi). specialize (Hi Hcoop) as ->.
  rewrite <- (stream_length client file), firstn_all in Hs.
  pose proof (closed_after_trace _ _ _ _ _ _ _ Hc) as (Ht & Hsent & _).
  rewrite sent_app, Hsent, Hs. split_and!.
  - etransitivity; [exact Ht|]. unfold touched. by rewrite Hr, Hw.
  - done.
  - cbn [sent map concat sent_of app]. rewrite map_snd_to_client. apply receive_stream.
Qed.

(** C2: a read request from its first datagram to its last: a client that
    acknowledges every block gets the file the callback answered with, complete
    and unchanged, and the socket is closed. *)
Theorem read_session cfg d client peer w packet s fs file :
  serves cfg d client w packet s -> op_code_ packet = kReadRequest ->
  read_callback_ cfg (w_fs w) (served_path cfg packet w) = (fs, Ok (Some file)) ->
  zlen file <= max_transfer_size_ cfg -> cooperates file peer w ->
  wp (HandleClient cfg d client) w (fun r t _ =>
    r = Ok tt /\ touched t = [served_path cfg packet w] /\
    sent t = to_client client (data_stream file) /\
    receive_file (map snd (sent t)) 1 = Some file).
Proof using. apply read_session_delivers. Qed.
Lemma write_session_stores cfg d client peer w packet s file :
  serves cfg d client w packet s -> op_code_ packet = kWriteRequest ->
  uploads (max_transfer_size_ cfg) (expected_size packet) peer file w ->
  wp (HandleClient cfg d client) w (fun r t w' =>
    r = Ok tt /\ reads t = [] /\ writes t = [(served_path cfg packet w, file)] /\
    w_fs w' = (write_callback_ cfg (w_fs w) (served_path cfg packet w) file).1).
Proof using.
  intros Hserve Hop Hup. eapply wp_mono; [apply (HandleClient_spec _ _ _ peer file)|].
  intros r t w' [-> H]. split; [done|].
  destruct (serves_post _ _ _ _ _ _ _ _ _ _ Hserve H)
    as (r0 & t0 & r1 & t1 & w0 & w1 & Hfs & Htx & Hrx & -> & [Hfs' Hc] & Hp).
  unfold dispatch_post, served_path in *. rewrite Hop, Hfs in Hp.
  destruct Hp as (Hr & _ & _ & _ & Hst). destruct Hst as (Hw & _ & _ & Hfs0 & _).
  { unfold uploads in *. by rewrite Htx, Hrx. }
  rewrite Hfs in Hfs0. rewrite reads_app, writes_app, Hfs', Hfs0.
  destruct r0; destruct Hc as [_ ->]; rewrite ?reads_app, ?writes_app, Hr, Hw; done.
Qed.

(** C3: a write request from its first datagram to its last: when the client sends
    the DATA stream of a file that respects the limits, the write callback is
    called once, with the checked path and exactly that file. *)
Theorem write_session cfg d client peer w packet s file :
  serves cfg d client w packet s -> op_code_ packet = kWriteRequest ->
  uploads (max_transfer_size_ cfg) (expected_size packet) peer file w ->
  wp (HandleClient cfg d client) w (fun r t w' =>
    r = Ok tt /\ reads t = [] /\ writes t = [(served_path cfg packet w, file)] /\
    w_fs w' = (write_callback_ cfg (w_fs w) (served_path cfg packet w) file).1).
Proof using. apply write_session_stores. Qed.
End client.

(** ** Witnesses *)

(** The datagrams of a read request for [name], and a callback that throws. *)
Definition rrq_bytes (name : bytes) : bytes := be16 1 ++ name ++ [x00] ++ bs "octet" ++ [x00].
Definition wrq_bytes (name : bytes) : bytes := be16 2 ++ name ++ [x00] ++ bs "octet" ++ [x00].
Definition rrq (name : bytes) : TftpPacket := CreateReadRequest name kOctet.
Definition wrq (name : bytes) : TftpPacket := CreateWriteRequest name kOctet.

Definition throwing_cfg : config unit :=
  Config (bs "/srv/tftp/") true (1024 * 1024 * 1024) 5
    (fun fs path => (fs, Throw UserException)) (fun fs path data => (fs, Ok true)).

#[local] Existing Instance platform_le.

Lemma secure_client_denied_witness :
  wp (HandleClient sample_cfg (rrq_bytes (bs "../etc/passwd")) sample_client) (sample_world [])
     (fun r t _ => r = Ok tt /\ touched t = [] /\ open_socks t = [] /\
        reports sample_client kAccessViolation (bs "Access denied") (sample_world []) t).
Proof.
  apply (secure_client_denied sample_cfg (rrq_bytes (bs "../etc/passwd")) sample_client
           (sample_world []) (rrq (bs "../etc/passwd")) 7); by vm_compute.
Defined.

Lemma secure_non_request_refused_witness :
  refused sample_cfg (CreateAck 3) (sample_world []) = true.
Proof.
  apply (secure_non_request_refused sample_cfg (ack_bytes 3) (CreateAck 3) (sample_world []));
    by vm_compute.
Defined.

Lemma client_socket_closed_witness :
  wp (HandleClient sample_cfg (rrq_bytes (bs "boot.img")) sample_client) (sample_world [])
     (fun r t _ => r = Ok tt /\ open_socks t = []).
Proof. apply (client_socket_closed sample_cfg). split; done. Defined.

Lemma callback_exception_leaks_socket_witness :
  wp (HandleClient throwing_cfg (rrq_bytes (bs "boot.img")) sample_client) (sample_world [])
     (fun r t _ => r = Ok tt /\ sent t = [] /\ open_socks t = [7]).
Proof.
  apply (callback_exception_leaks_socket throwing_cfg _ _ _ (rrq (bs "boot.img")) 7 UserException);
    [|done..]. repeat split; by vm_compute.
Defined.

Lemma remote_client_unserved_witness :
  wp (HandleClient sample_cfg (rrq_bytes (bs "boot.img")) sample_client)
     (World [7] (fun _ => false) [] [] tt [])
     (fun r t _ => r = Ok tt /\ sent t = [] /\ touched t = []).
Proof. by apply (remote_client_unserved sample_cfg). Defined.

Lemma read_session_witness :
  let w := sample_world (ack_stream sample_client (bs "kernel")) in
  wp (HandleClient sample_cfg (rrq_bytes (bs "boot.img")) sample_client) w (fun r t _ =>
    r = Ok tt /\ touched t = [served_path sample_cfg (rrq (bs "boot.img")) w] /\
    sent t = to_client sample_client (data_stream (bs "kernel")) /\
    receive_file (map snd (sent t)) 1 = Some (bs "kernel")).
Proof.
  apply (read_session sample_cfg (rrq_bytes (bs "boot.img")) sample_client sample_client
           (sample_world (ack_stream sample_client (bs "kernel"))) (rrq (bs "boot.img")) 7 tt (bs "kernel")); [|done|by vm_compute|done|].
  - repeat split; by vm_compute.
  - split; [done|]. by exists [].
Defined.

Lemma write_session_witness :
  let w := sample_world (upload_stream sample_client (bs "config")) in
  wp (HandleClient sample_cfg (wrq_bytes (bs "up.cfg")) sample_client) w (fun r t w' =>
    r = Ok tt /\ reads t = [] /\
    writes t = [(served_path sample_cfg (wrq (bs "up.cfg")) w, bs "config")] /\
    w_fs w' = tt).
Proof.
  apply (write_session sample_cfg (wrq_bytes (bs "up.cfg")) sample_client sample_client
           (sample_world (upload_stream sample_client (bs "config"))) (wrq (bs "up.cfg")) 7 (bs "config")); [|done|].
  - repeat split; by vm_compute.
  - split; [done|]. split; [by exists []|done].
Defined.
