(* ===== verification/Server.v ===== *)
(** * The server object

    [TftpServerImpl] of [src/internal/tftp_server_impl.h] and [.cpp] as its
    users see it (constructor, setters, [Start], [Stop], [IsRunning]) and the
    facade [TftpServer] of [src/tftp_server.cpp], which validates its arguments.
    The answers of the operating system are arguments; [Start] and [Stop] also
    give the socket calls they make.  What the threads do in between is in
    [System]. *)

From Stdlib Require Import ZArith Lia Strings.Byte.
From stdpp Require Import base tactics numbers list gmap strings.
From S2P Require Import Prelude Common Packet PacketFacts StdText StdPath Util Validation Files ThreadPool Net Transfer IOFacts Protocol TransferFacts ReadFacts WriteFacts ClientFacts.

(** What a worker runs: [HandleClient] on a datagram and its sender. *)
Definition task : Type := bytes * sockaddr_in.

Record TftpServerImpl (FS : Type) := ServerImpl {
  cfg_ : config FS;            (* the members the handlers read *)
  port_ : Z;
  sockfd_ : Z;
  running_ : bool;
  server_thread_ : bool;       (* joinable *)
  thread_pool_ : option (pool task);
  thread_pool_size_ : Z;
}.
Arguments ServerImpl {FS}.
Arguments cfg_ {FS}.
Arguments port_ {FS}.
Arguments sockfd_ {FS}.
Arguments running_ {FS}.
Arguments server_thread_ {FS}.
Arguments thread_pool_ {FS}.
Arguments thread_pool_size_ {FS}.

(** [root_dir_] after the constructor: a slash is added unless the name is empty
    or ends in a slash or a backslash. *)
Definition stored_root (root_dir : bytes) : bytes :=
  match last root_dir with
  | None => root_dir
  | Some b => if bool_decide (b = x2f) || bool_decide (b = x5c) then root_dir else root_dir ++ [x2f]
  end.

(** What the operating system answers in [Start]. *)
Record start_answers := StartAnswers {
  a_socket : Z;
  a_setsockopt : bool;
  a_bind : bool;
}.

Section server.
Context `{P : Platform} {FS : Type} `{O : FileOps FS}.
Implicit Types s : TftpServerImpl FS.

(** [hardware] is [std::thread::hardware_concurrency()]. *)
Definition make_impl (hardware : Z) (root_dir : bytes) (port : Z) : TftpServerImpl FS :=
  ServerImpl
    (Config (stored_root root_dir) true (1024 * 1024 * 1024) 5 DefaultReadHandler DefaultWriteHandler)
    port (-1) false false None hardware.

Definition set_cfg (c : config FS) s : TftpServerImpl FS :=
  ServerImpl c (port_ s) (sockfd_ s) (running_ s) (server_thread_ s) (thread_pool_ s)
    (thread_pool_size_ s).

Definition impl_SetReadCallback (cb : FS -> bytes -> FS * res (option bytes)) s : TftpServerImpl FS :=
  let c := cfg_ s in
  set_cfg (Config (root_dir_ c) (secure_mode_ c) (max_transfer_size_ c) (timeout_seconds_ c)
             cb (write_callback_ c)) s.
Definition impl_SetWriteCallback (cb : FS -> bytes -> bytes -> FS * res bool) s : TftpServerImpl FS :=
  let c := cfg_ s in
  set_cfg (Config (root_dir_ c) (secure_mode_ c) (max_transfer_size_ c) (timeout_seconds_ c)
             (read_callback_ c) cb) s.
Definition impl_SetSecureMode (secure : bool) s : TftpServerImpl FS :=
  let c := cfg_ s in
  set_cfg (Config (root_dir_ c) secure (max_transfer_size_ c) (timeout_seconds_ c)
             (read_callback_ c) (write_callback_ c)) s.
Definition impl_SetMaxTransferSize (size : Z) s : TftpServerImpl FS :=
  let c := cfg_ s in
  set_cfg (Config (root_dir_ c) (secure_mode_ c) size (timeout_seconds_ c)
             (read_callback_ c) (write_callback_ c)) s.
Definition impl_SetTimeout (seconds : Z) s : TftpServerImpl FS :=
  let c := cfg_ s in
  set_cfg (Config (root_dir_ c) (secure_mode_ c) (max_transfer_size_ c) seconds
             (read_callback_ c) (write_callback_ c)) s.
Definition impl_SetThreadPoolSize (size : Z) s : TftpServerImpl FS :=
  ServerImpl (cfg_ s) (port_ s) (sockfd_ s) (running_ s) (server_thread_ s) (thread_pool_ s) size.

(** The returned flag, the object and the socket calls. *)
Definition impl_Start (hardware : Z) (a : start_answers) s : bool * TftpServerImpl FS * list event :=
  if running_ s then (true, s, [])
  else
    let fd := a_socket a in
    let s1 := ServerImpl (cfg_ s) (port_ s) fd (running_ s) (server_thread_ s) (thread_pool_ s)
                (thread_pool_size_ s) in
    if fd <? 0 then (false, s1, [EvSocket fd])
    else if negb (a_setsockopt a) then (false, s1, [EvSocket fd; EvSetsockopt fd 1 (-1); EvClose fd])
    else
      let addr := SockAddr 0 (htons (port_ s)) in
      if negb (a_bind a) then (false, s1, [EvSocket fd; EvSetsockopt fd 1 0; EvBind fd addr false; EvClose fd])
      else
        (true,
         ServerImpl (cfg_ s) (port_ s) fd true true
           (Some (TftpThreadPool hardware (thread_pool_size_ s))) (thread_pool_size_ s),
         [EvSocket fd; EvSetsockopt fd 1 0; EvBind fd addr true]).

(** The state after the calls that [Stop] waits for have returned. *)
Definition impl_Stop s : TftpServerImpl FS * list event :=
  if negb (running_ s) then (s, [])
  else
    (ServerImpl (cfg_ s) (port_ s) (if 0 <=? sockfd_ s then -1 else sockfd_ s) false false None
       (thread_pool_size_ s),
     if 0 <=? sockfd_ s then [EvClose (sockfd_ s)] else []).

Definition impl_IsRunning s : bool :=
  if negb (running_ s) then false
  else if sockfd_ s <? 0 then false
  else if negb (server_thread_ s) then false
  else true.

(** ** The facade

    [impl_] is set by the constructor and never reset, so the tests for a null
    [impl_] have no counterpart. *)

Definition TftpServer (hardware : Z) (root_dir : bytes) (port : Z) : res (TftpServerImpl FS) :=
  if negb (ValidateRootDirectory root_dir)
  then Throw (TftpException (bs "Invalid root directory: " ++ root_dir))
  else if negb (ValidatePort port)
  then Throw (TftpException (bs "Invalid port number: " ++ to_string port))
  else Ok (make_impl hardware root_dir port).

Definition SetReadCallback (cb : option (FS -> bytes -> FS * res (option bytes))) s
    : res (TftpServerImpl FS) :=
  match cb with
  | Some f => Ok (impl_SetReadCallback f s)
  | None => Throw (TftpException (bs "Read callback cannot be null"))
  end.

Definition SetWriteCallback (cb : option (FS -> bytes -> bytes -> FS * res bool)) s
    : res (TftpServerImpl FS) :=
  match cb with
  | Some f => Ok (impl_SetWriteCallback f s)
  | None => Throw (TftpException (bs "Write callback cannot be null"))
  end.

Definition SetSecureMode (secure : bool) s : res (TftpServerImpl FS) := Ok (impl_SetSecureMode secure s).

Definition SetMaxTransferSize (size : Z) s : res (TftpServerImpl FS) :=
  if negb (ValidateTransferSize size)
  then Throw (TftpException (bs "Invalid transfer size: " ++ to_string size))
  else Ok (impl_SetMaxTransferSize size s).

Definition SetTimeout (seconds : Z) s : res (TftpServerImpl FS) :=
  if negb (ValidateTimeout seconds)
  then Throw (TftpException (bs "Invalid timeout: " ++ to_string seconds))
  else Ok (impl_SetTimeout seconds s).

(** The calls a user can make; a call that throws leaves the object as it was. *)
Inductive api_call :=
  | CallStart (a : start_answers)
  | CallStop
  | CallSetReadCallback (cb : option (FS -> bytes -> FS * res (option bytes)))
  | CallSetWriteCallback (cb : option (FS -> bytes -> bytes -> FS * res bool))
  | CallSetSecureMode (secure : bool)
  | CallSetMaxTransferSize (size : Z)
  | CallSetTimeout (seconds : Z).

Definition keep (r : res (TftpServerImpl FS)) s : TftpServerImpl FS :=
  match r with Ok s' => s' | Throw _ => s end.

Definition call (hardware : Z) (c : api_call) s : TftpServerImpl FS * list event :=
  match c with
  | CallStart a => let '(_, s', t) := impl_Start hardware a s in (s', t)
  | CallStop => impl_Stop s
  | CallSetReadCallback cb => (keep (SetReadCallback cb s) s, [])
  | CallSetWriteCallback cb => (keep (SetWriteCallback cb s) s, [])
  | CallSetSecureMode b => (keep (SetSecureMode b s) s, [])
  | CallSetMaxTransferSize n => (keep (SetMaxTransferSize n s) s, [])
  | CallSetTimeout n => (keep (SetTimeout n s) s, [])
  end.

(** The object and the trace after a sequence of calls. *)
Fixpoint calls (hardware : Z) (cs : list api_call) s : TftpServerImpl FS * list event :=
  match cs with
  | [] => (s, [])
  | c :: cs' =>
      let '(s1, t1) := call hardware c s in
      let '(s2, t2) := calls hardware cs' s1 in
      (s2, t1 ++ t2)
  end.
End server.
