(* ===== verification/ServerFacts.v ===== *)
(** * Properties of the server object

    What holds after any sequence of calls of the public interface, and how
    the object's configuration, the file callbacks and the request handlers
    work together. *)

From Stdlib Require Import ZArith Lia Strings.Byte.
From stdpp Require Import base tactics numbers list gmap strings.
From S2P Require Import Prelude Common Packet PacketFacts StdText StdPath Util Validation Files ThreadPool Net Transfer IOFacts Protocol TransferFacts ReadFacts WriteFacts ClientFacts Server.

(** ** The stored root directory *)

Lemma stored_root_cases root :
  root <> [] -> last root <> Some x5c ->
  last (stored_root root) = Some sep /\ (stored_root root = root \/ stored_root root = root ++ [sep]).
Proof.
  intros Hne Hb. unfold stored_root. destruct (last root) as [b|] eqn:E.
  - destruct (bool_decide (b = x2f)) eqn:E1; bool_cases; simpl; [subst b; auto|].
    rewrite bool_decide_eq_false_2 by congruence. rewrite last_snoc. auto.
  - by apply last_None in E.
Qed.

Lemma ValidateRootDirectory_parts root :
  ValidateRootDirectory root = true -> root <> [] /\ x00 ∉ root.
Proof.
  unfold ValidateRootDirectory. case_bool_decide; [done|]. destruct (_ <? _); [done|].
  destruct (contains_char x00 root) eqn:E; [done|]. intros _. split; [done|].
  by apply contains_char_false.
Qed.

Section facts.
Context `{P : Platform} {FS : Type} `{O : FileOps FS}.
Implicit Types s : TftpServerImpl FS.

(** ** Every sequence of calls *)

Definition lifecycle_inv s (open : list Z) : Prop :=
  if running_ s
  then 0 <= sockfd_ s /\ server_thread_ s = true /\ is_Some (thread_pool_ s) /\ open = [sockfd_ s]
  else server_thread_ s = false /\ thread_pool_ s = None /\ open = [].

Definition config_inv root port s : Prop :=
  root_dir_ (cfg_ s) = stored_root root /\ port_ s = port /\
  kMinTransferSize <= max_transfer_size_ (cfg_ s) <= kMaxTransferSize /\
  kMinTimeout <= timeout_seconds_ (cfg_ s) <= kMaxTimeout.

Lemma calls_app hw cs1 cs2 (v : TftpServerImpl FS) :
  calls hw (cs1 ++ cs2) v =
  let '(v1, t1) := calls hw cs1 v in let '(v2, t2) := calls hw cs2 v1 in (v2, t1 ++ t2).
Proof using.
  revert v. induction cs1 as [|c cs1 IH]; intros v; simpl; [by destruct (calls hw cs2 v)|].
  destruct (call hw c v) as [v1 t1]. rewrite IH. destruct (calls hw cs1 v1) as [v2 t2].
  destruct (calls hw cs2 v2) as [v3 t3]. by rewrite app_assoc.
Qed.

Lemma calls_snoc hw cs c (v v1 : TftpServerImpl FS) t1 :
  calls hw cs v = (v1, t1) ->
  calls hw (cs ++ [c]) v = let '(v2, t2) := call hw c v1 in (v2, t1 ++ t2).
Proof using. intros E. rewrite calls_app, E. simpl. destruct (call hw c v1). by rewrite app_nil_r. Qed.

Lemma lifecycle_call hw c s open :
  lifecycle_inv s open ->
  lifecycle_inv (call hw c s).1 (foldl sock_step open (call hw c s).2).
Proof using.
  assert (Hclose : forall fd : Z, filter (fun x => x <> fd) [fd] = []).
  { intros fd. by rewrite filter_cons_False by (intros ?; done). }
  intros Hinv. destruct c as [a| |cb|cb|b|n|n]; simpl.
  - unfold impl_Start. unfold lifecycle_inv in Hinv. destruct (running_ s) eqn:Hr.
    + unfold lifecycle_inv. simpl. by rewrite Hr.
    + destruct Hinv as (Ht & Hp & ->). destruct (a_socket a <? 0) eqn:E; simpl.
      { unfold lifecycle_inv. simpl. by rewrite ?Hr, E. }
      destruct (a_setsockopt a); simpl.
      * destruct (a_bind a); simpl; unfold lifecycle_inv; simpl; rewrite E; bool_cases.
        -- split_and!; [done|done|eauto|done].
        -- by rewrite ?Hr, Hclose.
      * unfold lifecycle_inv. simpl. by rewrite ?Hr, E, Hclose.
  - unfold impl_Stop. unfold lifecycle_inv in Hinv. destruct (running_ s) eqn:Hr; simpl.
    + destruct Hinv as (Hfd & _ & _ & ->). rewrite (proj2 (Z.leb_le _ _)) by done. simpl.
      unfold lifecycle_inv. simpl. by rewrite Hclose.
    + unfold lifecycle_inv. by rewrite Hr.
  - by destruct cb.
  - by destruct cb.
  - done.
  - unfold SetMaxTransferSize. by destruct (negb _).
  - unfold SetTimeout. by destruct (negb _).
Qed.

Lemma config_call hw root port c s : config_inv root port s -> config_inv root port (call hw c s).1.
Proof using.
  intros (Hr & Hp & Hm & Ht). destruct c as [a| |cb|cb|b|n|n]; simpl.
  - unfold impl_Start. destruct (running_ s); [done|]. destruct (_ <? 0); [done|].
    destruct (a_setsockopt a); simpl; [|done]. by destruct (a_bind a).
  - unfold impl_Stop. by destruct (running_ s).
  - by destruct cb.
  - by destruct cb.
  - done.
  - unfold SetMaxTransferSize. destruct (ValidateTransferSize n) eqn:E; simpl; [|done].
    apply ValidateTransferSize_range in E. done.
  - unfold SetTimeout. destruct (ValidateTimeout n) eqn:E; simpl; [|done].
    apply ValidateTimeout_range in E. done.
Qed.

Lemma calls_lifecycle hw cs s open :
  lifecycle_inv s open -> lifecycle_inv (calls hw cs s).1 (foldl sock_step open (calls hw cs s).2).
Proof using.
  revert s open. induction cs as [|c cs IH]; intros s open Hl; simpl; [done|].
  pose proof (lifecycle_call hw c s open Hl) as Hl'. destruct (call hw c s) as [s1 t1]. simpl in *.
  specialize (IH s1 _ Hl'). destruct (calls hw cs s1) as [s2 t2]. simpl in *. by rewrite foldl_app.
Qed.

Lemma calls_config hw cs root port s : config_inv root port s -> config_inv root port (calls hw cs s).1.
Proof using.
  revert s. induction cs as [|c cs IH]; intros s Hc; simpl; [done|].
  pose proof (config_call hw root port c s Hc) as Hc'. destruct (call hw c s) as [s1 t1]. simpl in *.
  specialize (IH s1 Hc'). by destruct (calls hw cs s1).
Qed.

Lemma TftpServer_Ok hw root port s :
  TftpServer hw root port = Ok s ->
  s = make_impl hw root port /\ ValidateRootDirectory root = true /\ port <> 0.
Proof using.
  unfold TftpServer, ValidatePort. destruct (ValidateRootDirectory root); simpl; [|done].
  destruct (port =? 0) eqn:E; simpl; [done|]. intros [= <-]. bool_cases. done.
Qed.

Lemma server_inv hw cs root port s0 :
  TftpServer hw root port = Ok s0 ->
  lifecycle_inv (calls hw cs s0).1 (open_socks (calls hw cs s0).2) /\
  config_inv root port (calls hw cs s0).1.
Proof using.
  intros (-> & _ & _)%TftpServer_Ok. split; [by apply calls_lifecycle|]. apply calls_config.
  unfold config_inv, kMinTransferSize, kMaxTransferSize, kMinTimeout, kMaxTimeout. simpl. done.
Qed.

(** C32: after any sequence of calls of the public interface (failed starts and
    rejected arguments included) [IsRunning] tells whether the server was
    started and not stopped since; exactly then it has a thread, a pool and the
    one socket that is still open; no socket is leaked. *)
Theorem server_lifecycle hw cs root port s0 s t :
  TftpServer hw root port = Ok s0 -> calls hw cs s0 = (s, t) ->
  impl_IsRunning s = running_ s /\ server_thread_ s = running_ s /\
  (running_ s = true <-> is_Some (thread_pool_ s)) /\
  open_socks t = if running_ s then [sockfd_ s] else [].
Proof using.
  intros H E. destruct (server_inv hw cs root port s0 H) as [Hl _]. rewrite E in Hl. simpl in Hl.
  unfold lifecycle_inv in Hl. unfold impl_IsRunning. destruct (running_ s); simpl.
  - destruct Hl as (Hfd & -> & Hp & ->). rewrite (proj2 (Z.ltb_ge _ _)) by done. done.
  - destruct Hl as (-> & -> & ->). split_and!; try done.
Qed.

(** C33: whatever arguments the setters are called with, the transfer limit stays
    between 512 bytes and 1 GiB and the timeout between 1 second and 1 hour, so
    the timeout in milliseconds fits an [int]; root directory and port are those
    of the constructor. *)
Theorem server_config_valid hw cs root port s0 s t :
  TftpServer hw root port = Ok s0 -> calls hw cs s0 = (s, t) ->
  root_dir_ (cfg_ s) = stored_root root /\ port_ s = port /\
  512 <= max_transfer_size_ (cfg_ s) <= 2 ^ 30 /\ 1 <= timeout_seconds_ (cfg_ s) <= 3600 /\
  timeout_seconds_ (cfg_ s) * 1000 < 2 ^ 31.
Proof using.
  intros H E. destruct (server_inv hw cs root port s0 H) as [_ (H1 & H2 & H3 & H4)].
  rewrite E in *. unfold kMinTransferSize, kMaxTransferSize, kMinTimeout, kMaxTimeout in *.
  simpl in *. split_and!; try done; lia.
Qed.
(** ** Secure mode *)

(** The calls never switch secure mode off. *)
Definition keeps_secure (c : api_call (FS := FS)) : bool :=
  match c with CallSetSecureMode b => b | _ => true end.

Lemma secure_calls hw cs s :
  secure_mode_ (cfg_ s) = true -> forallb keeps_secure cs = true ->
  secure_mode_ (cfg_ (calls hw cs s).1) = true.
Proof using.
  revert s. induction cs as [|c cs IH]; intros s Hs Hcs; simpl in *; [done|]. bool_cases.
  assert (Hc : secure_mode_ (cfg_ (call hw c s).1) = true).
  { destruct c as [a| |cb|cb|b|n|n]; simpl in *.
    - unfold impl_Start. destruct (running_ s); [done|]. destruct (_ <? 0); [done|].
      destruct (a_setsockopt a); simpl; [|done]. by destruct (a_bind a).
    - unfold impl_Stop. by destruct (running_ s).
    - by destruct cb.
    - by destruct cb.
    - done.
    - unfold SetMaxTransferSize. by destruct (negb _).
    - unfold SetTimeout. by destruct (negb _). }
  destruct (call hw c s) as [s1 t1]. simpl in Hc. specialize (IH s1 Hc ltac:(done)).
  by destruct (calls hw cs s1).
Qed.

(** C4: a server made for an absolute root directory (not ending in a backslash)
    and never switched out of secure mode hands only paths below the canonical
    root directory to its callbacks, whatever was configured, whatever datagram
    arrives and whatever the network does. *)
Theorem server_confined `{F : FsOps FS} `{!FsLaws FS}
    hw cs root port s0 s t d client w :
  TftpServer hw root port = Ok s0 -> calls hw cs s0 = (s, t) ->
  forallb keeps_secure cs = true -> is_absolute root = true -> last root <> Some x5c ->
  wp (HandleClient (cfg_ s) d client) w (fun r t' _ => r = Ok tt /\
    forall path, path ∈ touched t' -> exists canonical_root rest,
      fs_weakly_canonical (w_fs w) (stored_root root) = Ok canonical_root /\
      path = with_separator canonical_root ++ rest).
Proof using.
  intros H E Hcs Habs Hb. destruct (server_inv hw cs root port s0 H) as [_ (Hroot & _)].
  apply TftpServer_Ok in H as (-> & Hv & _). apply ValidateRootDirectory_parts in Hv as [Hne Hnul].
  pose proof (secure_calls hw cs (make_impl hw root port) eq_refl Hcs) as Hsec.
  rewrite E in *. simpl in *. destruct (stored_root_cases root Hne Hb) as [Hlast Hst].
  rewrite <- Hroot in Hlast, Hst |- *. apply client_confined; [done| |done|].
  - destruct Hst as [-> | ->]; [done|by destruct root].
  - destruct Hst as [-> | ->]; [done|]. rewrite elem_of_app. intros [?|Hin]; [done|].
    by apply list_elem_of_singleton in Hin.
Qed.
End facts.

(** A root directory that ends in a backslash gets no slash: the path check
    looks below the directory, but the path that is opened is a sibling of it,
    outside the root. *)
Lemma backslash_root_escapes :
  ValidateRootDirectory (bs "/srv/x\") = true /\
  IsPathSecure tt (bs "f") (stored_root (bs "/srv/x\")) = true /\
  fs_weakly_canonical tt (bs "/srv/x\") = Ok (bs "/srv/x\") /\
  NormalizePath tt (stored_root (bs "/srv/x\") ++ bs "f") = bs "/srv/x\f".
Proof. split_and!; by vm_compute. Qed.

(** ** Files: from one client to another *)

Section exchange_files.
Context `{P : Platform} {FS : Type} `{F : FsOps FS} `{O : FileOps FS} `{L : !FileLaws FS}.

(** C1: a file uploaded by one client through the server's default callbacks and
    flushed to the disk without an error is what another client gets when it
    then downloads the same path: the two sessions, the protocol and the file
    handlers together lose and change nothing. *)
Theorem upload_then_download cfg d1 client1 peer1 w1 p1 s1 d2 client2 peer2 w2 p2 s2 file fs :
  read_callback_ cfg = DefaultReadHandler -> write_callback_ cfg = DefaultWriteHandler ->
  max_transfer_size_ cfg < 2 ^ 63 ->
  serves cfg d1 client1 w1 p1 s1 -> op_code_ p1 = kWriteRequest ->
  uploads (max_transfer_size_ cfg) (expected_size p1) peer1 file w1 ->
  DefaultWriteHandler (w_fs w1) (served_path cfg p1 w1) file = (fs, Ok true) ->
  flushed (prepared (w_fs w1) (served_path cfg p1 w1)) (served_path cfg p1 w1) file ->
  w_fs w2 = w_fs (HandleClient cfg d1 client1 w1).2 ->
  serves cfg d2 client2 w2 p2 s2 -> op_code_ p2 = kReadRequest ->
  served_path cfg p2 w2 = served_path cfg p1 w1 -> cooperates file peer2 w2 ->
  wp (HandleClient cfg d2 client2) w2 (fun r t _ =>
    r = Ok tt /\ receive_file (map snd (sent t)) 1 = Some file).
Proof using L.
  intros Hrc Hwc Hmax Hs1 Hop1 Hup Hwrite Hflush Hfs Hs2 Hop2 Hpath Hcoop.
  destruct (write_session_stores cfg d1 client1 peer1 w1 p1 s1 file Hs1 Hop1 Hup)
    as (t1 & _ & _ & _ & _ & Hfs1).
  rewrite Hfs1, Hwc, Hwrite in Hfs. simpl in Hfs. destruct Hup as (_ & _ & Hsize & _).
  eapply wp_mono.
  - apply (read_session_delivers cfg d2 client2 peer2 w2 p2 s2 fs file Hs2 Hop2); try done.
    rewrite Hrc, Hfs, Hpath. eapply write_read; [done|done|lia].
  - by intros r t w' (? & _ & _ & ?).
Qed.
End exchange_files.

(** ** Witnesses *)

#[local] Existing Instance platform_le.

(** The file system in memory, without symbolic links. *)
#[export] Instance mem_fs_ops : FsOps mem_fs := {
  fs_absolute _ p := Ok (if is_absolute p then p else path_append (bs "/work") p);
  fs_weakly_canonical _ p := Ok (lexically_normal p);
  fs_relative _ p base := Ok (drop (length (with_separator base)) p);
}.

#[export] Instance mem_fs_laws : FsLaws mem_fs.
Proof. constructor. intros fs p H. simpl. by rewrite H. Qed.

Definition sample_server : TftpServerImpl mem_fs := make_impl 8 (bs "/srv/tftp") 69.

Definition sample_calls : list (api_call (FS := mem_fs)) :=
  [CallSetTimeout 0; CallStart (StartAnswers 3 true false); CallStart (StartAnswers 4 true true);
   CallSetMaxTransferSize 1024; CallStart (StartAnswers 9 true true)].

Definition sample_running : TftpServerImpl mem_fs :=
  ServerImpl (cfg_ (impl_SetMaxTransferSize 1024 sample_server)) 69 4 true true
    (Some (TftpThreadPool 8 8)) 8.

Definition sample_trace : list event :=
  [EvSocket 3; EvSetsockopt 3 1 0; EvBind 3 (SockAddr 0 17664) false; EvClose 3;
   EvSocket 4; EvSetsockopt 4 1 0; EvBind 4 (SockAddr 0 17664) true].

Lemma sample_server_made : TftpServer 8 (bs "/srv/tftp") 69 = Ok sample_server.
Proof. reflexivity. Qed.

Lemma sample_calls_run : calls 8 sample_calls sample_server = (sample_running, sample_trace).
Proof. reflexivity. Qed.

Lemma server_lifecycle_witness :
  impl_IsRunning sample_running = true /\ server_thread_ sample_running = true /\
  (true = true <-> is_Some (thread_pool_ sample_running)) /\ open_socks sample_trace = [4].
Proof.
  exact (server_lifecycle 8 sample_calls (bs "/srv/tftp") 69 sample_server sample_running
           sample_trace sample_server_made sample_calls_run).
Defined.

Lemma server_config_valid_witness :
  root_dir_ (cfg_ sample_running) = stored_root (bs "/srv/tftp") /\ port_ sample_running = 69 /\
  512 <= max_transfer_size_ (cfg_ sample_running) <= 2 ^ 30 /\
  1 <= timeout_seconds_ (cfg_ sample_running) <= 3600 /\
  timeout_seconds_ (cfg_ sample_running) * 1000 < 2 ^ 31.
Proof.
  exact (server_config_valid 8 sample_calls (bs "/srv/tftp") 69 sample_server sample_running
           sample_trace sample_server_made sample_calls_run).
Defined.

Definition mem_world (fs : mem_fs) (rx : list rx_event) : world mem_fs :=
  World [7] (fun _ => true) [] rx fs [].

Lemma server_confined_witness :
  wp (HandleClient (cfg_ sample_running) (rrq_bytes (bs "boot.img")) sample_client)
     (mem_world mem_empty []) (fun r t' _ => r = Ok tt /\
       forall path, path ∈ touched t' -> exists canonical_root rest,
         fs_weakly_canonical mem_empty (stored_root (bs "/srv/tftp")) = Ok canonical_root /\
         path = with_separator canonical_root ++ rest).
Proof.
  apply (server_confined 8 sample_calls (bs "/srv/tftp") 69 sample_server sample_running sample_trace
           (rrq_bytes (bs "boot.img")) sample_client (mem_world mem_empty [])
           sample_server_made sample_calls_run); [reflexivity|reflexivity|discriminate].
Defined.

(** An upload of three bytes, then a download of the same name. *)
Definition up_world : world mem_fs := mem_world mem_empty (upload_stream sample_client (bs "abc")).
Definition down_world : world mem_fs :=
  mem_world (mem_written (bs "/srv/tftp/a") (bs "abc")) (ack_stream sample_client (bs "abc")).

Lemma upload_then_download_witness :
  wp (HandleClient (cfg_ sample_running) (rrq_bytes (bs "a")) sample_client) down_world
     (fun r t _ => r = Ok tt /\ receive_file (map snd (sent t)) 1 = Some (bs "abc")).
Proof.
  apply (upload_then_download (cfg_ sample_running)
           (wrq_bytes (bs "a")) sample_client sample_client up_world (wrq (bs "a")) 7
           (rrq_bytes (bs "a")) sample_client sample_client down_world (rrq (bs "a")) 7
           (bs "abc") (mem_written (bs "/srv/tftp/a") (bs "abc")));
    [reflexivity|reflexivity|reflexivity| |reflexivity| |vm_compute; reflexivity| |
     vm_compute; reflexivity| |reflexivity|vm_compute; reflexivity|].
  - repeat split; by vm_compute.
  - split; [done|]. split; [by exists []|]. split; [by vm_compute|done].
  - exists (mem_opened (bs "/srv/tftp/a")), (mem_written (bs "/srv/tftp/a") (bs "abc")),
      (mem_written (bs "/srv/tftp/a") (bs "abc")).
    split_and!; vm_compute; reflexivity.
  - repeat split; by vm_compute.
  - split; [done|]. by exists [].
Defined.
