(* ===== verification/System.v ===== *)
(** * The running server

    What the threads of a started server do together: the server thread runs
    [TftpServerImpl::ServerLoop], the thread of the user runs [Stop], and the
    workers of the pool run their tasks ([src/internal/tftp_server_impl.cpp]).
    As in [ThreadPool], a step is what a thread does between two points where
    another thread can observe it.  [thread_pool_mutex_] is taken by both the
    loop and [Stop]; inside it they make the steps of [Submit] and
    [Shutdown] of the pool.  [recvfrom] returns when the network lets it:
    the answer is an argument of the step. *)

From Stdlib Require Import ZArith Lia Strings.Byte.
From stdpp Require Import base tactics numbers list gmap strings.
From S2P Require Import Prelude Common Files ThreadPool Net Transfer Server.

(** ** Program counters *)

(** The server thread. *)
Inductive lpc :=
  | LTop                    (* the test of [while (running_)] *)
  | LRecv                   (* before [recvfrom] reads [sockfd_] *)
  | LBlocked (fd : Z)       (* in [recvfrom] on [fd] *)
  | LGot (t : task)         (* before [lock_guard lock(thread_pool_mutex_)] *)
  | LLocked (t : task)      (* holding it *)
  | LSubmit (t : task)      (* before the first step of [Submit] *)
  | LSubmitting             (* inside [Submit] *)
  | LUnlock                 (* before the [lock_guard] is destroyed *)
  | LEnd.

(** The thread that calls [Stop]. *)
Inductive kpc :=
  | KIdle
  | KFlagged                (* [running_] reset, before the [lock_guard] *)
  | KLocked                 (* holding [thread_pool_mutex_] *)
  | KShutdown               (* inside [Shutdown] *)
  | KReset                  (* before [thread_pool_.reset()] *)
  | KClose                  (* the mutex released, before the socket is closed *)
  | KJoin                   (* before [server_thread_.join()] *)
  | KReturned.

Inductive mowner := MLoop | MStop.

#[global] Instance task_eq_dec : EqDecision task.
Proof. unfold task. apply _. Defined.
#[global] Instance lpc_eq_dec : EqDecision lpc.
Proof. solve_decision. Defined.
#[global] Instance kpc_eq_dec : EqDecision kpc.
Proof. solve_decision. Defined.
#[global] Instance mowner_eq_dec : EqDecision mowner.
Proof. solve_decision. Defined.

(** ** The state *)

Record system (FS : Type) := System {
  impl : TftpServerImpl FS;
  thread_pool_mutex_ : option mowner;
  loop : lpc;
  stopper : kpc;
  (* what happened so far *)
  retired : option (pool task);   (* the pool that [reset] destroyed *)
  requests : list task;           (* the non-empty datagrams received *)
  refused_requests : list task;   (* those for which there was no pool any more *)
  sys_trace : list event;         (* the socket calls of [Stop] *)
}.
Arguments System {FS}.
Arguments impl {FS}.
Arguments thread_pool_mutex_ {FS}.
Arguments loop {FS}.
Arguments stopper {FS}.
Arguments retired {FS}.
Arguments requests {FS}.
Arguments refused_requests {FS}.
Arguments sys_trace {FS}.

Section system.
Context {FS : Type}.
Implicit Types (s : system FS) (v : TftpServerImpl FS).

(** The system just after [Start] has returned [true] with the object [v]. *)
Definition started_system v : system FS := System v None LTop KIdle None [] [] [].

(** Updates of the state. *)
Definition set_impl v s : system FS :=
  System v (thread_pool_mutex_ s) (loop s) (stopper s) (retired s) (requests s)
    (refused_requests s) (sys_trace s).
Definition set_mutex (o : option mowner) s : system FS :=
  System (impl s) o (loop s) (stopper s) (retired s) (requests s)
    (refused_requests s) (sys_trace s).
Definition set_loop (l : lpc) s : system FS :=
  System (impl s) (thread_pool_mutex_ s) l (stopper s) (retired s) (requests s)
    (refused_requests s) (sys_trace s).
Definition set_stopper (k : kpc) s : system FS :=
  System (impl s) (thread_pool_mutex_ s) (loop s) k (retired s) (requests s)
    (refused_requests s) (sys_trace s).
Definition set_retired (p : option (pool task)) s : system FS :=
  System (impl s) (thread_pool_mutex_ s) (loop s) (stopper s) p (requests s)
    (refused_requests s) (sys_trace s).
Definition add_request (t : task) s : system FS :=
  System (impl s) (thread_pool_mutex_ s) (loop s) (stopper s) (retired s) (requests s ++ [t])
    (refused_requests s) (sys_trace s).
Definition add_refused (t : task) s : system FS :=
  System (impl s) (thread_pool_mutex_ s) (loop s) (stopper s) (retired s) (requests s)
    (refused_requests s ++ [t]) (sys_trace s).
Definition add_trace (e : list event) s : system FS :=
  System (impl s) (thread_pool_mutex_ s) (loop s) (stopper s) (retired s) (requests s)
    (refused_requests s) (sys_trace s ++ e).

(** Updates of the members. *)
Definition set_running (b : bool) v : TftpServerImpl FS :=
  ServerImpl (cfg_ v) (port_ v) (sockfd_ v) b (server_thread_ v) (thread_pool_ v) (thread_pool_size_ v).
Definition set_pool (p : option (pool task)) v : TftpServerImpl FS :=
  ServerImpl (cfg_ v) (port_ v) (sockfd_ v) (running_ v) (server_thread_ v) p (thread_pool_size_ v).
Definition set_sockfd (fd : Z) v : TftpServerImpl FS :=
  ServerImpl (cfg_ v) (port_ v) fd (running_ v) (server_thread_ v) (thread_pool_ v) (thread_pool_size_ v).
Definition set_thread (b : bool) v : TftpServerImpl FS :=
  ServerImpl (cfg_ v) (port_ v) (sockfd_ v) (running_ v) b (thread_pool_ v) (thread_pool_size_ v).

(** ** The threads *)

(** A step of the pool, while there is one. *)
Definition pool_move (f : pool task -> option (pool task)) s : option (system FS) :=
  match thread_pool_ (impl s) with
  | Some p => option_map (fun p' => set_impl (set_pool (Some p') (impl s)) s) (f p)
  | None => None
  end.

Definition take_mutex (o : mowner) s : option (system FS) :=
  match thread_pool_mutex_ s with
  | None => Some (set_mutex (Some o) s)
  | Some _ => None
  end.

(** The request a [recvfrom] stores, if it is not empty. *)
Definition stored_request (rx : option (sockaddr_in * bytes)) : option task :=
  match rx with
  | None => None
  | Some (client_addr, payload) =>
      let buffer := take (Z.to_nat kMaxPacketSize) payload in
      if 0 <? zlen buffer then Some (buffer, client_addr) else None
  end.

(** The step of the server thread out of [recvfrom], which answered [rx];
    [None] is an error. *)
Definition recv_returns (rx : option (sockaddr_in * bytes)) s : option (system FS) :=
  match loop s with
  | LBlocked _ =>
      Some (match stored_request rx with
            | Some t => set_loop (LGot t) (add_request t s)
            | None => set_loop LTop s
            end)
  | _ => None
  end.

(** Where the loop is after a step of [Submit]: it has returned, or thrown an
    exception that is caught, when the submitting thread is idle again. *)
Definition after_submit s : system FS :=
  match thread_pool_ (impl s) with
  | Some p => set_loop (match submitter p with UIdle => LUnlock | _ => LSubmitting end) s
  | None => s
  end.

(** Any other step of the server thread; [None] when it is blocked or has
    ended.  [j] is the worker a notification wakes. *)
Definition ServerLoop (j : nat) s : option (system FS) :=
  match loop s with
  | LTop => Some (set_loop (if running_ (impl s) then LRecv else LEnd) s)
  | LRecv => Some (set_loop (LBlocked (sockfd_ (impl s))) s)
  | LBlocked _ => None
  | LGot t => option_map (set_loop (LLocked t)) (take_mutex MLoop s)
  | LLocked t =>
      Some (match thread_pool_ (impl s) with
            | Some p => if negb (IsShuttingDown p) then set_loop (LSubmit t) s
                        else set_loop LUnlock (add_refused t s)
            | None => set_loop LUnlock (add_refused t s)
            end)
  | LSubmit t => option_map after_submit (pool_move (Submit t j) s)
  | LSubmitting => option_map after_submit (pool_move (Submit ([], zero_addr) j) s)
  | LUnlock => Some (set_loop LTop (set_mutex None s))
  | LEnd => None
  end.

(** Where [Stop] is after a step of [Shutdown]. *)
Definition after_shutdown s : system FS :=
  match thread_pool_ (impl s) with
  | Some p => if bool_decide (shutdown p = SReturned) then set_stopper KReset s else s
  | None => s
  end.

(** The next step of [Stop()]. *)
Definition Stop s : option (system FS) :=
  match stopper s with
  | KIdle =>
      Some (if running_ (impl s)
            then set_stopper KFlagged (set_impl (set_running false (impl s)) s)
            else set_stopper KReturned s)
  | KFlagged => option_map (set_stopper KLocked) (take_mutex MStop s)
  | KLocked =>
      Some (match thread_pool_ (impl s) with
            | Some _ => set_stopper KShutdown s
            | None => set_stopper KClose (set_mutex None s)
            end)
  | KShutdown => option_map after_shutdown (pool_move Shutdown s)
  | KReset =>
      Some (set_stopper KClose (set_mutex None
              (set_retired (thread_pool_ (impl s)) (set_impl (set_pool None (impl s)) s))))
  | KClose =>
      let fd := sockfd_ (impl s) in
      Some (set_stopper KJoin
              (if 0 <=? fd then add_trace [EvClose fd] (set_impl (set_sockfd (-1) (impl s)) s) else s))
  | KJoin =>
      if server_thread_ (impl s) then
        match loop s with
        | LEnd => Some (set_stopper KReturned (set_impl (set_thread false (impl s)) s))
        | _ => None
        end
      else Some (set_stopper KReturned s)
  | KReturned => None
  end.

(** ** Executions *)

Inductive sys_turn :=
  | SWorker (i : nat)
  | SSpurious (i : nat)
  | SLoop (j : nat)
  | SRecv (rx : option (sockaddr_in * bytes))
  | SStop.

Definition sys_move (u : sys_turn) s : option (system FS) :=
  match u with
  | SWorker i => pool_move (WorkerThread i) s
  | SSpurious i => pool_move (spurious_wake i) s
  | SLoop j => ServerLoop j s
  | SRecv rx => recv_returns rx s
  | SStop => Stop s
  end.

Inductive sys_reachable (s0 : system FS) : system FS -> Prop :=
  | sys_reach_init : sys_reachable s0 s0
  | sys_reach_step u s s' :
      sys_reachable s0 s -> sys_move u s = Some s' -> sys_reachable s0 s'.

Fixpoint sys_schedule (us : list sys_turn) s : option (system FS) :=
  match us with
  | [] => Some s
  | u :: us' => match sys_move u s with Some s' => sys_schedule us' s' | None => None end
  end.

Lemma sys_schedule_reachable us s0 s s' :
  sys_reachable s0 s -> sys_schedule us s = Some s' -> sys_reachable s0 s'.
Proof using.
  revert s. induction us as [|u us IH]; intros s Hr H; simpl in H; [congruence|].
  destruct (sys_move u s) as [s1|] eqn:E; [|done]. eapply IH; [|done]. by eapply sys_reach_step.
Qed.
End system.
