(* ===== verification/SystemFacts.v ===== *)
(** * Properties of the running server

    Every interleaving of the server thread, [Stop] and the workers: the pool
    inside the server is in a state the pool can reach on its own, so all its
    properties carry over; requests are handed to the workers in the order
    they arrive; and what [Stop] leaves, when it returns and when it cannot. *)

From Stdlib Require Import ZArith Lia Strings.Byte.
From stdpp Require Import base tactics numbers list gmap strings.
From S2P Require Import Prelude Common Files ThreadPool ThreadPoolFacts Net Transfer Server System.

(** ** The invariant *)

Definition loop_holds (l : lpc) : bool :=
  match l with LLocked _ | LSubmit _ | LSubmitting | LUnlock => true | _ => false end.
Definition stop_holds (k : kpc) : bool :=
  match k with KLocked | KShutdown | KReset => true | _ => false end.

(** Whether [thread_pool_.reset()] has run. *)
Definition pool_gone (k : kpc) : bool :=
  match k with KClose | KJoin | KReturned => true | _ => false end.

(** How far [Shutdown] can be. *)
Definition shut_at (k : kpc) (d : spc) : Prop :=
  match k with
  | KIdle | KFlagged | KLocked => d = SIdle
  | KShutdown => d <> SReturned
  | _ => d = SReturned
  end.

(** What [Submit] is doing, by the position of the loop. *)
Definition submit_at (l : lpc) (p : pool task) : Prop :=
  match l with
  | LSubmit _ => submitter p = UIdle /\ stopping_ p = false
  | LSubmitting => submitter p <> UIdle /\ stopping_ p = false
  | _ => submitter p = UIdle
  end.

(** The request the loop has received and not yet queued or refused. *)
Definition in_hand (l : lpc) (u : upc task) : list task :=
  match l with
  | LGot t | LLocked t | LSubmit t => [t]
  | LSubmitting => match u with UChecked t | ULocked t => [t] | _ => [] end
  | _ => []
  end.

Section facts.
Context {FS : Type} (v0 : TftpServerImpl FS) (h n : Z).
Implicit Types (s : system FS) (p : pool task).

(** What [Start] establishes. *)
Definition started_impl : Prop :=
  running_ v0 = true /\ server_thread_ v0 = true /\ 0 <= sockfd_ v0 /\
  thread_pool_ v0 = Some (TftpThreadPool h n).

(** The members, by how far [Stop] is, and the calls it has made. *)
Definition impl_after (k : kpc) p : TftpServerImpl FS :=
  match k with
  | KIdle => set_pool (Some p) v0
  | KFlagged | KLocked | KShutdown | KReset => set_running false (set_pool (Some p) v0)
  | KClose => set_running false (set_pool None v0)
  | KJoin => set_sockfd (-1) (set_running false (set_pool None v0))
  | KReturned => set_thread false (set_sockfd (-1) (set_running false (set_pool None v0)))
  end.
Definition trace_after (k : kpc) : list event :=
  match k with KJoin | KReturned => [EvClose (sockfd_ v0)] | _ => [] end.

Record sys_inv s p : Prop := SysInv {
  inv_impl : impl s = impl_after (stopper s) p;
  inv_retired : retired s = if pool_gone (stopper s) then Some p else None;
  inv_trace : sys_trace s = trace_after (stopper s);
  inv_pool : reachable (TftpThreadPool h n) p;
  inv_shut : shut_at (stopper s) (shutdown p);
  inv_loop_mutex : loop_holds (loop s) = true <-> thread_pool_mutex_ s = Some MLoop;
  inv_stop_mutex : stop_holds (stopper s) = true <-> thread_pool_mutex_ s = Some MStop;
  inv_submit : submit_at (loop s) p;
  inv_rejected : rejected p = [];
  inv_requests : requests s = submitted p ++ refused_requests s ++ in_hand (loop s) (submitter p);
  inv_refused : refused_requests s <> [] -> stopping_ p = true;
  inv_end : loop s = LEnd -> stopper s <> KIdle;
  inv_returned : stopper s = KReturned -> loop s = LEnd;
}.

Lemma stopping_shut p : reachable (TftpThreadPool h n) p -> (stopping_ p = true <-> shutdown p <> SIdle).
Proof using. intros (_ & _ & (H & _) & _)%pool_inv_reachable. exact H. Qed.

Lemma sys_inv_init :
  started_impl -> sys_inv (started_system v0) (TftpThreadPool h n).
Proof using.
  intros (Hr & Ht & Hfd & Hp). constructor; try done.
  - simpl. unfold set_pool. rewrite <- Hp. by destruct v0.
  - constructor.
Qed.

(** The pool of the invariant is the member, until it is reset. *)
Lemma inv_thread_pool s p :
  sys_inv s p -> thread_pool_ (impl s) = if pool_gone (stopper s) then None else Some p.
Proof using. intros H. rewrite (inv_impl _ _ H). by destruct (stopper s). Qed.

Lemma pool_move_Some f s s' p :
  sys_inv s p -> pool_move f s = Some s' ->
  exists p', f p = Some p' /\ pool_gone (stopper s) = false /\
    s' = set_impl (set_pool (Some p') (impl s)) s.
Proof using.
  intros Hinv. unfold pool_move. rewrite (inv_thread_pool _ _ Hinv).
  destruct (pool_gone (stopper s)); [done|]. destruct (f p) as [p'|]; [|done].
  intros [= <-]. eauto.
Qed.

(** Changing the pool changes only the pool. *)
Lemma impl_after_set_pool k p p' :
  pool_gone k = false -> set_pool (Some p') (impl_after k p) = impl_after k p'.
Proof using. by destruct k. Qed.

(** A step of the pool that leaves [Submit] and [Shutdown] where they are. *)
Definition calm p p' : Prop :=
  submitter p' = submitter p /\ shutdown p' = shutdown p /\ submitted p' = submitted p /\
  rejected p' = rejected p /\ stopping_ p' = stopping_ p.

Lemma worker_calm i p p' : WorkerThread i p = Some p' -> calm p p'.
Proof using.
  unfold WorkerThread. destruct (workers_ p !! i) as [w|]; [|done].
  destruct w; try done; try (by intros [= <-]); try (by intros [_ ->]%with_lock_Some).
  destruct (tasks_ p); by intros [= <-].
Qed.

Lemma spurious_calm i p p' : spurious_wake i p = Some p' -> calm p p'.
Proof using. by intros [_ ->]%spurious_wake_Some. Qed.

Lemma sys_inv_calm s p p' :
  sys_inv s p -> pool_gone (stopper s) = false -> step p p' -> calm p p' ->
  sys_inv (set_impl (set_pool (Some p') (impl s)) s) p'.
Proof using.
  intros [] Hg Hstep (Hu & Hd & Hs & Hr & Hst). constructor; simpl; try done.
  - rewrite inv_impl0. by apply impl_after_set_pool.
  - by rewrite inv_retired0, Hg.
  - by eapply reach_step.
  - by rewrite Hd.
  - unfold submit_at in *. by rewrite Hu, Hst.
  - by rewrite Hr.
  - by rewrite Hu, Hs.
  - by rewrite Hst.
Qed.

(** A step of [Submit] on a pool that is not stopping. *)
Lemma submit_effect t j p p' :
  stopping_ p = false -> Submit t j p = Some p' ->
  shutdown p' = shutdown p /\ stopping_ p' = false /\ rejected p' = rejected p /\
  match submitter p with
  | UIdle => submitter p' = UChecked t /\ submitted p' = submitted p
  | UChecked u => submitter p' = ULocked u /\ submitted p' = submitted p
  | ULocked u => submitter p' = UNotify /\ submitted p' = submitted p ++ [u]
  | UNotify => submitter p' = UIdle /\ submitted p' = submitted p
  end.
Proof using.
  intros Hs. unfold Submit. rewrite !Hs. destruct (submitter p) as [|u|u|].
  - by intros [= <-].
  - by intros [_ ->]%with_lock_Some.
  - by intros [= <-].
  - destruct (notify_one j p) as [q|] eqn:E; [|done]. intros [= <-].
    by apply notify_one_Some in E as [[_ ->]|[_ ->]].
Qed.

Lemma submit_step t j p p' : Submit t j p = Some p' -> step p p'.
Proof using. intros. by eapply step_submit. Qed.

(** The loop inside [Submit]. *)
Lemma sys_inv_submit s p t j s' :
  sys_inv s p -> (loop s = LSubmit t \/ loop s = LSubmitting) ->
  option_map after_submit (pool_move (Submit t j) s) = Some s' ->
  exists p', sys_inv s' p'.
Proof using.
  intros Hinv Hl H. destruct (pool_move _ s) as [s1|] eqn:E; [|done]. injection H as <-.
  destruct (pool_move_Some _ _ _ _ Hinv E) as (p' & Hp' & Hg & ->). exists p'.
  assert (Hst : stopping_ p = false).
  { pose proof (inv_submit _ _ Hinv) as Hu. unfold submit_at in Hu.
    destruct Hl as [Hl|Hl]; rewrite Hl in Hu; by destruct Hu. }
  destruct (submit_effect t j p p' Hst Hp') as (Hd & Hst' & Hr & Hcase).
  assert (Hloop : loop_holds (loop s) = true) by (by destruct Hl as [-> | ->]).
  destruct Hinv. unfold after_submit. simpl.
  assert (Hhand : forall l', l' = (match submitter p' with UIdle => LUnlock | _ => LSubmitting end) ->
    submitted p' ++ refused_requests s ++ in_hand l' (submitter p') = requests s /\ submit_at l' p').
  { intros l' ->. rewrite inv_requests0. unfold submit_at in *.
    assert (Hnil : refused_requests s = []).
    { destruct (refused_requests s); [done|]. by rewrite inv_refused0 in Hst. }
    rewrite Hnil. destruct Hl as [Hl|Hl]; rewrite Hl in *; destruct inv_submit0 as [Hu _].
    - rewrite Hu in Hcase. destruct Hcase as [-> ->]. done.
    - destruct (submitter p) as [|u|u|]; [done|..]; destruct Hcase as [-> ->]; simpl;
        by rewrite ?app_nil_r. }
  destruct (Hhand _ eq_refl) as [Hreq Hsub].
  assert (Hl' : loop_holds (match submitter p' with UIdle => LUnlock | _ => LSubmitting end) = true)
    by (by destruct (submitter p')).
  constructor; simpl; try done.
  - rewrite inv_impl0. by apply impl_after_set_pool.
  - by rewrite inv_retired0, Hg.
  - eapply reach_step; [done|]. by eapply submit_step.
  - by rewrite Hd.
  - rewrite Hl'. by rewrite <- inv_loop_mutex0, Hloop.
  - by rewrite Hr.
  - intros Hne. rewrite Hst' . exfalso. apply inv_refused0 in Hne. congruence.
  - by destruct (submitter p').
  - intros Hk. apply inv_returned0 in Hk. destruct Hl; congruence.
Qed.

(** A step of the loop that leaves the pool alone. *)
Lemma sys_inv_set_loop s p m' l' req ref :
  sys_inv s p ->
  (loop_holds l' = true <-> m' = Some MLoop) ->
  (stop_holds (stopper s) = true <-> m' = Some MStop) ->
  submit_at l' p ->
  req = submitted p ++ ref ++ in_hand l' (submitter p) ->
  (ref <> [] -> stopping_ p = true) ->
  (l' = LEnd -> stopper s <> KIdle) ->
  (stopper s = KReturned -> l' = LEnd) ->
  sys_inv (System (impl s) m' l' (stopper s) (retired s) req ref (sys_trace s)) p.
Proof using. intros [] **. by constructor. Qed.

(** Once [Shutdown] has begun, or the pool is gone, it is stopping. *)
Lemma gone_stopping s p : sys_inv s p -> pool_gone (stopper s) = true -> stopping_ p = true.
Proof using.
  intros [] Hg. apply stopping_shut; [done|].
  destruct (stopper s); try done; simpl in inv_shut0; by rewrite inv_shut0.
Qed.

Hypothesis Hstart : started_impl.

Lemma running_idle s p : sys_inv s p -> running_ (impl s) = bool_decide (stopper s = KIdle).
Proof using Hstart.
  intros []. rewrite inv_impl0. destruct Hstart as [Hr _]. destruct (stopper s); done.
Qed.

Lemma sys_inv_loop j s s' p : sys_inv s p -> ServerLoop j s = Some s' -> exists p', sys_inv s' p'.
Proof using Hstart.
  intros Hinv H. unfold ServerLoop in H.
  pose proof (inv_thread_pool _ _ Hinv) as Htp. pose proof (running_idle _ _ Hinv) as Hrun.
  pose proof (inv_loop_mutex _ _ Hinv) as Hml. pose proof (inv_stop_mutex _ _ Hinv) as Hms.
  pose proof (inv_submit _ _ Hinv) as Hsub. pose proof (inv_requests _ _ Hinv) as Hreq.
  pose proof (inv_refused _ _ Hinv) as Href. pose proof (inv_returned _ _ Hinv) as Hret.
  destruct (loop s) as [| |fd|t|t|t| | |] eqn:Hl; try done.
  5: by eapply (sys_inv_submit _ _ t); eauto.
  5: by eapply (sys_inv_submit _ _ ([], zero_addr)); eauto.
  all: exists p; unfold submit_at in Hsub.
  - injection H as <-. rewrite Hrun.
    apply (sys_inv_set_loop s); try done; destruct (bool_decide _) eqn:E; try done; bool_cases; auto.
    by intros ?%Hret.
  - injection H as <-. apply (sys_inv_set_loop s); try done. by intros ?%Hret.
  - unfold take_mutex in H. destruct (thread_pool_mutex_ s) eqn:Em; [done|]. injection H as <-.
    apply (sys_inv_set_loop s); try done; [|by intros ?%Hret]. rewrite Hms. done.
  - injection H as <-. assert (Href' : refused_requests s ++ [t] <> [] -> stopping_ p = true ->
      sys_inv (set_loop LUnlock (add_refused t s)) p).
    { intros _ Hst. apply (sys_inv_set_loop s); try done; [|by intros ?%Hret].
      simpl. by rewrite Hreq, app_nil_r. }
    rewrite Htp. destruct (pool_gone (stopper s)) eqn:Hg.
    + apply Href'; [by destruct (refused_requests s)|]. by eapply gone_stopping.
    + unfold IsShuttingDown. destruct (stopping_ p) eqn:Hst; simpl.
      * apply Href'; [by destruct (refused_requests s)|done].
      * apply (sys_inv_set_loop s); try done; [by rewrite Hst|by intros ?%Hret].
  - injection H as <-. apply (sys_inv_set_loop s); try done; [|by intros ?%Hret].
    rewrite Hms. destruct Hml as [Hml _]. rewrite Hml; done.
Qed.

Lemma sys_inv_recv rx s s' p : sys_inv s p -> recv_returns rx s = Some s' -> sys_inv s' p.
Proof using.
  intros Hinv H. unfold recv_returns in H.
  pose proof (inv_loop_mutex _ _ Hinv) as Hml. pose proof (inv_stop_mutex _ _ Hinv) as Hms.
  pose proof (inv_submit _ _ Hinv) as Hsub. pose proof (inv_requests _ _ Hinv) as Hreq.
  pose proof (inv_refused _ _ Hinv) as Href. pose proof (inv_returned _ _ Hinv) as Hret.
  destruct (loop s) as [| |fd| | | | | |] eqn:Hl; try done. injection H as <-.
  destruct (stored_request rx) as [t|]; apply (sys_inv_set_loop s); try done; try by intros ?%Hret.
  simpl. by rewrite Hreq, app_nil_r, <- app_assoc.
Qed.

(** A step of [Stop] that leaves the pool alone. *)
Lemma sys_inv_set_stopper s p m' k' :
  sys_inv s p ->
  shut_at k' (shutdown p) ->
  (loop_holds (loop s) = true <-> m' = Some MLoop) ->
  (stop_holds k' = true <-> m' = Some MStop) ->
  (loop s = LEnd -> k' <> KIdle) -> (k' = KReturned -> loop s = LEnd) ->
  sys_inv (System (impl_after k' p) m' (loop s) k' (if pool_gone k' then Some p else None)
             (requests s) (refused_requests s) (trace_after k')) p.
Proof using. intros [] **. by constructor. Qed.

Lemma sys_inv_shutdown s s' p :
  sys_inv s p -> stopper s = KShutdown ->
  option_map after_shutdown (pool_move Shutdown s) = Some s' -> exists p', sys_inv s' p'.
Proof using.
  intros Hinv Hk H. destruct (pool_move _ s) as [s1|] eqn:E; [|done]. injection H as <-.
  destruct (pool_move_Some _ _ _ _ Hinv E) as (p' & Hp' & Hg & ->). exists p'.
  assert (Hreach : reachable (TftpThreadPool h n) p').
  { eapply reach_step; [apply Hinv|]. by apply step_shutdown. }
  destruct Hinv. rewrite Hk in *.
  assert (Hm : thread_pool_mutex_ s = Some MStop) by (by apply inv_stop_mutex0).
  assert (Hkeep : submitter p' = submitter p /\ submitted p' = submitted p /\
                  rejected p' = rejected p /\ (stopping_ p = true -> stopping_ p' = true)).
  { unfold Shutdown in Hp'. destruct (shutdown p) as [| |k| | |]; try done; try (by injection Hp' as <-).
    - destruct (workers_ p !! k) as [[]|]; try done; by injection Hp' as <-.
    - by apply with_lock_Some in Hp' as [_ ->]. }
  destruct Hkeep as (Hu & Hs & Hr & Hst).
  assert (Hsub : submit_at (loop s) p').
  { unfold submit_at in *. rewrite Hu. destruct (loop s) eqn:Hl; try done;
      assert (loop_holds (loop s) = true) as Hh by (by rewrite Hl); rewrite Hl in Hh;
      apply inv_loop_mutex0 in Hh; congruence. }
  assert (Hinv' : shutdown p' <> SReturned ->
    sys_inv (set_impl (set_pool (Some p') (impl s)) s) p').
  { intros Hne. constructor; simpl; rewrite ?Hk, ?Hu, ?Hs, ?Hr; try done; [by rewrite inv_impl0|auto]. }
  unfold after_shutdown. simpl. destruct (bool_decide _) eqn:Ed; bool_cases; [|by auto].
  constructor; simpl; rewrite ?Hu, ?Hs, ?Hr; try done; [by rewrite inv_impl0|auto].
Qed.

Lemma sys_inv_stop s s' p : sys_inv s p -> Stop s = Some s' -> exists p', sys_inv s' p'.
Proof using Hstart.
  intros Hinv H. unfold Stop in H. pose proof (running_idle _ _ Hinv) as Hrun.
  pose proof (inv_thread_pool _ _ Hinv) as Htp. pose proof Hinv as [].
  pose proof (fun m k => sys_inv_set_stopper s p m k Hinv) as Hto.
  assert (Hm : stop_holds (stopper s) = true -> loop_holds (loop s) = false).
  { intros Hs%inv_stop_mutex0. apply not_true_is_false. intros Hl%inv_loop_mutex0. congruence. }
  destruct Hstart as (Hr0 & Ht0 & Hfd0 & _).
  destruct (stopper s) eqn:Hk; try done.
  4: by eapply sys_inv_shutdown.
  all: exists p; simpl in Htp, inv_retired0, inv_trace0, inv_impl0.
  - rewrite Hrun in H. injection H as <-. unfold set_impl, set_stopper. simpl.
    rewrite inv_impl0, inv_retired0, inv_trace0. by apply (Hto _ KFlagged).
  - unfold take_mutex in H. destruct (thread_pool_mutex_ s) eqn:Em; [done|]. injection H as <-.
    unfold set_mutex, set_stopper. simpl. rewrite inv_impl0, inv_retired0, inv_trace0.
    apply (Hto _ KLocked); try done. by rewrite inv_loop_mutex0.
  - rewrite Htp in H. injection H as <-. unfold set_stopper. rewrite inv_impl0, inv_retired0, inv_trace0.
    apply (Hto _ KShutdown); try done. simpl. by rewrite inv_shut0.
  - injection H as <-. unfold set_stopper, set_mutex, set_retired, set_impl. simpl.
    rewrite Htp, inv_impl0, inv_trace0. apply (Hto _ KClose); try done. by rewrite Hm.
  - injection H as <-. unfold set_stopper, add_trace, set_impl.
    rewrite inv_impl0. simpl. rewrite (proj2 (Z.leb_le _ _) Hfd0). simpl.
    rewrite inv_retired0, inv_trace0. by apply (Hto _ KJoin).
  - rewrite inv_impl0 in H. simpl in H. rewrite Ht0 in H. destruct (loop s) eqn:Hl; try done.
    injection H as <-. unfold set_stopper, set_impl. simpl. rewrite Hl, inv_retired0, inv_trace0.
    by apply (Hto _ KReturned).
Qed.

(** ** Refinement: the pool inside the server *)

Lemma sys_inv_move u s s' p : sys_inv s p -> sys_move u s = Some s' -> exists p', sys_inv s' p'.
Proof using Hstart.
  intros Hinv H. destruct u as [i|i|j|rx|]; simpl in H.
  - destruct (pool_move_Some _ _ _ _ Hinv H) as (p' & Hp & Hg & ->). exists p'.
    apply (sys_inv_calm s p p'); [done..|by eapply step_worker|by eapply worker_calm].
  - destruct (pool_move_Some _ _ _ _ Hinv H) as (p' & Hp & Hg & ->). exists p'.
    apply (sys_inv_calm s p p'); [done..|by eapply step_spurious|by eapply spurious_calm].
  - by eapply sys_inv_loop.
  - exists p. by eapply sys_inv_recv.
  - by eapply sys_inv_stop.
Qed.

Lemma sys_inv_reachable s : sys_reachable (started_system v0) s -> exists p, sys_inv s p.
Proof using Hstart.
  induction 1 as [|u s s' _ [p IH] Hm]; [exists (TftpThreadPool h n); by apply sys_inv_init|].
  by eapply sys_inv_move.
Qed.

(** ** Termination of [Stop]

    Once [Shutdown] has set [stopping_], a step of any thread decreases
    [sys_measure]: no worker begins to wait any more, and the loop leaves at its
    next test of [running_]. *)

Definition wweight (w : wpc task) : nat :=
  match w with
  | WDone => 0 | WTop => 1 | WEnded _ => 2 | WRunning _ => 3 | WRun _ => 4 | WLocked => 5
  | WPred => 6 | WLock => 7 | WWake => 7 | WWaiting => 8 | WToWait => 9
  end.
Definition sweight (workers : nat) (d : spc) : nat :=
  match d with
  | SIdle => workers + 5 | SFlagged => workers + 4 | SJoining k => (workers - k) + 3
  | SClear => 2 | SClearLocked => 1 | SReturned => 0
  end.
Definition lweight (l : lpc) : nat :=
  match l with
  | LEnd => 0 | LTop => 1 | LUnlock => 2 | LSubmitting => 3 | LSubmit _ => 4 | LLocked _ => 5
  | LGot _ => 6 | LBlocked _ => 7 | LRecv => 8
  end.
Definition kweight (k : kpc) : nat :=
  match k with
  | KIdle => 7 | KFlagged => 6 | KLocked => 5 | KShutdown => 4 | KReset => 3 | KClose => 2
  | KJoin => 1 | KReturned => 0
  end.
Definition pool_measure p : nat :=
  sum_list_with wweight (workers_ p) + sweight (length (workers_ p)) (shutdown p).
Definition sys_measure s p : nat := pool_measure p + lweight (loop s) + kweight (stopper s).

Lemma sum_list_insert (ws : list (wpc task)) i w w' :
  ws !! i = Some w ->
  (sum_list_with wweight (<[i := w']> ws) + wweight w = sum_list_with wweight ws + wweight w')%nat.
Proof using.
  revert i. induction ws as [|v ws IH]; intros [|i] H; simplify_eq/=; [lia|].
  specialize (IH i H). lia.
Qed.

Lemma worker_measure i p p' :
  stopping_ p = true -> WorkerThread i p = Some p' ->
  (pool_measure p' < pool_measure p)%nat /\ length (workers_ p') = length (workers_ p).
Proof using.
  intros Hs H. unfold WorkerThread in H. destruct (workers_ p !! i) as [w|] eqn:Hw; [|done].
  assert (Hset : forall q w', workers_ q = <[i := w']> (workers_ p) -> shutdown q = shutdown p ->
    (wweight w' < wweight w)%nat ->
    (pool_measure q < pool_measure p)%nat /\ length (workers_ q) = length (workers_ p)).
  { intros q w' Hq Hd Hlt. unfold pool_measure. rewrite Hq, Hd, length_insert.
    pose proof (sum_list_insert _ _ _ w' Hw). lia. }
  rewrite ?Hs in H. destruct w; try done;
    try (apply with_lock_Some in H as [_ ->]; eapply (Hset _ WPred); simpl; by try lia);
    try (injection H as <-; eapply Hset; [done..|simpl; lia]).
  destruct (tasks_ p); injection H as <-; (eapply Hset; [done..|simpl; lia]).
Qed.

Lemma wake_measure i p p' :
  spurious_wake i p = Some p' -> (pool_measure p' < pool_measure p)%nat.
Proof using.
  intros [Hw ->]%spurious_wake_Some. unfold pool_measure. simpl. rewrite length_insert.
  pose proof (sum_list_insert _ _ _ WWake Hw) as H. simpl in H. lia.
Qed.

Lemma shutdown_measure p p' : Shutdown p = Some p' -> (pool_measure p' < pool_measure p)%nat.
Proof using.
  unfold Shutdown, pool_measure. destruct (shutdown p) as [| |k| | |] eqn:Hd; try done.
  - intros [= <-]. simpl. lia.
  - intros [= <-]. simpl. rewrite length_map.
    assert (sum_list_with wweight (map wake (workers_ p)) <= sum_list_with wweight (workers_ p))%nat; [|lia].
    induction (workers_ p) as [|w ws IH]; [done|]. simpl. assert (wweight (wake w) <= wweight w)%nat; [|lia].
    destruct w; simpl; lia.
  - destruct (workers_ p !! k) as [w|] eqn:Hk.
    + apply lookup_lt_Some in Hk. destruct w; try done. intros [= <-]. simpl. lia.
    + intros [= <-]. simpl. lia.
  - intros [_ ->]%with_lock_Some. simpl. lia.
  - intros [= <-]. simpl. lia.
Qed.

(** The pool, also after it was destroyed. *)
Definition current_pool s : option (pool task) :=
  match thread_pool_ (impl s) with Some p => Some p | None => retired s end.

Lemma inv_current s p : sys_inv s p -> current_pool s = Some p.
Proof using.
  intros Hinv. unfold current_pool. rewrite (inv_thread_pool _ _ Hinv), (inv_retired _ _ Hinv).
  by destruct (pool_gone _).
Qed.

(** A stopping pool has no [Submit] under way, and [Stop] is inside or past
    [Shutdown]. *)
Lemma stopping_phase s p :
  sys_inv s p -> stopping_ p = true ->
  (forall t, loop s <> LSubmit t) /\ loop s <> LSubmitting /\
  (kweight (stopper s) <= 4)%nat.
Proof using.
  intros [] Hs. apply stopping_shut in Hs as Hd; [|done].
  unfold submit_at in inv_submit0. split_and!.
  - intros t Hl. rewrite Hl in inv_submit0. by destruct inv_submit0; congruence.
  - intros Hl. rewrite Hl in inv_submit0. by destruct inv_submit0; congruence.
  - destruct (stopper s); simpl in *; try done; lia.
Qed.

(** A step from [s] to [s'] while the pool is stopping: it decreases the measure,
    and the pool goes on stopping. *)
Section decreases.
Variables (s s' : system FS) (p p' : pool task).
Hypotheses (Hinv : sys_inv s p) (Hs : stopping_ p = true) (Hinv' : sys_inv s' p').

Lemma step_same_pool :
  thread_pool_ (impl s') = thread_pool_ (impl s) -> retired s' = retired s -> p' = p.
Proof using Hinv Hinv'.
  pose proof (inv_current _ _ Hinv) as Hcur. pose proof (inv_current _ _ Hinv') as Hcur'.
  intros H1 H2. unfold current_pool in *. rewrite H1, H2 in Hcur'. congruence.
Qed.

Lemma step_pool f :
  pool_move f s = Some s' -> f p = Some p' /\ s' = set_impl (set_pool (Some p') (impl s)) s.
Proof using Hinv Hinv'.
  intros Hq. pose proof (inv_current _ _ Hinv') as Hcur'. revert Hcur'.
  destruct (pool_move_Some _ _ _ _ Hinv Hq) as (p1 & Hf & _ & ->).
  unfold current_pool. simpl. by intros [= ->].
Qed.

Lemma loop_decreases j :
  ServerLoop j s = Some s' -> (sys_measure s' p' < sys_measure s p)%nat /\ stopping_ p' = true.
Proof using Hinv Hs Hinv' Hstart.
  intros Hm. pose proof (stopping_phase _ _ Hinv Hs) as (Hl1 & Hl2 & Hk).
  pose proof step_same_pool as Hsame. unfold sys_measure, ServerLoop in *.
  rewrite (running_idle _ _ Hinv) in Hm.
  destruct (loop s) as [| |fd|t|t|t| | |] eqn:Hl; try done; [..|by destruct (Hl1 t)|].
  - injection Hm as <-. rewrite (Hsame eq_refl eq_refl). split; [|done]. simpl.
    rewrite bool_decide_eq_false_2; [simpl; lia|]. intros E. rewrite E in Hk. simpl in Hk. lia.
  - injection Hm as <-. rewrite (Hsame eq_refl eq_refl). split; [simpl; lia|done].
  - unfold take_mutex in Hm. destruct (thread_pool_mutex_ s); [done|]. injection Hm as <-.
    rewrite (Hsame eq_refl eq_refl). split; [simpl; lia|done].
  - assert (Hm' : s' = set_loop LUnlock (add_refused t s)).
    { rewrite (inv_thread_pool _ _ Hinv) in Hm. unfold IsShuttingDown in Hm.
      destruct (pool_gone _); [|rewrite Hs in Hm]; by injection Hm as <-. }
    rewrite Hsame by (by rewrite Hm'). rewrite Hm'. split; [simpl; lia|done].
  - injection Hm as <-. rewrite (Hsame eq_refl eq_refl). split; [simpl; lia|done].
Qed.

Lemma shutdown_decreases :
  stopper s = KShutdown -> Stop s = Some s' ->
  (sys_measure s' p' < sys_measure s p)%nat /\ stopping_ p' = true.
Proof using Hinv Hs Hinv'.
  intros Hks Hm. pose proof (inv_current _ _ Hinv') as Hcur'. unfold sys_measure, Stop in *.
  rewrite Hks in *. destruct (pool_move Shutdown s) as [s1|] eqn:E; [|done].
  injection Hm as Hm'. destruct (pool_move_Some _ _ _ _ Hinv E) as (p1 & Hf & _ & ->).
  assert (p' = p1) as ->.
  { revert Hcur'. rewrite <- Hm'. unfold after_shutdown, current_pool. simpl.
    destruct (bool_decide _); simpl; by intros [= ->]. }
  pose proof (shutdown_measure _ _ Hf). split.
  - rewrite <- Hm'. unfold after_shutdown. simpl. destruct (bool_decide _); simpl; rewrite ?Hks; simpl; lia.
  - apply stopping_shut; [apply Hinv'|]. unfold Shutdown in Hf.
    destruct (shutdown p); try (injection Hf as <-; done); try done.
    + destruct (workers_ p !! _) as [[]|]; try done; by injection Hf as <-.
    + by apply with_lock_Some in Hf as [_ ->].
Qed.

Lemma stop_decreases :
  Stop s = Some s' -> (sys_measure s' p' < sys_measure s p)%nat /\ stopping_ p' = true.
Proof using Hinv Hs Hinv' Hstart.
  intros Hm. pose proof (stopping_phase _ _ Hinv Hs) as (_ & _ & Hk).
  pose proof step_same_pool as Hsame. pose proof shutdown_decreases as Hshut.
  unfold sys_measure, Stop in *. destruct (stopper s) eqn:Hks; simpl in Hk; try lia; try done.
  - by apply Hshut.
  - injection Hm as Hm'. assert (p' = p) as ->.
    { pose proof (inv_current _ _ Hinv') as Hcur'. revert Hcur'. rewrite <- Hm'.
      unfold current_pool. simpl. rewrite (inv_thread_pool _ _ Hinv), Hks. by intros [= ->]. }
    rewrite <- Hm'. split; [simpl; lia|done].
  - injection Hm as Hm'. rewrite Hsame by (rewrite <- Hm'; by destruct (0 <=? _)).
    split; [|done]. rewrite <- Hm'. destruct (0 <=? _); simpl; lia.
  - destruct (server_thread_ (impl s)); [destruct (loop s) eqn:Hl; try done|];
      injection Hm as Hm'; rewrite Hsame by (by rewrite <- Hm'); rewrite <- Hm';
      (split; [simpl; rewrite ?Hl; simpl; lia|done]).
Qed.
End decreases.

Lemma sys_measure_decreases u s s' p p' :
  sys_inv s p -> stopping_ p = true -> sys_move u s = Some s' -> sys_inv s' p' ->
  (sys_measure s' p' < sys_measure s p)%nat /\ stopping_ p' = true.
Proof using Hstart.
  intros Hinv Hs Hm Hinv'. destruct u as [i|i|j|rx|]; simpl in Hm.
  - destruct (step_pool _ _ _ _ Hinv Hinv' _ Hm) as [Hf ->]. unfold sys_measure. simpl.
    pose proof (worker_measure _ _ _ Hs Hf). apply worker_calm in Hf as (_ & _ & _ & _ & ->). split; [lia|done].
  - destruct (step_pool _ _ _ _ Hinv Hinv' _ Hm) as [Hf ->]. unfold sys_measure. simpl.
    pose proof (wake_measure _ _ _ Hf). apply spurious_calm in Hf as (_ & _ & _ & _ & ->). split; [lia|done].
  - by eapply loop_decreases.
  - unfold recv_returns in Hm. destruct (loop s) as [| |fd| | | | | |] eqn:Hl; try done.
    pose proof (step_same_pool _ _ _ _ Hinv Hinv') as Hsame. injection Hm as <-. unfold sys_measure.
    destruct (stored_request rx); rewrite (Hsame eq_refl eq_refl); (split; [simpl; rewrite ?Hl; simpl; lia|done]).
  - by eapply stop_decreases.
Qed.

Lemma sys_measure_bound s p :
  sys_inv s p -> stopping_ p = true -> (sys_measure s p <= 10 * length (workers_ p) + 17)%nat.
Proof using.
  intros Hinv Hs. pose proof (stopping_phase _ _ Hinv Hs) as (_ & _ & Hk).
  unfold sys_measure, pool_measure.
  assert (sum_list_with wweight (workers_ p) <= 9 * length (workers_ p))%nat.
  { induction (workers_ p) as [|w ws IH]; [done|]. simpl. assert (wweight w <= 9)%nat; [|lia].
    destruct w; simpl; lia. }
  assert (sweight (length (workers_ p)) (shutdown p) <= length (workers_ p) + 5)%nat
    by (destruct (shutdown p); simpl; lia).
  assert (lweight (loop s) <= 8)%nat by (destruct (loop s); simpl; lia). lia.
Qed.

Lemma sys_schedule_bound us s s' p :
  sys_inv s p -> stopping_ p = true -> sys_schedule us s = Some s' ->
  exists p', sys_inv s' p' /\ stopping_ p' = true /\
    (length us + sys_measure s' p' <= sys_measure s p)%nat.
Proof using Hstart.
  revert s p. induction us as [|u us IH]; intros s p Hinv Hs H; simpl in *.
  { injection H as <-. exists p. auto with lia. }
  destruct (sys_move u s) as [s1|] eqn:E; [|done].
  destruct (sys_inv_move _ _ _ _ Hinv E) as [p1 Hinv1].
  destruct (sys_measure_decreases _ _ _ _ _ Hinv Hs E Hinv1) as [Hlt Hs1].
  destruct (IH s1 p1 Hinv1 Hs1 H) as (p' & ? & ? & ?). exists p'. split_and!; [done..|lia].
Qed.

(** ** Progress *)

(** A step a thread makes without help from the network or a spurious wake-up. *)
Definition own_turn (u : sys_turn) : Prop :=
  match u with SWorker _ | SLoop _ | SStop => True | _ => False end.
Definition can_move s : Prop := exists u s', own_turn u /\ sys_move u s = Some s'.

Lemma can_move_loop s j : ServerLoop j s <> None -> can_move s.
Proof using. destruct (ServerLoop j s) as [s'|] eqn:E; [|done]. intros _. by exists (SLoop j), s'. Qed.
Lemma can_move_stop s : Stop s <> None -> can_move s.
Proof using. destruct (Stop s) as [s'|] eqn:E; [|done]. intros _. by exists SStop, s'. Qed.
Lemma can_move_worker s p i q :
  sys_inv s p -> pool_gone (stopper s) = false -> WorkerThread i p = Some q -> can_move s.
Proof using.
  intros Hinv Hg Hq. eexists (SWorker i), _. split; [done|]. simpl. unfold pool_move.
  by rewrite (inv_thread_pool _ _ Hinv), Hg, Hq.
Qed.

(** [Submit] is delayed at most by a worker that can move. *)
Lemma submit_progress t p :
  reachable (TftpThreadPool h n) p -> shutdown p = SIdle ->
  (exists j q, Submit t j p = Some q) \/ exists i q, WorkerThread i p = Some q.
Proof using.
  intros (Hl & _)%pool_inv_reachable Hd. unfold Submit. destruct (submitter p) eqn:Hu.
  - left. exists 0%nat. eauto.
  - unfold with_lock. destruct (queue_mutex_ p) as [[i| |]|] eqn:Hm.
    + right. exists i. by apply owner_moves.
    + destruct Hl as (_ & _ & [_ H3] & _). destruct (H3 Hm) as [t1 ?]. congruence.
    + destruct Hl as (_ & _ & _ & [_ H4]). rewrite (H4 Hm) in Hd. done.
    + left. exists 0%nat. eauto.
  - left. exists 0%nat. eauto.
  - left. unfold notify_one. destruct (existsb is_waiting (workers_ p)) eqn:E; [|by exists 0%nat; eauto].
    apply existsb_exists in E as (w & Hin & Hwait).
    apply list_elem_of_In, list_elem_of_lookup in Hin as [j Hj].
    exists j. unfold spurious_wake. rewrite Hj. destruct w; try done. simpl. eauto.
Qed.

Lemma worker_moves p i w :
  queue_mutex_ p = None -> workers_ p !! i = Some w -> w <> WWaiting -> w <> WDone ->
  exists q, WorkerThread i p = Some q.
Proof using.
  intros Hm Hw H1 H2. unfold WorkerThread, with_lock. rewrite Hw, Hm.
  destruct w; eauto; try done. destruct (tasks_ p); eauto.
Qed.

(** [Shutdown] is delayed at most by a worker that can move, or by one that
    waits for a notification. *)
Lemma shutdown_progress p :
  reachable (TftpThreadPool h n) p -> submitter p = UIdle -> shutdown p <> SReturned ->
  (exists q, Shutdown p = Some q) \/ (exists i q, WorkerThread i p = Some q) \/
  exists i, workers_ p !! i = Some WWaiting.
Proof using.
  intros (Hl & _)%pool_inv_reachable Hu Hd.
  assert (Hlock : queue_mutex_ p = None \/ (exists i q, WorkerThread i p = Some q) \/
                  shutdown p = SClearLocked).
  { destruct (queue_mutex_ p) as [[i| |]|] eqn:Hm; [|..|by left].
    - right; left. exists i. by apply owner_moves.
    - destruct Hl as (_ & _ & [_ H3] & _). destruct (H3 Hm) as [t1 ?]. congruence.
    - destruct Hl as (_ & _ & _ & [_ H4]). auto. }
  unfold Shutdown. destruct (shutdown p) as [| |k| | |] eqn:Ed; eauto; try done.
  - destruct (workers_ p !! k) as [w|] eqn:Hk; [|eauto].
    destruct Hlock as [Hm|[?|?]]; [|by eauto|done].
    destruct w; eauto; right; left; exists k; by eapply worker_moves.
  - unfold with_lock. destruct Hlock as [-> |[?|?]]; eauto; done.
Qed.

(** The two states in which [Stop] waits for something no thread will do: the
    server thread sits in [recvfrom], or a worker has missed the notification
    of [Shutdown]. *)
Definition waits_for_recv s : Prop := stopper s = KJoin /\ exists fd, loop s = LBlocked fd.
Definition waits_for_worker s : Prop :=
  stopper s = KShutdown /\
  exists p i, thread_pool_ (impl s) = Some p /\ workers_ p !! i = Some WWaiting.

Lemma loop_progress s p :
  sys_inv s p -> loop_holds (loop s) = true -> shutdown p = SIdle \/ stopping_ p = true -> can_move s.
Proof using.
  intros Hinv Hl Hd. pose proof (inv_submit _ _ Hinv) as Hsub. pose proof (inv_shut _ _ Hinv) as Hsh.
  pose proof (inv_thread_pool _ _ Hinv) as Htp. unfold submit_at in Hsub.
  assert (Hsubmit : forall t, stopping_ p = false ->
    (forall j, option_map after_submit (pool_move (Submit t j) s) <> None -> can_move s) -> can_move s).
  { intros t Hs Hj. destruct Hd as [Hd|?]; [|congruence].
    assert (Hg : pool_gone (stopper s) = false).
    { destruct (stopper s); try done; simpl in Hsh; congruence. }
    destruct (submit_progress t p (inv_pool _ _ Hinv) Hd) as [(j & q & Hq)|(i & q & Hq)].
    - apply (Hj j). unfold pool_move. by rewrite Htp, Hg, Hq.
    - by eapply can_move_worker. }
  destruct (loop s) as [| | | |t|t| | |] eqn:El; try done.
  - apply (can_move_loop s 0). unfold ServerLoop. by rewrite El.
  - apply (Hsubmit t); [by apply Hsub|]. intros j Hj. apply (can_move_loop s j).
    unfold ServerLoop. by rewrite El.
  - apply (Hsubmit ([], zero_addr)); [by apply Hsub|]. intros j Hj. apply (can_move_loop s j).
    unfold ServerLoop. by rewrite El.
  - apply (can_move_loop s 0). unfold ServerLoop. by rewrite El.
Qed.

Lemma stop_progress s p :
  sys_inv s p -> stopper s <> KIdle -> stopper s <> KReturned ->
  can_move s \/ waits_for_recv s \/ waits_for_worker s.
Proof using Hstart.
  intros Hinv Hk1 Hk2. pose proof (inv_thread_pool _ _ Hinv) as Htp.
  pose proof (inv_shut _ _ Hinv) as Hsh. pose proof (inv_loop_mutex _ _ Hinv) as Hml.
  pose proof (inv_stop_mutex _ _ Hinv) as Hms.
  assert (Hpool := inv_pool _ _ Hinv).
  destruct (stopper s) eqn:Hk; try done; simpl in Htp, Hsh, Hms.
  - left. destruct (thread_pool_mutex_ s) as [[]|] eqn:Em.
    + eapply loop_progress; [done|by apply Hml|by left].
    + by discriminate (proj2 Hms eq_refl).
    + apply can_move_stop. unfold Stop, take_mutex. by rewrite Hk, Em.
  - left. apply can_move_stop. unfold Stop. by rewrite Hk.
  - assert (Hu : submitter p = UIdle).
    { pose proof (inv_submit _ _ Hinv) as Hu. unfold submit_at in Hu.
      assert (Hm : thread_pool_mutex_ s = Some MStop) by (by apply Hms).
      destruct (loop s); try done; simpl in Hml; rewrite Hm in Hml;
        by destruct Hml as [Hml _]; specialize (Hml eq_refl). }
    destruct (shutdown_progress p Hpool Hu Hsh) as [[q Hq]|[(i & q & Hq)|[i Hi]]].
    + left. apply can_move_stop. unfold Stop, pool_move. by rewrite Hk, Htp, Hq.
    + left. eapply can_move_worker; [done| |done]. by rewrite Hk.
    + right; right. split; [done|]. eauto.
  - left. apply can_move_stop. unfold Stop. by rewrite Hk.
  - left. apply can_move_stop. unfold Stop. by rewrite Hk.
  - assert (Hs : stopping_ p = true) by (apply (gone_stopping s p Hinv); by rewrite Hk).
    destruct (loop_holds (loop s)) eqn:Hl; [left; eapply loop_progress; eauto|].
    assert (Hm : thread_pool_mutex_ s = None).
    { destruct (thread_pool_mutex_ s) as [[]|]; [|by discriminate (proj2 Hms eq_refl)|done].
      by discriminate (proj2 Hml eq_refl). }
    destruct (loop s) as [| |fd|t| | | | |] eqn:El; try done.
    1,2,4: left; apply (can_move_loop s 0); unfold ServerLoop, take_mutex; by rewrite El, ?Hm.
    + right; left. split; eauto.
    + left. apply can_move_stop. unfold Stop. rewrite Hk, El. by destruct (server_thread_ _).
Qed.

(** ** What holds of the running server *)

(** C12: in every interleaving the pool inside the server is in a state that the pool
    alone can reach, [Submit] never throws, and the non-empty datagrams received
    are, in the order of arrival, the requests whose handler was started, then
    those dropped by [Stop], those queued, those refused because the pool was
    gone, and the one the loop has in hand: requests are started in the order of
    arrival and each at most once, and none is lost before [Stop] is called. *)
Theorem system_serves_in_order s :
  sys_reachable (started_system v0) s ->
  exists p, current_pool s = Some p /\ reachable (TftpThreadPool h n) p /\ rejected p = [] /\
    requests s = started p ++ dropped p ++ tasks_ p ++ refused_requests s
                 ++ in_hand (loop s) (submitter p) /\
    (running_ (impl s) = true -> dropped p = [] /\ refused_requests s = []).
Proof using Hstart.
  intros [p Hinv]%sys_inv_reachable. exists p. pose proof (inv_pool _ _ Hinv) as Hr.
  apply pool_inv_reachable in Hr as (_ & (Hsub & _ & _ & Hdrop) & _). split_and!.
  - by apply inv_current.
  - apply Hinv.
  - apply Hinv.
  - rewrite (inv_requests _ _ Hinv), Hsub. by rewrite <- !app_assoc.
  - rewrite (running_idle _ _ Hinv). intros Hk. bool_cases. pose proof (inv_shut _ _ Hinv) as Hd.
    rewrite Hk in Hd. simpl in Hd. split; [apply Hdrop; congruence|].
    destruct (refused_requests s) as [|t l] eqn:E; [done|].
    assert (Hst : stopping_ p = true) by (apply (inv_refused _ _ Hinv); by rewrite E).
    by apply (stopping_shut p (inv_pool _ _ Hinv)) in Hst.
Qed.

(** The object and the socket calls of a [Stop] that has returned. *)
Lemma stop_result s :
  sys_reachable (started_system v0) s -> stopper s = KReturned -> (impl s, sys_trace s) = impl_Stop v0.
Proof using Hstart.
  intros [p Hinv]%sys_inv_reachable Hk. pose proof (inv_impl _ _ Hinv) as Hi.
  pose proof (inv_trace _ _ Hinv) as Ht. rewrite Hk in Hi, Ht. simpl in Hi, Ht.
  destruct Hstart as (Hrun & _ & Hfd%Z.leb_le & _). rewrite Hi, Ht. unfold impl_Stop. by rewrite Hrun, Hfd.
Qed.

(** C13: when [Stop] returns, the object and the socket calls are those of
    [impl_Stop], the server thread has left its loop, every worker has ended,
    every handler that was started has finished, every request received was
    started, dropped or refused, and no thread moves any more. *)
Theorem stop_complete s :
  sys_reachable (started_system v0) s -> stopper s = KReturned ->
  (impl s, sys_trace s) = impl_Stop v0 /\ loop s = LEnd /\
  (forall u, sys_move u s = None) /\
  exists p, retired s = Some p /\ Forall (fun w => w = WDone) (workers_ p) /\
    started p ≡ₚ finished p /\ requests s = started p ++ dropped p ++ refused_requests s.
Proof using Hstart.
  intros Hs Hk. pose proof (stop_result s Hs Hk) as Hstop. apply sys_inv_reachable in Hs as [p Hinv].
  pose proof (inv_returned _ _ Hinv Hk) as Hl. pose proof (inv_impl _ _ Hinv) as Hi.
  pose proof (inv_retired _ _ Hinv) as Hret. pose proof (inv_shut _ _ Hinv) as Hd.
  rewrite Hk in Hi, Hret, Hd. simpl in Hi, Hret, Hd. split_and!; [exact Hstop|done|..].
  - intros u. destruct u; simpl; unfold pool_move, ServerLoop, recv_returns, Stop; by rewrite ?Hi, ?Hl, ?Hk.
  - exists p. pose proof (inv_pool _ _ Hinv) as Hr.
    apply pool_inv_reachable in Hr as (_ & (Hsub & Hfin & _) & (_ & _ & Hall & Hq) & _).
    rewrite Hd in Hall. rewrite (Hq Hd), app_nil_r in Hsub. split_and!; [done..| |].
    + rewrite Hfin. replace (flat_map in_flight (workers_ p)) with (@nil task); [by rewrite app_nil_r|].
      clear -Hall. induction Hall as [|w ws -> _ IH]; [done|]. simpl. done.
    + rewrite (inv_requests _ _ Hinv), Hsub, Hl. simpl. by rewrite app_nil_r, <- app_assoc.
Qed.

(** C14: once [Stop] has told the pool to stop, the threads of the server together
    make at most ten steps per worker and seventeen more, spurious wake-ups
    included; and as long as [Stop] has not returned some thread can make a step
    of its own, unless [Stop] waits for a server thread that sits in [recvfrom]
    or for a worker that missed the notification. *)
Theorem stop_terminates s p :
  sys_reachable (started_system v0) s -> current_pool s = Some p -> stopping_ p = true ->
  (forall us s', sys_schedule us s = Some s' ->
     (length us <= 10 * length (workers_ p) + 17)%nat /\
     (stopper s' = KReturned \/ can_move s' \/ waits_for_recv s' \/ waits_for_worker s')).
Proof using Hstart.
  intros Hr Hcur Hs us s' Hus. destruct (sys_inv_reachable _ Hr) as [q Hinv].
  pose proof (inv_current _ _ Hinv) as Hq. rewrite Hcur in Hq. injection Hq as <-.
  destruct (sys_schedule_bound us s s' p Hinv Hs Hus) as (p' & Hinv' & Hs' & Hle).
  pose proof (sys_measure_bound s p Hinv Hs). split; [lia|].
  pose proof (stopping_phase _ _ Hinv' Hs') as (_ & _ & Hk).
  destruct (decide (stopper s' = KReturned)) as [?|Hne]; [by left|right].
  eapply stop_progress; [done| |done]. intros E. rewrite E in Hk. simpl in Hk. lia.
Qed.
End facts.

(** A successful [Start] makes such an object. *)
Lemma start_establishes `{P : Platform} {FS : Type} hardware a (v v' : TftpServerImpl FS) t :
  running_ v = false -> impl_Start hardware a v = (true, v', t) ->
  started_impl v' hardware (thread_pool_size_ v).
Proof.
  intros Hr. unfold impl_Start. rewrite Hr. destruct (a_socket a <? 0) eqn:E; [done|].
  destruct (a_setsockopt a); [|done]. destruct (a_bind a); [|done].
  intros [= <- <-]. bool_cases. by repeat split.
Qed.

(** ** A [Stop] that waits for the network *)

(** The server thread blocks in [recvfrom]; then [Stop] runs. *)
Definition quiet_turns : list sys_turn :=
  [SLoop 0; SLoop 0; SStop; SStop; SStop; SStop; SWorker 0;
   SStop; SStop; SStop; SStop; SStop; SStop; SStop].

Definition waiting_state {FS} (v : TftpServerImpl FS) : system FS :=
  System (set_sockfd (-1) (set_running false (set_pool None v))) None (LBlocked (sockfd_ v)) KJoin
    (Some (Pool [] true 0 None [WDone] UIdle SReturned [] [] [] [] [])) [] []
    [EvClose (sockfd_ v)].

(** C29: [Stop] closes the socket and then joins the server thread, which may sit in
    [recvfrom] on it: from every started server with one worker an interleaving
    without datagrams leads to a state in which the socket is closed, [Stop] has
    not returned, and no thread can move until [recvfrom] returns. *)
Theorem stop_waits_for_datagram {FS : Type} (v0 : TftpServerImpl FS) h :
  started_impl v0 h 1 ->
  exists s, sys_reachable (started_system v0) s /\ waits_for_recv s /\
    sys_trace s = [EvClose (sockfd_ v0)] /\
    (forall u s', sys_move u s = Some s' -> exists rx, u = SRecv rx).
Proof.
  intros (Hr & Ht & Hfd%Z.leb_le & Hp).
  exists (waiting_state v0). split; [|split; [split; [done|by eexists]|split; [done|]]].
  - apply (sys_schedule_reachable quiet_turns _ (started_system v0)); [constructor|].
    unfold waiting_state. destruct v0 as [c port fd run th po sz]. simpl in Hr, Ht, Hfd, Hp. subst.
    lazy -[Z.leb]. by rewrite Hfd.
  - intros [i|i|j|rx|] s' H; simpl in H; [done..|by exists rx|]. unfold Stop in H. simpl in H.
    by rewrite Ht in H.
Qed.

(** ** Witnesses *)

(** A server started with one worker; a request arrives and is handled, another
    one arrives while [Stop] runs. *)
Definition demo_cfg : config unit :=
  Config (bs "/srv/tftp/") true 1048576 5
    (fun fs path => (fs, Ok None)) (fun fs path data => (fs, Ok true)).
Definition demo_impl : TftpServerImpl unit :=
  ServerImpl demo_cfg 69 3 true true (Some (TftpThreadPool 1 1)) 1.

Lemma demo_started : started_impl demo_impl 1 1.
Proof. by repeat split. Qed.

Definition demo_peer : sockaddr_in := SockAddr 2130706433 4000.
Definition request_turns : list sys_turn :=
  [SLoop 0; SLoop 0; SRecv (Some (demo_peer, bs "one")); SLoop 0; SLoop 0; SLoop 0; SLoop 0;
   SLoop 0; SLoop 0; SLoop 0; SLoop 0; SLoop 0;
   SWorker 0; SWorker 0; SWorker 0; SWorker 0; SWorker 0].
Definition stopping_turns : list sys_turn :=
  [SStop; SStop; SStop; SStop; SRecv (Some (demo_peer, bs "two"))].
Definition stopped_turns : list sys_turn :=
  [SWorker 0; SWorker 0; SWorker 0; SStop; SStop; SStop; SStop; SStop; SStop;
   SLoop 0; SLoop 0; SLoop 0; SLoop 0; SStop; SStop].

Definition stopping_state : system unit :=
  default (started_system demo_impl)
    (sys_schedule (request_turns ++ stopping_turns) (started_system demo_impl)).
Definition stopped_state : system unit :=
  default (started_system demo_impl) (sys_schedule stopped_turns stopping_state).

Lemma stopping_reachable : sys_reachable (started_system demo_impl) stopping_state.
Proof.
  apply (sys_schedule_reachable (request_turns ++ stopping_turns) _ (started_system demo_impl));
    [constructor|by vm_compute].
Qed.
Lemma stopped_reachable : sys_reachable (started_system demo_impl) stopped_state.
Proof.
  apply (sys_schedule_reachable stopped_turns _ stopping_state _ stopping_reachable). by vm_compute.
Qed.

Lemma system_serves_in_order_witness :
  requests stopped_state = [(bs "one", demo_peer); (bs "two", demo_peer)] /\
  refused_requests stopped_state = [(bs "two", demo_peer)] /\
  exists p, current_pool stopped_state = Some p /\ reachable (TftpThreadPool 1 1) p /\
    rejected p = [] /\
    requests stopped_state = started p ++ dropped p ++ tasks_ p ++ refused_requests stopped_state
                 ++ in_hand (loop stopped_state) (submitter p) /\
    (running_ (impl stopped_state) = true -> dropped p = [] /\ refused_requests stopped_state = []).
Proof.
  split; [by vm_compute|]. split; [by vm_compute|].
  exact (system_serves_in_order demo_impl 1 1 demo_started stopped_state stopped_reachable).
Defined.

Lemma stop_complete_witness :
  (impl stopped_state, sys_trace stopped_state) = impl_Stop demo_impl /\ loop stopped_state = LEnd /\
  (forall u, sys_move u stopped_state = None) /\
  exists p, retired stopped_state = Some p /\ Forall (fun w => w = WDone) (workers_ p) /\
    started p ≡ₚ finished p /\
    requests stopped_state = started p ++ dropped p ++ refused_requests stopped_state.
Proof.
  apply (stop_complete demo_impl 1 1 demo_started stopped_state stopped_reachable). by vm_compute.
Defined.

Definition stopping_pool : pool task :=
  default (TftpThreadPool 1 1) (current_pool stopping_state).

Lemma stop_terminates_witness :
  (length stopped_turns <= 10 * length (workers_ stopping_pool) + 17)%nat /\
  (stopper stopped_state = KReturned \/ can_move stopped_state \/
   waits_for_recv stopped_state \/ waits_for_worker stopped_state).
Proof.
  apply (stop_terminates demo_impl 1 1 demo_started stopping_state stopping_pool stopping_reachable);
    by vm_compute.
Defined.

Lemma stop_waits_for_datagram_witness :
  exists s, sys_reachable (started_system demo_impl) s /\ waits_for_recv s /\
    sys_trace s = [EvClose 3] /\
    (forall u s', sys_move u s = Some s' -> exists rx, u = SRecv rx).
Proof. exact (stop_waits_for_datagram demo_impl 1 demo_started). Defined.
