(* ===== verification/Examples.v ===== *)
(** * The example programs

    [examples/server_example.cpp] and [examples/socket_demo.cpp], as clients of
    the server facade and of the socket classes.  What they print is left out;
    the command line, the clock and the answers of the system are arguments. *)

From Stdlib Require Import ZArith Lia Strings.Byte.
From stdpp Require Import base tactics numbers list gmap strings.
From S2P Require Import Prelude Common Packet StdText StdPath Util Validation Files ThreadPool Net Transfer IOFacts Protocol TransferFacts Socket WinSocket UdpSocket Server.

(** ** The example server *)

Section server_example.
Context `{P : Platform} {FS : Type} `{O : FileOps FS}.

(** [root_dir] and [port] from the command line; [inl] is the exit code of a
    refused port.  [std::stoul] is [std::stoull]: [unsigned long] has 64 bits. *)
Definition parse_arguments (args : list bytes) : res (Z + bytes * Z) :=
  let root_dir := default (bs ".") (args !! 0%nat) in
  match args !! 1%nat with
  | None => Ok (inr (root_dir, 69))
  | Some a =>
      port_long ← stoull a;
      if 65535 <? port_long then Ok (inl 1) else Ok (inr (root_dir, port_long))
  end.

(** The object after the configuration of the example. *)
Definition example_server (hardware : Z) (root_dir : bytes) (port : Z) : res (TftpServerImpl FS) :=
  server ← TftpServer hardware root_dir port;
  server ← SetSecureMode true server;
  server ← SetTimeout 5 server;
  SetMaxTransferSize (2 * 1024 * 1024) server.

(** The handler of [SIGINT] and [SIGTERM] on the flag [running]. *)
Definition signal_handler (running : bool) : bool := false.

(** [while (running) sleep]: [signals] tells for each test whether a signal came
    before it.  The number of sleeps; [None] while the program still waits. *)
Fixpoint wait_for_signal (running : bool) (signals : list bool) : option nat :=
  match signals with
  | [] => None
  | arrived :: rest =>
      let running := if arrived then signal_handler running else running in
      if running then option_map S (wait_for_signal running rest) else Some 0%nat
  end.

(** [main]: the exit code and the socket calls of the server; [None] while it
    waits for a signal. *)
Definition server_main (hardware : Z) (a : start_answers) (signals : list bool) (args : list bytes)
    : res (option (Z * list event)) :=
  r ← parse_arguments args;
  match r with
  | inl code => Ok (Some (code, []))
  | inr (root_dir, port) =>
      match example_server hardware root_dir port with
      | Throw _ => Ok (Some (1, []))
      | Ok server =>
          let '(ok, server, t) := impl_Start hardware a server in
          if negb ok then Ok (Some (1, t))
          else
            match wait_for_signal true signals with
            | None => Ok None
            | Some _ => let '(server, t2) := impl_Stop server in Ok (Some (0, t ++ t2))
            end
      end
  end.

(** The program waits exactly until the first signal. *)
Lemma wait_for_signal_first n rest : wait_for_signal true (replicate n false ++ true :: rest) = Some n.
Proof using. induction n as [|n IH]; simpl; [done|]. by rewrite IH. Qed.
Lemma wait_for_signal_none n : wait_for_signal true (replicate n false) = None.
Proof using. induction n as [|n IH]; simpl; [done|]. by rewrite IH. Qed.

Lemma example_server_Ok hardware root port :
  ValidateRootDirectory root = true -> port <> 0 ->
  exists s, example_server hardware root port = Ok s /\ running_ s = false /\
    port_ s = port /\ secure_mode_ (cfg_ s) = true /\ max_transfer_size_ (cfg_ s) = 2097152.
Proof using.
  intros Hr Hp. unfold example_server, TftpServer, ValidatePort. apply Z.eqb_neq in Hp.
  rewrite Hr, Hp. eexists. by split_and!.
Qed.

Lemma example_server_Throw hardware root port :
  ValidateRootDirectory root = false \/ port = 0 -> exists e, example_server hardware root port = Throw e.
Proof using.
  intros H. unfold example_server, TftpServer, ValidatePort.
  destruct (ValidateRootDirectory root) eqn:E; simpl; [|by eexists].
  destruct H as [?| ->]; [done|]. by eexists.
Qed.

(** The example exits with 0 exactly when the arguments are good, the system
    gives it its socket and a signal arrives; it leaves no socket open when it
    exits.  The only way out of [main] by an exception is a port that is not a
    number. *)
Lemma server_main_exit hardware a signals args :
  match server_main hardware a signals args with
  | Ok (Some (code, t)) =>
      open_socks t = [] /\ (code = 0 \/ code = 1) /\
      (code = 0 -> is_Some (wait_for_signal true signals) /\
         exists root port, parse_arguments args = Ok (inr (root, port)) /\
         ValidateRootDirectory root = true /\ port <> 0 /\
         0 <= a_socket a /\ a_setsockopt a = true /\ a_bind a = true)
  | Ok None => wait_for_signal true signals = None
  | Throw e => exists x, args !! 1%nat = Some x /\ stoull x = Throw e
  end.
Proof using.
  unfold server_main. destruct (parse_arguments args) as [[code|[root port]]|e] eqn:Ep; simpl.
  - split_and!; [done| |]; unfold parse_arguments in Ep; destruct (args !! 1%nat) as [x|]; try done;
      destruct (stoull x) as [v|]; try done; simpl in Ep; destruct (65535 <? v); try done;
      injection Ep as <-; [by right|done].
  - destruct (decide (ValidateRootDirectory root = true /\ port <> 0)) as [[Hr Hp]|Hn].
    + destruct (example_server_Ok hardware root port Hr Hp) as (s & -> & Hrun & _).
      unfold impl_Start. rewrite Hrun. destruct (a_socket a <? 0) eqn:Es; simpl.
      { unfold open_socks. simpl. rewrite Es. split_and!; [done|by right|done]. }
      destruct (a_setsockopt a) eqn:Eo; simpl.
      2: { unfold open_socks. simpl. rewrite Es, filter_cons_False by (by intros ?).
           split_and!; [done|by right|done]. }
      destruct (a_bind a) eqn:Eb; simpl.
      2: { unfold open_socks. simpl. rewrite Es, filter_cons_False by (by intros ?).
           split_and!; [done|by right|done]. }
      destruct (wait_for_signal true signals) as [k|]; [|done].
      unfold impl_Stop. simpl. apply Z.ltb_ge in Es as Hs. apply Z.leb_le in Hs as Hs'. rewrite Hs'.
      unfold open_socks. simpl. rewrite Es, filter_cons_False by (by intros ?).
      split_and!; [done|by left|]. intros _. split; [by exists k|]. by exists root, port.
    + destruct (example_server_Throw hardware root port) as [e ->].
      { destruct (ValidateRootDirectory root); [right|by left].
        destruct (decide (port = 0)); [done|]. by destruct Hn. }
      split_and!; [done|by right|done].
  - unfold parse_arguments in Ep. destruct (args !! 1%nat) as [x|]; [|done]. exists x. split; [done|].
    destruct (stoull x) as [v|e']; [simpl in Ep; by destruct (65535 <? v)|]. simpl in Ep. congruence.
Qed.
End server_example.

(** ** The socket demonstration *)

Section demo.
Context `{P : Platform} {FS : Type} `{I : InetOps} (c : socket_class FS).
Implicit Types w : world FS.

(** The listening loop: [clock] tells at each test whether time is left.  The
    socket after the loop. *)
Fixpoint demo_listen (clock : list bool) (sender : sockaddr_in) (s : SocketImpl) : IO FS SocketImpl :=
  match clock with
  | true :: clock' =>
      '(received, from, data, s) ← c_ReceiveFromTimeout c s (Some 1024) sender 1000;
      if 0 <? received then
        r ← c_SendTo c s (Some (bs "Echo: " ++ data)) from; mret r.2
      else if received =? 0 then demo_listen clock' from s
      else mret s
  | _ => mret s
  end.

(** [startup] is the answer of [WSAStartup] on Windows, [reuse] that of
    [setsockopt].  At the end the destructor closes the socket. *)
Definition ServerDemo (windows : bool) (startup reuse : Z) (clock : list bool) : IO FS unit :=
  if negb (SocketLibraryGuard windows startup 0).1 then mret tt
  else
    r ← c_Create c (c_new c);
    s ← (if negb r.1 then mret r.2
         else
           r ← c_SetReuseAddress c r.2 true reuse;
           if negb r.1 then mret r.2
           else
             r ← c_Bind c r.2 (SocketAddress_of (bs "127.0.0.1") 6969);
             if negb r.1 then mret r.2
             else demo_listen clock SocketAddress r.2);
    _ ← c_Close c s;
    mret tt.

(** The response, if there is one. *)
Definition ClientDemo (windows : bool) (startup : Z) : IO FS (option bytes) :=
  if negb (SocketLibraryGuard windows startup 0).1 then mret None
  else
    r ← c_Create c (c_new c);
    if negb r.1 then _ ← c_Close c r.2; mret None
    else
      r ← c_SendTo c r.2 (Some (bs "Hello from TFTP socket wrapper!")) (SocketAddress_of (bs "127.0.0.1") 6969);
      if 0 <? r.1 then
        '(received, _, data, s) ← c_ReceiveFromTimeout c r.2 (Some 1024) SocketAddress 2000;
        _ ← c_Close c s;
        mret (if 0 <? received then Some data else None)
      else _ ← c_Close c r.2; mret None.

(** The addresses [AddressDemo] prints; [None] is the use of a null pointer. *)
Definition AddressDemo : option (list (bytes * Z)) :=
  let show (a : AddressObject) := option_map (fun a => (GetIP a, GetPort a)) (GetSockAddr a) in
  let addr1 := address_from SocketAddress in
  out1 ← show addr1;
  let addr2 := address_from (SocketAddress_of (bs "192.168.1.100") 8080) in
  out2 ← show addr2;
  a ← GetSockAddr addr2;
  let addr2 := address_from (SetAddress (bs "10.0.0.1") 443 a) in
  out3 ← show addr2;
  addr3 ← address_copy addr2;
  out4 ← show addr3;
  let '(addr4, addr3) := address_move addr3 in
  out5 ← show addr4;
  Some [out1; out2; out3; out4; out5].

(** [main]: what the three demonstrations give. *)
Definition demo_main (windows : bool) (startup reuse : Z) (clock : list bool)
    : IO FS (option (list (bytes * Z)) * option bytes) :=
  let addresses := AddressDemo in
  ServerDemo windows startup reuse clock;;
  response ← ClientDemo windows startup;
  mret (addresses, response).
End demo.

(** ** What the demonstration server does *)

Section demo_facts.
Context `{P : Platform} {FS : Type} `{I : InetOps} (e : bytes).
Implicit Types w : world FS.

(** At most one answer: the echo of the last datagram received, to its sender. *)
Definition echoes (t : list event) : Prop :=
  sent t = [] \/ exists from d, sent t = [(from, bs "Echo: " ++ d)] /\ last (received t) = Some d /\ d <> [].

Lemma demo_receive s a w :
  wp (ReceiveFromTimeout e s (Some 1024) a 1000) w (fun r t _ =>
    (forall open, foldl sock_step open t = open) /\ sent t = [] /\
    exists n from d s', r = Ok (n, from, d, s') /\ socket_ s' = socket_ s /\
      (0 < n -> received t = [d] /\ d <> [])).
Proof using.
  unfold ReceiveFromTimeout. destruct (socket_ s =? kInvalidSocket) eqn:E.
  { wp_step. split_and!; [done..|]. do 4 eexists. split_and!; [done|done|lia]. }
  unfold ReceiveFrom. rewrite E. unfold wp, mbind, io_bind, os_select, os_recvfrom.
  destruct w as [so bi tx rx fs tr]; simpl.
  destruct rx as [|[| | |from d] rx]; simpl.
  1-4: eexists [_]; split; [done|]; split_and!; [done..|]; do 4 eexists; split_and!; [done|done|lia].
  eexists [_; _]. split; [by rewrite <- app_assoc|]. split_and!; [done..|]. do 4 eexists.
  split_and!; [done|done|]. intros Hn. split; [done|]. intros Hd.
  change (firstn 1024 d) with (take 1024 d) in Hd. rewrite Hd in Hn. by apply Z.lt_irrefl in Hn.
Qed.

Lemma demo_listen_spec clock a s w :
  wp (demo_listen (unix_class e) clock a s) w (fun r t _ =>
    (forall open, foldl sock_step open t = open) /\ echoes t /\
    exists s', r = Ok s' /\ socket_ s' = socket_ s).
Proof using.
  revert a s w. induction clock as [|[|] clock IH]; intros a s w; cbn [demo_listen].
  1,3: wp_step; split_and!; [done|by left|by eexists].
  wp_step. eapply wp_mono; [apply demo_receive|].
  intros r t w1 (Ho & Hsent & n & from & d & s1 & -> & Hs1 & Hn).
  destruct (0 <? n) eqn:En; bool_cases.
  - destruct (Hn En) as [Hrec Hd]. wp_step. cbn [unix_class c_SendTo]. unfold SendTo.
    assert (Hdone : forall b s2 t2 w2, (forall open, foldl sock_step open t2 = open) ->
      received t2 = [] -> (sent t2 = [] \/ sent t2 = [(from, bs "Echo: " ++ d)]) ->
      socket_ s2 = socket_ s1 ->
      wp (FS := FS) (mret (b : Z, s2).2) w2 (fun r t' _ =>
        (forall open, foldl sock_step open (t ++ t2 ++ t') = open) /\ echoes (t ++ t2 ++ t') /\
        exists s', r = Ok s' /\ socket_ s' = socket_ s)).
    { intros b s2 t2 w2 Ho2 Hr2 Hs2 Hfd. wp_step. rewrite app_nil_r. split_and!.
      - intros open. by rewrite foldl_app, Ho.
      - unfold echoes. rewrite sent_app, received_app, Hsent, Hrec, Hr2. destruct Hs2 as [-> | ->]; [by left|].
        right. eauto.
      - eexists. split; [done|]. simpl. congruence. }
    destruct (socket_ s1 =? kInvalidSocket); [wp_step; apply Hdone; auto|].
    change (bs "Echo: " ++ d) with (x45 :: bs "cho: " ++ d). cbn iota.
    change (x45 :: bs "cho: " ++ d) with (bs "Echo: " ++ d).
    do 2 wp_step. set (r := match w_tx w1 with [] => _ | _ => _ end). cbn zeta.
    destruct (r <? 0); (wp_step; apply Hdone; [done|done| |done]);
      unfold sent; cbn [map concat sent_of app]; destruct (_ =? zlen _); auto.
  - assert (Hkeep : forall (m : IO FS SocketImpl), 
      wp m w1 (fun r t' _ => (forall open, foldl sock_step open t' = open) /\ echoes t' /\
        exists s', r = Ok s' /\ socket_ s' = socket_ s1) ->
      wp m w1 (fun r t' _ => (forall open, foldl sock_step open (t ++ t') = open) /\ echoes (t ++ t') /\
        exists s', r = Ok s' /\ socket_ s' = socket_ s)).
    { intros m Hm. eapply wp_mono; [exact Hm|]. intros r t2 w2 (Ho2 & He & s2 & -> & Hs2). split_and!.
      - intros open. by rewrite foldl_app, Ho.
      - unfold echoes in *. rewrite sent_app, received_app, Hsent. destruct He as [-> |(f & x & -> & Hl & Hx)]; [by left|].
        right. exists f, x. split_and!; [done| |done]. rewrite last_app, Hl. done.
      - exists s2. by rewrite Hs2. }
    apply Hkeep. destruct (n =? 0); [apply IH|]. wp_step. split_and!; [done|by left|by eexists].
Qed.

(** A part of the program that makes and closes no socket. *)
Definition demo_part (s : SocketImpl) (m : IO FS SocketImpl) : Prop :=
  forall w, wp m w (fun r t _ => (forall open, foldl sock_step open t = open) /\ echoes t /\
    exists s', r = Ok s' /\ socket_ s' = socket_ s).

Lemma demo_ret s s' : socket_ s' = socket_ s -> demo_part s (mret s').
Proof using. intros H w. wp_step. split_and!; [done|by left|by eexists]. Qed.

Lemma demo_then s (m : IO FS (bool * SocketImpl)) (f : bool * SocketImpl -> IO FS SocketImpl) :
  (forall w, wp m w (fun r t _ => (forall open, foldl sock_step open t = open) /\
    sent t = [] /\ received t = [] /\ exists b s', r = Ok (b, s') /\ socket_ s' = socket_ s)) ->
  (forall b s', socket_ s' = socket_ s -> demo_part s (f (b, s'))) ->
  demo_part s (m ≫= f).
Proof using.
  intros Hm Hf w. wp_step. eapply wp_mono; [apply Hm|].
  intros r t w1 (Ho & Hs & Hr & b & s1 & -> & Hs1). eapply wp_mono; [by apply Hf|].
  intros r2 t2 w2 (Ho2 & He & Hres). split_and!; [|unfold echoes in *; by rewrite sent_app, received_app, Hs, Hr|done].
  intros open. by rewrite foldl_app, Ho.
Qed.

Lemma demo_body s reuse clock :
  demo_part s
    (r ← SetReuseAddress e s true reuse;
     if negb r.1 then mret r.2
     else
       r ← Bind e r.2 (SocketAddress_of (bs "127.0.0.1") 6969);
       if negb r.1 then mret r.2
       else demo_listen (unix_class e) clock SocketAddress r.2).
Proof using.
  apply demo_then.
  { intros w. unfold SetReuseAddress. destruct (_ =? kInvalidSocket).
    - wp_step. split_and!; [done..|]. do 2 eexists. done.
    - wp_step. eapply wp_event; [done..|]. cbn beta iota. destruct (reuse =? 0); cbn [negb];
        wp_step; (split_and!; [done..|]); do 2 eexists; done. }
  intros b s1 Hs1. simpl. destruct (negb b); [by apply demo_ret|]. apply demo_then.
  { intros w. unfold Bind. destruct (_ =? kInvalidSocket).
    - wp_step. split_and!; [done..|]. do 2 eexists. done.
    - wp_step. eapply wp_event; [done..|]. destruct (w_bind w _); simpl;
        wp_step; (split_and!; [done..|]); do 2 eexists; done. }
  intros b2 s2 Hs2. simpl. destruct (negb b2); [by apply demo_ret|]. intros w.
  eapply wp_mono; [apply demo_listen_spec|]. intros r t w' (? & ? & s3 & -> & Hs3).
  split_and!; [done..|]. exists s3. by rewrite Hs3.
Qed.

(** The demonstration server answers at most one datagram, with its bytes after
    "Echo: " and to its sender, and leaves no socket open, whatever the network
    and the clock do. *)
Lemma ServerDemo_echoes windows startup reuse clock w :
  socket_answers w ->
  wp (ServerDemo (unix_class e) windows startup reuse clock) w (fun r t _ =>
    r = Ok tt /\ open_socks t = [] /\ echoes t).
Proof using.
  intros Hw. unfold ServerDemo. destruct (negb _); [wp_step; split_and!; [done|done|by left]|].
  wp_step. cbn [unix_class c_Create c_new c_SetReuseAddress c_Bind c_Close]. unfold Create.
  unfold Close at 1. simpl. do 2 wp_step. wp_step. apply wp_socket; [done|]. intros fd w1 Hfd Hw1.
  set (first := if fd =? kInvalidSocket then _ else _).
  assert (Hfirst : exists b s, first = mret (b, s) /\ socket_ s = fd).
  { unfold first. destruct (fd =? kInvalidSocket); by do 2 eexists. }
  destruct Hfirst as (b & s & -> & Hs). wp_step. cbn [app]. wp_step.
  assert (Hpart : demo_part s (if negb b then mret s else
    r ← SetReuseAddress e s true reuse;
    if negb r.1 then mret r.2
    else r ← Bind e r.2 (SocketAddress_of (bs "127.0.0.1") 6969);
         if negb r.1 then mret r.2
         else demo_listen (unix_class e) clock SocketAddress r.2)).
  { destruct b; [apply demo_body|by apply demo_ret]. }
  eapply wp_mono; [apply Hpart|]. intros r t w2 (Ho & He & s2 & -> & Hs2).
  unfold Close. rewrite Hs2, Hs. unfold kInvalidSocket in *. wp_step.
  destruct (fd =? -1) eqn:E; simpl; bool_cases.
  - do 2 wp_step. rewrite !app_nil_r. split_and!; [done| |done].
    unfold open_socks. simpl. rewrite E. apply Ho.
  - do 3 wp_step. wp_step. rewrite !app_nil_r. split_and!; [done| |].
    + unfold open_socks. simpl. rewrite (proj2 (Z.ltb_ge fd 0)) by lia. rewrite foldl_app, Ho. simpl.
      by rewrite filter_cons_False by (by intros ?).
    + unfold echoes in *. cbn [app]. change (?a :: t ++ ?b) with ([a] ++ t ++ b).
      rewrite !sent_app, !received_app. cbn [app]. by rewrite !app_nil_r.
Qed.
End demo_facts.

(** The address demonstration uses no address that was moved from, and prints
    each address with the text and the port it was made from. *)
Lemma AddressDemo_prints `{P : Platform} `{I : InetOps} `{L : !InetLaws} x y :
  inet_ntop INADDR_ANY = Some (bs "0.0.0.0") ->
  inet_ntop x = Some (bs "192.168.1.100") -> inet_ntop y = Some (bs "10.0.0.1") ->
  AddressDemo = Some [(bs "0.0.0.0", 0); (bs "192.168.1.100", 8080); (bs "10.0.0.1", 443);
                      (bs "10.0.0.1", 443); (bs "10.0.0.1", 443)].
Proof.
  intros H0 Hx Hy. unfold AddressDemo, SocketAddress_of, SetAddress, SocketAddress, GetIP, GetPort.
  rewrite !bool_decide_eq_false_2 by done. cbn [orb].
  rewrite (pton_ntop _ _ Hx), (pton_ntop _ _ Hy).
  cbn [address_from GetSockAddr option_map address_copy address_move mbind option_bind sin_addr sin_port].
  by rewrite H0, Hx, Hy, !ntohs_htons by lia.
Qed.
