(* ===== verification/Concurrent.v ===== *)
(** * Requests served at the same time

    The workers of the pool run [HandleClient] concurrently.  The runs share
    the members that [config_mutex_] guards and the file system; each has a
    socket of its own.  Here a run is a program ([prog]) whose constructors are
    its accesses to what is shared, in the order of
    [src/internal/tftp_server_impl.cpp]; what it does with its own socket
    between two of them is one computation of the [IO] monad, the same
    definitions as in [Transfer].  [thread_step] is the next access; other
    threads run in between. *)

From Stdlib Require Import ZArith Lia Strings.Byte.
From stdpp Require Import base tactics numbers list gmap strings.
From S2P Require Import Prelude Common Packet StdText StdPath Util Validation Files ThreadPool Net Transfer Server.

(** ** Callbacks and members *)

(** The members a setter without a callback changes. *)
Record settings := Settings {
  secure_mode : bool;
  max_transfer_size : Z;
  timeout_seconds : Z;
}.

(** A run of a callback: single accesses to the file system, calls of a setter
    of the server, and the answer or exception at the end. *)
Inductive callback (FS A : Type) : Type :=
  | CRet (r : res A)
  | CFs {B : Type} (f : FS -> FS * B) (k : B -> callback FS A)
  | CSet (u : settings -> settings) (k : callback FS A).
Arguments CRet {FS A}.
Arguments CFs {FS A B}.
Arguments CSet {FS A}.

(** What the requests read of [TftpServerImpl]. *)
Record members (FS : Type) := Members {
  root_dir : bytes;
  m_settings : settings;
  m_read : bytes -> callback FS (option bytes);
  m_write : bytes -> bytes -> callback FS bool;
}.
Arguments Members {FS}.
Arguments root_dir {FS}.
Arguments m_settings {FS}.
Arguments m_read {FS}.
Arguments m_write {FS}.

(** ** Programs *)

(** [Conf] is a block that takes [config_mutex_] shared and only reads members;
    [Call] takes it shared, calls a callback and reads members afterwards,
    [Inside] is the rest of such a block. *)
Inductive prog (FS A : Type) : Type :=
  | Ret (r : res A)
  | Own {B : Type} (m : IO unit B) (k : res B -> prog FS A)
  | Query {B : Type} (f : FS -> B) (k : B -> prog FS A)
  | Conf {B : Type} (f : members FS -> B) (k : B -> prog FS A)
  | Call {B C : Type} (get : members FS -> callback FS B) (after : members FS -> C)
      (k : C -> res B -> prog FS A)
  | Inside {B C : Type} (c : callback FS B) (after : members FS -> C)
      (k : C -> res B -> prog FS A).
Arguments Ret {FS A}.
Arguments Own {FS A B}.
Arguments Query {FS A B}.
Arguments Conf {FS A B}.
Arguments Call {FS A B C}.
Arguments Inside {FS A B C}.

(** An exception ends the program. *)
Fixpoint pbind {FS A B} (f : A -> prog FS B) (p : prog FS A) : prog FS B :=
  match p with
  | Ret (Ok a) => f a
  | Ret (Throw e) => Ret (Throw e)
  | Own m k => Own m (fun r => pbind f (k r))
  | Query q k => Query q (fun b => pbind f (k b))
  | Conf q k => Conf q (fun b => pbind f (k b))
  | Call get after k => Call get after (fun c r => pbind f (k c r))
  | Inside c after k => Inside c after (fun c r => pbind f (k c r))
  end.

#[global] Instance prog_ret FS : MRet (prog FS) := fun A a => Ret (Ok a).
#[global] Instance prog_bind FS : MBind (prog FS) := fun A B f p => pbind f p.

(** [try { p } catch (...) { h }]. *)
Fixpoint pcatch {FS A} (h : prog FS A) (p : prog FS A) : prog FS A :=
  match p with
  | Ret (Ok a) => Ret (Ok a)
  | Ret (Throw _) => h
  | Own m k => Own m (fun r => pcatch h (k r))
  | Query q k => Query q (fun b => pcatch h (k b))
  | Conf q k => Conf q (fun b => pcatch h (k b))
  | Call get after k => Call get after (fun c r => pcatch h (k c r))
  | Inside c after k => Inside c after (fun c r => pcatch h (k c r))
  end.

Definition own {FS B} (m : IO unit B) : prog FS B := Own m Ret.
Definition query {FS B} (f : FS -> res B) : prog FS B := Query f Ret.
Definition conf {FS B} (f : members FS -> B) : prog FS B := Conf f (fun b => Ret (Ok b)).
Definition call_locked {FS B C} (get : members FS -> callback FS B) (after : members FS -> C)
    : prog FS (B * C) :=
  Call get after (fun c r => match r with Ok b => Ret (Ok (b, c)) | Throw e => Ret (Throw e) end).

(** ** The default callbacks

    One access per call of the file system or of a stream. *)

Section default_callbacks.
Context {FS : Type} `{O : FileOps FS}.

Definition read_run (path : bytes) : callback FS (option bytes) :=
  CFs (fun fs => (fs, f_can_open fs path)) (fun opened =>
    if negb opened then CRet (Ok None)
    else
      CFs (fun fs => (fs, f_size fs path)) (fun file_size =>
        match vec_reserve (file_size mod 2 ^ 64) with
        | Throw e => CRet (Throw e)
        | Ok _ => CFs (fun fs => (fs, f_read fs path file_size)) (fun r => CRet (Ok r))
        end)).

Definition write_file_run (path data : bytes) : callback FS bool :=
  CFs (fun fs => match f_open_write fs path with Some fs1 => (fs1, true) | None => (fs, false) end)
    (fun opened =>
       if negb opened then CRet (Ok false)
       else
         CFs (fun fs => f_write fs path data) (fun ok =>
           if negb ok then CRet (Ok false)
           else
             CFs (fun fs => f_flush fs path) (fun _ =>
               CFs (fun fs => (fs, f_exists fs path)) (fun r => CRet r)))).

Definition write_run (path data : bytes) : callback FS bool :=
  let parent := parent_path path in
  let rest (known : res bool) : callback FS bool :=
    match known with
    | Throw e => CRet (Throw e)
    | Ok true => write_file_run path data
    | Ok false =>
        CFs (fun fs => f_create_directories fs parent) (fun created =>
          match created with
          | Throw _ => CRet (Ok false)
          | Ok _ => write_file_run path data
          end)
    end in
  if bool_decide (parent = []) then rest (Ok true)
  else CFs (fun fs => (fs, f_exists fs parent)) rest.
End default_callbacks.

(** The members the constructor leaves. *)
Definition new_members {FS} `{O : FileOps FS} (root : bytes) : members FS :=
  Members (stored_root root) (Settings true (1024 * 1024 * 1024) 5) read_run write_run.

(** ** A request as a program *)

Section requests.
Context `{P : Platform} {FS : Type} `{F : FsOps FS}.

(** [IsPathSecure] and [NormalizePath], one query at a time. *)
Definition path_check_prog (path root : bytes) : prog FS bool :=
  if bool_decide (path = []) || bool_decide (root = []) then mret false
  else if contains_char x00 path then mret false
  else if is_absolute path then mret false
  else if existsb (fun pattern => contains pattern path) dangerous_patterns then mret false
  else
    root_path ← query (fun fs => fs_absolute fs root);
    let target_path := path_append root_path path in
    canonical_root ← query (fun fs => fs_weakly_canonical fs root_path);
    canonical_target ← query (fun fs => fs_weakly_canonical fs target_path);
    let canonical_root_str := with_separator canonical_root in
    let is_within_root :=
      (zlen canonical_root_str <=? zlen canonical_target)
      && bool_decide (take (length canonical_root_str) canonical_target = canonical_root_str) in
    if negb is_within_root then mret false
    else
      relative_path ← query (fun fs => fs_relative fs canonical_target canonical_root);
      mret (negb (contains (bs "..") relative_path)).

Definition secure_prog (path root : bytes) : prog FS bool :=
  pcatch (mret false) (path_check_prog path root).

Definition normalize_prog (path : bytes) : prog FS bytes :=
  if bool_decide (path = []) then mret path
  else if contains_char x00 path then mret []
  else pcatch (mret []) (query (fun fs => fs_weakly_canonical fs path)).

(** The run of a callback in the trace of the request. *)
Definition note (e : event) : IO unit unit := fun w => (Ok tt, add_event e w).

Definition limits (m : members FS) : Z * Z :=
  (max_transfer_size (m_settings m), timeout_seconds (m_settings m)).

Definition read_prog (sock : Z) (client_addr : sockaddr_in) (filepath : bytes) : prog FS unit :=
  own (note (EvRead filepath));;
  '(r, (max_size, timeout_secs)) ← call_locked (fun m => m_read m filepath) limits;
  match r with
  | None => own (SendError sock client_addr kFileNotFound (bs "File not found"))
  | Some file_data =>
      if max_size <? zlen file_data
      then own (SendError sock client_addr kDiskFull (bs "File size too large"))
      else
        own (io_loop (read_fuel file_data)
               (read_block timeout_secs sock client_addr file_data) (1, 0));;
        mret tt
  end.

(** The end of an upload: the received file goes to the callback. *)
Definition store_prog (sock : Z) (client_addr : sockaddr_in) (filepath file_data : bytes)
    : prog FS unit :=
  own (note (EvWrite filepath file_data));;
  '(success, _) ← call_locked (fun m => m_write m filepath file_data) (fun _ => tt);
  if negb success
  then own (SendError sock client_addr kAccessViolation (bs "File write failed"))
  else mret tt.

Definition write_prog (sock : Z) (client_addr : sockaddr_in) (filepath : bytes)
    (packet : TftpPacket) : prog FS unit :=
  '(max_size, timeout_secs) ← conf limits;
  let expected := expected_size packet in
  ok ← own (accept_write sock client_addr packet);
  if negb ok then mret tt
  else
    r ← own (io_loop (write_fuel max_size)
               (write_block max_size timeout_secs expected sock client_addr) ([], 1));
    match r with
    | inr (Some file_data) =>
        store_prog sock client_addr filepath file_data
    | _ => mret tt
    end.

Definition serve_prog (client_sock : Z) (client_addr : sockaddr_in) (packet : TftpPacket)
    : prog FS unit :=
  let filename := filename_ packet in
  '(is_secure_mode, root) ← conf (fun m => (secure_mode (m_settings m), root_dir m));
  ok ← (if is_secure_mode : bool then secure_prog filename root else mret true);
  if negb ok then
    own (SendError client_sock client_addr kAccessViolation (bs "Access denied"));;
    own (os_close client_sock)
  else
    filepath ← normalize_prog (root ++ filename);
    (match op_code_ packet with
     | kReadRequest => read_prog client_sock client_addr filepath
     | kWriteRequest => write_prog client_sock client_addr filepath packet
     | _ => own (SendError client_sock client_addr kIllegalOperation (bs "Illegal operation"))
     end);;
    own (os_close client_sock).

(** Socket and address for the client; [None] when that failed. *)
Definition client_socket (client_addr : sockaddr_in) : IO unit (option Z) :=
  client_sock ← os_socket;
  if client_sock <? 0 then mret None
  else
    r ← os_bind client_sock (SockAddr (sin_addr client_addr) 0);
    if r <? 0 then os_close client_sock;; mret None else mret (Some client_sock).

Definition request (initial_packet : bytes) (client_addr : sockaddr_in) : prog FS unit :=
  pcatch (mret tt)
    (let '(ok, packet) := Deserialize default_packet initial_packet in
     if negb ok then mret tt
     else
       s ← own (client_socket client_addr);
       match s with
       | None => mret tt
       | Some client_sock => serve_prog client_sock client_addr packet
       end).
End requests.

(** ** Threads *)

Abbreviation thread FS := (prog FS unit * world unit)%type.

(** Whether a thread holds [config_mutex_]. *)
Definition holds {FS} (t : thread FS) : bool :=
  match t.1 with Inside _ _ _ => true | _ => false end.

Section threads.
Context {FS : Type}.
Implicit Types (m : members FS) (fs : FS).

Definition with_settings (s : settings) m : members FS :=
  Members (root_dir m) s (m_read m) (m_write m).

(** The next step of a thread; [free] tells whether [config_mutex_] can be taken
    exclusively.  [None] when it has ended or is blocked.  Whether a shared lock
    waits behind a thread that asks for an exclusive one is left to the
    implementation of [std::shared_mutex]; here it may be granted at any time,
    and a thread that is kept waiting is one that takes no step meanwhile, so the
    interleavings of both kinds of lock are among those considered. *)
Definition thread_step (free : bool) m fs (t : thread FS) : option (members FS * FS * thread FS) :=
  let '(p, w) := t in
  match p with
  | Ret _ => None
  | Own c k => let '(r, w') := c w in Some (m, fs, (k r, w'))
  | Query f k => Some (m, fs, (k (f fs), w))
  | Conf f k => Some (m, fs, (k (f m), w))
  | Call get after k => Some (m, fs, (Inside (get m) after k, w))
  | Inside (CRet r) after k => Some (m, fs, (k (after m) r, w))
  | Inside (CFs f c) after k => let '(fs', b) := f fs in Some (m, fs', (Inside (c b) after k, w))
  | Inside (CSet u c) after k =>
      if free then Some (with_settings (u (m_settings m)) m, fs, (Inside c after k, w)) else None
  end.

(** The setters of the facade, with the checks of their arguments; a call that
    is refused changes nothing. *)
Inductive setter :=
  | SetSecure (b : bool)
  | SetLimit (n : Z)
  | SetSeconds (n : Z)
  | SetRead (cb : option (bytes -> callback FS (option bytes)))
  | SetWrite (cb : option (bytes -> bytes -> callback FS bool)).

Definition set_members (u : setter) m : members FS :=
  let s := m_settings m in
  match u with
  | SetSecure b => with_settings (Settings b (max_transfer_size s) (timeout_seconds s)) m
  | SetLimit n =>
      if ValidateTransferSize n
      then with_settings (Settings (secure_mode s) n (timeout_seconds s)) m else m
  | SetSeconds n =>
      if ValidateTimeout n
      then with_settings (Settings (secure_mode s) (max_transfer_size s) n) m else m
  | SetRead (Some cb) => Members (root_dir m) s cb (m_write m)
  | SetWrite (Some cb) => Members (root_dir m) s (m_read m) cb
  | SetRead None | SetWrite None => m
  end.

(** ** The server's requests together *)

Record requests_state := Requests {
  shared : members FS;
  files : FS;
  handlers : gmap nat (thread FS);
}.
Implicit Types s : requests_state.

(** No thread holds [config_mutex_] shared. *)
Definition mutex_free s : bool :=
  forallb (fun p => negb (holds p.2)) (map_to_list (handlers s)).

Inductive happening :=
  | Turn (i : nat)                     (* a step of thread [i] *)
  | Begin (i : nat) (t : thread FS)    (* a request begins on worker [i] *)
  | Leave (i : nat)                    (* the worker has returned from it *)
  | Setter (u : setter)                (* the user calls a setter *)
  | Outside (f : FS -> FS).            (* another process changes the files *)

Definition happens (h : happening) s : option requests_state :=
  match h with
  | Turn i =>
      match handlers s !! i with
      | Some t =>
          match thread_step (mutex_free s) (shared s) (files s) t with
          | Some (m, fs, t') => Some (Requests m fs (<[i := t']> (handlers s)))
          | None => None
          end
      | None => None
      end
  | Begin i t =>
      match handlers s !! i with
      | Some _ => None
      | None => Some (Requests (shared s) (files s) (<[i := t]> (handlers s)))
      end
  | Leave i =>
      match handlers s !! i with
      | Some (Ret _, _) => Some (Requests (shared s) (files s) (base.delete i (handlers s)))
      | _ => None
      end
  | Setter u =>
      if mutex_free s then Some (Requests (set_members u (shared s)) (files s) (handlers s)) else None
  | Outside f => Some (Requests (shared s) (f (files s)) (handlers s))
  end.

(** The states of all interleavings in which only what [ok] allows happens. *)
Inductive runs_to (ok : happening -> Prop) s : requests_state -> Prop :=
  | runs_here : runs_to ok s s
  | runs_on h s1 s2 : runs_to ok s s1 -> ok h -> happens h s1 = Some s2 -> runs_to ok s s2.

Fixpoint happen (hs : list happening) s : option requests_state :=
  match hs with
  | [] => Some s
  | h :: hs' => match happens h s with Some s' => happen hs' s' | None => None end
  end.
End threads.
Arguments setter : clear implicits.
Arguments requests_state : clear implicits.
Arguments happening : clear implicits.
Arguments Requests {FS}.

(** ** Schedules *)

Lemma happen_runs {FS} (ok : happening FS -> Prop) hs s0 s s' :
  runs_to ok s0 s -> Forall ok hs -> happen hs s = Some s' -> runs_to ok s0 s'.
Proof.
  intros Hr Hok. revert s Hr. induction Hok as [|h hs Hh _ IH]; intros s Hr Hs; simpl in Hs; [congruence|].
  destruct (happens h s) as [s1|] eqn:E; [|done]. eapply IH; [|done]. by eapply runs_on.
Qed.

(** The state and the world of a thread after a schedule. *)
Definition after {FS} (hs : list (happening FS)) (s : requests_state FS) : requests_state FS :=
  default s (happen hs s).
Definition world_of {FS} (i : nat) (s : requests_state FS) : world unit :=
  match handlers s !! i with Some (_, w) => w | None => World [] (fun _ => true) [] [] tt [] end.

Lemma after_runs {FS} (ok : happening FS -> Prop) hs s :
  Forall ok hs -> match happen hs s with Some _ => true | None => false end = true ->
  runs_to ok s (after hs s).
Proof.
  intros Hok E. eapply happen_runs; [apply runs_here|done|]. unfold after. by destruct (happen hs s).
Qed.

Lemma world_of_thread {FS} i (s : requests_state FS) :
  match handlers s !! i with Some _ => true | None => false end = true ->
  exists p, handlers s !! i = Some (p, world_of i s).
Proof. unfold world_of. destruct (handlers s !! i) as [[p w]|]; [eauto|done]. Qed.
