(* ===== verification/Alone.v ===== *)
(** * A request alone

    Running the program of a request with nothing in between is [HandleClient]
    of [Transfer]: the programs of [Concurrent] are the handlers, cut at their
    accesses to the shared state.  It takes finitely many steps. *)

From Stdlib Require Import ZArith Lia Strings.Byte.
From stdpp Require Import base tactics numbers list gmap strings.
From S2P Require Import Prelude Common Packet StdText StdPath Util Validation Files Net Transfer IOFacts Protocol TransferFacts ReadFacts WriteFacts ClientFacts Server ServerFacts Concurrent.

(** ** Computations that leave the files alone *)

Section own.
Context {FS : Type}.

(** A world without and with a file system. *)
Definition forget (w : world FS) : world unit :=
  World (w_socket w) (w_bind w) (w_tx w) (w_rx w) tt (w_trace w).
Definition with_files (fs : FS) (u : world unit) : world FS :=
  World (w_socket u) (w_bind u) (w_tx u) (w_rx u) fs (w_trace u).

Lemma forget_with_files fs u : forget (with_files fs u) = u.
Proof using. by destruct u as [????[]?]. Qed.

(** The same computation with and without files. *)
Definition same_io {A} (m1 : IO FS A) (m2 : IO unit A) : Prop :=
  forall fs u, m1 (with_files fs u) = let '(r, u') := m2 u in (r, with_files fs u').

Lemma same_ret {A} (a : A) : same_io (mret a) (mret a).
Proof using. done. Qed.
Lemma same_lift {A} (r : res A) : same_io (lift_res r) (lift_res r).
Proof using. done. Qed.

Lemma same_bind {A B} (m1 : IO FS A) m2 (f1 : A -> IO FS B) f2 :
  same_io m1 m2 -> (forall a, same_io (f1 a) (f2 a)) -> same_io (m1 ≫= f1) (m2 ≫= f2).
Proof using.
  intros Hm Hf fs u. unfold mbind, io_bind. rewrite Hm. destruct (m2 u) as [[a|e] u']; [|done].
  apply Hf.
Qed.

Lemma same_loop {S R} n (b1 : S -> IO FS (S + R)) b2 s :
  (forall s, same_io (b1 s) (b2 s)) -> same_io (io_loop n b1 s) (io_loop n b2 s).
Proof using.
  intros Hb. revert s. induction n as [|n IH]; intros s; [done|].
  apply same_bind; [apply Hb|]. intros [s'|r]; [apply IH|apply same_ret].
Qed.

Lemma same_sendto sock d a : same_io (os_sendto sock d a) (os_sendto sock d a).
Proof using. intros fs u. unfold os_sendto. simpl. by destruct (w_tx u). Qed.
Lemma same_sleep n : same_io (os_sleep n) (os_sleep n).
Proof using. done. Qed.
Lemma same_close n : same_io (os_close n) (os_close n).
Proof using. done. Qed.
Lemma same_socket : same_io os_socket os_socket.
Proof using. intros fs u. unfold os_socket. simpl. by destruct (w_socket u). Qed.
Lemma same_os_bind s a : same_io (os_bind s a) (os_bind s a).
Proof using. done. Qed.
Lemma same_select k s a b : same_io (os_select k s a b) (os_select k s a b).
Proof using. intros fs u. unfold os_select. simpl. by destruct (w_rx u) as [|[]]. Qed.
Lemma same_recvfrom s n : same_io (os_recvfrom s n) (os_recvfrom s n).
Proof using. intros fs u. unfold os_recvfrom. simpl. by destruct (w_rx u) as [|[]]. Qed.
Lemma same_note e : same_io (fun w => (Ok tt, add_event e w)) (note e).
Proof using. done. Qed.
End own.

Create HintDb same_io.
#[export] Hint Resolve same_ret same_lift same_sendto same_sleep same_close same_socket same_os_bind
  same_select same_recvfrom same_note : same_io.

(** One step of a comparison: a bind, a loop, or a case analysis on data both
    sides share. *)
Ltac same_io_step :=
  first
    [ solve [eauto with same_io]
    | apply same_bind; [|intros ?]
    | apply same_loop; intros ?
    | match goal with |- same_io (match ?x with _ => _ end) _ => destruct x end ].

Section pieces.
Context `{P : Platform} {FS : Type}.

Lemma same_send_attempts n sock a d :
  same_io (send_attempts (FS := FS) n sock a d) (send_attempts n sock a d).
Proof using. induction n as [|n IH]; simpl; repeat same_io_step. Qed.

Lemma same_SendPacket sock a p : same_io (SendPacket (FS := FS) sock a p) (SendPacket sock a p).
Proof using. unfold SendPacket. same_io_step; [same_io_step|apply same_send_attempts]. Qed.

#[local] Hint Resolve same_SendPacket : same_io.

Lemma same_SendError sock a c t : same_io (SendError (FS := FS) sock a c t) (SendError sock a c t).
Proof using.
  unfold SendError. generalize kMaxRetries. intros n. induction n as [|n IH]; simpl;
    repeat same_io_step.
Qed.

Lemma same_ReceivePacket sock a p n :
  same_io (ReceivePacket (FS := FS) sock a p n) (ReceivePacket sock a p n).
Proof using. unfold ReceivePacket. repeat same_io_step. Qed.
End pieces.

#[export] Hint Resolve same_SendPacket same_SendError same_ReceivePacket : same_io.

Section pieces2.
Context `{P : Platform} {FS : Type}.

Lemma same_read_block n sock a d s :
  same_io (read_block (FS := FS) n sock a d s) (read_block n sock a d s).
Proof using. unfold read_block. repeat same_io_step. Qed.

Lemma same_write_block max n e sock a s :
  same_io (write_block (FS := FS) max n e sock a s) (write_block max n e sock a s).
Proof using. unfold write_block. repeat same_io_step. Qed.

Lemma same_accept_write sock a p :
  same_io (accept_write (FS := FS) sock a p) (accept_write sock a p).
Proof using. unfold accept_write. repeat same_io_step. Qed.
End pieces2.

#[export] Hint Resolve same_read_block same_write_block same_accept_write : same_io.

(** ** Programs without interference *)

Section alone.
Context {FS : Type}.
Implicit Types (m : members FS) (fs : FS) (u : world unit).

(** The answer of a callback that nothing interrupts.  A call of a setter from
    inside would wait for ever ([no_set] excludes it). *)
Fixpoint crun {A} (c : callback FS A) fs : FS * res A :=
  match c with
  | CRet r => (fs, r)
  | CFs f k => let '(fs', b) := f fs in crun (k b) fs'
  | CSet _ k => crun k fs
  end.

Fixpoint no_set {A} (c : callback FS A) : Prop :=
  match c with
  | CRet _ => True
  | CFs _ k => forall b, no_set (k b)
  | CSet _ _ => False
  end.

Fixpoint prun {A} (p : prog FS A) m fs u : res A * FS * world unit :=
  match p with
  | Ret r => (r, fs, u)
  | Own c k => let '(r, u') := c u in prun (k r) m fs u'
  | Query f k => prun (k (f fs)) m fs u
  | Conf f k => prun (k (f m)) m fs u
  | Call get after k => let '(fs', r) := crun (get m) fs in prun (k (after m) r) m fs' u
  | Inside c after k => let '(fs', r) := crun c fs in prun (k (after m) r) m fs' u
  end.

Lemma prun_bind {A B} (p : prog FS A) (f : A -> prog FS B) m fs u :
  prun (p ≫= f) m fs u =
    match prun p m fs u with
    | (Ok a, fs', u') => prun (f a) m fs' u'
    | (Throw e, fs', u') => (Throw e, fs', u')
    end.
Proof using.
  unfold mbind, prog_bind. revert fs u.
  induction p as [[a|e]|B0 c k IH|B0 q k IH|B0 q k IH|B0 C0 g a k IH|B0 C0 g a k IH]; intros fs u; simpl;
    [done|done|by destruct (c u)|done|done|by destruct (crun _ fs)..].
Qed.

Lemma prun_catch {A} (p h : prog FS A) m fs u :
  prun (pcatch h p) m fs u =
    match prun p m fs u with
    | (Ok a, fs', u') => (Ok a, fs', u')
    | (Throw _, fs', u') => prun h m fs' u'
    end.
Proof using.
  revert fs u.
  induction p as [[a|e]|B0 c k IH|B0 q k IH|B0 q k IH|B0 C0 g a k IH|B0 C0 g a k IH]; intros fs u; simpl;
    [done|done|by destruct (c u)|done|done|by destruct (crun _ fs)..].
Qed.

(** A program as a computation of the handlers' monad. *)
Definition implements {A} m (p : prog FS A) (c : IO FS A) : Prop :=
  forall fs u, c (with_files fs u) = let '(r, fs', u') := prun p m fs u in (r, with_files fs' u').

Lemma impl_ret {A} m (a : A) : implements m (mret a) (mret a).
Proof using. done. Qed.

Lemma impl_own {A} m (c : IO unit A) (c' : IO FS A) : same_io c' c -> implements m (own c) c'.
Proof using. intros H fs u. rewrite H. simpl. by destruct (c u). Qed.

Lemma impl_bind {A B} m (p : prog FS A) (f : A -> prog FS B) c g :
  implements m p c -> (forall a, implements m (f a) (g a)) -> implements m (p ≫= f) (c ≫= g).
Proof using.
  intros Hp Hf fs u. rewrite prun_bind. unfold mbind at 1, io_bind at 1. rewrite Hp.
  destruct (prun p m fs u) as [[[a|e] fs'] u']; [|done]. apply Hf.
Qed.

(** Reading members and asking the file system change nothing. *)
Lemma impl_query {A B} m (p : prog FS A) (f : A -> prog FS B) (c : IO FS B) (v : FS -> A) :
  (forall fs u, prun p m fs u = (Ok (v fs), fs, u)) ->
  (forall fs u, c (with_files fs u) = let '(r, fs', u') := prun (f (v fs)) m fs u in (r, with_files fs' u')) ->
  implements m (p ≫= f) c.
Proof using. intros Hp Hf fs u. by rewrite prun_bind, Hp. Qed.

(** A callback under the lock, with the note in the trace. *)
Lemma impl_call {A B C} m e (get : members FS -> callback FS A) (after : members FS -> C)
    (f : A * C -> prog FS B) (call : IO FS A) (g : A -> IO FS B) :
  (forall w, call w = let '(fs', r) := crun (get m) (w_fs w) in
     (r, add_event e (World (w_socket w) (w_bind w) (w_tx w) (w_rx w) fs' (w_trace w)))) ->
  (forall a, implements m (f (a, after m)) (g a)) ->
  implements m (own (note e);; call_locked get after ≫= f) (call ≫= g).
Proof using.
  intros Hc Hf fs u. rewrite prun_bind. simpl. unfold mbind at 1, io_bind at 1. rewrite Hc. simpl.
  destruct (crun (get m) fs) as [fs' [a|x]]; [|done].
  exact (Hf a fs' (add_event e u)).
Qed.

Lemma impl_catch m p c : implements m p c -> implements m (pcatch (mret tt) p) (catch_all c).
Proof using.
  intros H fs u. unfold catch_all. rewrite H, prun_catch.
  by destruct (prun p m fs u) as [[[[]|] fs'] u'].
Qed.
End alone.

(** The sequential configuration of the members. *)
Definition seq_config {FS} (m : members FS) : config FS :=
  Config (root_dir m) (secure_mode (m_settings m)) (max_transfer_size (m_settings m))
    (timeout_seconds (m_settings m))
    (fun fs path => crun (m_read m path) fs) (fun fs path data => crun (m_write m path data) fs).

Section request.
Context `{P : Platform} {FS : Type} `{F : FsOps FS}.
Implicit Types (m : members FS) (fs : FS) (u : world unit).

Lemma prun_secure path root m fs u :
  prun (secure_prog path root) m fs u = (Ok (IsPathSecure fs path root), fs, u).
Proof using.
  unfold secure_prog, IsPathSecure. rewrite prun_catch. unfold path_check_prog, path_check.
  destruct (bool_decide (path = []) || _); [done|].
  destruct (contains_char x00 path); [done|].
  destruct (is_absolute path); [done|]. destruct (existsb _ _); [done|].
  rewrite prun_bind. simpl. destruct (fs_absolute fs root) as [rp|]; simpl; [|done].
  destruct (fs_weakly_canonical fs rp) as [cr|]; simpl; [|done].
  destruct (fs_weakly_canonical fs (path_append rp path)) as [ct|]; simpl; [|done].
  destruct (negb _); [done|]. simpl. destruct (fs_relative fs ct cr) as [r|]; simpl; [|done].
  by destruct (contains _ r).
Qed.

Lemma prun_normalize path m fs u :
  prun (normalize_prog path) m fs u = (Ok (NormalizePath fs path), fs, u).
Proof using.
  unfold normalize_prog, NormalizePath. destruct (bool_decide (path = [])); [done|].
  destruct (contains_char x00 path); [done|]. rewrite prun_catch. simpl.
  by destruct (fs_weakly_canonical fs path).
Qed.

Lemma impl_read m sock client path mode :
  implements m (read_prog sock client path) (HandleReadRequest (seq_config m) sock client path mode).
Proof using.
  unfold read_prog, HandleReadRequest. apply impl_call; [done|].
  intros [d|]; cbn [seq_config max_transfer_size_ timeout_seconds_ limits].
  - destruct (_ <? _); [apply impl_own; auto with same_io|].
    apply impl_bind; [|done]. apply impl_own, same_loop. auto with same_io.
  - apply impl_own. auto with same_io.
Qed.

Lemma impl_write m sock client path mode packet :
  implements m (write_prog sock client path packet)
    (HandleWriteRequest (seq_config m) sock client path mode packet).
Proof using.
  unfold write_prog, store_prog, HandleWriteRequest. apply (impl_query _ _ _ _ (fun _ => limits m)); [done|].
  cbn [limits seq_config max_transfer_size_ timeout_seconds_].
  apply impl_bind; [apply impl_own; auto with same_io|].
  intros [|]; cbn [negb]; [|apply impl_ret].
  apply impl_bind; [apply impl_own, same_loop; auto with same_io|].
  intros [s|[d|]]; [apply impl_ret| |apply impl_ret]. apply impl_call; [done|].
  intros [|]; simpl; [apply impl_ret|]. apply impl_own. auto with same_io.
Qed.

Lemma impl_serve m sock client packet :
  implements m (serve_prog sock client packet) (serve (seq_config m) sock client packet).
Proof using.
  unfold serve_prog. eapply (impl_query _ _ _ _ (fun _ => _)); [intros; reflexivity|]. cbv beta iota.
  intros fs u. set (ok := if secure_mode _ then _ else _).
  assert (Hok : forall fs u, prun ok m fs u =
    (Ok (if secure_mode (m_settings m) then IsPathSecure fs (filename_ packet) (root_dir m) else true), fs, u)).
  { intros fs0 u0. subst ok. destruct (secure_mode _); [apply prun_secure|done]. }
  revert fs u. apply (impl_query _ _ _ _ (fun fs =>
    if secure_mode (m_settings m) then IsPathSecure fs (filename_ packet) (root_dir m) else true)); [done|].
  intros fs u. unfold serve. cbn [seq_config secure_mode_ root_dir_ with_files w_fs].
  fold (with_files fs u).
  replace (secure_mode (m_settings m) && negb (IsPathSecure fs (filename_ packet) (root_dir m))) with
    (negb (if secure_mode (m_settings m) then IsPathSecure fs (filename_ packet) (root_dir m) else true))
    by (by destruct (secure_mode _)).
  destruct (negb _).
  - revert fs u. apply impl_bind; [apply impl_own; auto with same_io|].
    intros _. apply impl_own. auto with same_io.
  - rewrite prun_bind, prun_normalize. generalize (NormalizePath fs (root_dir m ++ filename_ packet)).
    intros path. revert fs u. apply impl_bind; [|intros _; apply impl_own; auto with same_io].
    destruct (op_code_ packet); try (apply impl_own; auto with same_io; fail);
      [apply impl_read|apply impl_write].
Qed.

Lemma impl_request m d client :
  implements m (request d client) (HandleClient (seq_config m) d client).
Proof using.
  unfold request, HandleClient. apply impl_catch.
  destruct (Deserialize default_packet d) as [[|] packet]; cbn [negb]; [|apply impl_ret].
  intros fs u. rewrite prun_bind. cbn [own prun]. unfold client_socket.
  unfold os_socket, os_bind, os_close, mbind, io_bind, mret, io_ret. cbn [with_files w_socket].
  destruct (w_socket u) as [|s ss]; [done|]. destruct (s <? 0); [done|].
  cbn -[serve serve_prog prun]. destruct (w_bind u (SockAddr (sin_addr client) 0)); [|done].
  change (0 <? 0) with false. cbv beta iota.
  match goal with |- context [prun _ m fs ?x] => exact (impl_serve m s client packet fs x) end.
Qed.
End request.

(** ** The steps of a thread that runs alone *)

Section steps.
Context {FS : Type}.
Implicit Types (m : members FS) (fs : FS) (u : world unit) (s : requests_state FS).

(** The program calls no setter from inside a callback of [m]. *)
Fixpoint sets_nothing {A} m (p : prog FS A) : Prop :=
  match p with
  | Ret _ => True
  | Own _ k => forall r, sets_nothing m (k r)
  | Query _ k => forall b, sets_nothing m (k b)
  | Conf _ k => forall b, sets_nothing m (k b)
  | Call get _ k => no_set (get m) /\ forall c r, sets_nothing m (k c r)
  | Inside c _ k => no_set c /\ forall c r, sets_nothing m (k c r)
  end.

Lemma sets_nothing_bind {A B} m (p : prog FS A) (f : A -> prog FS B) :
  sets_nothing m p -> (forall a, sets_nothing m (f a)) -> sets_nothing m (p ≫= f).
Proof using.
  intros Hp Hf. unfold mbind, prog_bind. induction p as [[a|e]| | | | |]; simpl in *; try naive_solver.
Qed.

Lemma sets_nothing_catch {A} m (p h : prog FS A) :
  sets_nothing m p -> sets_nothing m h -> sets_nothing m (pcatch h p).
Proof using. intros Hp Hh. induction p as [[a|e]| | | | |]; simpl in *; try naive_solver. Qed.

(** By steps of thread [i] alone it gets to [t] and the files to [fs]. *)
Definition gets_to (i : nat) s fs (t : thread FS) : Prop :=
  exists n, happen (replicate n (Turn i)) s =
    Some (Requests (shared s) fs (<[i := t]> (handlers s))).

Lemma happen_app hs1 hs2 s s1 : happen hs1 s = Some s1 -> happen (hs1 ++ hs2) s = happen hs2 s1.
Proof using.
  revert s. induction hs1 as [|h hs1 IH]; intros s; simpl; [by intros [= <-]|].
  destruct (happens h s) as [s'|]; [apply IH|done].
Qed.

Lemma gets_to_trans i s fs1 t1 fs2 t2 :
  gets_to i s fs1 t1 ->
  gets_to i (Requests (shared s) fs1 (<[i := t1]> (handlers s))) fs2 t2 -> gets_to i s fs2 t2.
Proof using.
  intros [n H1] [k H2]. exists (n + k)%nat. rewrite replicate_add, (happen_app _ _ _ _ H1), H2.
  simpl. by rewrite insert_insert_eq.
Qed.

Lemma gets_to_step i s fs1 t t1 :
  handlers s !! i = Some t ->
  thread_step (mutex_free s) (shared s) (files s) t = Some (shared s, fs1, t1) -> gets_to i s fs1 t1.
Proof using. intros Hi Ht. exists 1%nat. simpl. by rewrite Hi, Ht. Qed.

Lemma gets_to_callback {A C} i s (c : callback FS A) (after : members FS -> C) k u :
  handlers s !! i = Some (Inside c after k, u) -> no_set c ->
  gets_to i s (crun c (files s)).1 (k (after (shared s)) (crun c (files s)).2, u).
Proof using.
  revert s. induction c as [r|B f c IH|v c IH]; intros s Hi Hn; simpl in Hn; [| |done].
  - by eapply gets_to_step.
  - simpl. destruct (f (files s)) as [fs' b] eqn:Ef. eapply gets_to_trans.
    + eapply gets_to_step; [done|]. simpl. by rewrite Ef.
    + apply (IH b (Requests _ fs' _)); [apply lookup_insert_eq|done].
Qed.

(** Alone, a thread runs to its end. *)
Definition ends (i : nat) (p : prog FS unit) : Prop := forall s u,
  handlers s !! i = Some (p, u) -> sets_nothing (shared s) p ->
  let '(r, fs', u') := prun p (shared s) (files s) u in gets_to i s fs' (Ret r, u').

Lemma gets_to_rest i s fs1 p1 u1 :
  gets_to i s fs1 (p1, u1) -> ends i p1 -> sets_nothing (shared s) p1 ->
  let '(r, fs', u') := prun p1 (shared s) fs1 u1 in gets_to i s fs' (Ret r, u').
Proof using.
  intros H1 Hend Hn.
  specialize (Hend (Requests (shared s) fs1 (<[i := (p1, u1)]> (handlers s))) u1).
  simpl in Hend. rewrite lookup_insert_eq in Hend. specialize (Hend eq_refl Hn).
  destruct (prun _ _ _ _) as [[??]?]. by eapply gets_to_trans.
Qed.

Lemma thread_ends i p : ends i p.
Proof using.
  induction p as [r|B c k IH|B q k IH|B q k IH|B C g a k IH|B C c a k IH]; intros s u Hi Hn.
  - exists 0%nat. simpl. rewrite insert_id by done. by destruct s.
  - simpl in *. destruct (c u) as [r u'] eqn:Ec. apply gets_to_rest; [|done..].
    eapply gets_to_step; [done|]. simpl. by rewrite Ec.
  - simpl. apply gets_to_rest; [by eapply gets_to_step|apply IH|apply Hn].
  - simpl. apply gets_to_rest; [by eapply gets_to_step|apply IH|apply Hn].
  - destruct Hn as [Hc Hk]. pose proof (gets_to_callback i
      (Requests (shared s) (files s) (<[i := (Inside (g (shared s)) a k, u)]> (handlers s)))
      (g (shared s)) a k u (lookup_insert_eq _ _ _) Hc) as Hcb.
    simpl in *. destruct (crun (g (shared s)) (files s)) as [fs1 r].
    apply gets_to_rest; [|done..]. eapply gets_to_trans; [by eapply gets_to_step|exact Hcb].
  - destruct Hn as [Hc Hk]. pose proof (gets_to_callback i s c a k u Hi Hc) as Hcb.
    simpl in *. destruct (crun c (files s)) as [fs1 r]. by apply gets_to_rest.
Qed.
End steps.

(** ** The request *)

(** No callback of [m] calls a setter of the server. *)
Definition callbacks_set_nothing {FS} (m : members FS) : Prop :=
  (forall path, no_set (m_read m path)) /\ (forall path data, no_set (m_write m path data)).

Section theorem.
Context `{P : Platform} {FS : Type} `{F : FsOps FS}.
Implicit Types (m : members FS) (s : requests_state FS).

Lemma own_sets_nothing {A} m (c : IO unit A) : sets_nothing m (own c).
Proof using. done. Qed.
Lemma query_sets_nothing {A} m (q : FS -> res A) : sets_nothing m (query q).
Proof using. done. Qed.
Lemma conf_sets_nothing {A} m (q : members FS -> A) : sets_nothing m (conf q).
Proof using. done. Qed.
Lemma call_sets_nothing {A C} m (get : members FS -> callback FS A) (after : members FS -> C) :
  no_set (get m) -> sets_nothing m (call_locked get after).
Proof using. intros H. split; [done|]. by intros c []. Qed.

Ltac sets_nothing_step :=
  first
    [ exact I
    | apply own_sets_nothing | apply query_sets_nothing | apply conf_sets_nothing
    | apply call_sets_nothing; done
    | apply sets_nothing_catch
    | apply sets_nothing_bind; [|intros ?]
    | match goal with |- sets_nothing _ (match ?x with _ => _ end) => destruct x end ].

Lemma request_sets_nothing m d client :
  callbacks_set_nothing m -> sets_nothing m (request d client).
Proof using.
  intros [Hr Hw].
  unfold request, serve_prog, secure_prog, path_check_prog, normalize_prog, read_prog, write_prog, store_prog.
  repeat sets_nothing_step.
Qed.

(** A request that nothing interrupts is [HandleClient]: when the callbacks call
    no setter of the server, the thread of the request gets to its end by steps
    of its own, and its trace and the files are then those [HandleClient] leaves
    with the configuration of the members. *)
Lemma request_alone i s d client u :
  callbacks_set_nothing (shared s) -> handlers s !! i = Some (request d client, u) ->
  exists fs' u',
    HandleClient (seq_config (shared s)) d client (with_files (files s) u) = (Ok tt, with_files fs' u') /\
    gets_to i s fs' (Ret (Ok tt), u').
Proof using.
  intros Hcb Hi. pose proof (thread_ends i _ s u Hi (request_sets_nothing _ _ _ Hcb)) as H.
  pose proof (impl_request (shared s) d client (files s) u) as E.
  destruct (prun (request d client) (shared s) (files s) u) as [[r fs'] u'].
  exists fs', u'. assert (r = Ok tt) as ->; [|done].
  unfold HandleClient, catch_all in E. destruct (_ (with_files (files s) u)) as [[[]|] ?] in E; congruence.
Qed.
End theorem.

(** ** The default callbacks *)

(** Run alone, they are the handlers of [Files]. *)
Lemma default_callbacks_alone {FS} `{O : FileOps FS} fs path data :
  crun (read_run path) fs = DefaultReadHandler fs path /\
  crun (write_run path data) fs = DefaultWriteHandler fs path data /\
  no_set (read_run path) /\ no_set (write_run path data).
Proof.
  split_and!.
  - unfold read_run, DefaultReadHandler. simpl. destruct (f_can_open fs path); [|done]. simpl.
    destruct (vec_reserve _); [|done]. simpl. by destruct (f_read _ _ _).
  - unfold write_run, DefaultWriteHandler.
    assert (Hw : forall fs, crun (write_file_run path data) fs = write_file fs path data).
    { clear. intros fs. unfold write_file_run, write_file. simpl.
      destruct (f_open_write fs path) as [fs1|]; [|done]. simpl.
      destruct (f_write fs1 path data) as [fs2 [|]]; [|done]. simpl.
      destruct (f_flush fs2 path) as [fs3 ?]. simpl.
      by destruct (f_exists fs3 path) as [[|]|]. }
    destruct (bool_decide _); simpl; [apply Hw|].
    destruct (f_exists fs _) as [[|]|]; simpl; [apply Hw| |done].
    destruct (f_create_directories _ _) as [fs1 [?|]]; [apply Hw|done].
  - unfold read_run. simpl. intros [|]; [|done]. simpl. intros n. by destruct (vec_reserve _).
  - assert (Hw : no_set (write_file_run path data)).
    { unfold write_file_run. simpl. intros [|]; [|done]. simpl. by intros [|]. }
    unfold write_run. destruct (bool_decide _); [done|]. simpl. intros [[|]|]; [done| |done].
    simpl. by intros [?|].
Qed.

(** ** Witness *)

#[local] Existing Instance platform_le.

(** A client downloads the file the directory holds. *)
Definition lone_world : world unit :=
  World [7] (fun _ => true) [] (ack_stream sample_client (bs "kernel")) tt [].
Definition lone : requests_state mem_fs :=
  Requests (new_members (bs "/srv/tftp")) (mem_set mem_empty (bs "/srv/tftp/f") (bs "kernel"))
    {[ 1%nat := (request (rrq_bytes (bs "f")) sample_client, lone_world) ]}.

Lemma request_alone_witness :
  exists fs' u',
    HandleClient (seq_config (shared lone)) (rrq_bytes (bs "f")) sample_client
      (with_files (files lone) lone_world) = (Ok tt, with_files fs' u') /\
    gets_to 1 lone fs' (Ret (Ok tt), u').
Proof.
  apply (request_alone 1 lone); [|reflexivity].
  split; intros *; [apply (default_callbacks_alone mem_empty path [])|apply (default_callbacks_alone mem_empty)].
Defined.
