(* ===== verification/Interference.v ===== *)
(** * Reasoning about requests that run at the same time

    [pwp p w Q]: the program [p] of a thread with the world [w] keeps the
    invariant [I] of the shared state, its own world satisfies [G] all the time,
    and it ends in [Q], whatever other threads, setters and processes that keep
    [I] do in between, as long as the file system satisfies [J].
    [requests_step] is what this means for an interleaving. *)

From Stdlib Require Import ZArith Lia Strings.Byte.
From stdpp Require Import base tactics numbers list gmap strings.
From S2P Require Import Prelude Common Packet StdText StdPath Util Validation Files Net Transfer Concurrent Alone.

Section logic.
Context {FS : Type} (I : members FS -> FS -> Prop) (J : FS -> Prop) (G : world unit -> Prop) (D : Prop).
Implicit Types (m : members FS) (fs : FS) (w : world unit) (s : requests_state FS).

(** A callback: a setter called from inside never gets the lock, so nothing
    after it happens; [D] tells whether such calls are allowed. *)
Fixpoint cwp {A} (c : callback FS A) (K : res A -> Prop) : Prop :=
  match c with
  | CRet r => K r
  | CFs f k => forall m fs, I m fs -> J (f fs).1 -> I m (f fs).1 /\ cwp (k (f fs).2) K
  | CSet _ _ => D
  end.

Fixpoint pwp {A} (p : prog FS A) w (Q : res A -> world unit -> Prop) : Prop :=
  G w /\
  match p with
  | Ret r => Q r w
  | Own c k => pwp (k (c w).1) (c w).2 Q
  | Query f k => forall m fs, I m fs -> pwp (k (f fs)) w Q
  | Conf f k => forall m fs, I m fs -> pwp (k (f m)) w Q
  | Call get after k => forall m fs, I m fs ->
      cwp (get m) (fun r => forall m' fs', I m' fs' -> pwp (k (after m') r) w Q)
  | Inside c after k => cwp c (fun r => forall m' fs', I m' fs' -> pwp (k (after m') r) w Q)
  end.

Lemma cwp_mono {A} (c : callback FS A) (K K' : res A -> Prop) :
  cwp c K -> (forall r, K r -> K' r) -> cwp c K'.
Proof using.
  intros H HK. induction c as [r|B f k IH|u c IH]; simpl in *; [auto| |done].
  intros m fs Hi Hj. destruct (H m fs Hi Hj). auto.
Qed.

Lemma pwp_G {A} (p : prog FS A) w Q : pwp p w Q -> G w.
Proof using. destruct p; by intros [? _]. Qed.

Lemma pwp_ret {A} (a : A) w (Q : res A -> world unit -> Prop) : G w -> Q (Ok a) w -> pwp (mret a) w Q.
Proof using. done. Qed.

Lemma pwp_bind {A B} (p : prog FS A) (f : A -> prog FS B) w (Q : res B -> world unit -> Prop) :
  pwp p w (fun r w' => match r with Ok a => pwp (f a) w' Q | Throw e => Q (Throw e) w' end) ->
  pwp (p ≫= f) w Q.
Proof using.
  unfold mbind, prog_bind. revert w.
  induction p as [[a|e]|B0 c k IH|B0 q k IH|B0 q k IH|B0 C0 g a k IH|B0 C0 c a k IH]; intros w [Hg H]; simpl;
    [done|done|split; [done|]..].
  - auto.
  - eauto.
  - eauto.
  - intros m fs Hi. eapply cwp_mono; [exact (H m fs Hi)|]. simpl. eauto.
  - eapply cwp_mono; [exact H|]. simpl. eauto.
Qed.

Lemma pwp_catch {A} (p h : prog FS A) w (Q : res A -> world unit -> Prop) :
  pwp p w (fun r w' => match r with Ok a => Q (Ok a) w' | Throw e => pwp h w' Q end) ->
  pwp (pcatch h p) w Q.
Proof using.
  revert w.
  induction p as [[a|e]|B0 c k IH|B0 q k IH|B0 q k IH|B0 C0 g a k IH|B0 C0 c a k IH]; intros w [Hg H]; simpl;
    [done|done|split; [done|]..].
  - auto.
  - eauto.
  - eauto.
  - intros m fs Hi. eapply cwp_mono; [exact (H m fs Hi)|]. simpl. eauto.
  - eapply cwp_mono; [exact H|]. simpl. eauto.
Qed.

Lemma pwp_mono {A} (p : prog FS A) w (Q Q' : res A -> world unit -> Prop) :
  pwp p w Q -> (forall r w', Q r w' -> Q' r w') -> pwp p w Q'.
Proof using.
  intros H HQ. revert w H.
  induction p as [[a|e]|B0 c k IH|B0 q k IH|B0 q k IH|B0 C0 g a k IH|B0 C0 c a k IH]; intros w [Hg H]; simpl;
    (split; [done|]); [auto|auto|auto|eauto|eauto| |].
  - intros m fs Hi. eapply cwp_mono; [exact (H m fs Hi)|]. simpl. eauto.
  - eapply cwp_mono; [exact H|]. simpl. eauto.
Qed.

Lemma pwp_own {A} (c : IO unit A) w (Q : res A -> world unit -> Prop) :
  G w -> G (c w).2 -> Q (c w).1 (c w).2 -> pwp (own c) w Q.
Proof using. done. Qed.

Lemma pwp_query {A} (q : FS -> res A) w (Q : res A -> world unit -> Prop) :
  G w -> (forall m fs, I m fs -> Q (q fs) w) -> pwp (query q) w Q.
Proof using. intros Hg H. split; [done|]. intros m fs Hi. split; [done|]. eauto. Qed.

Lemma pwp_conf {A} (q : members FS -> A) w (Q : res A -> world unit -> Prop) :
  G w -> (forall m fs, I m fs -> Q (Ok (q m)) w) -> pwp (conf q) w Q.
Proof using. intros Hg H. split; [done|]. intros m fs Hi. split; [done|]. eauto. Qed.

Lemma pwp_call {A C} (get : members FS -> callback FS A) (after : members FS -> C) w
    (Q : res (A * C) -> world unit -> Prop) :
  G w ->
  (forall m fs, I m fs -> cwp (get m) (fun r => forall m' fs', I m' fs' ->
     match r with Ok a => Q (Ok (a, after m')) w | Throw e => Q (Throw e) w end)) ->
  pwp (call_locked get after) w Q.
Proof using.
  intros Hg H. split; [done|]. intros m fs Hi. eapply cwp_mono; [exact (H m fs Hi)|].
  intros [a|e] HK m' fs' Hi'; (split; [done|]); eauto.
Qed.

(** ** Steps *)

(** A thread that holds the lock keeps setters out. *)
Lemma holder_not_free s i t : handlers s !! i = Some t -> holds t = true -> mutex_free s = false.
Proof using.
  intros Hi Ht. destruct (mutex_free s) eqn:E; [|done]. unfold mutex_free in E.
  rewrite forallb_forall in E. specialize (E (i, t)). simpl in E. rewrite Ht in E.
  discriminate (E ltac:(by apply list_elem_of_In, elem_of_map_to_list)).
Qed.

Lemma pwp_step s i p w m' fs' p' w' Q :
  I (shared s) (files s) -> handlers s !! i = Some (p, w) -> pwp p w Q -> J fs' ->
  thread_step (mutex_free s) (shared s) (files s) (p, w) = Some (m', fs', (p', w')) ->
  m' = shared s /\ I m' fs' /\ pwp p' w' Q.
Proof using.
  intros Hi Hh Hp Hj Hs.
  destruct p as [r|B c k|B q k|B q k|B C g a k|B C [r|B' f c|u c] a k]; simpl in Hs; try done;
    destruct Hp as [Hg H].
  - destruct (c w) as [r w1] eqn:E. simplify_eq. eauto.
  - simplify_eq. eauto.
  - simplify_eq. eauto.
  - simplify_eq. split_and!; [done..|]. split; [done|]. exact (H _ _ Hi).
  - simplify_eq. eauto.
  - destruct (f (files s)) as [fs1 b] eqn:E. simplify_eq. destruct (H (shared s) (files s) Hi) as [Hi' Hc]; [by rewrite E|].
    rewrite E in Hi', Hc. split_and!; [done..|]. by split.
  - rewrite (holder_not_free _ _ _ Hh eq_refl) in Hs. done.
Qed.

(** ** Every interleaving *)

(** What may happen: requests whose program is safe, setters and other processes
    that keep the invariant. *)
Definition safe_happening (Q : res unit -> world unit -> Prop) (h : happening FS) : Prop :=
  match h with
  | Turn _ | Leave _ => True
  | Begin _ (p, w) => pwp p w Q
  | Setter u => forall m fs, I m fs -> I (set_members u m) fs
  | Outside f => forall m fs, I m fs -> J (f fs) -> I m (f fs)
  end.

Definition requests_inv (Q : res unit -> world unit -> Prop) s : Prop :=
  I (shared s) (files s) /\ map_Forall (fun _ (t : thread FS) => pwp t.1 t.2 Q) (handlers s).

Lemma requests_step Q h s s' :
  requests_inv Q s -> safe_happening Q h -> happens h s = Some s' -> J (files s') -> requests_inv Q s'.
Proof using.
  intros [Hi Ht] Hh Hs Hj. destruct h as [i|i [p w]|i|u|f]; simpl in Hs.
  - destruct (handlers s !! i) as [[p w]|] eqn:E; [|done].
    destruct (thread_step _ _ _ _) as [[[m fs] [p' w']]|] eqn:Es; [|done]. simplify_eq.
    destruct (pwp_step _ _ _ _ _ _ _ _ Q Hi E (Ht _ _ E) Hj Es) as (-> & Hi' & Hp).
    split; [done|]. by apply map_Forall_insert_2.
  - destruct (handlers s !! i); [done|]. simplify_eq. split; [done|]. by apply map_Forall_insert_2.
  - destruct (handlers s !! i) as [[[] ?]|]; try done. simplify_eq. split; [done|].
    by apply map_Forall_delete.
  - destruct (mutex_free s); [|done]. simplify_eq. split; [by apply Hh|done].
  - simplify_eq. split; [by apply Hh|done].
Qed.

(** ** Alone to the end *)

Hypothesis J_always : forall fs, J fs.

Lemma cwp_ends {A C} i s (c : callback FS A) (after : members FS -> C) k w (K : res A -> Prop) :
  ~ D -> I (shared s) (files s) -> handlers s !! i = Some (Inside c after k, w) -> cwp c K ->
  exists fs' r, gets_to i s fs' (k (after (shared s)) r, w) /\ I (shared s) fs' /\ K r.
Proof using J_always.
  intros HD. revert s. induction c as [r|B f c IH|u c IH]; intros s Hi Hh Hc; simpl in Hc; [| |done].
  - exists (files s), r. split; [by eapply gets_to_step|done].
  - destruct (Hc _ _ Hi (J_always _)) as [Hi1 Hc1]. destruct (f (files s)) as [fs1 b] eqn:E. simpl in *.
    destruct (IH b (Requests (shared s) fs1 (<[i := (Inside (c b) after k, w)]> (handlers s))))
      as (fs2 & r & H2 & Hi2 & HK); [done|apply lookup_insert_eq|done|].
    exists fs2, r. split; [|done]. eapply gets_to_trans; [|exact H2].
    eapply gets_to_step; [done|]. simpl. by rewrite E.
Qed.

(** A thread whose callbacks call no setter gets from here to its end by steps of
    its own: nothing that happened before and no other thread can block it. *)
Lemma pwp_ends i s p w Q :
  ~ D -> I (shared s) (files s) -> handlers s !! i = Some (p, w) -> pwp p w Q ->
  exists fs' r w', gets_to i s fs' (Ret r, w') /\ I (shared s) fs' /\ Q r w'.
Proof using J_always.
  intros HD. revert s w.
  assert (Hrest : forall s fs1 p1 w1, I (shared s) fs1 -> gets_to i s fs1 (p1, w1) -> pwp p1 w1 Q ->
    (forall s w, I (shared s) (files s) -> handlers s !! i = Some (p1, w) -> pwp p1 w Q ->
       exists fs' r w', gets_to i s fs' (Ret r, w') /\ I (shared s) fs' /\ Q r w') ->
    exists fs' r w', gets_to i s fs' (Ret r, w') /\ I (shared s) fs' /\ Q r w').
  { intros s fs1 p1 w1 Hi H1 Hp H.
    destruct (H (Requests (shared s) fs1 (<[i := (p1, w1)]> (handlers s))) w1) as (fs' & r & w' & H2 & ?);
      [done|apply lookup_insert_eq|done|].
    exists fs', r, w'. split; [by eapply gets_to_trans|done]. }
  induction p as [r|B c k IH|B q k IH|B q k IH|B C g a k IH|B C c a k IH]; intros s w Hi Hh [Hg H].
  - exists (files s), r, w. split; [|done]. exists 0%nat. simpl. rewrite insert_id by done. by destruct s.
  - destruct (c w) as [r w1] eqn:E. eapply (Hrest s (files s) (k r) w1); [done| |done|apply IH].
    eapply gets_to_step; [done|]. simpl. by rewrite E.
  - eapply (Hrest s (files s) (k (q (files s))) w); [done|by eapply gets_to_step|by eapply H|apply IH].
  - eapply (Hrest s (files s) (k (q (shared s))) w); [done|by eapply gets_to_step|by eapply H|apply IH].
  - destruct (cwp_ends i (Requests (shared s) (files s) (<[i := (Inside (g (shared s)) a k, w)]> (handlers s)))
      (g (shared s)) a k w _ HD Hi (lookup_insert_eq _ _ _) (H _ _ Hi)) as (fs1 & r & H1 & Hi1 & HK).
    eapply (Hrest s fs1 (k (a (shared s)) r) w); [done| |by eapply HK|apply IH].
    eapply gets_to_trans; [by eapply gets_to_step|exact H1].
  - destruct (cwp_ends i s c a k w _ HD Hi Hh H) as (fs1 & r & H1 & Hi1 & HK).
    eapply (Hrest s fs1 (k (a (shared s)) r) w); [done|done|by eapply HK|apply IH].
Qed.
(** ** Giving the mutex back *)

(** Steps of threads that hold [config_mutex_] shared: none of them asks for it. *)
Inductive releasing : requests_state FS -> requests_state FS -> Prop :=
  | releasing_refl s : releasing s s
  | releasing_step i t s s1 s2 :
      handlers s !! i = Some t -> holds t = true -> happens (Turn i) s = Some s1 ->
      releasing s1 s2 -> releasing s s2.

Lemma releasing_trans s1 s2 s3 : releasing s1 s2 -> releasing s2 s3 -> releasing s1 s3.
Proof using. induction 1; [done|]. intros. by eapply releasing_step; eauto. Qed.

Lemma releasing_one i t s m fs t' :
  handlers s !! i = Some t -> holds t = true ->
  thread_step (mutex_free s) (shared s) (files s) t = Some (m, fs, t') ->
  releasing s (Requests m fs (<[i := t']> (handlers s))).
Proof using. intros Hi Ht E. eapply releasing_step; [done|done| |constructor]. simpl. by rewrite Hi, E. Qed.

Lemma cwp_releases {A C} i s (c : callback FS A) (after : members FS -> C) k w (K : res A -> Prop) :
  ~ D -> I (shared s) (files s) -> handlers s !! i = Some (Inside c after k, w) -> cwp c K ->
  exists fs' r, releasing s (Requests (shared s) fs' (<[i := (k (after (shared s)) r, w)]> (handlers s))) /\
    I (shared s) fs' /\ K r.
Proof using J_always.
  intros HD. revert s. induction c as [r|B f c IH|u c IH]; intros s Hi Hh Hc; simpl in Hc; [| |done].
  - exists (files s), r. split; [by eapply releasing_one|done].
  - destruct (Hc _ _ Hi (J_always _)) as [Hi1 Hc1]. destruct (f (files s)) as [fs1 b] eqn:E. simpl in *.
    destruct (IH b (Requests (shared s) fs1 (<[i := (Inside (c b) after k, w)]> (handlers s))))
      as (fs2 & r & H2 & Hi2 & HK); [done|apply lookup_insert_eq|done|].
    exists fs2, r. split; [|done]. simpl in H2. rewrite insert_insert_eq in H2.
    eapply releasing_trans; [|exact H2]. eapply releasing_one; [done|done|]. simpl. by rewrite E.
Qed.

(** A thread gets out of its callback by steps of its own. *)
Lemma pwp_releases i s p w Q :
  ~ D -> I (shared s) (files s) -> handlers s !! i = Some (p, w) -> pwp p w Q ->
  exists fs' p', releasing s (Requests (shared s) fs' (<[i := (p', w)]> (handlers s))) /\
    I (shared s) fs' /\ pwp p' w Q /\ holds (p', w) = false.
Proof using J_always.
  intros HD. revert s. induction p as [r|B c k IH|B q k IH|B q k IH|B C g a k IH|B C c a k IH]; intros s Hi Hh Hp.
  1-5: eexists (files s), _; split; [|split_and!; [done|exact Hp|done]];
    rewrite insert_id by done; destruct s; constructor.
  destruct Hp as [_ Hc]. destruct (cwp_releases i s c a k w _ HD Hi Hh Hc) as (fs1 & r & H1 & Hi1 & HK).
  destruct (IH (a (shared s)) r (Requests (shared s) fs1 (<[i := (k (a (shared s)) r, w)]> (handlers s))))
    as (fs2 & p2 & H2 & ?); [done|apply lookup_insert_eq|by eapply HK|].
  exists fs2, p2. split; [|done]. simpl in H2. rewrite insert_insert_eq in H2. by eapply releasing_trans.
Qed.

(** All threads do: then the mutex is free. *)
Lemma all_release (Q : nat -> res unit -> world unit -> Prop) s :
  ~ D -> I (shared s) (files s) ->
  map_Forall (fun i (t : thread FS) => pwp t.1 t.2 (Q i)) (handlers s) ->
  exists s', releasing s s' /\ mutex_free s' = true /\ shared s' = shared s /\ I (shared s') (files s') /\
    map_Forall (fun i (t : thread FS) => pwp t.1 t.2 (Q i)) (handlers s') /\
    dom (handlers s') =@{gset nat} dom (handlers s).
Proof using J_always.
  intros HD Hi Ht.
  assert (Hkeys : forall l : list nat, exists s', releasing s s' /\ shared s' = shared s /\ I (shared s') (files s') /\
    map_Forall (fun i (t : thread FS) => pwp t.1 t.2 (Q i)) (handlers s') /\
    dom (handlers s') =@{gset nat} dom (handlers s) /\
    forall i t, i ∈ l -> handlers s' !! i = Some t -> holds t = false).
  { induction l as [|j l (s1 & H1 & Hsh & Hi1 & Ht1 & Hd & Hl)].
    - exists s. split_and!; [constructor|done..|]. by intros i t ?%not_elem_of_nil.
    - destruct (handlers s1 !! j) as [[p w]|] eqn:Ej.
      + destruct (pwp_releases j s1 p w (Q j) HD Hi1 Ej (Ht1 _ _ Ej)) as (fs' & p' & H2 & Hi2 & Hp' & Hf).
        eexists. split; [eapply releasing_trans; [exact H1|exact H2]|]. simpl. split_and!; [done|done|..].
        * by apply map_Forall_insert_2.
        * rewrite dom_insert_L. apply elem_of_dom_2 in Ej. set_solver.
        * intros i t [->|Hin]%elem_of_cons; [rewrite lookup_insert_eq; by intros [= <-]|].
          destruct (decide (i = j)) as [->|Hne]; [rewrite lookup_insert_eq; by intros [= <-]|].
          rewrite lookup_insert_ne by done. by apply Hl.
      + exists s1. split_and!; try done. intros i t [->|Hin]%elem_of_cons; [by rewrite Ej|by apply Hl]. }
  destruct (Hkeys (elements (dom (handlers s) : gset nat))) as (s' & H1 & Hsh & Hi' & Ht' & Hd & Hl).
  exists s'. split_and!; try done. unfold mutex_free. apply forallb_forall. intros [i t] Hin.
  apply list_elem_of_In, elem_of_map_to_list in Hin. simpl. rewrite (Hl i t); [done| |done].
  rewrite elem_of_elements, <- Hd. by eapply elem_of_dom_2.
Qed.
End logic.
