(* ===== verification/RequestFacts.v ===== *)
(** * Properties of requests that run at the same time

    Each request of an interleaving behaves as [HandleClient] does on its own
    with some answers of the network, the files and the members, so what is
    shown of all such runs holds of it; and no request leaves the root
    directory, as long as paths go on leading to the same places. *)

From Stdlib Require Import ZArith Lia Strings.Byte.
From stdpp Require Import base tactics numbers list gmap strings.
From S2P Require Import Prelude Common Packet PacketFacts StdText StdPath Util Validation Files Net Transfer IOFacts Protocol TransferFacts ReadFacts WriteFacts Termination ClientFacts Server ServerFacts Concurrent Alone Interference.

(** ** Every request is a request on its own *)

Section serial.
Context `{P : Platform} {FS : Type} `{F : FsOps FS}.
Context (I : members FS -> FS -> Prop) (m0 : members FS) (fs0 : FS).
(** What holds of the limits, whether the callbacks answer without throwing, and
    whether they may call setters. *)
Context (Lim : Z -> Z -> Prop) (total D : Prop).
Hypothesis I0 : I m0 fs0.
Hypothesis I_limits : forall m fs, I m fs -> Lim (limits m).1 (limits m).2.
Hypothesis I_read : forall m fs path, I m fs ->
  cwp I (fun _ => True) D (m_read m path) (fun r => total -> forall e, r <> Throw e).
Hypothesis I_write : forall m fs path data, I m fs ->
  cwp I (fun _ => True) D (m_write m path data) (fun r => total -> forall e, r <> Throw e).
Implicit Types w : world unit.

Let safe {A} (p : prog FS A) w Q := pwp I (fun _ => True) (fun _ => True) D p w Q.

(** A configuration of a server without files whose callbacks give these
    answers. *)
Definition answers (root : bytes) (secure : bool) (max timeout : Z) (r : res (option bytes))
    (v : res bool) : config unit :=
  Config root secure max timeout (fun fs _ => (fs, r)) (fun fs _ _ => (fs, v)).

(** File systems whose queries give one answer, or throw. *)
Definition one_path (p : res bytes) : FsOps unit :=
  {| fs_absolute _ _ := p; fs_weakly_canonical _ _ := p; fs_relative _ _ _ := p |}.

Definition good (cfg : config unit) : Prop :=
  Lim (max_transfer_size_ cfg) (timeout_seconds_ cfg) /\ (total -> total_callbacks cfg).

Lemma good_answers root b m fs r v :
  I m fs -> (total -> forall e, r <> Throw e) -> (total -> forall e, v <> Throw e) ->
  good (answers root b (limits m).1 (limits m).2 r v).
Proof using I_limits.
  intros Hi Hr Hv. split; [exact (I_limits m fs Hi)|]. intros Ht. split; simpl; eauto.
Qed.

Lemma safe_secure path root w :
  safe (secure_prog path root) w (fun r w' => w' = w /\ exists b, r = Ok b).
Proof using.
  unfold safe, secure_prog. apply pwp_catch. unfold path_check_prog.
  repeat (destruct (_ : bool); [by apply pwp_ret; eauto|]).
  assert (Hq : forall (q : FS -> res bytes) (f : bytes -> prog FS bool),
    (forall b, safe (f b) w (fun r w' => w' = w)) -> safe (query q ≫= f) w (fun r w' => w' = w)).
  { intros q f Hf. apply pwp_bind, pwp_query; [done|]. intros m fs _. destruct (q fs); [apply Hf|done]. }
  eapply pwp_mono.
  - apply Hq. intros rp. apply Hq. intros cr. apply Hq. intros ct.
    destruct (negb _); [by apply pwp_ret|]. apply Hq. intros rel. by apply pwp_ret.
  - intros [b|e] w' ->; simpl; eauto.
Qed.

Lemma safe_normalize path w :
  safe (normalize_prog path) w (fun r w' => w' = w /\
    exists p, r = Ok p /\ NormalizePath (F := one_path (Ok p)) tt path = p).
Proof using.
  unfold safe, normalize_prog, NormalizePath. destruct (bool_decide (path = [])) eqn:E1.
  { apply pwp_ret; eauto. }
  destruct (contains_char x00 path) eqn:E2; [apply pwp_ret; eauto|].
  apply pwp_catch, pwp_query; [done|]. intros m fs _. destruct (fs_weakly_canonical fs path); eauto.
  apply pwp_ret; eauto.
Qed.

Lemma call_read_answers root b max t r v path w :
  call_read (answers root b max t r v) path w = (r, (note (EvRead path) w).2).
Proof using. by destruct w. Qed.
Lemma call_write_answers root b max t r v path d w :
  call_write (answers root b max t r v) path d w = (v, (note (EvWrite path d) w).2).
Proof using. by destruct w. Qed.

Lemma io_bind_eq {A B} (c : IO unit A) (f : A -> IO unit B) w :
  (c ≫= f) w = match (c w).1 with Ok a => f a (c w).2 | Throw e => (Throw e, (c w).2) end.
Proof using. unfold mbind, io_bind. by destruct (c w) as [[a|e] w']. Qed.

(** The same request with fixed answers and these limits. *)
Definition as_alone (root : bytes) (b : bool) (h : config unit -> IO unit unit) w (r : res unit) w' : Prop :=
  exists max t a v, good (answers root b max t a v) /\ h (answers root b max t a v) w = (r, w').

Lemma read_answers root b max t a v sock client path mode w :
  HandleReadRequest (answers root b max t a v) sock client path mode w =
  let w1 := (note (EvRead path) w).2 in
  match a with
  | Throw e => (Throw e, w1)
  | Ok None => SendError sock client kFileNotFound (bs "File not found") w1
  | Ok (Some d) =>
      if max <? zlen d then SendError sock client kDiskFull (bs "File size too large") w1
      else (io_loop (read_fuel d) (read_block t sock client d) (1, 0);; mret tt) w1
  end.
Proof using.
  unfold HandleReadRequest. rewrite io_bind_eq, call_read_answers.
  destruct a as [[d|]|e]; [|done|done]. cbn [fst snd answers max_transfer_size_ timeout_seconds_].
  by destruct (max <? zlen d).
Qed.

(** A last computation of its own. *)
Lemma safe_own {A} (c : IO unit A) w (Q : res A -> world unit -> Prop) :
  (forall r w', c w = (r, w') -> Q r w') -> safe (own c) w Q.
Proof using. intros H. apply pwp_own; [done..|]. apply H. by destruct (c w). Qed.

Lemma safe_own_bind {A B} (c : IO unit A) (f : A -> prog FS B) w (Q : res B -> world unit -> Prop) :
  (forall a w', c w = (Ok a, w') -> safe (f a) w' Q) ->
  (forall e w', c w = (Throw e, w') -> Q (Throw e) w') -> safe (own c ≫= f) w Q.
Proof using. intros H1 H2. apply pwp_bind, safe_own. intros [a|e] w'; [apply H1|apply H2]. Qed.

Lemma io_bind_Ok {A B} (c : IO unit A) (f : A -> IO unit B) w a w' :
  c w = (Ok a, w') -> (c ≫= f) w = f a w'.
Proof using. intros E. unfold mbind, io_bind. by rewrite E. Qed.
Lemma io_bind_Throw {A B} (c : IO unit A) (f : A -> IO unit B) w e w' :
  c w = (Throw e, w') -> (c ≫= f) w = (Throw e, w').
Proof using. intros E. unfold mbind, io_bind. by rewrite E. Qed.

Lemma safe_read root b sock client path mode w :
  safe (read_prog sock client path) w
    (as_alone root b (fun cfg => HandleReadRequest cfg sock client path mode) w).
Proof using I_limits I_read.
  unfold read_prog. apply safe_own_bind; [|done]. intros [] w1 [= <-]. apply pwp_bind, pwp_call; [done|].
  intros m fs Hi. eapply cwp_mono; [exact (I_read m fs path Hi)|]. intros a Ha m' fs' Hi'.
  assert (Hg : good (answers root b (limits m').1 (limits m').2 a (Ok true))) by (by eapply good_answers).
  assert (Heq := read_answers root b (limits m').1 (limits m').2 a (Ok true) sock client path mode w).
  cbv zeta in Heq. destruct (limits m') as [max t]. cbn [fst snd] in *.
  destruct a as [[d|]|e].
  - destruct (max <? zlen d).
    + apply safe_own. intros r w' E. do 4 eexists. split; [done|]. by rewrite Heq.
    + apply safe_own_bind.
      * intros a w' E. apply pwp_ret; [done|]. do 4 eexists. split; [done|].
        by rewrite Heq, (io_bind_Ok _ _ _ _ _ E).
      * intros e w' E. do 4 eexists. split; [done|]. by rewrite Heq, (io_bind_Throw _ _ _ _ _ E).
  - apply safe_own. intros r w' E. do 4 eexists. split; [done|]. by rewrite Heq.
  - by do 4 eexists.
Qed.

Lemma safe_write root b sock client path mode packet w :
  safe (write_prog sock client path packet) w
    (as_alone root b (fun cfg => HandleWriteRequest cfg sock client path mode packet) w).
Proof using I_limits I_write.
  unfold write_prog, store_prog. apply pwp_bind, pwp_conf; [done|]. intros m fs Hi.
  assert (Hg : forall v, (total -> forall e, v <> Throw e) ->
    good (answers root b (limits m).1 (limits m).2 (Ok None) v)) by (intros; by eapply good_answers).
  assert (Hany := Hg (Ok true) ltac:(done)).
  destruct (limits m) as [max t]. cbn [fst snd] in *.
  apply safe_own_bind.
  2: { intros e w' E. do 4 eexists. split; [done|]. unfold HandleWriteRequest.
       by rewrite (io_bind_Throw _ _ _ _ _ E). }
  intros ok w1 E1. destruct ok; cbn [negb].
  2: { apply pwp_ret; [done|]. do 4 eexists. split; [done|]. unfold HandleWriteRequest.
       by rewrite (io_bind_Ok _ _ _ _ _ E1). }
  apply safe_own_bind.
  2: { intros e w' E. do 4 eexists. split; [done|]. unfold HandleWriteRequest.
       rewrite (io_bind_Ok _ _ _ _ _ E1). cbn [negb]. by rewrite (io_bind_Throw _ _ _ _ _ E). }
  intros r w2 E2.
  assert (Hend : forall v, HandleWriteRequest (answers root b max t (Ok None) v) sock client path mode packet w =
    match r with
    | inr (Some d) => (success ← call_write (answers root b max t (Ok None) v) path d;
        if negb success then SendError sock client kAccessViolation (bs "File write failed") else mret tt) w2
    | _ => (Ok tt, w2)
    end).
  { intros v. unfold HandleWriteRequest. rewrite (io_bind_Ok _ _ _ _ _ E1). cbn [negb].
    rewrite (io_bind_Ok _ _ _ _ _ E2). by destruct r as [?|[?|]]. }
  destruct r as [?|[d|]]; [by apply pwp_ret; [|do 4 eexists]| |by apply pwp_ret; [|do 4 eexists]].
  apply safe_own_bind; [|done]. intros [] w3 [= <-]. apply pwp_bind, pwp_call; [done|].
  intros m1 fs1 Hi1. eapply cwp_mono; [exact (I_write m1 fs1 path d Hi1)|]. intros v Hv _ _ _.
  specialize (Hend v). rewrite io_bind_eq, call_write_answers in Hend. cbn [fst snd] in Hend.
  destruct v as [[|]|e]; cbn [negb] in *.
  - apply pwp_ret; [done|]. do 4 eexists. split; [by apply Hg|]. by rewrite Hend.
  - apply safe_own. intros r w' E. do 4 eexists. split; [by apply Hg|]. by rewrite Hend.
  - do 4 eexists. split; [by apply Hg|]. by rewrite Hend.
Qed.

Lemma denied path root : IsPathSecure (F := one_path (Throw UserException)) tt path root = false.
Proof using.
  unfold IsPathSecure, path_check. destruct (bool_decide (path = []) || _); [done|].
  destruct (contains_char x00 path); [done|]. destruct (is_absolute path); [done|].
  by destruct (existsb _ _).
Qed.

Lemma safe_serve sock client packet w :
  safe (serve_prog sock client packet) w (fun r w' => exists (F' : FsOps unit) cfg,
    good cfg /\ serve cfg sock client packet w = (r, w')).
Proof using I_limits I_read I_write.
  unfold serve_prog. apply pwp_bind, pwp_conf; [done|]. intros m fs Hi.
  set (root := root_dir m). apply pwp_bind.
  assert (Hok : safe (if secure_mode (m_settings m) then secure_prog (filename_ packet) root else mret true) w
    (fun r w' => w' = w /\ exists b, r = Ok b)).
  { destruct (secure_mode _); [apply safe_secure|]. apply pwp_ret; eauto. }
  eapply pwp_mono; [exact Hok|]. intros r w' [-> [[|] ->]]; cbn [negb].
  - apply pwp_bind. eapply pwp_mono; [apply safe_normalize|]. intros r w' (-> & path & -> & Hp).
    apply pwp_bind.
    assert (Hd : safe (match op_code_ packet with
      | kReadRequest => read_prog sock client path
      | kWriteRequest => write_prog sock client path packet
      | _ => own (SendError sock client kIllegalOperation (bs "Illegal operation"))
      end) w (as_alone root false (fun cfg => match op_code_ packet with
        | kReadRequest => HandleReadRequest cfg sock client path (mode_ packet)
        | kWriteRequest => HandleWriteRequest cfg sock client path (mode_ packet) packet
        | _ => SendError sock client kIllegalOperation (bs "Illegal operation")
        end) w)).
    { destruct (op_code_ packet);
        try (apply safe_own; intros r w' E; do 4 eexists; split; [by apply (good_answers root false m fs (Ok None) (Ok true))|done]);
        [apply safe_read|apply safe_write]. }
    eapply pwp_mono; [exact Hd|]. intros r w' (max & t & a & v & Hg & E).
    assert (Hs : serve (F := one_path (Ok path)) (answers root false max t a v) sock client packet w =
      match r with Ok _ => os_close sock w' | Throw e => (Throw e, w') end).
    { unfold serve. cbn [answers secure_mode_ root_dir_ andb]. destruct (w_fs w). rewrite Hp.
      rewrite io_bind_eq. cbn beta in E. destruct (op_code_ packet); rewrite E; by destruct r. }
    destruct r as [[]|e].
    + apply safe_own. intros r w2 E2. eexists (one_path _), _. split; [done|]. by rewrite Hs.
    + eexists (one_path _), _. split; [done|]. by rewrite Hs.
  - assert (Hg : good (answers root true (limits m).1 (limits m).2 (Ok None) (Ok true))) by (by eapply good_answers).
    assert (Hs : serve (F := one_path (Throw UserException))
        (answers root true (limits m).1 (limits m).2 (Ok None) (Ok true)) sock client packet w =
      (SendError sock client kAccessViolation (bs "Access denied");; os_close sock) w).
    { unfold serve. cbn [answers secure_mode_ root_dir_]. destruct (w_fs w). by rewrite denied. }
    apply safe_own_bind.
    + intros [] w1 E1. apply safe_own. intros r w2 E2. eexists (one_path _), _. split; [done|].
      by rewrite Hs, (io_bind_Ok _ _ _ _ _ E1).
    + intros e w1 E1. eexists (one_path _), _. split; [done|]. by rewrite Hs, (io_bind_Throw _ _ _ _ _ E1).
Qed.

(** What a request has done when it has ended: what [HandleClient] does alone,
    with some file system and a configuration of the limits [Lim]. *)
Definition served_alone d client w (r : res unit) w' : Prop :=
  r = Ok tt /\ exists (F' : FsOps unit) cfg,
    good cfg /\ HandleClient cfg d client w = (Ok tt, w').

Lemma client_eq {F' : FsOps unit} cfg d client w packet :
  Deserialize default_packet d = (true, packet) ->
  HandleClient cfg d client w =
    catch_all (s ← client_socket client;
               match s with None => mret tt | Some sock => serve cfg sock client packet end) w.
Proof using.
  intros E. unfold HandleClient. rewrite E. cbn [negb]. unfold catch_all, client_socket.
  rewrite !io_bind_eq. destruct (os_socket w) as [[sock|e] w1]; cbn [fst snd]; [|done].
  destruct (sock <? 0); [done|]. rewrite !io_bind_eq.
  destruct (os_bind _ _ w1) as [[r|e] w2]; cbn [fst snd]; [|done]. by destruct (r <? 0).
Qed.

Lemma safe_request d client w : safe (request d client) w (served_alone d client w).
Proof using I0 I_limits I_read I_write.
  assert (Hg : good (answers [] true (limits m0).1 (limits m0).2 (Ok None) (Ok true))) by (by eapply good_answers).
  unfold request. apply pwp_catch. destruct (Deserialize default_packet d) as [[|] packet] eqn:E; cbn [negb].
  2: { apply pwp_ret; [done|]. split; [done|]. exists (one_path (Ok [])). eexists. split; [done|].
       unfold HandleClient. by rewrite E. }
  assert (Hc : forall r w', (s ← client_socket client;
      match s with None => mret tt | Some sock =>
        serve (F := one_path (Ok [])) (answers [] true (limits m0).1 (limits m0).2 (Ok None) (Ok true))
          sock client packet end) w = (r, w') -> served_alone d client w (Ok tt) w').
  { intros r w' H. split; [done|]. eexists (one_path _), _. split; [done|]. rewrite (client_eq _ _ _ _ _ E).
    unfold catch_all. rewrite H. by destruct r as [[]|]. }
  apply safe_own_bind.
  2: { intros e w' E1. apply pwp_ret; [done|]. by eapply Hc, io_bind_Throw. }
  intros [sock|] w1 E1.
  2: { apply pwp_ret; [done|]. eapply Hc. by rewrite (io_bind_Ok _ _ _ _ _ E1). }
  eapply pwp_mono; [apply safe_serve|]. intros r w' (F' & cfg & Hg' & Hs).
  assert (served_alone d client w (Ok tt) w').
  { split; [done|]. exists F', cfg. split; [done|]. rewrite (client_eq _ _ _ _ _ E). unfold catch_all.
    rewrite (io_bind_Ok _ _ _ _ _ E1), Hs. by destruct r as [[]|]. }
  destruct r as [[]|e]; [done|]. by apply pwp_ret.
Qed.
End serial.

(** ** Confinement *)

(** Computations that call no callback. *)
Definition offline {A} (c : IO unit A) : Prop := forall w path,
  path ∈ touched (w_trace (c w).2) -> path ∈ touched (w_trace w).

Lemma touched_snoc t e path :
  path ∈ touched (t ++ [e]) <-> path ∈ touched t \/ path ∈ touched [e].
Proof.
  unfold touched. rewrite reads_app, writes_app, map_app, !elem_of_app. tauto.
Qed.

Lemma offline_ret {A} (a : A) : offline (mret a).
Proof. by intros w path. Qed.
Lemma offline_lift {A} (r : res A) : offline (lift_res r).
Proof. by intros w path. Qed.
Lemma offline_bind {A B} (c : IO unit A) (f : A -> IO unit B) :
  offline c -> (forall a, offline (f a)) -> offline (c ≫= f).
Proof.
  intros Hc Hf w path. unfold mbind, io_bind. specialize (Hc w path).
  destruct (c w) as [[a|e] w']; [|done]. intros H. by apply Hc, (Hf a).
Qed.
Ltac offline_call :=
  intros w path; first [progress simpl | idtac]; rewrite ?touched_snoc; unfold touched; simpl;
  intros [H|H]; [done|by apply not_elem_of_nil in H].

Lemma offline_loop {S R} n (b : S -> IO unit (S + R)) s :
  (forall s, offline (b s)) -> offline (io_loop n b s).
Proof.
  intros Hb. revert s. induction n as [|n IH]; intros s; [simpl; offline_call|].
  apply offline_bind; [apply Hb|]. intros [s'|r]; [apply IH|apply offline_ret].
Qed.

Lemma offline_sendto s d a : offline (os_sendto s d a).
Proof. unfold os_sendto. intros w path. destruct (w_tx w); revert path; revert w; offline_call. Qed.
Lemma offline_sleep n : offline (os_sleep n).
Proof. offline_call. Qed.
Lemma offline_close n : offline (os_close n).
Proof. offline_call. Qed.
Lemma offline_os_bind n a : offline (os_bind n a).
Proof. offline_call. Qed.
Lemma offline_socket : offline os_socket.
Proof. unfold os_socket. intros w path. destruct (w_socket w); revert path; revert w; offline_call. Qed.
Lemma offline_select k s a b : offline (os_select k s a b).
Proof. unfold os_select. intros w path. destruct (w_rx w) as [|[]]; revert path; revert w; offline_call. Qed.
Lemma offline_recvfrom s n : offline (os_recvfrom s n).
Proof.
  unfold os_recvfrom. intros w path. destruct (w_rx w) as [|[]]; try done; revert path; revert w; offline_call.
Qed.

Create HintDb offline.
#[export] Hint Resolve offline_ret offline_lift offline_sendto offline_sleep offline_close
  offline_os_bind offline_socket offline_select offline_recvfrom : offline.

Ltac offline_step :=
  first
    [ solve [eauto with offline]
    | apply offline_bind; [|intros ?]
    | apply offline_loop; intros ?
    | match goal with |- offline (match ?x with _ => _ end) => destruct x end ].

Section offline.
Context `{P : Platform}.

Lemma offline_send_attempts n s a d : offline (send_attempts n s a d).
Proof using. induction n as [|n IH]; simpl; repeat offline_step. Qed.
Lemma offline_SendPacket s a p : offline (SendPacket s a p).
Proof using. unfold SendPacket. offline_step; [offline_step|apply offline_send_attempts]. Qed.
#[local] Hint Resolve offline_SendPacket : offline.
Lemma offline_SendError s a c t : offline (SendError s a c t).
Proof using.
  unfold SendError. generalize kMaxRetries. intros n. induction n as [|n IH]; simpl; repeat offline_step.
Qed.
Lemma offline_ReceivePacket s a p n : offline (ReceivePacket s a p n).
Proof using. unfold ReceivePacket. repeat offline_step. Qed.
#[local] Hint Resolve offline_SendError offline_ReceivePacket : offline.
Lemma offline_read_block n s a d x : offline (read_block n s a d x).
Proof using. unfold read_block. repeat offline_step. Qed.
Lemma offline_write_block m n e s a x : offline (write_block m n e s a x).
Proof using. unfold write_block. repeat offline_step. Qed.
Lemma offline_accept_write s a p : offline (accept_write s a p).
Proof using. unfold accept_write. repeat offline_step. Qed.
Lemma offline_client_socket a : offline (client_socket a).
Proof using. unfold client_socket. repeat offline_step. Qed.
End offline.

#[export] Hint Resolve offline_SendPacket offline_SendError offline_ReceivePacket offline_read_block
  offline_write_block offline_accept_write offline_client_socket : offline.

Section confined.
Context `{P : Platform} {FS : Type} `{F : FsOps FS} `{L : !FsLaws FS}.
Context (root : bytes) (lead : bytes -> bytes).
Hypothesis root_abs : is_absolute root = true.
Hypothesis root_sep : last root = Some sep.
Hypothesis root_nul : x00 ∉ root.
Implicit Types (w : world unit) (m : members FS) (fs : FS).

(** Where paths below the root directory lead: [lead name] is the canonical path
    of [root ++ name], with a separator at its end.  A directory that is made
    changes at most that separator; a symbolic link changes more. *)
Definition resolves fs : Prop := forall name q,
  fs_weakly_canonical fs (root ++ name) = Ok q -> with_separator q = lead name.

Record confined_inv m fs : Prop := ConfinedInv {
  ci_root : root_dir m = root;
  ci_secure : secure_mode (m_settings m) = true;
  ci_paths : resolves fs;
}.

(** In the canonical root directory, or the empty path that [NormalizePath] gives
    for what it cannot resolve and that names no file. *)
Definition below (path : bytes) : Prop :=
  path = [] \/ exists rest, with_separator path = lead [] ++ rest.
Definition all_below w : Prop := forall path, path ∈ touched (w_trace w) -> below path.

Let stays {A} (p : prog FS A) w Q := pwp confined_inv resolves all_below True p w Q.

Lemma stays_callback {A} (c : callback FS A) (K : res A -> Prop) :
  (forall r, K r) -> cwp confined_inv resolves True c K.
Proof using.
  intros HK. induction c as [r|B f k IH|u c IH]; simpl in *; [auto| |done].
  intros m fs [? ? ?] Hj. split; [by constructor|auto].
Qed.

Lemma stays_own {A} (c : IO unit A) w (Q : res A -> world unit -> Prop) :
  offline c -> all_below w -> (forall r w', all_below w' -> Q r w') -> stays (own c) w Q.
Proof using.
  intros Hc Hw HQ. assert (all_below (c w).2) by (intros path Hp; by apply Hw, Hc).
  apply pwp_own; auto.
Qed.

Lemma stays_note e w (Q : res unit -> world unit -> Prop) :
  (forall path, path ∈ touched [e] -> below path) -> all_below w ->
  (forall w', all_below w' -> Q (Ok tt) w') -> stays (own (note e)) w Q.
Proof using.
  intros He Hw HQ. assert (all_below (note e w).2).
  { intros path [Hp|Hp]%touched_snoc; auto. }
  apply pwp_own; [done..|]. by apply HQ.
Qed.

(** A query in a file system where paths lead where [lead] says. *)
Lemma stays_query {A B} (q : FS -> res A) (f : A -> prog FS B) w (Q : res B -> world unit -> Prop) :
  all_below w -> (forall e, Q (Throw e) w) ->
  (forall fs a, resolves fs -> q fs = Ok a -> stays (f a) w Q) ->
  stays (query q ≫= f) w Q.
Proof using.
  intros Hw He Hf. apply pwp_bind, pwp_query; [done|]. intros m fs [_ _ Hp].
  destruct (q fs) as [a|e] eqn:E; [by eapply Hf|done].
Qed.

Lemma with_separator_extends s : exists t, with_separator s = s ++ t.
Proof using.
  unfold with_separator. destruct (last s) as [b|]; [|exists []; by rewrite app_nil_r].
  destruct (bool_decide _); [exists []; by rewrite app_nil_r|by eexists].
Qed.

(** What an answer of the path check says of where the name leads. *)
Definition checked (path : bytes) w (r : res bool) w' : Prop :=
  w' = w /\ (r = Ok true -> exists rest, lead path = lead [] ++ rest).

Lemma stays_secure path w :
  all_below w -> stays (secure_prog path root) w (fun r w' => (exists b, r = Ok b) /\ checked path w r w').
Proof using L root_abs root_sep.
  intros Hw. unfold stays, secure_prog. apply pwp_catch.
  eapply (pwp_mono _ _ _ _ _ _ (checked path w)).
  2: { intros [b|e] w' [-> H]; [split; [eauto|by split]|]. apply pwp_ret; [done|]. split; [eauto|by split]. }
  unfold path_check_prog. destruct (bool_decide (path = []) || _); [by apply pwp_ret|].
  destruct (contains_char x00 path); [by apply pwp_ret|].
  destruct (is_absolute path) eqn:Ea; [by apply pwp_ret|]. destruct (existsb _ _); [by apply pwp_ret|].
  apply stays_query; [done|done|]. intros fs rp _ Hrp. rewrite absolute_id in Hrp by done.
  injection Hrp as <-. rewrite path_append_slash by done.
  apply stays_query; [done|done|]. intros fs1 cr H1 Hcr.
  apply stays_query; [done|done|]. intros fs2 ct H2 Hct.
  destruct (negb _) eqn:Ew; [by apply pwp_ret|].
  apply stays_query; [done|done|]. intros fs3 rel _ _. apply pwp_ret; [done|]. split; [done|]. intros _.
  rewrite <- (app_nil_r root) in Hcr. apply H1 in Hcr as <-. apply H2 in Hct as <-.
  apply negb_false_iff, andb_true_iff in Ew as [_ Ew%bool_decide_eq_true_1].
  destruct (with_separator_extends ct) as [t ->]. rewrite <- (take_drop (length (with_separator cr)) ct), Ew.
  rewrite <- app_assoc. by eexists.
Qed.

Lemma stays_normalize path w :
  all_below w -> (exists rest, lead path = lead [] ++ rest) ->
  stays (normalize_prog (root ++ path)) w (fun r w' => w' = w /\ exists p, r = Ok p /\ below p).
Proof using root_abs.
  intros Hw Hl. unfold stays, normalize_prog.
  rewrite bool_decide_eq_false_2 by (intros [E _]%app_eq_nil; by rewrite E in root_abs).
  assert (Hnil : below []) by (by left).
  destruct (contains_char x00 (root ++ path)); [apply pwp_ret; eauto|].
  apply pwp_catch, pwp_query; [done|]. intros m fs [_ _ H].
  destruct (fs_weakly_canonical fs (root ++ path)) as [q|e] eqn:E; [|apply pwp_ret; eauto].
  split; [done|]. exists q. split; [done|]. right. by rewrite (H _ _ E).
Qed.

Lemma stays_bind_own {A B} (c : IO unit A) (f : A -> prog FS B) w :
  offline c -> all_below w -> (forall a w', all_below w' -> stays (f a) w' (fun _ w' => all_below w')) ->
  stays (own c ≫= f) w (fun _ w' => all_below w').
Proof using. intros Hc Hw Hf. apply pwp_bind, stays_own; [done|done|]. by intros [a|e] w'; [apply Hf|]. Qed.

Lemma stays_last {A} (c : IO unit A) w :
  offline c -> all_below w -> stays (own c) w (fun _ w' => all_below w').
Proof using. intros Hc Hw. by apply stays_own. Qed.

Lemma stays_read sock client path w :
  below path -> all_below w -> stays (read_prog sock client path) w (fun _ w' => all_below w').
Proof using.
  intros Hp Hw. unfold read_prog. apply pwp_bind, stays_note; [|done|].
  { intros q Hq. by apply list_elem_of_singleton in Hq as ->. }
  intros w1 H1. apply pwp_bind, pwp_call; [done|]. intros m fs Hi.
  apply stays_callback. intros [[data|]|e] m' fs' Hi'; [| |done].
  - destruct (limits m') as [max t]. destruct (max <? zlen data); [apply stays_last; auto with offline|].
    apply stays_bind_own; [|done|].
    + apply offline_loop. auto with offline.
    + intros _ w2 H2. by apply pwp_ret.
  - destruct (limits m') as [max t]. apply stays_last; auto with offline.
Qed.

Lemma stays_write sock client path packet w :
  below path -> all_below w -> stays (write_prog sock client path packet) w (fun _ w' => all_below w').
Proof using.
  intros Hp Hw. unfold write_prog, store_prog. apply pwp_bind, pwp_conf; [done|]. intros m fs _.
  destruct (limits m) as [max t]. apply stays_bind_own; [auto with offline|done|].
  intros [|] w1 H1; cbn [negb]; [|by apply pwp_ret].
  apply stays_bind_own; [apply offline_loop; auto with offline|done|].
  intros [?|[data|]] w2 H2; [by apply pwp_ret| |by apply pwp_ret].
  apply pwp_bind, stays_note; [|done|].
  { intros q Hq. by apply list_elem_of_singleton in Hq as ->. }
  intros w3 H3. apply pwp_bind, pwp_call; [done|]. intros m1 fs1 Hi.
  apply stays_callback. intros [[|]|e] m' fs' Hi'; cbn [negb]; [by apply pwp_ret| |done].
  apply stays_last; auto with offline.
Qed.

Lemma stays_serve sock client packet w :
  all_below w -> stays (serve_prog sock client packet) w (fun _ w' => all_below w').
Proof using L root_abs root_sep root_nul.
  intros Hw. unfold serve_prog. apply pwp_bind, pwp_conf; [done|]. intros m fs [-> -> _].
  apply pwp_bind. eapply pwp_mono; [by apply stays_secure|]. intros r w' ([b ->] & -> & Hlead).
  destruct b; cbn [negb].
  - apply pwp_bind. eapply pwp_mono; [by apply stays_normalize; [|apply Hlead]|].
    intros r w' (-> & path & -> & Hb). apply pwp_bind. eapply (pwp_mono _ _ _ _ _ _ (fun _ w' => all_below w')).
    + destruct (op_code_ packet); try (apply stays_last; auto with offline; fail);
        [by apply stays_read|by apply stays_write].
    + intros [[]|e] w' H; [apply stays_last; auto with offline|done].
  - apply stays_bind_own; [auto with offline|done|]. intros _ w1 H1. apply stays_last; auto with offline.
Qed.

Lemma stays_request d client w :
  all_below w -> stays (request d client) w (fun _ _ => True).
Proof using L root_abs root_sep root_nul.
  intros Hw. unfold request. apply pwp_catch.
  eapply (pwp_mono _ _ _ _ _ _ (fun _ w' => all_below w')).
  2: { intros [[]|e] w' Hw'; [done|]. by apply pwp_ret. }
  destruct (Deserialize default_packet d) as [[|] packet]; [|by apply pwp_ret]. cbn [negb].
  apply pwp_bind, stays_own; [auto with offline|done|]. intros [[sock|]|e] w1 H1; [|by apply pwp_ret|done].
  apply stays_serve. done.
Qed.
End confined.

Section theorem.
Context `{P : Platform} {FS : Type} `{F : FsOps FS} `{L : !FsLaws FS}.
Implicit Types (fs : FS) (s : requests_state FS).

(** A request begins as [HandleClient] does, with nothing in its trace. *)
Definition begins (t : thread FS) : Prop :=
  exists d client w, t = (request d client, w) /\ w_trace w = [].

(** A setter that does not switch secure mode off. *)
Definition stays_secure_mode (u : setter FS) : Prop :=
  match u with SetSecure b => b = true | _ => True end.

Definition stays_confined (h : happening FS) : Prop :=
  match h with
  | Turn _ | Leave _ => True
  | Begin _ t => begins t
  | Setter u => stays_secure_mode u
  | Outside f => True
  end.

(** The requests of a server for [root] whose paths lead where [lead] says. *)
Definition confined root lead s : Prop :=
  requests_inv (confined_inv root lead) (resolves root lead) (all_below lead) True (fun _ _ => True) s.

Lemma confined_step root lead h s s' :
  is_absolute root = true -> last root = Some sep -> (x00 ∉ root) ->
  confined root lead s -> stays_confined h -> happens h s = Some s' -> resolves root lead (files s') ->
  confined root lead s'.
Proof using L.
  intros Habs Hsep Hnul Hs Hh E Hj. eapply requests_step; [exact Hs| |exact E|exact Hj].
  destruct h as [j|j t|j|u|f]; simpl in *; try done.
  - destruct Hh as (d & client & w0 & -> & Ht). apply stays_request; [done..|].
    intros q Hq. rewrite Ht in Hq. by apply not_elem_of_nil in Hq.
  - intros m fs [H1 H2 H3]. destruct u as [b|n|n|[cb|]|[cb|]]; simpl in *; try (by constructor).
    + destruct (ValidateTransferSize n); by constructor.
    + destruct (ValidateTimeout n); by constructor.
  - intros m fs [H1 H2 H3] Hj'. by constructor.
Qed.

(** The paths of a request that is under way, or has just returned. *)
Lemma confined_paths root lead s i p w :
  confined root lead s -> handlers s !! i = Some (p, w) -> all_below lead w.
Proof using. intros [_ Ht] Hi. specialize (Ht _ _ Hi). simpl in Ht. by apply pwp_G in Ht. Qed.

(** What the constructor stores for an absolute root directory that does not end
    in a backslash. *)
Lemma stored_root_parts root :
  ValidateRootDirectory root = true -> is_absolute root = true -> last root <> Some x5c ->
  is_absolute (stored_root root) = true /\ last (stored_root root) = Some sep /\ (x00 ∉ stored_root root).
Proof using.
  intros [Hne Hnul]%ValidateRootDirectory_parts Habs Hb.
  destruct (stored_root_cases root Hne Hb) as [Hlast Hst]. split_and!; [|done|].
  - destruct Hst as [-> | ->]; [done|by destruct root].
  - destruct Hst as [-> | ->]; [done|]. rewrite elem_of_app. intros [?|Hin]; [done|].
    by apply list_elem_of_singleton in Hin.
Qed.
End theorem.

