(* ===== verification/Races.v ===== *)
(** * What goes wrong when requests run at the same time

    [config_mutex_] is taken shared around a callback.  So a setter called from
    a callback waits for ever, two callbacks may run at the same time on the
    same file, and nothing keeps the file system still between the check of a
    path and its use. *)

From Stdlib Require Import ZArith Lia Strings.Byte.
From stdpp Require Import base tactics numbers list gmap strings.
From S2P Require Import Prelude Common Packet StdText StdPath Util Validation Files Net Transfer IOFacts Protocol TransferFacts ReadFacts WriteFacts ClientFacts Server ServerFacts Concurrent Alone Interference RequestFacts.

(** ** A setter called from a callback *)

Section deadlock.
Context {FS : Type}.
Implicit Types s : requests_state FS.

Lemma stuck_step {B C} i (u : settings -> settings) (c : callback FS B) (after : members FS -> C) k w h s s' :
  handlers s !! i = Some (Inside (CSet u c) after k, w) -> happens h s = Some s' ->
  handlers s' !! i = Some (Inside (CSet u c) after k, w).
Proof using.
  intros Hi Hs. pose proof (holder_not_free s i _ Hi eq_refl) as Hf.
  destruct h as [j|j t|j|v|f]; simpl in Hs.
  - destruct (decide (j = i)) as [->|Hne].
    + rewrite Hi in Hs. simpl in Hs. by rewrite Hf in Hs.
    + destruct (handlers s !! j); [|done]. destruct (thread_step _ _ _ _) as [[[??]?]|]; [|done].
      injection Hs as <-. simpl. by rewrite lookup_insert_ne.
  - destruct (handlers s !! j) eqn:Ej; [done|]. injection Hs as <-. simpl.
    rewrite lookup_insert_ne; [done|congruence].
  - destruct (handlers s !! j) as [[[] ?]|] eqn:Ej; try done. injection Hs as <-. simpl.
    rewrite lookup_delete_ne; [done|congruence].
  - by rewrite Hf in Hs.
  - by injection Hs as <-.
Qed.

(** Thread [i] is inside a callback that calls a setter. *)
Definition calls_setter (i : nat) s : bool :=
  match handlers s !! i with Some (Inside (CSet _ _) _ _, _) => true | _ => false end.

(** C21: a callback that calls a setter of its server is stuck: its thread holds
    [config_mutex_] shared and waits to hold it alone.  Whatever happens
    afterwards, the thread never moves again, its worker never returns, and no
    setter called by anyone gets through. *)
Theorem setter_in_callback_deadlocks i s s' :
  calls_setter i s = true -> runs_to (fun _ => True) s s' ->
  handlers s' !! i = handlers s !! i /\
  happens (Turn i) s' = None /\ happens (Leave i) s' = None /\
  forall v, happens (Setter v) s' = None.
Proof using.
  unfold calls_setter. destruct (handlers s !! i) as [[[| | | | |B C [|?|u c] after k] w]|] eqn:Hi; try done.
  intros _ Hs. assert (Hi' : handlers s' !! i = Some (Inside (CSet u c) after k, w)).
  { induction Hs as [|h s1 s2 _ IH _ Hh]; [done|]. by eapply stuck_step. }
  split; [done|]. pose proof (holder_not_free s' i _ Hi' eq_refl) as Hf.
  simpl. rewrite Hi'. simpl. by rewrite Hf.
Qed.
End deadlock.

(** ** A download during an upload *)

#[local] Existing Instance platform_le.

(** Only requests that begin and run. *)
Definition requests_only {FS} `{FsOps FS} (h : happening FS) : Prop :=
  match h with Turn _ => True | Begin _ t => begins t | _ => False end.

Definition race_path : bytes := bs "/srv/tftp/f".
Definition race_start : requests_state mem_fs :=
  Requests (new_members (bs "/srv/tftp")) (mem_set mem_empty race_path (bs "old")) ∅.

(** The worlds of the two clients: both do what the protocol asks for. *)
Definition race_up : world unit := World [7] (fun _ => true) [] (upload_stream sample_client (bs "new")) tt [].
Definition race_down : world unit := World [8] (fun _ => true) [] (ack_stream sample_client []) tt [].

Definition race : list (happening mem_fs) :=
  [Begin 1 (request (wrq_bytes (bs "f")) sample_client, race_up)] ++
  replicate 14 (Turn 1) ++
  [Begin 2 (request (rrq_bytes (bs "f")) sample_client, race_down)] ++
  replicate 15 (Turn 2) ++ replicate 5 (Turn 1).

Ltac all_happen :=
  repeat (apply Forall_app_2 || apply Forall_cons_2 || apply Forall_nil_2 || apply Forall_replicate);
  try done; by do 3 eexists.

(** C22: a download that runs while the same file is uploaded can give a file that the
    server never held: the upload has truncated the file, the download reads it
    and is complete and acknowledged, and then the upload writes its data.  Both
    requests succeed; the downloaded file is neither the old nor the new one. *)
Theorem download_during_upload :
  exists s w1 w2, runs_to requests_only race_start s /\
    handlers s !! 1%nat = Some (Ret (Ok tt), w1) /\ handlers s !! 2%nat = Some (Ret (Ok tt), w2) /\
    mem_files (files race_start) !! race_path = Some (bs "old") /\
    mem_files (files s) !! race_path = Some (bs "new") /\
    touched (w_trace w1) = [race_path] /\ touched (w_trace w2) = [race_path] /\
    receive_file (map snd (sent (w_trace w2))) 1 = Some [].
Proof.
  exists (after race race_start), (world_of 1 (after race race_start)), (world_of 2 (after race race_start)).
  split.
  { apply after_runs; [all_happen|vm_compute; reflexivity]. }
  split_and!; vm_compute; reflexivity.
Qed.

(** ** A link made between the check and the use *)

(** A file system in which [/srv/tftp/link] is a directory or, once it was
    replaced, a symbolic link to [/etc]. *)
Definition link_dir : bytes := bs "/srv/tftp/link/".

#[local] Instance link_fs : FsOps bool := {
  fs_absolute _ p := Ok (if is_absolute p then p else path_append (bs "/work") p);
  fs_weakly_canonical linked p :=
    Ok (if linked && starts_with link_dir p then bs "/etc/" ++ drop (length link_dir) p
        else lexically_normal p);
  fs_relative _ p base := Ok (drop (length (with_separator base)) p);
}.

Definition link_members : members bool :=
  Members (bs "/srv/tftp/") (Settings true 1048576 5) (fun _ => CRet (Ok None)) (fun _ _ => CRet (Ok true)).
Definition link_start : requests_state bool := Requests link_members false ∅.
Definition link_world : world unit := World [7] (fun _ => true) [] [] tt [].

(** Requests, and the link made by another process. *)
Definition with_link (h : happening bool) : Prop :=
  match h with Outside f => f = (fun _ => true) | _ => requests_only h end.

Definition link_race : list (happening bool) :=
  [Begin 1 (request (rrq_bytes (bs "link/passwd")) sample_client, link_world)] ++
  replicate 6 (Turn 1) ++ [Outside (fun _ => true)] ++ replicate 2 (Turn 1).

(** C23: the path check and the opening of the file are two looks at the file system:
    when a directory is replaced by a symbolic link in between, a request that
    passes the check in secure mode hands the callback a path outside the root
    directory. *)
Theorem check_use_race :
  exists s w, runs_to with_link link_start s /\ (exists p, handlers s !! 1%nat = Some (p, w)) /\
    IsPathSecure (files link_start) (bs "link/passwd") (root_dir (shared s)) = true /\
    IsPathSecure (files s) (bs "link/passwd") (root_dir (shared s)) = false /\
    secure_mode (m_settings (shared s)) = true /\ touched (w_trace w) = [bs "/etc/passwd"].
Proof.
  exists (after link_race link_start), (world_of 1 (after link_race link_start)).
  split.
  { apply after_runs; [all_happen|vm_compute; reflexivity]. }
  split; [apply world_of_thread; vm_compute; reflexivity|]. split_and!; vm_compute; reflexivity.
Qed.

(** ** Witness *)

(** A read callback that gives later requests more time. *)
Definition patient_members : members unit :=
  Members (bs "/srv/tftp/") (Settings true 1048576 5)
    (fun _ => CSet (fun s => Settings (secure_mode s) (max_transfer_size s) 10) (CRet (Ok None)))
    (fun _ _ => CRet (Ok true)).
Definition patient : requests_state unit :=
  after ([Begin 1 (request (rrq_bytes (bs "f")) sample_client, link_world)] ++ replicate 9 (Turn 1))
    (Requests patient_members tt ∅).

Lemma setter_in_callback_deadlocks_witness :
  handlers patient !! 1%nat = handlers patient !! 1%nat /\
  happens (Turn 1) patient = None /\ happens (Leave 1) patient = None /\
  forall v, happens (Setter v) patient = None.
Proof.
  apply (setter_in_callback_deadlocks 1 patient patient); [vm_compute; reflexivity|apply runs_here].
Defined.
