(* ===== verification/Whole.v ===== *)
(** * The whole server

    The threads of [System] and the requests of [Concurrent] together: when a
    worker starts a task, the request of its datagram begins on it; the worker
    goes on when the request has returned.  Setters and other processes act at
    any time.  The system part of every state is one [System] can reach, so what
    is shown there holds here; and the requests are those of [RequestFacts]. *)

From Stdlib Require Import ZArith Lia Strings.Byte.
From stdpp Require Import base tactics numbers list gmap strings.
From S2P Require Import Prelude Common Packet StdText StdPath Util Validation Files ThreadPool ThreadPoolFacts Net Transfer IOFacts TransferFacts Termination ClientFacts Server System SystemFacts Concurrent Alone Interference RequestFacts.

(** ** The state and its moves *)

Record whole (FS : Type) := Whole {
  threads : system FS;
  requests_of : requests_state FS;
  done_log : list (task * world unit);   (* the requests that have returned *)
}.
Arguments Whole {FS}.
Arguments threads {FS}.
Arguments requests_of {FS}.
Arguments done_log {FS}.

Inductive whole_turn (FS : Type) :=
  | OfSystem (u : sys_turn) (w : world unit)   (* [w]: the network of a request that begins *)
  | OfRequest (i : nat)
  | OfUser (u : setter FS)
  | OfOthers (f : FS -> FS).
Arguments OfSystem {FS}.
Arguments OfRequest {FS}.
Arguments OfUser {FS}.
Arguments OfOthers {FS}.

Section whole.
Context `{P : Platform} {FS : Type} `{F : FsOps FS}.
Implicit Types (s : whole FS) (p : pool task) (y : system FS).

Definition fresh_world (w : world unit) : world unit :=
  World (w_socket w) (w_bind w) (w_tx w) (w_rx w) tt [].

Definition worker_at (i : nat) (y : system FS) : option (wpc task) :=
  match thread_pool_ (impl y) with Some p => workers_ p !! i | None => None end.

(** What a step of worker [i] means for the requests. *)
Definition worker_request (i : nat) (w : world unit) (y : system FS) s : option (whole FS) :=
  match worker_at i (threads s) with
  | Some (WRun (packet_data, client_addr)) =>
      option_map (fun r => Whole y r (done_log s))
        (happens (Begin i (request packet_data client_addr, fresh_world w)) (requests_of s))
  | Some (WRunning t) =>
      match handlers (requests_of s) !! i with
      | Some (Ret _, w') =>
          option_map (fun r => Whole y r (done_log s ++ [(t, w')])) (happens (Leave i) (requests_of s))
      | _ => None
      end
  | _ => Some (Whole y (requests_of s) (done_log s))
  end.

Definition whole_move (u : whole_turn FS) s : option (whole FS) :=
  match u with
  | OfSystem v w =>
      match sys_move v (threads s) with
      | Some y =>
          match v with
          | SWorker i => worker_request i w y s
          | _ => Some (Whole y (requests_of s) (done_log s))
          end
      | None => None
      end
  | OfRequest i =>
      option_map (fun r => Whole (threads s) r (done_log s)) (happens (Turn i) (requests_of s))
  | OfUser v =>
      option_map (fun r => Whole (threads s) r (done_log s)) (happens (Setter v) (requests_of s))
  | OfOthers f =>
      option_map (fun r => Whole (threads s) r (done_log s)) (happens (Outside f) (requests_of s))
  end.

Inductive whole_reachable (ok : setter FS -> Prop) s0 : whole FS -> Prop :=
  | whole_init : whole_reachable ok s0 s0
  | whole_step u s s' :
      whole_reachable ok s0 s -> match u with OfUser v => ok v | _ => True end ->
      whole_move u s = Some s' -> whole_reachable ok s0 s'.

(** ** Which workers are inside a request *)

Definition same_runs p p' : Prop :=
  finished p' = finished p /\
  forall i t, workers_ p' !! i = Some (WRunning t) <-> workers_ p !! i = Some (WRunning t).

Lemma same_runs_refl p : same_runs p p.
Proof using. done. Qed.

(** Replacing a program counter that is not inside a request by another one. *)
Lemma same_runs_set p q i w w' :
  workers_ p !! i = Some w -> workers_ q = <[i := w']> (workers_ p) -> finished q = finished p ->
  (forall t, w <> WRunning t) -> (forall t, w' <> WRunning t) -> same_runs p q.
Proof using.
  intros Hw Hq Hf H1 H2. split; [done|]. intros j t. rewrite Hq.
  destruct (decide (j = i)) as [->|Hne]; [|by rewrite list_lookup_insert_ne].
  rewrite list_lookup_insert_eq by (by eapply lookup_lt_Some). rewrite Hw.
  split; intros [= E]; [by destruct (H2 t)|by destruct (H1 t)].
Qed.

Lemma worker_runs i p p' :
  WorkerThread i p = Some p' ->
  match workers_ p !! i with
  | Some (WRun t) => finished p' = finished p /\ workers_ p' = <[i := WRunning t]> (workers_ p)
  | Some (WRunning t) => finished p' = finished p ++ [t] /\ workers_ p' = <[i := WEnded t]> (workers_ p)
  | _ => same_runs p p'
  end.
Proof using.
  unfold WorkerThread. destruct (workers_ p !! i) as [w|] eqn:Hw; [|done].
  destruct w; try done; try (by intros [= <-]).
  - intros [= <-]. by eapply same_runs_set; [done..|destruct (stopping_ p)].
  - intros [_ ->]%with_lock_Some. by eapply same_runs_set.
  - intros [= <-]. by eapply same_runs_set; [done..|destruct (_ || _)].
  - intros [= <-]. by eapply same_runs_set.
  - intros [_ ->]%with_lock_Some. by eapply same_runs_set.
  - destruct (tasks_ p); intros [= <-]; eapply same_runs_set; try done. by destruct (stopping_ p).
  - intros [= <-]. by eapply same_runs_set.
Qed.

Lemma spurious_runs i p p' : spurious_wake i p = Some p' -> same_runs p p'.
Proof using. intros [Hw ->]%spurious_wake_Some. by eapply same_runs_set. Qed.

Lemma submit_runs t j p p' : Submit t j p = Some p' -> same_runs p p'.
Proof using.
  unfold Submit. destruct (submitter p) as [|u|u|].
  - intros [= <-]. by destruct (stopping_ p).
  - by intros [_ ->]%with_lock_Some.
  - intros [= <-]. by destruct (stopping_ p).
  - destruct (notify_one j p) as [q|] eqn:E; [|done]. intros [= <-].
    apply notify_one_Some in E as [[_ ->]|[Hw ->]]; [done|]. by eapply same_runs_set.
Qed.

Lemma shutdown_runs p p' : Shutdown p = Some p' -> same_runs p p'.
Proof using.
  unfold Shutdown. destruct (shutdown p) as [| |k| | |]; try done; try (by intros [= <-]).
  - intros [= <-]. split; [done|]. intros i t. simpl. rewrite list_lookup_fmap.
    unfold wake. destruct (workers_ p !! i) as [[]|]; simpl; split; intros E; by simplify_eq.
  - destruct (workers_ p !! k) as [[]|]; try done; by intros [= <-].
  - by intros [_ ->]%with_lock_Some.
Qed.

(** ** Moves of the system *)

Lemma pool_move_current f y y' p :
  current_pool y = Some p -> pool_move f y = Some y' ->
  exists p', thread_pool_ (impl y) = Some p /\ f p = Some p' /\
    y' = set_impl (set_pool (Some p') (impl y)) y.
Proof using.
  unfold current_pool, pool_move. destruct (thread_pool_ (impl y)) as [q|]; [|done].
  intros [= ->]. destruct (f p) as [p'|]; [|done]. intros [= <-]. eauto.
Qed.

Lemma same_current y y' p :
  current_pool y = Some p -> thread_pool_ (impl y') = thread_pool_ (impl y) -> retired y' = retired y ->
  exists p', current_pool y' = Some p' /\ same_runs p p'.
Proof using. intros H H1 H2. exists p. unfold current_pool in *. by rewrite H1, H2. Qed.

Lemma loop_runs j y y' p :
  current_pool y = Some p -> ServerLoop j y = Some y' ->
  exists p', current_pool y' = Some p' /\ same_runs p p'.
Proof using.
  intros Hp H. unfold ServerLoop in H.
  assert (Hsub : forall t, option_map after_submit (pool_move (Submit t j) y) = Some y' ->
    exists p', current_pool y' = Some p' /\ same_runs p p').
  { intros t Ht. destruct (pool_move (Submit t j) y) as [y1|] eqn:E; [|done]. injection Ht as <-.
    destruct (pool_move_current _ _ _ _ Hp E) as (p' & _ & Hs & ->). exists p'.
    split; [done|by eapply submit_runs]. }
  destruct (loop y) as [| |fd|t|t|t| | |]; try done.
  - injection H as <-. by eapply same_current.
  - injection H as <-. by eapply same_current.
  - unfold take_mutex in H. destruct (thread_pool_mutex_ y); [done|]. injection H as <-.
    by eapply same_current.
  - injection H as <-. eapply same_current; [done|..];
      destruct (thread_pool_ (impl y)) as [q|] eqn:Eq; simpl; try done; by destruct (IsShuttingDown q).
  - by apply (Hsub t).
  - by apply (Hsub ([], zero_addr)).
  - injection H as <-. by eapply same_current.
Qed.

Lemma stop_runs y y' p :
  current_pool y = Some p -> (stopper y = KReset -> thread_pool_ (impl y) = Some p) ->
  Stop y = Some y' -> exists p', current_pool y' = Some p' /\ same_runs p p'.
Proof using.
  intros Hp Hreset H. unfold Stop in H. destruct (stopper y); try done.
  - injection H as <-. by eapply same_current; [done|..]; destruct (running_ (impl y)).
  - unfold take_mutex in H. destruct (thread_pool_mutex_ y); [done|]. injection H as <-.
    by eapply same_current.
  - injection H as <-. by eapply same_current; [done|..]; destruct (thread_pool_ (impl y)) eqn:?.
  - destruct (pool_move Shutdown y) as [y1|] eqn:E; [|done]. injection H as <-.
    destruct (pool_move_current _ _ _ _ Hp E) as (p' & _ & Hs & ->). exists p'.
    split; [|by eapply shutdown_runs]. unfold after_shutdown. simpl. by destruct (bool_decide _).
  - injection H as <-. exists p. split; [|done]. unfold current_pool in *. simpl.
    exact (Hreset eq_refl).
  - injection H as <-. by eapply same_current; [done|..]; destruct (0 <=? _).
  - destruct (server_thread_ (impl y)); [destruct (loop y); try done|]; injection H as <-; by eapply same_current.
Qed.
End whole.

(** ** The invariant *)

Section invariant.
Context `{P : Platform} {FS : Type} `{F : FsOps FS}.
Context (v0 : TftpServerImpl FS) (h n : Z) (Hstart : started_impl v0 h n).
(** Whether callbacks answer without throwing, and whether they may call setters. *)
Context (total D : Prop).
Implicit Types (s : whole FS) (p : pool task) (m : members FS).

Fixpoint cb_fine {A} (c : callback FS A) : Prop :=
  match c with
  | CRet r => total -> forall e, r <> Throw e
  | CFs _ k => forall b, cb_fine (k b)
  | CSet _ _ => D
  end.

Definition valid_limits (max timeout : Z) : Prop :=
  kMinTransferSize <= max <= kMaxTransferSize /\ kMinTimeout <= timeout <= kMaxTimeout.

Definition members_ok m : Prop :=
  valid_limits (limits m).1 (limits m).2 /\
  (forall path, cb_fine (m_read m path)) /\ (forall path data, cb_fine (m_write m path data)).

Definition setter_ok (u : setter FS) : Prop :=
  match u with
  | SetRead (Some cb) => forall path, cb_fine (cb path)
  | SetWrite (Some cb) => forall path data, cb_fine (cb path data)
  | _ => True
  end.

Lemma set_members_ok u m : setter_ok u -> members_ok m -> members_ok (set_members u m).
Proof using.
  intros Hu ((Hm & Ht) & Hr & Hw). destruct u as [b|k|k|[cb|]|[cb|]]; simpl; try done.
  - destruct (ValidateTransferSize k) eqn:E; [|done]. by apply ValidateTransferSize_range in E.
  - destruct (ValidateTimeout k) eqn:E; [|done]. by apply ValidateTimeout_range in E.
Qed.

Let I m (_ : FS) : Prop := members_ok m.

Lemma fine_cwp {A} (c : callback FS A) :
  cb_fine c -> cwp I (fun _ => True) D c (fun r => total -> forall e, r <> Throw e).
Proof using. intros H. induction c as [r|B f k IH|u c IH]; simpl in *; auto. Qed.

(** What the log says of a request that has returned: it is a run of
    [HandleClient] alone with some network, some answers of the file system and
    some members with valid limits.  So it has what all such runs have: it
    closes its sockets, its loops end, and its calls are bounded.  Which paths it
    uses is the subject of [requests_confined]. *)
Definition request_done (t : task) (w : world unit) : Prop :=
  exists w0 (F' : FsOps unit) cfg, w_trace w0 = [] /\
    HandleClient cfg t.1 t.2 w0 = (Ok tt, w) /\
    valid_limits (max_transfer_size_ cfg) (timeout_seconds_ cfg) /\ (total -> total_callbacks cfg).

Definition runs_request (t : task) (th : thread FS) : Prop :=
  pwp I (fun _ => True) (fun _ => True) D th.1 th.2 (fun r w => r = Ok tt /\ request_done t w).

Lemma request_runs m fs d client w :
  members_ok m -> I m fs -> w_trace w = [] -> runs_request (d, client) (request d client, w).
Proof using.
  intros Hm Hi Hw. eapply pwp_mono.
  - apply (safe_request I m fs valid_limits total D Hi); [by intros m' fs' []| |];
      intros m' fs' *; intros (_ & Hr & Hwr); by apply fine_cwp.
  - intros r w' (-> & F' & cfg & [Hl Ht] & E). split; [done|]. by exists w, F', cfg.
Qed.

Record whole_inv s p : Prop := WholeInv {
  wi_system : sys_reachable (started_system v0) (threads s);
  wi_pool : current_pool (threads s) = Some p;
  wi_shared : members_ok (shared (requests_of s));
  wi_log : map fst (done_log s) = finished p;
  wi_done : Forall (fun e => request_done e.1 e.2) (done_log s);
  wi_handlers : forall i th, handlers (requests_of s) !! i = Some th ->
    exists t, workers_ p !! i = Some (WRunning t) /\ runs_request t th;
  wi_workers : forall i t, workers_ p !! i = Some (WRunning t) -> is_Some (handlers (requests_of s) !! i);
}.

Lemma whole_inv_init m fs :
  members_ok m -> whole_inv (Whole (started_system v0) (Requests m fs ∅) []) (TftpThreadPool h n).
Proof using Hstart.
  intros Hm. destruct Hstart as (_ & _ & _ & Hp). constructor; try done; simpl.
  - constructor.
  - unfold current_pool. simpl. by rewrite Hp.
  - intros i t [Ht _]%lookup_replicate. done.
Qed.

Lemma whole_inv_system s p y :
  whole_inv s p -> sys_reachable (started_system v0) y ->
  (exists p', current_pool y = Some p' /\ same_runs p p') ->
  exists p', whole_inv (Whole y (requests_of s) (done_log s)) p'.
Proof using.
  intros [] Hy (p' & Hp' & Hf & Hr). exists p'. constructor; try done; simpl.
  - by rewrite Hf.
  - intros i th (t & Ht & H)%wi_handlers0. exists t. by rewrite Hr.
  - intros i t Ht%Hr. by eapply wi_workers0.
Qed.

Lemma whole_inv_worker s p i w y s' :
  whole_inv s p -> sys_move (SWorker i) (threads s) = Some y -> worker_request i w y s = Some s' ->
  exists p', whole_inv s' p'.
Proof using.
  intros Hinv Hy Hs. pose proof Hinv as [].
  assert (Hreach : sys_reachable (started_system v0) y) by (by eapply sys_reach_step).
  simpl in Hy. destruct (pool_move_current _ _ _ _ wi_pool0 Hy) as (p' & Hp & Hw & ->).
  unfold worker_request, worker_at in Hs. rewrite Hp in Hs. apply worker_runs in Hw.
  assert (Hother : same_runs p p' -> s' = Whole (set_impl (set_pool (Some p') (impl (threads s))) (threads s))
      (requests_of s) (done_log s) -> exists p', whole_inv s' p').
  { intros H ->. apply (whole_inv_system s p); [done..|]. by exists p'. }
  destruct (workers_ p !! i) as [[]|] eqn:Ei; try (apply Hother; [done|congruence]).
  - destruct t as [d client]. destruct Hw as [Hf Hws]. simpl in Hs.
    destruct (handlers (requests_of s) !! i) eqn:Eh; [done|]. injection Hs as <-.
    exists p'. constructor; try done; simpl; [by rewrite Hf|..].
    + intros j th. destruct (decide (j = i)) as [->|Hne].
      * rewrite lookup_insert_eq. intros [= <-]. exists (d, client). rewrite Hws.
        rewrite list_lookup_insert_eq by (by eapply lookup_lt_Some). split; [done|].
        by apply (request_runs (shared (requests_of s)) (files (requests_of s))).
      * rewrite lookup_insert_ne by done. intros (t & Ht & H)%wi_handlers0. exists t.
        by rewrite Hws, list_lookup_insert_ne.
    + intros j t. rewrite Hws. destruct (decide (j = i)) as [->|Hne]; [by rewrite lookup_insert_eq|].
      rewrite list_lookup_insert_ne, lookup_insert_ne by done. apply wi_workers0.
  - destruct Hw as [Hf Hws]. destruct (handlers (requests_of s) !! i) as [[[r| | | | |] w']|] eqn:Eh; try done.
    simpl in Hs. rewrite Eh in Hs. injection Hs as <-.
    destruct (wi_handlers0 _ _ Eh) as (t' & Ht' & _ & _ & Hdone). simplify_eq.
    exists p'. constructor; try done; simpl.
    + by rewrite map_app, wi_log0, Hf.
    + apply Forall_app_2; [done|]. by apply Forall_singleton.
    + intros j th. destruct (decide (j = i)) as [->|Hne]; [by rewrite lookup_delete_eq|].
      rewrite lookup_delete_ne by done. intros (t2 & Ht2 & H)%wi_handlers0. exists t2.
      by rewrite Hws, list_lookup_insert_ne.
    + intros j t2. rewrite Hws. destruct (decide (j = i)) as [->|Hne].
      * rewrite list_lookup_insert_eq by (by eapply lookup_lt_Some). done.
      * rewrite list_lookup_insert_ne, lookup_delete_ne by done. apply wi_workers0.
Qed.

Lemma whole_inv_requests s p e r :
  whole_inv s p -> happens e (requests_of s) = Some r ->
  match e with Turn _ | Outside _ => True | Setter u => setter_ok u | _ => False end ->
  whole_inv (Whole (threads s) r (done_log s)) p.
Proof using.
  intros [] He Hok. destruct e as [i| |i|u|f]; try done; simpl in He.
  - destruct (handlers (requests_of s) !! i) as [[pr w]|] eqn:Ei; [|done].
    destruct (thread_step _ _ _ _) as [[[m fs] [pr' w']]|] eqn:Es; [|done]. injection He as <-.
    destruct (wi_handlers0 _ _ Ei) as (t & Ht & Hp).
    destruct (pwp_step I _ _ D _ _ _ _ _ _ _ _ _ wi_shared0 Ei Hp Logic.I Es) as (-> & _ & Hp').
    constructor; try done; simpl.
    + intros j th. destruct (decide (j = i)) as [->|Hne]; [|rewrite lookup_insert_ne by done; apply wi_handlers0].
      rewrite lookup_insert_eq. intros [= <-]. by exists t.
    + intros j t' Ht'%wi_workers0. apply lookup_insert_is_Some'. by right.
  - destruct (mutex_free _); [|done]. injection He as <-. constructor; try done. simpl. by apply set_members_ok.
  - injection He as <-. by constructor.
Qed.

Lemma whole_inv_move u s p s' :
  whole_inv s p -> match u with OfUser v => setter_ok v | _ => True end -> whole_move u s = Some s' ->
  exists p', whole_inv s' p'.
Proof using Hstart.
  intros Hinv Hok Hs. destruct u as [v w|i|v|f]; cbn [whole_move] in Hs.
  - destruct (sys_move v (threads s)) as [y|] eqn:Ey; [|done].
    pose proof (wi_pool _ _ Hinv) as Hp.
    assert (Hsys : (exists p', current_pool y = Some p' /\ same_runs p p') ->
      exists p', whole_inv (Whole y (requests_of s) (done_log s)) p').
    { apply whole_inv_system; [done|]. by eapply sys_reach_step; [apply Hinv|]. }
    destruct v as [i|i|j|rx|]; [by eapply whole_inv_worker|injection Hs as <-; apply Hsys; simpl in Ey..].
    + destruct (pool_move_current _ _ _ _ Hp Ey) as (p' & _ & Hw & ->). exists p'.
      split; [done|by eapply spurious_runs].
    + by eapply loop_runs.
    + unfold recv_returns in Ey. destruct (loop (threads s)); try done. injection Ey as <-.
      by eapply same_current; [done|..]; destruct (stored_request rx).
    + eapply stop_runs; [done| |done]. intros Hk.
      destruct (sys_inv_reachable v0 h n Hstart _ (wi_system _ _ Hinv)) as [q Hq].
      pose proof (inv_current _ _ _ _ _ Hq) as Hq'. rewrite (inv_thread_pool _ _ _ _ _ Hq), Hk. simpl. congruence.
  - destruct (happens (Turn i) (requests_of s)) as [r|] eqn:E; [|done]. injection Hs as <-. exists p.
    by eapply whole_inv_requests.
  - destruct (happens (Setter v) (requests_of s)) as [r|] eqn:E; [|done]. injection Hs as <-. exists p.
    by eapply whole_inv_requests.
  - injection Hs as <-. exists p. by eapply (whole_inv_requests _ _ (Outside f)).
Qed.

Lemma whole_inv_reachable m fs s :
  members_ok m ->
  whole_reachable setter_ok (Whole (started_system v0) (Requests m fs ∅) []) s -> exists p, whole_inv s p.
Proof using Hstart.
  intros Hm. induction 1 as [|u s s' _ [p IH] Hok Hs]; [eexists; by apply whole_inv_init|].
  by eapply whole_inv_move.
Qed.

(** The whole server is the threaded system with requests inside its tasks: in
    every interleaving its threads are in a state that [System] reaches, so the
    order of the requests and the end of [Stop] are as shown there; a request is
    under way on exactly the workers that run a task; the requests that have
    returned are those the pool counts as finished, in that order; and each of
    them is a run of [HandleClient] in the sense of [request_done]. *)
Lemma whole_refines_system m fs s :
  members_ok m -> whole_reachable setter_ok (Whole (started_system v0) (Requests m fs ∅) []) s ->
  sys_reachable (started_system v0) (threads s) /\
  exists p, current_pool (threads s) = Some p /\ map fst (done_log s) = finished p /\
    (forall i, is_Some (handlers (requests_of s) !! i) <-> exists t, workers_ p !! i = Some (WRunning t)) /\
    Forall (fun e => request_done e.1 e.2) (done_log s).
Proof using Hstart.
  intros Hm [p []]%whole_inv_reachable; [|done]. split; [done|]. exists p. split_and!; try done.
  intros i. split.
  - intros [th (t & Ht & _)%wi_handlers0]. eauto.
  - intros [t Ht]. eauto.
Qed.

Lemma done_closed t w : total -> request_done t w -> open_socks (w_trace w) = [].
Proof using.
  intros Htot (w0 & F' & cfg & H0 & E & _ & Hcb).
  destruct (client_socket_closed cfg t.1 t.2 w0 (Hcb Htot)) as (tr & Htr & _ & Ho).
  rewrite E in Htr. simpl in Htr. by rewrite Htr, H0.
Qed.

Lemma done_bounded t w :
  request_done t w ->
  loops_end (w_trace w) /\ zlen (w_trace w) <= 12 * (kMaxTransferSize / kMaxDataSize + 1) + 69.
Proof using.
  intros (w0 & F' & cfg & H0 & E & [Hm Ht] & _). unfold kMinTimeout, kMinTransferSize in *.
  destruct (request_calls cfg t.1 t.2 w0 ltac:(lia) ltac:(lia)) as (tr & Htr & _ & Hend & Hb & _).
  rewrite E in Htr. simpl in Htr. rewrite Htr, H0. simpl. split; [done|]. unfold kMaxTransferSize, kMaxDataSize in *.
  assert (max_transfer_size_ cfg / 512 <= 1024 * 1024 * 1024 / 512) by (apply Z.div_le_mono; lia). lia.
Qed.

Lemma returned_idle s p : whole_inv s p -> stopper (threads s) = KReturned ->
  handlers (requests_of s) = ∅ /\ finished p ≡ₚ started p.
Proof using Hstart.
  intros [] Hk. destruct (sys_inv_reachable v0 h n Hstart _ wi_system0) as [q Hq].
  pose proof (inv_current _ _ _ _ _ Hq) as Hc. rewrite wi_pool0 in Hc. injection Hc as <-.
  pose proof (inv_shut _ _ _ _ _ Hq) as Hd. rewrite Hk in Hd. simpl in Hd.
  pose proof (inv_pool _ _ _ _ _ Hq) as (_ & (_ & H2 & _) & (_ & _ & H4 & _) & _)%pool_inv_reachable.
  rewrite Hd in H4. split.
  - apply map_empty. intros i. destruct (handlers (requests_of s) !! i) as [th|] eqn:E; [|done].
    destruct (wi_handlers0 _ _ E) as (t & Ht & _). by apply (Forall_lookup_1 _ _ _ _ H4) in Ht.
  - rewrite H2. assert (flat_map in_flight (workers_ p) = []) as ->; [|by rewrite app_nil_r].
    clear - H4. by induction H4 as [|w ws -> _ IH].
Qed.

(** C18: when [Stop] returns, nothing of any request is left: no request is under way
    any more, the requests that were started have all returned, their loops
    ended by themselves and none made more system calls than the largest transfer
    takes; and, when the callbacks answer without throwing, each has closed
    every socket it opened. *)
Theorem stop_ends_requests m fs s :
  members_ok m ->
  whole_reachable setter_ok (Whole (started_system v0) (Requests m fs ∅) []) s ->
  stopper (threads s) = KReturned ->
  handlers (requests_of s) = ∅ /\
  exists p, current_pool (threads s) = Some p /\ map fst (done_log s) ≡ₚ started p /\
    Forall (fun e => loops_end (w_trace e.2) /\
      zlen (w_trace e.2) <= 12 * (kMaxTransferSize / kMaxDataSize + 1) + 69 /\
      (total -> open_socks (w_trace e.2) = [])) (done_log s).
Proof using Hstart.
  intros Hm [p Hinv]%whole_inv_reachable Hk; [|done].
  destruct (returned_idle _ _ Hinv Hk) as [Hh Hf]. destruct Hinv. split; [done|]. exists p.
  split; [done|]. split; [by rewrite wi_log0|]. eapply Forall_impl; [exact wi_done0|].
  intros [t w] H. pose proof (done_bounded t w H) as [? ?]. split_and!; [done..|].
  intros Htot. by eapply done_closed.
Qed.

(** ** Requests return *)

Fixpoint whole_moves (us : list (whole_turn FS)) s : option (whole FS) :=
  match us with
  | [] => Some s
  | u :: us' => match whole_move u s with Some s' => whole_moves us' s' | None => None end
  end.

Lemma whole_turns i k s r :
  happen (replicate k (Turn i)) (requests_of s) = Some r ->
  whole_moves (replicate k (OfRequest i)) s = Some (Whole (threads s) r (done_log s)).
Proof using.
  revert s. induction k as [|k IH]; intros s H; simpl in H.
  - injection H as <-. by destruct s.
  - simpl. unfold whole_move. destruct (happens (Turn i) (requests_of s)) as [r1|] eqn:E; simpl in E;
      rewrite E in H |- *; [|done]. simpl. by apply (IH (Whole (threads s) r1 (done_log s))).
Qed.

Lemma setters_go us r :
  mutex_free r = true ->
  happen (map Setter us) r = Some (Requests (foldl (fun m u => set_members u m) (shared r) us) (files r) (handlers r)).
Proof using.
  revert r. induction us as [|u us IH]; intros r Hr; simpl; [by destruct r|]. rewrite Hr.
  by rewrite (IH (Requests (set_members u (shared r)) (files r) (handlers r))).
Qed.

Lemma setters_ok us m : Forall setter_ok us -> members_ok m -> members_ok (foldl (fun m u => set_members u m) m us).
Proof using. intros Hus. revert m. induction Hus as [|u us Hu _ IH]; intros m Hm; simpl; [done|]. by apply IH, set_members_ok. Qed.

(** C19: a worker always gets back from a request: when no callback calls a setter of
    the server, then in any state that can be reached the threads that hold
    [config_mutex_] give it back by steps of their own, none of which asks for
    it; then setters that wait get through, whatever they are; and after that a
    worker that is inside a request comes to its end by steps of its own and
    goes on.  So it does whether or not the mutex lets new readers pass a
    waiting writer.  The loops of the request ended by themselves, it stayed
    within the bound on system calls, and, when callbacks do not throw, it closed
    its sockets. *)
Theorem request_returns m fs s i t us w :
  ~ D -> members_ok m ->
  whole_reachable setter_ok (Whole (started_system v0) (Requests m fs ∅) []) s ->
  worker_at i (threads s) = Some (WRunning t) -> Forall setter_ok us ->
  exists r1 r2 r3 k s4 w',
    releasing (requests_of s) r1 /\ mutex_free r1 = true /\
    happen (map Setter us) r1 = Some r2 /\ happen (replicate k (Turn i)) r2 = Some r3 /\
    whole_move (OfSystem (SWorker i) w) (Whole (threads s) r3 (done_log s)) = Some s4 /\
    done_log s4 = done_log s ++ [(t, w')] /\ loops_end (w_trace w') /\
    zlen (w_trace w') <= 12 * (kMaxTransferSize / kMaxDataSize + 1) + 69 /\
    (total -> open_socks (w_trace w') = []).
Proof using Hstart.
  intros HD Hm [p Hinv]%whole_inv_reachable Hw Hus; [|done].
  assert (Ht : workers_ p !! i = Some (WRunning t) /\ thread_pool_ (impl (threads s)) = Some p).
  { pose proof (wi_pool _ _ Hinv) as Hp. unfold worker_at, current_pool in *.
    destruct (thread_pool_ (impl (threads s))); [|done]. by simplify_eq. }
  destruct Ht as [Ht Hpool]. destruct (wi_workers _ _ Hinv _ _ Ht) as [th0 Hh].
  set (Q := fun (j : nat) r w => forall t, workers_ p !! j = Some (WRunning t) -> r = Ok tt /\ request_done t w).
  assert (Hall : map_Forall (fun j (th : thread FS) => pwp I (fun _ => True) (fun _ => True) D th.1 th.2 (Q j))
    (handlers (requests_of s))).
  { intros j th Hj. destruct (wi_handlers _ _ Hinv _ _ Hj) as (t' & Ht' & Hp').
    eapply pwp_mono; [exact Hp'|]. intros r w' H t2 Ht2. by simplify_eq. }
  destruct (all_release I (fun _ => True) (fun _ => True) D (fun _ => Logic.I) Q (requests_of s) HD
    (wi_shared _ _ Hinv) Hall) as (r1 & Hrel & Hfree & Hsh & Hi1 & Hall1 & Hdom).
  pose proof (setters_go us r1 Hfree) as H2. set (r2 := Requests _ _ _) in H2.
  assert (Hi : is_Some (handlers r2 !! i)).
  { simpl. apply elem_of_dom. rewrite Hdom. by eapply elem_of_dom_2. }
  destruct Hi as [[pr w1] Hi].
  destruct (pwp_ends I (fun _ => True) _ D (fun _ => Logic.I) i r2 pr w1 _ HD (setters_ok us _ Hus Hi1) Hi (Hall1 _ _ Hi))
    as (fs' & r & w2 & [k Hk] & _ & HQ). destruct (HQ t Ht) as [-> Hdone].
  exists r1, r2. do 4 eexists. split_and!; [done|done|exact H2|exact Hk|..].
  - unfold whole_move, sys_move, pool_move, worker_request, worker_at. simpl. rewrite Hpool.
    unfold WorkerThread. rewrite Ht. simpl. rewrite lookup_insert_eq. simpl. reflexivity.
  - reflexivity.
  - by apply (done_bounded t w2).
  - by apply (done_bounded t w2).
  - intros Htot. by eapply done_closed.
Qed.
End invariant.

(** ** Confinement *)

Section confinement.
Context `{P : Platform} {FS : Type} `{F : FsOps FS} `{L : !FsLaws FS}.
Implicit Types (s : whole FS) (m : members FS).

(** The interleavings in which the file system always satisfies [J]. *)
Inductive whole_within (J : FS -> Prop) (ok : setter FS -> Prop) s0 : whole FS -> Prop :=
  | within_init : J (files (requests_of s0)) -> whole_within J ok s0 s0
  | within_step u s s' :
      whole_within J ok s0 s -> match u with OfUser v => ok v | _ => True end ->
      whole_move u s = Some s' -> J (files (requests_of s')) -> whole_within J ok s0 s'.

Lemma within_always (J : FS -> Prop) ok s0 s :
  (forall fs, J fs) -> whole_reachable ok s0 s -> whole_within J ok s0 s.
Proof using. intros HJ. induction 1; [by constructor|]. by eapply within_step. Qed.

(** The worlds of the requests under way and of those that have returned. *)
Definition request_worlds s : list (world unit) :=
  map (fun e => e.2.2) (map_to_list (handlers (requests_of s))) ++ map snd (done_log s).

Definition whole_confined root lead s : Prop :=
  confined root lead (requests_of s) /\ Forall (fun e => all_below lead e.2) (done_log s).

Lemma whole_confined_move root lead u s s' :
  is_absolute root = true -> last root = Some sep -> (x00 ∉ root) ->
  whole_confined root lead s -> match u with OfUser v => stays_secure_mode v | _ => True end ->
  whole_move u s = Some s' -> resolves root lead (files (requests_of s')) -> whole_confined root lead s'.
Proof using L.
  intros Habs Hsep Hnul [Hc Hd] Hok E Hj.
  assert (Hh : forall h r, stays_confined h -> happens h (requests_of s) = Some r -> requests_of s' = r ->
    confined root lead (requests_of s')).
  { intros h r Hh Er <-. by eapply confined_step. }
  destruct u as [v w|i|v|f]; unfold whole_move in E.
  - destruct (sys_move v (threads s)) as [y|]; [|done].
    destruct v as [i|?|?|?|]; try (injection E as <-; by split). unfold worker_request in E.
    destruct (worker_at i (threads s)) as [wp|]; [|injection E as <-; by split].
    destruct wp as [| | | | | | |[d client]|t| |]; try (injection E as <-; by split).
    + destruct (happens (Begin i _) (requests_of s)) as [r|] eqn:Er; [|done]. injection E as <-.
      split; [|done]. eapply Hh; [|exact Er|done]. by exists d, client, (fresh_world w).
    + destruct (handlers (requests_of s) !! i) as [[[r| | | | |] w']|] eqn:Ei; try done.
      destruct (happens (Leave i) (requests_of s)) as [q|] eqn:Er; [|done]. injection E as <-.
      split; [by eapply (Hh (Leave i))|]. apply Forall_app_2; [done|]. apply Forall_singleton.
      by eapply confined_paths.
  - destruct (happens (Turn i) (requests_of s)) as [r|] eqn:Er; [|done]. injection E as <-.
    split; [by eapply (Hh (Turn i))|done].
  - destruct (happens (Setter v) (requests_of s)) as [r|] eqn:Er; [|done]. injection E as <-.
    split; [by eapply (Hh (Setter v))|done].
  - injection E as <-. split; [by eapply (Hh (Outside f))|done].
Qed.

(** C17: no request leaves the root directory, also when many run at the same time:
    in the whole threaded server, for an absolute root directory that does not
    end in a backslash, with any callbacks, as long as secure mode is not
    switched off and paths below the root directory go on leading to the same
    places (up to a separator at the end), every path that any request hands to
    a callback, in every interleaving, lies in the canonical root directory, or
    is the empty path that [NormalizePath] gives for what it cannot resolve. *)
Theorem requests_confined root lead v0 m fs s w path :
  ValidateRootDirectory root = true -> is_absolute root = true -> last root <> Some x5c ->
  root_dir m = stored_root root -> secure_mode (m_settings m) = true ->
  whole_within (resolves (stored_root root) lead) stays_secure_mode
    (Whole (started_system v0) (Requests m fs ∅) []) s ->
  w ∈ request_worlds s -> path ∈ touched (w_trace w) ->
  path = [] \/ exists rest, with_separator path = lead [] ++ rest.
Proof using L.
  intros Hv Ha Hb Hroot Hsec Hs Hw Hp.
  destruct (stored_root_parts root Hv Ha Hb) as (Habs & Hsep & Hnul).
  assert (Hc : whole_confined (stored_root root) lead s).
  { clear Hw Hp. induction Hs as [Hj|u s s' _ IH Hok E Hj]; [|by eapply whole_confined_move].
    split; [|constructor]. split; [|apply map_Forall_empty]. by constructor. }
  destruct Hc as [Hc Hd]. unfold request_worlds in Hw. apply elem_of_app in Hw as [Hw|Hw].
  - apply list_elem_of_fmap in Hw as ([i [p w']] & -> & Hi%elem_of_map_to_list). by eapply confined_paths.
  - apply list_elem_of_fmap in Hw as (e & -> & He). by eapply (proj1 (Forall_forall _ _) Hd).
Qed.
End confinement.

(** ** Witnesses *)

#[local] Existing Instance platform_le.

Lemma whole_moves_reachable {FS} `{F : FsOps FS} ok us (s0 s s' : whole FS) :
  whole_reachable ok s0 s ->
  Forall (fun u => match u with OfUser v => ok v | _ => True end) us ->
  whole_moves us s = Some s' -> whole_reachable ok s0 s'.
Proof.
  intros Hr Hok. revert s Hr. induction Hok as [|u us Hu _ IH]; intros s Hr Hs; simpl in Hs; [congruence|].
  destruct (whole_move u s) as [s1|] eqn:E; [|done]. eapply IH; [|done]. by eapply whole_step.
Qed.

(** One worker; a client asks for a file that is not there. *)
Definition absent_members : members unit :=
  Members (bs "/srv/tftp/") (Settings true 1048576 5) (fun _ => CRet (Ok None)) (fun _ _ => CRet (Ok true)).
Definition whole_start : whole unit := Whole (started_system demo_impl) (Requests absent_members tt ∅) [].
Definition idle_net : world unit := World [7] (fun _ => true) [] [] tt [].

Definition sys_turns (us : list sys_turn) : list (whole_turn unit) := map (fun u => OfSystem u idle_net) us.

Definition asking : list (whole_turn unit) :=
  sys_turns ([SLoop 0; SLoop 0; SRecv (Some (demo_peer, rrq_bytes (bs "f")))] ++ replicate 9 (SLoop 0)
             ++ replicate 5 (SWorker 0)).
Definition leaving : list (whole_turn unit) :=
  [OfUser (SetSeconds 10)] ++ replicate 12 (OfRequest 0) ++
  sys_turns ([SWorker 0; SWorker 0] ++ replicate 5 SStop ++ [SWorker 0] ++ replicate 6 SStop ++
             [SRecv None; SLoop 0; SStop]).

Definition asked : whole unit := default whole_start (whole_moves asking whole_start).
Definition shut : whole unit := default whole_start (whole_moves leaving asked).

Lemma absent_ok : members_ok True False absent_members.
Proof. split_and!; by repeat intros ?. Qed.

Lemma moves_on {FS} `{F : FsOps FS} ok us (s0 s d : whole FS) :
  whole_reachable ok s0 s ->
  Forall (fun u => match u with OfUser v => ok v | _ => True end) us ->
  match whole_moves us s with Some _ => true | None => false end = true ->
  whole_reachable ok s0 (default d (whole_moves us s)).
Proof.
  intros Hr Hok E. eapply whole_moves_reachable; [done|done|]. by destruct (whole_moves us s).
Qed.

Lemma asked_reachable : whole_reachable (setter_ok True False) whole_start asked.
Proof.
  apply moves_on; [constructor| |vm_compute; reflexivity].
  by repeat (apply Forall_cons_2 || apply Forall_nil_2).
Qed.

Lemma shut_reachable : whole_reachable (setter_ok True False) whole_start shut.
Proof.
  apply moves_on; [apply asked_reachable| |vm_compute; reflexivity].
  by repeat (apply Forall_cons_2 || apply Forall_nil_2).
Qed.

Lemma stop_ends_requests_witness :
  length (done_log shut) = 1%nat /\ handlers (requests_of shut) = ∅ /\
  Forall (fun e => open_socks (w_trace e.2) = []) (done_log shut).
Proof.
  destruct (stop_ends_requests demo_impl 1 1 demo_started True False absent_members tt shut
    absent_ok shut_reachable ltac:(vm_compute; reflexivity)) as (Hh & p & _ & _ & Hd).
  split; [vm_compute; reflexivity|]. split; [exact Hh|].
  eapply Forall_impl; [exact Hd|]. intros e (_ & _ & H). exact (H I).
Defined.

Lemma request_returns_witness :
  exists r1 r2 r3 k s4 w',
    releasing (requests_of asked) r1 /\ mutex_free r1 = true /\
    happen (map Setter [SetLimit 4096; SetSeconds 7]) r1 = Some r2 /\
    happen (replicate k (Turn 0)) r2 = Some r3 /\
    whole_move (OfSystem (SWorker 0) idle_net) (Whole (threads asked) r3 (done_log asked)) = Some s4 /\
    done_log s4 = done_log asked ++ [((rrq_bytes (bs "f"), demo_peer), w')] /\ loops_end (w_trace w') /\
    zlen (w_trace w') <= 12 * (kMaxTransferSize / kMaxDataSize + 1) + 69 /\
    (True -> open_socks (w_trace w') = []).
Proof.
  apply (request_returns demo_impl 1 1 demo_started True False absent_members tt asked);
    [tauto|apply absent_ok|apply asked_reachable|vm_compute; reflexivity|].
  by repeat (apply Forall_cons_2 || apply Forall_nil_2).
Defined.

Lemma one_request (l : list (task * world unit)) path :
  match l with [e] => touched (w_trace e.2) = [path] | _ => False end ->
  exists e, l = [e] /\ touched (w_trace e.2) = [path].
Proof. destruct l as [|e [|]]; [done|eauto|done]. Qed.

(** On a file system without links the served request stays in /srv/tftp/. *)
Lemma requests_confined_witness :
  bs "/srv/tftp/f" = [] \/ exists rest, with_separator (bs "/srv/tftp/f") = bs "/srv/tftp/" ++ rest.
Proof.
  set (root := bs "/srv/tftp").
  set (lead := fun name => with_separator (lexically_normal (stored_root root ++ name))).
  assert (Hr : whole_reachable stays_secure_mode whole_start shut).
  { unfold shut. apply moves_on; [|by repeat (apply Forall_cons_2 || apply Forall_nil_2)|vm_compute; reflexivity].
    apply moves_on; [constructor|by repeat (apply Forall_cons_2 || apply Forall_nil_2)|vm_compute; reflexivity]. }
  assert (Hw : whole_within (resolves (stored_root root) lead) stays_secure_mode whole_start shut).
  { apply within_always; [|exact Hr]. intros fs name q [= <-]. reflexivity. }
  destruct (one_request (done_log shut) (bs "/srv/tftp/f") ltac:(vm_compute; reflexivity)) as (e & E & Hn).
  apply (requests_confined root lead demo_impl absent_members tt shut e.2 (bs "/srv/tftp/f")
    ltac:(vm_compute; reflexivity) eq_refl ltac:(discriminate) eq_refl eq_refl Hw).
  - unfold request_worlds. rewrite E. apply elem_of_app. right. by left.
  - rewrite Hn. by left.
Defined.
