(* ===== verification/Lifetime.v ===== *)
(** * The life of a server object

    From the constructor to the destructor: calls while nothing runs, any number
    of sessions of [Whole] between a successful [Start] and the return of
    [Stop], and the destruction.  The one-step descriptions of [Server] are what
    the threads implement: seen from outside, a life is the sequence of calls
    its user made. *)

From Stdlib Require Import ZArith Lia Strings.Byte.
From stdpp Require Import base tactics numbers list gmap strings.
From S2P Require Import Prelude Common Packet StdText StdPath Util Validation Files ThreadPool ThreadPoolFacts Net Transfer IOFacts Protocol TransferFacts ReadFacts WriteFacts Termination ClientFacts Server ServerFacts System SystemFacts Concurrent Alone Interference RequestFacts Whole.

(** ** The phases of a life *)

Inductive phase (FS : Type) :=
  | Quiet (v : TftpServerImpl FS) (m : members FS) (fs : FS)   (* no thread exists *)
  | Active (s : whole FS)                                      (* since [Start] *)
  | Dying (s : whole FS)                                       (* inside the destructor *)
  | Gone (v : TftpServerImpl FS).                              (* destroyed *)
Arguments Quiet {FS}.
Arguments Active {FS}.
Arguments Dying {FS}.
Arguments Gone {FS}.

Record life (FS : Type) := Life {
  now : phase FS;
  history : list (@api_call FS);                 (* the calls that have returned *)
  all_done : list (task * world unit);           (* the requests of earlier sessions *)
  life_trace : list event;                       (* the calls on the server's socket *)
}.
Arguments Life {FS}.
Arguments now {FS}.
Arguments history {FS}.
Arguments all_done {FS}.
Arguments life_trace {FS}.

Inductive life_turn (FS : Type) :=
  | LStart (a : start_answers)
  | LStop                        (* [Stop] of a server that does not run *)
  | LTurn (u : whole_turn FS)    (* a thread, a setter, another process *)
  | LReturn                      (* [Stop] of a session returns to its caller *)
  | LDestroy.                    (* the destructor begins, or ends *)
Arguments LStart {FS}.
Arguments LStop {FS}.
Arguments LTurn {FS}.
Arguments LReturn {FS}.
Arguments LDestroy {FS}.

Section life.
Context `{P : Platform} {FS : Type} `{F : FsOps FS}.
Implicit Types (v : TftpServerImpl FS) (m : members FS) (l : life FS).

(** The call of a setter, as [Server] describes it. *)
Definition setter_call (u : setter FS) : @api_call FS :=
  match u with
  | SetSecure b => CallSetSecureMode b
  | SetLimit n => CallSetMaxTransferSize n
  | SetSeconds n => CallSetTimeout n
  | SetRead cb => CallSetReadCallback (option_map (fun f fs path => crun (f path) fs) cb)
  | SetWrite cb => CallSetWriteCallback (option_map (fun f fs path data => crun (f path data) fs) cb)
  end.

(** The destructor calls [Stop]; then the members go: the phase, the requests
    that have returned, and the socket calls.  What matters of the members is in
    the object: a thread that is still joinable would end the program, a pool
    that is still there would be shut down.  [Stop] of a server that does not run
    returns at once; that of a running server takes the steps of [System.Stop],
    between which the other threads run, and the members go when it has
    returned.  The thread that is inside [Stop] does not destroy the object. *)
Definition destroy_impl (ph : phase FS) : option (phase FS * list (task * world unit) * list event) :=
  match ph with
  | Quiet v _ _ => let '(v', t) := impl_Stop v in Some (Gone v', [], t)
  | Active s => match stopper (threads s) with KIdle => Some (Dying s, [], []) | _ => None end
  | Dying s =>
      match stopper (threads s) with
      | KReturned => Some (Gone (impl (threads s)), done_log s, sys_trace (threads s))
      | _ => None
      end
  | Gone _ => None
  end.

(** [Start] makes the threads; the user that is inside [Stop] does not call it. *)
Definition life_start (hw : Z) (a : start_answers) l : option (life FS) :=
  let history' := history l ++ [CallStart a] in
  match now l with
  | Quiet v m fs =>
      let '(ok, v', t) := impl_Start hw a v in
      Some (Life (if ok : bool then Active (Whole (started_system v') (Requests m fs ∅) []) else Quiet v' m fs)
              history' (all_done l) (life_trace l ++ t))
  | Active s =>
      if running_ (impl (threads s)) then Some (Life (Active s) history' (all_done l) (life_trace l)) else None
  | Dying _ | Gone _ => None
  end.

Definition life_move (hw : Z) (u : life_turn FS) l : option (life FS) :=
  match u, now l with
  | LStart a, _ => life_start hw a l
  | LStop, Quiet v m fs =>
      let '(v', t) := impl_Stop v in
      Some (Life (Quiet v' m fs) (history l ++ [CallStop]) (all_done l) (life_trace l ++ t))
  | LTurn (OfUser c), Quiet v m fs =>
      Some (Life (Quiet v (set_members c m) fs) (history l ++ [setter_call c]) (all_done l) (life_trace l))
  | LTurn (OfOthers f), Quiet v m fs => Some (Life (Quiet v m (f fs)) (history l) (all_done l) (life_trace l))
  | LTurn w, Active s =>
      option_map
        (fun s' => Life (Active s')
           (history l ++ match w with OfUser c => [setter_call c] | _ => [] end) (all_done l) (life_trace l))
        (whole_move w s)
  | LTurn (OfUser _), Dying _ => None
  | LTurn w, Dying s =>
      option_map (fun s' => Life (Dying s') (history l) (all_done l) (life_trace l)) (whole_move w s)
  | LReturn, Active s =>
      match stopper (threads s) with
      | KReturned =>
          Some (Life (Quiet (impl (threads s)) (shared (requests_of s)) (files (requests_of s)))
                  (history l ++ [CallStop]) (all_done l ++ done_log s)
                  (life_trace l ++ sys_trace (threads s)))
      | _ => None
      end
  | LDestroy, ph =>
      option_map
        (fun '(ph', d, t) =>
           Life ph' (match ph' with Gone _ => history l ++ [CallStop] | _ => history l end)
             (all_done l ++ d) (life_trace l ++ t))
        (destroy_impl ph)
  | _, _ => None
  end.

(** A server object with its callbacks; [new_members] are those of the
    constructor. *)
Definition born (hw : Z) (m : members FS) (port : Z) : TftpServerImpl FS :=
  ServerImpl (seq_config m) port (-1) false false None hw.
Definition birth (hw : Z) (m : members FS) (port : Z) (fs : FS) : life FS :=
  Life (Quiet (born hw m port) m fs) [] [] [].

Inductive life_reachable (hw : Z) (ok : setter FS -> Prop) (l0 : life FS) : life FS -> Prop :=
  | life_init : life_reachable hw ok l0 l0
  | life_step u l l' :
      life_reachable hw ok l0 l -> match u with LTurn (OfUser c) => ok c | _ => True end ->
      life_move hw u l = Some l' -> life_reachable hw ok l0 l'.

(** ** The calls of the user *)

(** The members a setter without a lock changes, and no others. *)
Lemma setter_call_members hw u m v :
  call hw (setter_call u) (set_cfg (seq_config m) v) = (set_cfg (seq_config (set_members u m)) v, []).
Proof using.
  destruct u as [b|n|n|[cb|]|[cb|]]; simpl; try done.
  - unfold SetMaxTransferSize. by destruct (ValidateTransferSize n).
  - unfold SetTimeout. by destruct (ValidateTimeout n).
Qed.

Lemma start_cfg hw a c v :
  impl_Start hw a (set_cfg c v) = let '(ok, v', t) := impl_Start hw a v in (ok, set_cfg c v', t).
Proof using.
  unfold impl_Start. simpl. destruct (running_ v); [done|]. destruct (a_socket a <? 0); [done|].
  destruct (a_setsockopt a); [|done]. by destruct (a_bind a).
Qed.

(** The constructor makes such an object. *)
Lemma constructed `{O : FileOps FS} hw root port :
  let v := make_impl hw root port in
  born hw (new_members root) port = set_cfg (seq_config (new_members root)) v /\
  root_dir_ (cfg_ v) = root_dir (new_members (FS := FS) root) /\
  secure_mode_ (cfg_ v) = true /\ (max_transfer_size_ (cfg_ v), timeout_seconds_ (cfg_ v)) = limits (new_members (FS := FS) root) /\
  (forall fs path, read_callback_ (cfg_ v) fs path = read_callback_ (seq_config (new_members root)) fs path) /\
  (forall fs path data,
     write_callback_ (cfg_ v) fs path data = write_callback_ (seq_config (new_members root)) fs path data).
Proof using.
  split_and!; try done.
  - intros fs path. symmetry. apply (default_callbacks_alone fs path []).
  - intros fs path data. symmetry. by apply default_callbacks_alone.
Qed.

Lemma stop_cfg c v : impl_Stop (set_cfg c v) = let '(v', t) := impl_Stop v in (set_cfg c v', t).
Proof using. unfold impl_Stop. simpl. by destruct (running_ v). Qed.
End life.

(** ** The invariant *)

Section invariant.
Context `{P : Platform} {FS : Type} `{F : FsOps FS}.
Context (hw port : Z) (m0 : members FS) (fs0 : FS) (total D : Prop).
Hypothesis m0_ok : members_ok total D m0.
Implicit Types (v : TftpServerImpl FS) (m : members FS) (l : life FS).

(** After the calls of [l] the object is [v] with the members [m]. *)
Definition called l m v : Prop :=
  calls hw (history l) (born hw m0 port) = (set_cfg (seq_config m) v, life_trace l).

Definition life_inv l : Prop :=
  Forall (fun e => request_done total e.1 e.2) (all_done l) /\
  match now l with
  | Quiet v m _ => members_ok total D m /\ running_ v = false /\ called l m v
  | Active s | Dying s =>
      exists v0 n p, started_impl v0 hw n /\ whole_inv v0 total D s p /\
        called l (shared (requests_of s)) v0
  | Gone v => running_ v = false /\ exists m, called l m v
  end.

(** Only a setter the user calls changes the members. *)
Lemma turn_members i s s' : happens (Turn i) s = Some s' -> shared (FS := FS) s' = shared s.
Proof using.
  simpl. destruct (handlers s !! i) as [[p w]|] eqn:Hi; [|done].
  destruct (thread_step (mutex_free s) (shared s) (files s) (p, w)) as [[[m fs] t]|] eqn:E; [|done].
  intros [= <-]. simpl. destruct p as [r|B c k|B q k|B q k|B C g a k|B C [r|B' f k'|u c] a k];
    simpl in E; try done; try (by injection E as <- _ _).
  - destruct (c w). by injection E as <- _ _.
  - destruct (f (files s)). by injection E as <- _ _.
  - by rewrite (holder_not_free s i _ Hi eq_refl) in E.
Qed.

Lemma whole_members w s s' :
  whole_move w s = Some s' ->
  shared (requests_of s') =
  match w with OfUser c => set_members c (shared (requests_of s)) | _ => shared (FS := FS) (requests_of s) end.
Proof using.
  destruct w as [v w|i|c|f]; unfold whole_move.
  - destruct (sys_move v (threads s)) as [y|]; [|done].
    destruct v as [i|?|?|?|]; try (by intros [= <-]). unfold worker_request.
    destruct (worker_at i (threads s)) as [[]|]; try (by intros [= <-]).
    + destruct t as [d client]. simpl. destruct (handlers (requests_of s) !! i); [done|]. by intros [= <-].
    + destruct (handlers (requests_of s) !! i) as [[[] ?]|] eqn:E; try done. simpl. rewrite E. by intros [= <-].
  - destruct (happens (Turn i) (requests_of s)) as [r|] eqn:E; [|done]. intros [= <-]. by eapply turn_members.
  - simpl. destruct (mutex_free _); [|done]. by intros [= <-].
  - by intros [= <-].
Qed.

Lemma called_snoc l l' c m v m' v' t :
  called l m v -> call hw c (set_cfg (seq_config m) v) = (set_cfg (seq_config m') v', t) ->
  history l' = history l ++ [c] -> life_trace l' = life_trace l ++ t -> called l' m' v'.
Proof using.
  unfold called. intros H E -> ->. by rewrite (calls_snoc _ _ _ _ _ _ H), E.
Qed.

Lemma called_setter l l' u m v :
  called l m v -> history l' = history l ++ [setter_call u] -> life_trace l' = life_trace l ->
  called l' (set_members u m) v.
Proof using.
  intros H Hh Ht. eapply called_snoc; [exact H|apply setter_call_members|done|]. by rewrite app_nil_r.
Qed.

Lemma life_inv_birth : life_inv (birth hw m0 port fs0).
Proof using m0_ok. split; [constructor|]. by split. Qed.

Lemma life_inv_start a l l' : life_inv l -> life_start hw a l = Some l' -> life_inv l'.
Proof using.
  unfold life_inv, life_start. intros [Hd Hn]. destruct (now l) as [v m fs|s|s|v]; [| |done|done].
  - destruct Hn as (Hm & Hr & Hc). destruct (impl_Start hw a v) as [[ok v'] t] eqn:E.
    intros [= <-]. split; [done|].
    assert (Hc' : forall ph, called (Life ph (history l ++ [CallStart a]) (all_done l) (life_trace l ++ t)) m v').
    { intros ph. eapply called_snoc; [exact Hc| |done|done]. simpl. rewrite start_cfg, E. done. }
    destruct ok; simpl.
    + exists v', (thread_pool_size_ v). eexists. pose proof (start_establishes hw a v v' t Hr E) as Hs.
      split; [done|]. split; [by eapply whole_inv_init|apply Hc'].
    + split; [done|]. split; [|apply Hc']. revert E. unfold impl_Start. rewrite Hr.
      destruct (a_socket a <? 0); [by intros [= <- _]|]. destruct (a_setsockopt a); [|by intros [= <- _]].
      destruct (a_bind a); [done|by intros [= <- _]].
  - destruct Hn as (v0 & n & p & Hs & Hi & Hc). destruct (running_ (impl (threads s))); [|done].
    intros [= <-]. split; [done|]. exists v0, n, p. split; [done|]. split; [done|].
    eapply called_snoc; [exact Hc| |done|by rewrite app_nil_r]. simpl. rewrite start_cfg.
    unfold impl_Start. by rewrite (proj1 Hs).
Qed.

(** A state of the threads that a session can be in after the calls of [l]. *)
Definition session_inv l (s : whole FS) : Prop :=
  exists v0 n p, started_impl v0 hw n /\ whole_inv v0 total D s p /\
    called l (shared (requests_of s)) v0.

Lemma session_move w l l' s s' :
  session_inv l s -> match w with OfUser c => setter_ok total D c | _ => True end ->
  whole_move w s = Some s' ->
  history l' = history l ++ match w with OfUser c => [setter_call c] | _ => [] end ->
  life_trace l' = life_trace l -> session_inv l' s'.
Proof using.
  intros (v0 & n & p & Hs & Hi & Hc) Hok Hw Hh Ht.
  destruct (whole_inv_move v0 hw n Hs total D w s p s' Hi Hok Hw) as [p' Hi'].
  exists v0, n, p'. split; [done|]. split; [done|]. rewrite (whole_members w s s' Hw).
  destruct w as [| |c|]; [..|by eapply called_setter|]; unfold called in *; by rewrite ?Hh, ?Ht, ?app_nil_r.
Qed.

Lemma session_return l l' s :
  session_inv l s -> stopper (threads s) = KReturned -> history l' = history l ++ [CallStop] ->
  life_trace l' = life_trace l ++ sys_trace (threads s) ->
  members_ok total D (shared (requests_of s)) /\ running_ (impl (threads s)) = false /\
  called l' (shared (requests_of s)) (impl (threads s)) /\
  Forall (fun e => request_done total e.1 e.2) (done_log s).
Proof using.
  intros (v0 & n & p & Hs & Hi & Hc) Hk Hh Ht.
  pose proof (stop_result v0 hw n Hs _ (wi_system _ _ _ _ _ Hi) Hk) as Hstop.
  split_and!; [apply Hi| | |apply Hi].
  - unfold impl_Stop in Hstop. rewrite (proj1 Hs) in Hstop. by injection Hstop as -> _.
  - eapply called_snoc; [exact Hc| |done|done]. simpl. by rewrite stop_cfg, <- Hstop.
Qed.

Lemma quiet_stop l l' v m :
  running_ v = false -> called l m v -> history l' = history l ++ [CallStop] ->
  life_trace l' = life_trace l ++ [] -> called l' m v.
Proof using.
  intros Hr Hc Hh Ht. eapply called_snoc; [exact Hc| |done|done]. simpl. unfold impl_Stop. simpl. by rewrite Hr.
Qed.

Lemma life_inv_destroy l l' : life_inv l -> life_move hw LDestroy l = Some l' -> life_inv l'.
Proof using.
  intros [Hd Hn] H. unfold life_move in H. destruct (now l) as [v m fs|s|s|v] eqn:E; simpl in H.
  - destruct Hn as (Hm & Hr & Hc). unfold impl_Stop in H. rewrite Hr in H. injection H as <-.
    split; [by rewrite app_nil_r|]. split; [done|]. exists m. by eapply quiet_stop.
  - destruct (stopper (threads s)); try done. injection H as <-. split; [by rewrite app_nil_r|].
    destruct Hn as (v0 & n & p & Hs & Hi & Hc). exists v0, n, p. split_and!; [done..|].
    unfold called in *. simpl. by rewrite app_nil_r.
  - destruct (stopper (threads s)) eqn:Hk; try done. injection H as <-.
    destruct (session_return l (Life (Gone (impl (threads s))) (history l ++ [CallStop])
      (all_done l ++ done_log s) (life_trace l ++ sys_trace (threads s))) s Hn Hk) as (_ & Hr & Hc & Hl); [done..|].
    split; [by apply Forall_app_2|]. split; [done|]. by exists (shared (requests_of s)).
  - done.
Qed.

Lemma life_inv_move u l l' :
  life_inv l -> match u with LTurn (OfUser c) => setter_ok total D c | _ => True end ->
  life_move hw u l = Some l' -> life_inv l'.
Proof using.
  intros Hi Hok H. destruct u as [a| |w| |]; [by eapply life_inv_start|..|by eapply life_inv_destroy]; unfold life_move in H;
    destruct (now l) as [v m fs|s|s|v] eqn:E; try done; unfold life_inv in Hi; rewrite E in Hi.
  - destruct Hi as (Hd & Hm & Hr & Hc). unfold impl_Stop in H. rewrite Hr in H. injection H as <-.
    split; [done|]. split; [done|]. split; [done|]. by eapply quiet_stop.
  - destruct Hi as (Hd & Hm & Hr & Hc).
    destruct w as [| |c|f]; try done; injection H as <-; split; try done.
    split; [by apply set_members_ok|]. split; [done|]. by eapply called_setter.
  - destruct Hi as [Hd Hs]. assert (Hw : exists s', whole_move w s = Some s' /\
      l' = Life (Active s') (history l ++ match w with OfUser c => [setter_call c] | _ => [] end)
             (all_done l) (life_trace l)).
    { destruct w; destruct (whole_move _ s) as [s'|]; try done; injection H as <-; by exists s'. }
    destruct Hw as (s' & Hw & ->). split; [done|]. by eapply session_move.
  - destruct Hi as [Hd Hs]. assert (Hw : exists s', whole_move w s = Some s' /\
      l' = Life (Dying s') (history l) (all_done l) (life_trace l) /\ match w with OfUser _ => False | _ => True end).
    { destruct w; try done; destruct (whole_move _ s) as [s'|]; try done; injection H as <-; by exists s'. }
    destruct Hw as (s' & Hw & -> & Hu). split; [done|]. eapply (session_move w); [exact Hs|by destruct w|done|..|done].
    destruct w; try done; by rewrite app_nil_r.
  - by destruct w.
  - destruct Hi as [Hd Hs]. destruct (stopper (threads s)) eqn:Hk; try done. injection H as <-.
    destruct (session_return l (Life (Quiet (impl (threads s)) (shared (requests_of s)) (files (requests_of s)))
      (history l ++ [CallStop]) (all_done l ++ done_log s) (life_trace l ++ sys_trace (threads s))) s Hs Hk)
      as (Hm & Hr & Hc & Hl); [done..|]. split; [by apply Forall_app_2|]. by split_and!.
Qed.

Lemma life_inv_reachable l :
  life_reachable hw (setter_ok total D) (birth hw m0 port fs0) l -> life_inv l.
Proof using m0_ok. induction 1 as [|u l l' _ IH Hok H]; [apply life_inv_birth|by eapply life_inv_move]. Qed.

(** C16: a life is the sequence of the user's calls: whenever no thread exists,
    after any number of sessions with any interleaving of server thread,
    workers, requests, setters and other processes, the object and the calls on
    the server's socket are those the one-step descriptions of [Start], [Stop]
    and the setters give for the calls made, in their order, the destructor's
    [Stop] included; during a session the same holds of the object as [Start]
    left it and of the members. *)
Theorem life_refines_calls l :
  life_reachable hw (setter_ok total D) (birth hw m0 port fs0) l ->
  match now l with
  | Quiet v m _ => calls hw (history l) (born hw m0 port) = (set_cfg (seq_config m) v, life_trace l)
  | Active s | Dying s =>
      exists v0, sys_reachable (started_system v0) (threads s) /\
        calls hw (history l) (born hw m0 port) =
          (set_cfg (seq_config (shared (requests_of s))) v0, life_trace l)
  | Gone v => exists m, calls hw (history l) (born hw m0 port) = (set_cfg (seq_config m) v, life_trace l)
  end.
Proof using m0_ok.
  intros [_ H]%life_inv_reachable. destruct (now l) as [v m fs|s|s|v]; [apply H| | |apply H].
  all: destruct H as (v0 & n & p & _ & Hi & Hc); exists v0; by split; [apply Hi|].
Qed.

(** C20: the destructor leaves nothing behind: however the server was used before and
    whether or not it is running, when it has been destroyed its thread is not
    joinable any more, so its destructor does not end the program, there is no
    pool, every socket the server opened is closed, the loops of all requests
    ended by themselves, and, with callbacks that answer without throwing, every
    socket of every request of every session is closed. *)
Theorem destroyed_clean l v :
  life_reachable hw (setter_ok total D) (birth hw m0 port fs0) l -> now l = Gone v ->
  server_thread_ v = false /\ thread_pool_ v = None /\ open_socks (life_trace l) = [] /\
  Forall (fun e => loops_end (w_trace e.2)) (all_done l) /\
  (total -> Forall (fun e => open_socks (w_trace e.2) = []) (all_done l)).
Proof using m0_ok.
  intros [Hd H]%life_inv_reachable E. rewrite E in H. destruct H as (Hr & m & Hc).
  pose proof (calls_lifecycle hw (history l) (born hw m0 port) [] ltac:(done)) as Hl.
  unfold called in Hc. rewrite Hc in Hl. unfold lifecycle_inv in Hl. simpl in Hl. rewrite Hr in Hl.
  destruct Hl as (Ht & Hp & Ho). split_and!; [done..| |].
  { eapply Forall_impl; [exact Hd|]. intros [t w] H. by apply (done_bounded _ t w H). }
  intros Htot.
  eapply Forall_impl; [exact Hd|]. intros [t w] H. exact (done_closed _ t w Htot H).
Qed.
End invariant.

(** ** Witnesses *)

#[local] Existing Instance platform_le.

Fixpoint life_moves {FS} `{F : FsOps FS} (hw : Z) (us : list (life_turn FS)) (l : life FS) : option (life FS) :=
  match us with
  | [] => Some l
  | u :: us' => match life_move hw u l with Some l' => life_moves hw us' l' | None => None end
  end.

Lemma life_moves_reachable {FS} `{F : FsOps FS} hw ok us (l0 l d : life FS) :
  life_reachable hw ok l0 l ->
  Forall (fun u => match u with LTurn (OfUser c) => ok c | _ => True end) us ->
  match life_moves hw us l with Some _ => true | None => false end = true ->
  life_reachable hw ok l0 (default d (life_moves hw us l)).
Proof.
  intros Hr Hok. revert l Hr. induction Hok as [|u us Hu _ IH]; intros l Hr E; simpl in *; [done|].
  destruct (life_move hw u l) as [l1|] eqn:El; [|done]. apply IH; [by eapply life_step|done].
Qed.

(** A refused port, a session that serves a request, and a session without one, in
    which the object is destroyed while the server runs. *)
Definition first_session : list (life_turn unit) := map LTurn (asking ++ leaving).
Definition second_session : list (life_turn unit) :=
  map LTurn (sys_turns ([SLoop 0; SLoop 0; SStop; SStop; SStop; SStop; SWorker 0] ++ replicate 7 SStop ++
                        [SRecv None; SLoop 0; SStop])).
Definition two_sessions : list (life_turn unit) :=
  [LTurn (OfUser (SetLimit 2048)); LStop; LStart (StartAnswers 3 true false); LStart (StartAnswers 3 true true)] ++
  first_session ++ [LReturn; LStart (StartAnswers 4 true true); LStart (StartAnswers 5 true true)] ++
  [LDestroy] ++ second_session ++ [LDestroy].

Definition newborn : life unit := birth 1 absent_members 69 tt.
Definition grave : life unit := default newborn (life_moves 1 two_sessions newborn).

Lemma grave_reachable : life_reachable 1 (setter_ok True False) newborn grave.
Proof.
  apply life_moves_reachable; [constructor| |vm_compute; reflexivity].
  unfold two_sessions, first_session, second_session, asking, leaving, sys_turns.
  by repeat (apply Forall_app_2 || apply Forall_cons_2 || apply Forall_nil_2).
Qed.

Lemma grave_gone : exists v, now grave = Gone v.
Proof.
  assert (E : match now grave with Gone _ => true | _ => false end = true) by (vm_compute; reflexivity).
  destruct (now grave) as [| | |v]; [done|done|done|]. by exists v.
Qed.

Lemma life_refines_calls_witness :
  length (history grave) = 9%nat /\
  exists v m, now grave = Gone v /\
    calls 1 (history grave) (born 1 absent_members 69) = (set_cfg (seq_config m) v, life_trace grave).
Proof.
  split; [vm_compute; reflexivity|]. destruct grave_gone as [v Hv].
  pose proof (life_refines_calls 1 69 absent_members tt True False absent_ok grave grave_reachable) as H.
  rewrite Hv in H. destruct H as [m H]. exists v, m. exact (conj Hv H).
Defined.

Lemma destroyed_clean_witness :
  length (all_done grave) = 1%nat /\ open_socks (life_trace grave) = [] /\
  Forall (fun e => open_socks (w_trace e.2) = []) (all_done grave).
Proof.
  split; [vm_compute; reflexivity|]. destruct grave_gone as [v Hv].
  destruct (destroyed_clean 1 69 absent_members tt True False absent_ok grave v grave_reachable Hv)
    as (_ & _ & Ho & _ & Hd).
  exact (conj Ho (Hd I)).
Defined.
