(* ===== verification/StopTwice.v ===== *)
(** * Several callers of [Stop]

    [Stop] tests and resets [running_] in two steps and closes the socket in
    three.  Here any number of threads call it at the same time, each step by
    itself; what happens under [thread_pool_mutex_] is the [Stop] of [System].
    The mutex keeps the shutdown of the pool to one caller; the rest of [Stop]
    is not protected. *)

From Stdlib Require Import ZArith Lia Strings.Byte.
From stdpp Require Import base tactics numbers list gmap strings.
From S2P Require Import Prelude Common Files ThreadPool Net Transfer Server System SystemFacts.

(** ** Callers *)

Inductive stop_pc :=
  | PTest                (* before [if (!running_) return;] *)
  | PClear               (* before [running_ = false;] *)
  | PInside (k : kpc)    (* the block of the [lock_guard] *)
  | PCheckFd             (* before [if (sockfd_ >= 0)] *)
  | PClose               (* before [CLOSESOCKET(sockfd_);] *)
  | PForget              (* before [sockfd_ = -1;] *)
  | PJoinable            (* before [if (server_thread_.joinable())] *)
  | PJoin                (* in [server_thread_.join();] *)
  | PReturned
  | PThrown.             (* [join] found no thread *)

#[global] Instance stop_pc_eq_dec : EqDecision stop_pc.
Proof. solve_decision. Defined.

Record stops (FS : Type) := Stops {
  sys : system FS;
  callers : gmap nat stop_pc;
}.
Arguments Stops {FS}.
Arguments sys {FS}.
Arguments callers {FS}.

Section stops.
Context {FS : Type}.
Implicit Types (y : system FS) (s : stops FS).

(** The next step of one caller. *)
Definition stop_step (k : stop_pc) y : option (system FS * stop_pc) :=
  let v := impl y in
  match k with
  | PTest => Some (y, if running_ v then PClear else PReturned)
  | PClear => Some (set_impl (set_running false v) y, PInside KFlagged)
  | PInside k =>
      option_map (fun y' => (y', match stopper y' with KClose => PCheckFd | k' => PInside k' end))
        (Stop (set_stopper k y))
  | PCheckFd => Some (y, if 0 <=? sockfd_ v then PClose else PJoinable)
  | PClose => Some (add_trace [EvClose (sockfd_ v)] y, PForget)
  | PForget => Some (set_impl (set_sockfd (-1) v) y, PJoinable)
  | PJoinable => Some (y, if server_thread_ v then PJoin else PReturned)
  | PJoin =>
      if server_thread_ v then
        match loop y with
        | LEnd => Some (set_impl (set_thread false v) y, PReturned)
        | _ => None
        end
      else Some (y, PThrown)
  | PReturned | PThrown => None
  end.

Inductive stops_turn :=
  | TOther (u : sys_turn)      (* a thread of the server *)
  | TCall (i : nat)            (* thread [i] calls [Stop] *)
  | TStep (i : nat).

Definition stops_move (u : stops_turn) s : option (stops FS) :=
  match u with
  | TOther SStop => None
  | TOther u => option_map (fun y => Stops y (callers s)) (sys_move u (sys s))
  | TCall i =>
      match callers s !! i with
      | None | Some PReturned => Some (Stops (sys s) (<[i := PTest]> (callers s)))
      | Some _ => None
      end
  | TStep i =>
      match callers s !! i with
      | Some k => option_map (fun r => Stops r.1 (<[i := r.2]> (callers s))) (stop_step k (sys s))
      | None => None
      end
  end.

Fixpoint stops_moves (us : list stops_turn) s : option (stops FS) :=
  match us with
  | [] => Some s
  | u :: us' => match stops_move u s with Some s' => stops_moves us' s' | None => None end
  end.

Inductive stops_reachable (v : TftpServerImpl FS) : stops FS -> Prop :=
  | stops_init : stops_reachable v (Stops (started_system v) ∅)
  | stops_go u s s' : stops_reachable v s -> stops_move u s = Some s' -> stops_reachable v s'.

Lemma stops_moves_reachable v us s s' :
  stops_reachable v s -> stops_moves us s = Some s' -> stops_reachable v s'.
Proof using.
  revert s. induction us as [|u us IH]; intros s Hr Hs; simpl in Hs; [congruence|].
  destruct (stops_move u s) as [s1|] eqn:E; [|done]. eapply IH; [|done]. by eapply stops_go.
Qed.

(** ** The mutex *)

(** Where a caller and the server thread hold [thread_pool_mutex_]. *)
Definition caller_holds (k : stop_pc) : bool :=
  match k with PInside KLocked | PInside KShutdown | PInside KReset => true | _ => false end.
Definition loop_holds (l : lpc) : bool :=
  match l with LLocked _ | LSubmit _ | LSubmitting | LUnlock => true | _ => false end.

(** A caller inside the block is at one of its points. *)
Definition caller_ok (k : stop_pc) : bool :=
  match k with PInside KFlagged => true | PInside _ => caller_holds k | _ => true end.

Record mutex_inv s : Prop := MutexInv {
  mi_ok : forall i k, callers s !! i = Some k -> caller_ok k = true;
  mi_loop : thread_pool_mutex_ (sys s) = Some MLoop <-> loop_holds (loop (sys s)) = true;
  mi_held : forall i k, callers s !! i = Some k -> caller_holds k = true ->
    thread_pool_mutex_ (sys s) = Some MStop;
  mi_one : forall i j k k', callers s !! i = Some k -> callers s !! j = Some k' ->
    caller_holds k = true -> caller_holds k' = true -> i = j;
}.

(** What a step does to the mutex: nothing, take it or release it. *)
Lemma caller_step k y y' k' :
  caller_ok k = true -> stop_step k y = Some (y', k') ->
  caller_ok k' = true /\ loop y' = loop y /\
  (thread_pool_mutex_ y' = thread_pool_mutex_ y /\ caller_holds k' = caller_holds k \/
   thread_pool_mutex_ y = None /\ thread_pool_mutex_ y' = Some MStop /\ caller_holds k = false \/
   thread_pool_mutex_ y' = None /\ caller_holds k = true /\ caller_holds k' = false).
Proof using.
  intros Hok H. destruct k as [| |k| | | | | | |]; simpl in H; try done.
  - injection H as <- <-. destruct (running_ (impl y)); eauto 6.
  - injection H as <- <-. eauto 6.
  - destruct k; try done; unfold Stop in H; simpl in H.
    + unfold take_mutex in H. simpl in H. destruct (thread_pool_mutex_ y) eqn:E; [done|].
      injection H as <- <-. simpl. eauto 8.
    + injection H as <- <-. destruct (thread_pool_ (impl y)); simpl; eauto 8.
    + unfold pool_move in H. simpl in H. destruct (thread_pool_ (impl y)) as [p|]; [|done]. simpl in H.
      destruct (Shutdown p) as [p'|]; [|done]. injection H as <- <-. unfold after_shutdown. simpl.
      destruct (bool_decide _); simpl; eauto 6.
    + injection H as <- <-. simpl. eauto 8.
  - injection H as <- <-. destruct (0 <=? _); eauto 6.
  - injection H as <- <-. eauto 6.
  - injection H as <- <-. eauto 6.
  - injection H as <- <-. destruct (server_thread_ (impl y)); eauto 6.
  - destruct (server_thread_ (impl y)); [|injection H as <- <-; eauto 6].
    destruct (loop y) eqn:E; try done. injection H as <- <-. eauto 6.
Qed.

Lemma pool_move_mutex f y y' :
  pool_move f y = Some y' -> thread_pool_mutex_ y' = thread_pool_mutex_ y /\ loop (FS := FS) y' = loop y.
Proof using.
  unfold pool_move. destruct (thread_pool_ (impl y)) as [p|]; [|done].
  destruct (f p); [|done]. by intros [= <-].
Qed.

Lemma submit_mutex t j y y' :
  option_map after_submit (pool_move (Submit t j) y) = Some y' ->
  thread_pool_mutex_ y' = thread_pool_mutex_ y /\
  (loop (FS := FS) y' = loop y \/ loop_holds (loop y') = true).
Proof using.
  destruct (pool_move (Submit t j) y) as [y1|] eqn:E; [|done]. intros [= <-].
  apply pool_move_mutex in E as [<- <-]. unfold after_submit.
  destruct (thread_pool_ (impl y1)) as [p|]; simpl; [|eauto]. split; [done|]. right. by destruct (submitter p).
Qed.

Lemma other_step u y y' :
  u <> SStop -> sys_move u y = Some y' ->
  (thread_pool_mutex_ y = Some MLoop <-> loop_holds (loop y) = true) ->
  (thread_pool_mutex_ y' = Some MLoop <-> loop_holds (loop y') = true) /\
  (thread_pool_mutex_ y = Some MStop -> thread_pool_mutex_ (FS := FS) y' = Some MStop).
Proof using.
  intros Hu H Hl. destruct u as [i|i|j|rx|]; [| | | |done]; simpl in H.
  1-2: by apply pool_move_mutex in H as [-> ->].
  - unfold ServerLoop in H. destruct (loop y) as [| |fd|t|t|t| | |] eqn:E; try done; simpl in Hl.
    + injection H as <-. by destruct (running_ (impl y)).
    + by injection H as <-.
    + unfold take_mutex in H. destruct (thread_pool_mutex_ y); [done|]. by injection H as <-.
    + injection H as <-. destruct (thread_pool_ (impl y)) as [p|]; [destruct (IsShuttingDown p)|]; done.
    + apply submit_mutex in H as [-> [->| ->]]; [by rewrite E|done].
    + apply submit_mutex in H as [-> [->| ->]]; [by rewrite E|done].
    + injection H as <-. simpl. destruct Hl as [_ Hl]. rewrite Hl by done. done.
  - unfold recv_returns in H. destruct (loop y); try done. injection H as <-.
    by destruct (stored_request rx).
Qed.

Lemma mutex_inv_move u s s' : mutex_inv s -> stops_move u s = Some s' -> mutex_inv s'.
Proof using.
  intros [Hok Hl Hh H1] H. destruct u as [u|i|i]; simpl in H.
  - assert (Hu : u <> SStop /\ exists y, sys_move u (sys s) = Some y /\ s' = Stops y (callers s)).
    { destruct u; try done; destruct (sys_move _ (sys s)) as [y|] eqn:E; try done; injection H as <-; eauto. }
    destruct Hu as (Hu & y & Hy & ->). destruct (other_step _ _ _ Hu Hy Hl) as [Hl' Hs].
    constructor; simpl; eauto.
  - assert (Hs : s' = Stops (sys s) (<[i := PTest]> (callers s)))
      by (destruct (callers s !! i) as [[]|]; congruence). subst s'.
    constructor; simpl; [|done|..].
    + intros j k [[_ <-]|[_ Hj]]%lookup_insert_Some; [done|eauto].
    + intros j k [[_ <-]|[_ Hj]]%lookup_insert_Some; [done|eauto].
    + intros j1 j2 k k' [[_ <-]|[_ Hj]]%lookup_insert_Some [[_ <-]|[_ Hj']]%lookup_insert_Some; try done. eauto.
  - destruct (callers s !! i) as [k|] eqn:Hi; [|done].
    destruct (stop_step k (sys s)) as [[y k']|] eqn:Ey; [|done]. injection H as <-. simpl.
    destruct (caller_step _ _ _ _ (Hok _ _ Hi) Ey) as (Hok' & Hloop & Hm). constructor; simpl.
    + intros j kj [[_ <-]|[_ Hj]]%lookup_insert_Some; eauto.
    + rewrite Hloop. destruct Hm as [[-> _]|[(E & -> & _)|(-> & Hk & _)]]; [done|by rewrite <- Hl, E|].
      rewrite <- Hl. by rewrite (Hh _ _ Hi Hk).
    + intros j kj [[_ <-]|[Hne Hj]]%lookup_insert_Some Hk.
      * destruct Hm as [[-> E]|[(_ & -> & _)|(_ & _ & E)]]; [|done|congruence]. rewrite E in Hk. eauto.
      * destruct Hm as [[-> _]|[(_ & -> & _)|(_ & E & _)]]; [eauto|done|].
        by destruct Hne; eapply H1.
    + assert (Hother : forall j kj, j <> i -> callers s !! j = Some kj -> caller_holds k' = true ->
        caller_holds kj = true -> False).
      { intros j kj Hne Hj Hk Hkj. destruct Hm as [[_ E]|[(E & _)|(_ & _ & E)]]; [|by rewrite (Hh _ _ Hj Hkj) in E|congruence].
        rewrite E in Hk. by destruct Hne; eapply H1. }
      intros j1 j2 k1 k2 [[<- <-]|[Hn1 Hj1]]%lookup_insert_Some [[<- <-]|[Hn2 Hj2]]%lookup_insert_Some Hk1 Hk2;
        [done|exfalso; eauto|exfalso; eauto|eauto].
Qed.

(** However many threads call [Stop], one at a time is inside the block that shuts
    the pool down. *)
Lemma one_caller_inside v s i j k k' :
  stops_reachable v s -> callers s !! i = Some k -> callers s !! j = Some k' ->
  caller_holds k = true -> caller_holds k' = true -> i = j.
Proof using.
  intros Hr. assert (Hinv : mutex_inv s); [|apply Hinv].
  induction Hr as [|u s s' _ IH H]; [|by eapply mutex_inv_move].
  constructor; simpl; try done.
Qed.

(** A call that finds [running_] reset returns without waiting for the one that
    reset it. *)
Lemma late_stop_returns s i :
  callers s !! i = Some PTest -> running_ (impl (sys s)) = false ->
  stops_move (TStep i) s = Some (Stops (sys s) (<[i := PReturned]> (callers s))).
Proof using. intros Hi Hr. simpl. rewrite Hi. simpl. by rewrite Hr. Qed.
End stops.

(** ** Two callers at the same time *)

Definition both_stop : list stops_turn :=
  [TCall 1; TCall 2; TStep 1; TStep 2; TStep 1; TStep 2] ++ replicate 4 (TStep 1) ++
  [TOther (SWorker 0)] ++ replicate 5 (TStep 1) ++ replicate 3 (TStep 2) ++
  [TStep 1; TStep 1; TStep 2; TStep 1; TStep 2; TStep 1; TStep 2; TOther (SLoop 0); TStep 1; TStep 2].

(** C24: two threads that call [Stop] at the same time can both get past its test of
    [running_]: from every started server with one worker an interleaving lets
    both close the same descriptor, which may belong to someone else by then,
    and both join the same thread; the second [join] throws. *)
Theorem two_stops_race {FS : Type} (v0 : TftpServerImpl FS) h :
  started_impl v0 h 1 ->
  exists s, stops_reachable v0 s /\
    sys_trace (sys s) = [EvClose (sockfd_ v0); EvClose (sockfd_ v0)] /\
    callers s !! 1%nat = Some PReturned /\ callers s !! 2%nat = Some PThrown.
Proof.
  intros (Hr & Ht & Hfd%Z.leb_le & Hp).
  set (s0 := Stops (started_system v0) ∅).
  exists (default s0 (stops_moves both_stop s0)).
  destruct v0 as [c port fd run th po sz]. simpl in Hr, Ht, Hfd, Hp. subst.
  destruct fd as [|fd|fd]; [| |done].
  all: split; [|split_and!; vm_compute; reflexivity].
  all: eapply (stops_moves_reachable _ both_stop s0); [apply stops_init|vm_compute; reflexivity].
Qed.

(** ** Witness *)

Lemma two_stops_race_witness :
  exists s, stops_reachable demo_impl s /\
    sys_trace (sys s) = [EvClose 3; EvClose 3] /\
    callers s !! 1%nat = Some PReturned /\ callers s !! 2%nat = Some PThrown.
Proof. apply (two_stops_race demo_impl 1 demo_started). Defined.
