(* ===== verification/Futures.v ===== *)
(** * The futures of the thread pool

    [Submit] wraps a function in a [std::packaged_task] that the queue and
    [Submit] itself share, and returns the [std::future] of it
    ([src/internal/tftp_thread_pool.h]).  The shared state of the two is set
    when a worker has called the task, to the value or to the exception, or when
    the last reference to a task that was never called goes away.  Here the
    tasks of [ThreadPool] are the numbers of such states. *)

From Stdlib Require Import ZArith Lia Strings.Byte.
From stdpp Require Import base tactics numbers list gmap strings.
From S2P Require Import Prelude ThreadPool ThreadPoolFacts.

(** ** Shared states *)

Inductive shared_state (A : Type) :=
  | Pending
  | Ready (v : A)
  | Failed (e : exn)
  | Broken.               (* the task is gone: [std::future_errc::broken_promise] *)
Arguments Pending {A}.
Arguments Ready {A}.
Arguments Failed {A}.
Arguments Broken {A}.

(** What calling the task stores. *)
Definition outcome {A} (r : res A) : shared_state A :=
  match r with Ok v => Ready v | Throw e => Failed e end.

(** [future.get()]; [None] while it waits.  The inner [None] is the
    [std::future_error]. *)
Definition future_get {A} (st : shared_state A) : option (option (res A)) :=
  match st with
  | Pending => None
  | Ready v => Some (Some (Ok v))
  | Failed e => Some (Some (Throw e))
  | Broken => Some None
  end.

(** ** The pool with its futures *)

Record fpool (A : Type) := FPool {
  base_pool : pool nat;
  states : gmap nat (shared_state A);
  next_state : nat;
  runs : list (nat * res A);   (* the calls of tasks that have ended *)
  futures : list nat;          (* the futures [Submit] has returned *)
}.
Arguments FPool {A}.
Arguments base_pool {A}.
Arguments states {A}.
Arguments next_state {A}.
Arguments runs {A}.
Arguments futures {A}.

Section futures.
Context {A : Type}.
Implicit Types (p q : pool nat) (s : fpool A) (m : gmap nat (shared_state A)).

Definition new_fpool (hardware num_threads : Z) : fpool A :=
  FPool (TftpThreadPool hardware num_threads) ∅ 0 [] [].

(** The task whose pointer the body of [Submit] still holds after it was queued. *)
Definition held p : option nat :=
  match submitter p with UNotify => last (submitted p) | _ => None end.

(** Tasks that were never called go away. *)
Definition break (ts : list nat) m : gmap nat (shared_state A) :=
  foldr (fun t m => <[t := Broken]> m) m ts.

(** A step of worker [i]; [r] is what the task gives if it is called in it. *)
Definition fut_worker (i : nat) (r : res A) s : option (fpool A) :=
  option_map
    (fun q =>
       match workers_ (base_pool s) !! i with
       | Some (WRunning t) =>
           FPool q (<[t := outcome r]> (states s)) (next_state s) (runs s ++ [(t, r)]) (futures s)
       | _ => FPool q (states s) (next_state s) (runs s) (futures s)
       end)
    (WorkerThread i (base_pool s)).

(** A step of [Submit].  The state is made after the first test of [stopping_];
    when the second test throws, both references go away; at the end the pointer
    of the body goes away, and the future is returned. *)
Definition fut_submit (j : nat) s : option (fpool A) :=
  let p := base_pool s in
  option_map
    (fun q =>
       match submitter p with
       | UIdle =>
           if stopping_ p then FPool q (states s) (next_state s) (runs s) (futures s)
           else FPool q (<[next_state s := Pending]> (states s)) (S (next_state s)) (runs s) (futures s)
       | UChecked _ => FPool q (states s) (next_state s) (runs s) (futures s)
       | ULocked t =>
           FPool q (if stopping_ p then break [t] (states s) else states s)
             (next_state s) (runs s) (futures s)
       | UNotify =>
           let ts := option_list (held p) in
           FPool q (break (filter (fun t => t ∈ dropped p) ts) (states s))
             (next_state s) (runs s) (futures s ++ ts)
       end)
    (Submit (next_state s) j p).

(** A step of [Shutdown]: the queue it empties held the last reference, unless
    [Submit] has not returned yet. *)
Definition fut_shutdown s : option (fpool A) :=
  let p := base_pool s in
  option_map
    (fun q =>
       match shutdown p with
       | SClearLocked =>
           FPool q (break (filter (fun t => held p <> Some t) (tasks_ p)) (states s))
             (next_state s) (runs s) (futures s)
       | _ => FPool q (states s) (next_state s) (runs s) (futures s)
       end)
    (Shutdown p).

Inductive fut_turn := FWorker (i : nat) (r : res A) | FSubmit (j : nat) | FShutdown | FSpurious (i : nat).

Definition fut_move (u : fut_turn) s : option (fpool A) :=
  match u with
  | FWorker i r => fut_worker i r s
  | FSubmit j => fut_submit j s
  | FShutdown => fut_shutdown s
  | FSpurious i =>
      option_map (fun q => FPool q (states s) (next_state s) (runs s) (futures s))
        (spurious_wake i (base_pool s))
  end.

Inductive fut_reachable (s0 : fpool A) : fpool A -> Prop :=
  | fut_init : fut_reachable s0 s0
  | fut_step u s s' : fut_reachable s0 s -> fut_move u s = Some s' -> fut_reachable s0 s'.

Fixpoint fut_schedule (us : list fut_turn) s : option (fpool A) :=
  match us with
  | [] => Some s
  | u :: us' => match fut_move u s with Some s' => fut_schedule us' s' | None => None end
  end.
End futures.
Arguments fut_turn : clear implicits.

(** ** Where the tasks are *)

Section invariant.
Context {A : Type}.
Implicit Types (p q : pool nat) (s : fpool A) (m : gmap nat (shared_state A)).

(** The task of a [Submit] that has not queued it yet. *)
Definition hand (u : upc nat) : list nat := match u with UChecked t | ULocked t => [t] | _ => [] end.

(** The tasks that can still be called. *)
Definition live p : list nat := flat_map in_flight (workers_ p) ++ tasks_ p ++ hand (submitter p).

Lemma break_lookup ts m t :
  break ts m !! t = if decide (t ∈ ts) then Some Broken else m !! t.
Proof using.
  induction ts as [|x ts IH]; [done|]. simpl. destruct (decide (x = t)) as [->|Hne].
  - rewrite lookup_insert_eq, decide_True; [done|by left].
  - rewrite lookup_insert_ne, IH by done. apply decide_ext. set_solver.
Qed.

(** A step that moves no task. *)
Definition stays_put p q : Prop :=
  live q ≡ₚ live p /\ finished q = finished p /\ dropped q = dropped p.

Lemma put_worker p q i w w' :
  workers_ p !! i = Some w -> workers_ q = <[i := w']> (workers_ p) ->
  in_flight w ++ tasks_ p ≡ₚ in_flight w' ++ tasks_ q -> submitter q = submitter p ->
  finished q = finished p -> dropped q = dropped p -> stays_put p q.
Proof using.
  intros Hw Hq Ht Hs Hf Hd. destruct (perm_update in_flight p i w w' Hw) as (k & E1 & E2).
  split_and!; [|done..]. unfold live. rewrite Hq, Hs, E1, E2, <- !app_assoc.
  rewrite (Permutation_app_swap_app (in_flight w')), (Permutation_app_swap_app (in_flight w)).
  f_equiv. rewrite !app_assoc. by rewrite Ht.
Qed.

Lemma worker_put i p q :
  WorkerThread i p = Some q ->
  match workers_ p !! i with
  | Some (WRunning t) =>
      live p ≡ₚ t :: live q /\ finished q = finished p ++ [t] /\ dropped q = dropped p
  | _ => stays_put p q
  end /\ submitter q = submitter p /\ submitted q = submitted p.
Proof using.
  unfold WorkerThread. destruct (workers_ p !! i) as [w|] eqn:Hw; [|done].
  destruct w; try done.
  - intros [= <-]. split; [|done]. by eapply put_worker; [done..| |done|done|done]; destruct (stopping_ p).
  - intros [_ ->]%with_lock_Some. split; [|done]. by eapply put_worker.
  - intros [= <-]. split; [|done]. by eapply put_worker; [done..| |done|done|done]; destruct (_ || _).
  - intros [= <-]. split; [|done]. by eapply put_worker.
  - intros [_ ->]%with_lock_Some. split; [|done]. by eapply put_worker.
  - destruct (tasks_ p) as [|t ts] eqn:Et; intros [= <-]; (split; [|done]).
    + eapply put_worker; [done..| |done|done|done]. simpl. rewrite Et. by destruct (stopping_ p).
    + eapply put_worker; [done..| |done|done|done]. simpl. by rewrite Et.
  - intros [= <-]. split; [|done]. by eapply put_worker.
  - intros [= <-]. split; [|done]. split_and!; [|done..].
    destruct (perm_update in_flight p i (WRunning t) (WEnded t) Hw) as (k & E1 & E2).
    unfold live. simpl. by rewrite E1, E2.
  - intros [= <-]. split; [|done]. by eapply put_worker.
Qed.

Lemma spurious_put i p q :
  spurious_wake i p = Some q -> stays_put p q /\ submitter q = submitter p /\ submitted q = submitted p.
Proof using. intros [Hw ->]%spurious_wake_Some. split; [|done]. by eapply put_worker. Qed.

Lemma submit_put t j p q :
  Submit t j p = Some q ->
  match submitter p with
  | UIdle => if stopping_ p then stays_put p q /\ submitter q = UIdle
             else live q ≡ₚ t :: live p /\ finished q = finished p /\ dropped q = dropped p /\
                  submitter q = UChecked t
  | UChecked u => stays_put p q /\ submitter q = ULocked u
  | ULocked u => if stopping_ p
                 then live p ≡ₚ u :: live q /\ finished q = finished p /\ dropped q = dropped p /\
                      submitter q = UIdle
                 else stays_put p q /\ submitter q = UNotify
  | UNotify => stays_put p q /\ submitter q = UIdle
  end.
Proof using.
  unfold Submit, stays_put, live. destruct (submitter p) as [|u|u|] eqn:Eu.
  - intros [= <-]. destruct (stopping_ p); simpl; [by rewrite Eu|]. split_and!; [|done..]. simpl.
    rewrite !app_assoc, app_nil_r. by rewrite Permutation_app_comm.
  - intros [_ ->]%with_lock_Some. by split_and!.
  - intros [= <-]. destruct (stopping_ p); simpl; split_and!; try done.
    + rewrite !app_assoc, app_nil_r. by rewrite Permutation_app_comm.
    + by rewrite app_nil_r, !app_assoc.
  - destruct (notify_one j p) as [q'|] eqn:E; [|done]. intros [= <-].
    apply notify_one_Some in E as [[_ ->]|[Hw ->]]; simpl; [done|].
    destruct (perm_update in_flight p j WWaiting WWake Hw) as (k & E1 & E2). split_and!; try done.
    by rewrite E1, E2.
Qed.

Lemma shutdown_put p q :
  Shutdown p = Some q ->
  (if decide (shutdown p = SClearLocked)
   then live p ≡ₚ tasks_ p ++ live q /\ finished q = finished p /\ dropped q = dropped p ++ tasks_ p
   else stays_put p q) /\ submitter q = submitter p /\ submitted q = submitted p.
Proof using.
  unfold Shutdown. destruct (shutdown p) as [| |k| | |]; try done.
  - by intros [= <-].
  - intros [= <-]. split; [|done]. simpl. unfold stays_put, live. simpl. by rewrite flat_map_wake.
  - destruct (workers_ p !! k) as [[]|]; try done; by intros [= <-].
  - by intros [_ ->]%with_lock_Some.
  - intros [= <-]. split; [|done]. simpl. split_and!; [|done..]. unfold live. simpl.
    by rewrite Permutation_app_swap_app.
Qed.

(** ** The invariant *)

Context (h n : Z).

Record fut_inv s : Prop := FutInv {
  fi_pool : reachable (TftpThreadPool h n) (base_pool s);
  fi_nodup : NoDup (finished (base_pool s) ++ live (base_pool s) ++ dropped (base_pool s));
  fi_fresh : forall t, t ∈ finished (base_pool s) ++ live (base_pool s) ++ dropped (base_pool s) ->
    (t < next_state s)%nat;
  fi_runs : map fst (runs s) = finished (base_pool s);
  fi_ran : forall t r, (t, r) ∈ runs s -> states s !! t = Some (outcome r);
  fi_live : forall t, t ∈ live (base_pool s) -> states s !! t = Some Pending;
  fi_dropped : forall t, t ∈ dropped (base_pool s) ->
    states s !! t = Some (if decide (held (base_pool s) = Some t) then Pending else Broken);
  fi_futures : futures s ++ option_list (held (base_pool s)) = submitted (base_pool s);
}.

Lemma fut_inv_init : fut_inv (new_fpool h n).
Proof using.
  assert (Hl : live (TftpThreadPool h n) = []).
  { unfold live. simpl. by rewrite replicate_flat_map. }
  constructor; simpl; rewrite ?Hl; try done; [apply reach_init|constructor|..];
    by intros * ?%not_elem_of_nil.
Qed.

Lemma ran_finished s t r : fut_inv s -> (t, r) ∈ runs s -> t ∈ finished (base_pool s).
Proof using. intros Hi Hr. rewrite <- (fi_runs _ Hi). apply (list_elem_of_fmap_2 fst _ _ Hr). Qed.

(** The list of the invariant, seen as a set. *)
Lemma places_perm p q : stays_put p q ->
  finished q ++ live q ++ dropped q ≡ₚ finished p ++ live p ++ dropped p.
Proof using. intros (E1 & -> & ->). by rewrite E1. Qed.

Lemma fut_inv_same s q :
  fut_inv s -> step (base_pool s) q -> stays_put (base_pool s) q ->
  held q = held (base_pool s) -> submitted q = submitted (base_pool s) ->
  fut_inv (FPool q (states s) (next_state s) (runs s) (futures s)).
Proof using.
  intros [] Hs Hp Hh Hsub. pose proof (places_perm _ _ Hp) as Hpl. destruct Hp as (El & Ef & Ed).
  constructor; simpl; rewrite ?Hh, ?Hsub, ?Ef, ?Ed in *; try done.
  - by eapply reach_step.
  - by rewrite Hpl.
  - intros t. rewrite Hpl. apply fi_fresh0.
  - intros t. rewrite El. apply fi_live0.
Qed.

Lemma same_held p q : submitter q = submitter p -> submitted q = submitted p -> held q = held p.
Proof using. unfold held. by intros -> ->. Qed.

Lemma fut_inv_worker i r s s' : fut_inv s -> fut_worker i r s = Some s' -> fut_inv s'.
Proof using.
  intros Hi. unfold fut_worker. destruct (WorkerThread i (base_pool s)) as [q|] eqn:E; [|done].
  intros [= <-]. apply worker_put in E as Hw. destruct Hw as (Hw & Hu & Hsub).
  assert (Hstep : step (base_pool s) q) by (by eapply step_worker).
  pose proof (same_held _ _ Hu Hsub) as Hh.
  destruct (workers_ (base_pool s) !! i) as [[| | | | | | | |t| |]|]; try (by apply fut_inv_same).
  destruct Hw as (El & Ef & Ed). pose proof Hi as [].
  assert (Hperm : finished q ++ live q ++ dropped q ≡ₚ
    finished (base_pool s) ++ live (base_pool s) ++ dropped (base_pool s)).
  { rewrite El, Ef, Ed, <- app_assoc. done. }
  assert (Hnot : t ∉ finished (base_pool s) /\ t ∉ live q /\ t ∉ dropped q).
  { rewrite <- Hperm, Ef, <- app_assoc in fi_nodup0. apply NoDup_app in fi_nodup0 as (_ & H1 & H2).
    simpl in *. apply NoDup_cons in H2 as [H2 _]. rewrite elem_of_app in H2.
    split; [|naive_solver]. intros H. apply (H1 t H). by left. }
  destruct Hnot as (N1 & N2 & N3). constructor; simpl; rewrite ?Hh, ?Hsub; try done.
  - by eapply reach_step.
  - by rewrite Hperm.
  - intros t'. rewrite Hperm. apply fi_fresh0.
  - by rewrite map_app, fi_runs0, Ef.
  - intros t' r' [Hr|Hr%list_elem_of_singleton]%elem_of_app.
    + rewrite lookup_insert_ne; [by apply fi_ran0|]. intros <-. by eapply N1, ran_finished.
    + injection Hr as -> ->. by rewrite lookup_insert_eq.
  - intros t' Ht. rewrite lookup_insert_ne by (intros <-; done). apply fi_live0. rewrite El. by right.
  - intros t' Ht. rewrite lookup_insert_ne by (intros <-; done). apply fi_dropped0. by rewrite <- Ed.
Qed.

Lemma fut_inv_shutdown s s' : fut_inv s -> fut_shutdown s = Some s' -> fut_inv s'.
Proof using.
  intros Hi. unfold fut_shutdown. destruct (Shutdown (base_pool s)) as [q|] eqn:E; [|done].
  intros [= <-]. apply shutdown_put in E as Hs. destruct Hs as (Hs & Hu & Hsub).
  assert (Hstep : step (base_pool s) q) by (by eapply step_shutdown).
  pose proof (same_held _ _ Hu Hsub) as Hh.
  destruct (shutdown (base_pool s)) eqn:Ek; simpl in Hs; try (by apply fut_inv_same).
  destruct Hs as (El & Ef & Ed). pose proof Hi as [].
  assert (Hperm : finished q ++ live q ++ dropped q ≡ₚ
    finished (base_pool s) ++ live (base_pool s) ++ dropped (base_pool s)).
  { rewrite El, Ef, Ed. f_equiv. rewrite (Permutation_app_comm (tasks_ _)), <- app_assoc.
    by rewrite (Permutation_app_comm (tasks_ _)). }
  assert (Hnot : forall t, t ∈ tasks_ (base_pool s) ->
    t ∉ finished (base_pool s) /\ t ∉ live q /\ t ∉ dropped (base_pool s)).
  { intros t Ht. rewrite El, <- app_assoc in fi_nodup0. apply NoDup_app in fi_nodup0 as (_ & H1 & H2).
    apply NoDup_app in H2 as (_ & H2 & _). specialize (H2 t Ht). rewrite elem_of_app in H2.
    split; [|naive_solver]. intros H. apply (H1 t H). apply elem_of_app. by left. }
  constructor; simpl; rewrite ?Hh, ?Hsub, ?Ef; try done.
  - by eapply reach_step.
  - by rewrite <- Ef, Hperm.
  - intros t'. rewrite <- Ef, Hperm. apply fi_fresh0.
  - intros t r Hr. rewrite break_lookup, decide_False; [by apply fi_ran0|].
    intros [_ Ht]%list_elem_of_filter. apply (proj1 (Hnot t Ht)). by eapply ran_finished.
  - intros t Ht. rewrite break_lookup, decide_False;
      [|intros [_ Hq]%list_elem_of_filter; by destruct (Hnot t Hq) as (_ & ? & _)].
    apply fi_live0. rewrite El. apply elem_of_app. by right.
  - intros t. rewrite Ed, elem_of_app, break_lookup. intros Ht.
    destruct (decide (t ∈ tasks_ (base_pool s))) as [Hin|Hin].
    + destruct (decide (held (base_pool s) = Some t)) as [Hd|Hd].
      * rewrite decide_False; [|by intros [? _]%list_elem_of_filter]. apply fi_live0. rewrite El.
        apply elem_of_app. by left.
      * by rewrite decide_True by (by apply list_elem_of_filter).
    + rewrite decide_False; [|by intros [_ ?]%list_elem_of_filter]. apply fi_dropped0. by destruct Ht.
Qed.

(** [Submit], by where it is. *)
Lemma fut_inv_new s q :
  fut_inv s -> step (base_pool s) q -> submitter (base_pool s) = UIdle -> submitted q = submitted (base_pool s) ->
  live q ≡ₚ next_state s :: live (base_pool s) -> finished q = finished (base_pool s) ->
  dropped q = dropped (base_pool s) -> submitter q = UChecked (next_state s) ->
  fut_inv (FPool q (<[next_state s := Pending]> (states s)) (S (next_state s)) (runs s) (futures s)).
Proof using.
  intros Hi Hstep Hu Hsub El Ef Ed Hu'. pose proof Hi as [].
  assert (Hh : held q = None /\ held (base_pool s) = None) by (unfold held; by rewrite Hu, Hu').
  destruct Hh as [Hq Hp].
  assert (Hnew : next_state s ∉ finished (base_pool s) ++ live (base_pool s) ++ dropped (base_pool s)).
  { intros H%fi_fresh0. lia. }
  assert (Hperm : finished q ++ live q ++ dropped q ≡ₚ
    next_state s :: finished (base_pool s) ++ live (base_pool s) ++ dropped (base_pool s)).
  { rewrite El, Ef, Ed. simpl. by rewrite <- Permutation_middle. }
  assert (Hother : forall t, t ∈ finished (base_pool s) ++ live (base_pool s) ++ dropped (base_pool s) ->
    <[next_state s := Pending]> (states s) !! t = states s !! t).
  { intros t Ht. apply lookup_insert_ne. intros <-. done. }
  constructor; simpl; rewrite ?Hq, ?Hsub, ?Hp in *; try done.
  - by eapply reach_step.
  - rewrite Hperm. by apply NoDup_cons.
  - intros t. rewrite Hperm. intros [->|Ht%fi_fresh0]%elem_of_cons; lia.
  - by rewrite Ef.
  - intros t r Hr. rewrite Hother; [by apply fi_ran0|]. apply elem_of_app. left. by eapply ran_finished.
  - intros t. rewrite El. intros [->|Ht]%elem_of_cons; [by rewrite lookup_insert_eq|].
    rewrite Hother; [by apply fi_live0|]. set_solver.
  - intros t. rewrite Ed. intros Ht. rewrite Hother; [by apply fi_dropped0|]. set_solver.
Qed.

Lemma fut_inv_refused s q t :
  fut_inv s -> step (base_pool s) q -> submitter (base_pool s) = ULocked t ->
  submitted q = submitted (base_pool s) ->
  live (base_pool s) ≡ₚ t :: live q -> finished q = finished (base_pool s) ->
  dropped q = dropped (base_pool s) -> submitter q = UIdle ->
  fut_inv (FPool q (break [t] (states s)) (next_state s) (runs s) (futures s)).
Proof using.
  intros Hi Hstep Hu Hsub El Ef Ed Hu'. pose proof Hi as [].
  assert (Hh : held q = None /\ held (base_pool s) = None) by (unfold held; by rewrite Hu, Hu').
  destruct Hh as [Hq Hp].
  assert (Hperm : finished (base_pool s) ++ live (base_pool s) ++ dropped (base_pool s) ≡ₚ
    t :: finished q ++ live q ++ dropped q).
  { rewrite El, Ef, Ed. simpl. by rewrite <- Permutation_middle. }
  rewrite Hperm in fi_nodup0. apply NoDup_cons in fi_nodup0 as [Hnot Hnd].
  assert (Hother : forall t', t' ∈ finished q ++ live q ++ dropped q ->
    break [t] (states s) !! t' = states s !! t').
  { intros t' Ht. rewrite break_lookup, decide_False; [done|].
    by intros ->%list_elem_of_singleton. }
  constructor; cbn [base_pool states next_state runs futures]; rewrite ?Hq, ?Hsub, ?Hp in *; try done.
  - by eapply reach_step.
  - intros t' Ht. apply fi_fresh0. rewrite Hperm. by right.
  - by rewrite Ef.
  - intros t' r Hr. rewrite Hother; [by apply fi_ran0|]. rewrite Ef. apply elem_of_app. left. by eapply ran_finished.
  - intros t' Ht. rewrite Hother by set_solver. apply fi_live0. rewrite El. by right.
  - intros t' Ht. rewrite Hother by set_solver. apply fi_dropped0. by rewrite <- Ed.
Qed.

Lemma fut_inv_returned s q :
  fut_inv s -> step (base_pool s) q -> submitter (base_pool s) = UNotify -> stays_put (base_pool s) q ->
  submitter q = UIdle -> submitted q = submitted (base_pool s) ->
  fut_inv (FPool q (break (filter (fun t => t ∈ dropped (base_pool s)) (option_list (held (base_pool s)))) (states s))
             (next_state s) (runs s) (futures s ++ option_list (held (base_pool s)))).
Proof using.
  intros Hi Hstep Hu Hp Hu' Hsub. pose proof Hi as [].
  assert (Hq : held q = None) by (unfold held; by rewrite Hu').
  pose proof (places_perm _ _ Hp) as Hperm. destruct Hp as (El & Ef & Ed).
  assert (Hother : forall t', t' ∉ dropped (base_pool s) ->
    break (filter (fun t => t ∈ dropped (base_pool s)) (option_list (held (base_pool s)))) (states s) !! t' = states s !! t').
  { intros t' Ht. rewrite break_lookup, decide_False; [done|]. by intros [? _]%list_elem_of_filter. }
  assert (Hnd := fi_nodup0). apply NoDup_app in Hnd as (_ & N1 & N2). apply NoDup_app in N2 as (_ & N2 & _).
  constructor; cbn [base_pool states next_state runs futures]; rewrite ?Hq, ?Hsub; try done.
  - by eapply reach_step.
  - by rewrite Hperm.
  - intros t'. rewrite Hperm. apply fi_fresh0.
  - by rewrite Ef.
  - intros t' r Hr. rewrite Hother; [by apply fi_ran0|]. intros Hd.
    apply (N1 t'); [by eapply ran_finished|]. apply elem_of_app. by right.
  - intros t'. rewrite El. intros Ht. rewrite Hother; [by apply fi_live0|]. auto.
  - intros t'. rewrite Ed. intros Ht. rewrite break_lookup, (decide_False (P := None = Some t')) by done.
    destruct (decide (held (base_pool s) = Some t')) as [Hd|Hd].
    + rewrite decide_True; [done|]. apply list_elem_of_filter. rewrite Hd. split; [done|]. by left.
    + rewrite decide_False; [rewrite fi_dropped0 by done; by rewrite decide_False|].
      intros [_ Hin]%list_elem_of_filter.
      destruct (held (base_pool s)); [|by apply not_elem_of_nil in Hin].
      apply list_elem_of_singleton in Hin as ->. done.
  - by rewrite app_nil_r.
Qed.

Lemma submit_submitted t j p q :
  Submit t j p = Some q ->
  submitted q = submitted p ++ match submitter p with ULocked u => if stopping_ p then [] else [u] | _ => [] end.
Proof using.
  unfold Submit. destruct (submitter p) as [|u|u|]; rewrite ?app_nil_r.
  - intros [= <-]. by destruct (stopping_ p).
  - by intros [_ ->]%with_lock_Some.
  - intros [= <-]. destruct (stopping_ p); simpl; by rewrite ?app_nil_r.
  - destruct (notify_one j p) as [q'|] eqn:E; [|done]. intros [= <-].
    by apply notify_one_Some in E as [[_ ->]|[_ ->]].
Qed.

Lemma fut_inv_queued s q t :
  fut_inv s -> step (base_pool s) q -> submitter (base_pool s) = ULocked t -> stopping_ (base_pool s) = false ->
  stays_put (base_pool s) q -> submitter q = UNotify -> submitted q = submitted (base_pool s) ++ [t] ->
  fut_inv (FPool q (states s) (next_state s) (runs s) (futures s)).
Proof using.
  intros Hi Hstep Hu Hrun Hp Hu' Hsub. pose proof Hi as []. pose proof (places_perm _ _ Hp) as Hpl.
  destruct Hp as (El & Ef & Ed).
  assert (Hd : dropped (base_pool s) = []).
  { apply pool_inv_reachable in fi_pool0 as (_ & (_ & _ & _ & Hd) & (Hs & _) & _). apply Hd.
    intros E. assert (stopping_ (base_pool s) = true) by (apply Hs; congruence). congruence. }
  constructor; simpl; rewrite ?Hsub, ?Ef, ?Ed in *; try done.
  - by eapply reach_step.
  - by rewrite Hpl.
  - intros t'. rewrite Hpl. apply fi_fresh0.
  - intros t'. rewrite El. apply fi_live0.
  - rewrite Hd. by intros t' ?%not_elem_of_nil.
  - unfold held in *. rewrite Hu', Hsub, last_snoc. rewrite Hu in fi_futures0. simpl in *.
    rewrite app_nil_r in fi_futures0. by rewrite fi_futures0.
Qed.

Lemma fut_inv_submit j s s' : fut_inv s -> fut_submit j s = Some s' -> fut_inv s'.
Proof using.
  intros Hi. unfold fut_submit. destruct (Submit (next_state s) j (base_pool s)) as [q|] eqn:E; [|done].
  intros [= <-]. pose proof (submit_put _ _ _ _ E) as Hp. pose proof (submit_submitted _ _ _ _ E) as Hsub.
  assert (Hstep : step (base_pool s) q) by (by eapply step_submit).
  destruct (submitter (base_pool s)) as [|u|u|] eqn:Eu; rewrite ?app_nil_r in Hsub.
  - destruct (stopping_ (base_pool s)).
    + destruct Hp as [Hp Hu]. apply fut_inv_same; try done. unfold held. by rewrite Hu, Eu.
    + destruct Hp as (El & Ef & Ed & Hu). by apply fut_inv_new.
  - destruct Hp as [Hp Hu]. apply fut_inv_same; try done. unfold held. by rewrite Hu, Eu.
  - destruct (stopping_ (base_pool s)) eqn:Es; rewrite ?app_nil_r in Hsub.
    + destruct Hp as (El & Ef & Ed & Hu). by apply fut_inv_refused.
    + destruct Hp as [Hp Hu]. by eapply fut_inv_queued.
  - destruct Hp as [Hp Hu]. by apply fut_inv_returned.
Qed.

Lemma fut_inv_move u s s' : fut_inv s -> fut_move u s = Some s' -> fut_inv s'.
Proof using.
  intros Hi. destruct u as [i r|j| |i]; simpl.
  - by apply fut_inv_worker.
  - by apply fut_inv_submit.
  - by apply fut_inv_shutdown.
  - destruct (spurious_wake i (base_pool s)) as [q|] eqn:E; [|done]. intros [= <-].
    apply spurious_put in E as Hp. destruct Hp as (Hp & Hu & Hsub).
    apply fut_inv_same; [done|by eapply step_spurious|done|by apply same_held|done].
Qed.

Lemma fut_inv_reachable s : fut_reachable (new_fpool h n) s -> fut_inv s.
Proof using. induction 1 as [|u s s' _ IH H]; [apply fut_inv_init|by eapply fut_inv_move]. Qed.

(** ** Theorems *)

Lemma submitted_places s :
  fut_inv s ->
  submitted (base_pool s) ++ hand (submitter (base_pool s)) ≡ₚ
  finished (base_pool s) ++ live (base_pool s) ++ dropped (base_pool s).
Proof using.
  intros Hi. pose proof (pool_inv_reachable _ _ _ (fi_pool _ Hi)) as (_ & (H1 & H2 & _) & _).
  rewrite H1, H2. unfold live. rewrite <- !app_assoc. do 2 f_equiv.
  by rewrite Permutation_app_comm, <- app_assoc.
Qed.

(** The tasks of all futures, by where they are. *)
Lemma future_places s t :
  fut_inv s -> t ∈ futures s ->
  (exists r, (t, r) ∈ runs s) \/ t ∈ live (base_pool s) \/ t ∈ dropped (base_pool s).
Proof using.
  intros Hi Ht.
  assert (Hs : t ∈ submitted (base_pool s)) by (rewrite <- (fi_futures _ Hi); apply elem_of_app; by left).
  pose proof (pool_inv_reachable _ _ _ (fi_pool _ Hi)) as (_ & (H1 & H2 & _) & _).
  rewrite H1, H2 in Hs. unfold live. rewrite <- (fi_runs _ Hi) in Hs.
  assert (Hr : t ∈ map fst (runs s) -> exists r, (t, r) ∈ runs s).
  { intros ([t' r] & -> & H)%list_elem_of_fmap_1. by exists r. }
  set_solver.
Qed.

Lemma submitted_nodup s :
  fut_inv s -> NoDup (submitted (base_pool s) ++ hand (submitter (base_pool s))).
Proof using. intros Hi. rewrite (submitted_places _ Hi). apply Hi. Qed.

Lemma submitted_known s t :
  fut_inv s -> t ∈ futures s -> t ∉ hand (submitter (base_pool s)) /\ (t < next_state s)%nat.
Proof using.
  intros Hi Ht.
  assert (Hs : t ∈ submitted (base_pool s)) by (rewrite <- (fi_futures _ Hi); apply elem_of_app; by left).
  split; [by apply (NoDup_app (submitted (base_pool s))); [apply submitted_nodup|]|].
  apply (fi_fresh _ Hi). rewrite <- (submitted_places _ Hi). apply elem_of_app. by left.
Qed.

Lemma future_not_held s t : fut_inv s -> t ∈ futures s -> held (base_pool s) <> Some t.
Proof using.
  intros Hi Ht Hh. pose proof (submitted_nodup _ Hi) as (Hn & _)%NoDup_app.
  rewrite <- (fi_futures _ Hi), Hh in Hn. apply NoDup_app in Hn as (_ & Hn & _). apply (Hn t Ht). by left.
Qed.

(** A pool that is shut down has no task left to call. *)
Lemma future_shut s t :
  fut_inv s -> t ∈ futures s -> shutdown (base_pool s) = SReturned -> t ∉ live (base_pool s).
Proof using.
  intros Hi Ht Hs Hl. destruct (submitted_known s t Hi Ht) as [Hhand _].
  pose proof (pool_inv_reachable _ _ _ (fi_pool _ Hi)) as (_ & _ & (_ & _ & Hw & Hq) & _). rewrite Hs in Hw.
  unfold live in Hl. rewrite (Hq Hs), elem_of_app in Hl. destruct Hl as [Hl|Hl]; [|done].
  clear -Hw Hl. induction Hw as [|w ws -> _ IH]; [by apply not_elem_of_nil in Hl|done].
Qed.

(** C25: the futures of a pool: in every interleaving [Submit] has returned one future
    per task, in the order of submission.  A future is ready exactly when its
    task was called, and holds the value or the exception of that one call;
    until then [get] waits; only a task that [Shutdown] has dropped leaves it
    broken; and when [Shutdown] has returned no [get] waits any more. *)
Theorem futures_deliver s t :
  fut_reachable (new_fpool h n) s -> t ∈ futures s ->
  exists st, states s !! t = Some st /\
    (forall r, (t, r) ∈ runs s <-> st = outcome r) /\
    (st = Broken <-> t ∈ dropped (base_pool s)) /\
    (future_get st = None <-> t ∈ live (base_pool s)) /\
    (shutdown (base_pool s) = SReturned -> future_get st <> None) /\
    futures s `prefix_of` submitted (base_pool s) /\ NoDup (map fst (runs s)).
Proof using.
  intros Hi%fut_inv_reachable Ht. pose proof (future_shut s t Hi Ht) as Hshut.
  pose proof (future_places s t Hi Ht) as Hpl. pose proof Hi as [].
  assert (Hpre : futures s `prefix_of` submitted (base_pool s)) by (rewrite <- fi_futures0; by eexists).
  assert (Hnd := fi_nodup0). apply NoDup_app in Hnd as (N0 & N1 & N2). apply NoDup_app in N2 as (_ & N2 & _).
  assert (Nf : forall r, (t, r) ∈ runs s -> t ∉ live (base_pool s) /\ t ∉ dropped (base_pool s)).
  { intros r Hr. pose proof (N1 t (ran_finished _ _ _ Hi Hr)). set_solver. }
  pose proof (future_not_held s t Hi Ht) as Nh.
  rewrite fi_runs0. destruct Hpl as [[r Hr]|[Hl|Hd]].
  - exists (outcome r). destruct (Nf r Hr) as [Nl Nd]. split; [by apply fi_ran0|]. split_and!; try done.
    + intros r'. split; [|intros E; assert (r' = r) as -> by (destruct r, r'; simpl in E; congruence); done].
      intros Hr'. apply fi_ran0 in Hr, Hr'. congruence.
    + by destruct r.
    + by destruct r.
    + by destruct r.
  - exists Pending. split; [by apply fi_live0|]. split_and!; try done.
    + intros r. split; [|by destruct r]. intros Hr. by destruct (Nf r Hr).
    + split; [done|]. intros Hd. by destruct (N2 t Hl).
    + intros Hs. by destruct (Hshut Hs).
  - exists Broken. rewrite fi_dropped0, decide_False by done. split; [done|]. split_and!; try done.
    + intros r. split; [|by destruct r]. intros Hr. by destruct (Nf r Hr).
    + split; [done|]. intros Hl. by destruct (N2 t Hl).
Qed.

(** Only the states of tasks that can still be called, of the task [Submit] holds
    and of a new one change. *)
Lemma move_states u s s' t :
  fut_move u s = Some s' -> t ∉ live (base_pool s) -> held (base_pool s) <> Some t -> t <> next_state s ->
  states s' !! t = states s !! t.
Proof using.
  intros Hm Hl Hh Hn. unfold live in Hl. rewrite !elem_of_app in Hl.
  destruct u as [i r|j| |i]; simpl in Hm.
  - unfold fut_worker in Hm. destruct (WorkerThread _ _); [|done]. injection Hm as <-.
    destruct (workers_ _ !! i) as [[| | | | | | | |t0| |]|] eqn:E; simpl; try done.
    apply lookup_insert_ne. intros ->. apply Hl. left. apply list_elem_of_In, in_flat_map.
    exists (WRunning t). split; [by apply list_elem_of_In; eapply list_elem_of_lookup_2|by left].
  - unfold fut_submit in Hm. destruct (Submit _ _ _); [|done]. injection Hm as <-.
    destruct (submitter (base_pool s)) as [|u|u|] eqn:Eu; simpl; try done.
    + destruct (stopping_ _); simpl; [done|]. by apply lookup_insert_ne.
    + destruct (stopping_ _); simpl; [|done]. apply lookup_insert_ne. intros ->.
      apply Hl. right; right. by left.
    + rewrite break_lookup, decide_False; [done|]. intros [_ Ht]%list_elem_of_filter.
      destruct (held (base_pool s)); [|by apply not_elem_of_nil in Ht].
      by apply list_elem_of_singleton in Ht as ->.
  - unfold fut_shutdown in Hm. destruct (Shutdown _); [|done]. injection Hm as <-.
    destruct (shutdown _); simpl; try done. rewrite break_lookup, decide_False; [done|].
    intros [_ Ht]%list_elem_of_filter. naive_solver.
  - destruct (spurious_wake _ _); [|done]. by injection Hm as <-.
Qed.

(** A shared state is set once. *)
Lemma future_set_once u s s' t st :
  fut_reachable (new_fpool h n) s -> fut_move u s = Some s' ->
  t ∈ futures s -> states s !! t = Some st -> st <> Pending -> states s' !! t = Some st.
Proof using.
  intros Hi%fut_inv_reachable Hm Ht Hst Hne. rewrite <- Hst. eapply move_states; [done|..].
  - intros Hl. rewrite (fi_live _ Hi t Hl) in Hst. congruence.
  - by apply future_not_held.
  - intros ->. destruct (submitted_known s (next_state s) Hi Ht) as [_ Hlt]. lia.
Qed.
End invariant.

(** ** Witnesses *)

Lemma fut_schedule_reachable {A} us (s0 s s' : fpool A) :
  fut_reachable s0 s -> fut_schedule us s = Some s' -> fut_reachable s0 s'.
Proof.
  revert s. induction us as [|u us IH]; intros s Hr H; simpl in H; [congruence|].
  destruct (fut_move u s) as [s1|] eqn:E; [|done]. eapply IH; [|done]. by eapply fut_step.
Qed.

(** One worker: a task that returns, one that throws, and one that comes too
    late. *)
Definition three_tasks : list (fut_turn Z) :=
  replicate 4 (FSubmit 0) ++ replicate 7 (FWorker 0 (Ok 42)) ++
  replicate 4 (FSubmit 0) ++ replicate 7 (FWorker 0 (Throw UserException)) ++
  replicate 4 (FSubmit 0) ++ [FShutdown; FWorker 0 (Ok 0)] ++ replicate 5 FShutdown.
Definition three_done : fpool Z := default (new_fpool 8 1) (fut_schedule three_tasks (new_fpool 8 1)).

Lemma three_reachable : fut_reachable (new_fpool 8 1) three_done.
Proof.
  assert (E : fut_schedule three_tasks (new_fpool 8 1) = Some three_done) by (by vm_compute).
  exact (fut_schedule_reachable _ _ _ _ (fut_init _) E).
Qed.

Example three_results :
  futures three_done = [0; 1; 2]%nat /\
  map (fun t => states three_done !! t ≫= future_get) (futures three_done) =
    [Some (Some (Ok 42)); Some (Some (Throw UserException)); Some None].
Proof. by vm_compute. Qed.

Lemma futures_deliver_witness :
  exists st, states three_done !! 1%nat = Some st /\ forall r, (1%nat, r) ∈ runs three_done <-> st = outcome r.
Proof.
  destruct (futures_deliver 8 1 three_done 1 three_reachable) as (st & Hs & Hr & _).
  - replace (futures three_done) with [0; 1; 2]%nat by (by vm_compute). set_solver.
  - exact (ex_intro _ st (conj Hs Hr)).
Defined.
