(* ===== verification/WinServer.v ===== *)
(** * The server object on Windows

    The branches of [src/internal/tftp_server_impl.cpp] that are compiled on
    Windows only: [Start] calls [WSAStartup] first and [Stop] ends with
    [WSACleanup]; handles are compared with [INVALID_SOCKET].  As in
    [WinSocket] handles are integers and [INVALID_SOCKET] is -1.  The number of
    successful calls of [WSAStartup] not yet undone is part of the state. *)

From Stdlib Require Import ZArith Lia Strings.Byte.
From stdpp Require Import base tactics numbers list gmap strings.
From S2P Require Import Prelude Common StdText Util Validation Files ThreadPool Net Transfer IOFacts Socket Server ServerFacts.

Section windows.
Context `{P : Platform} {FS : Type} `{O : FileOps FS}.
Implicit Types (v : TftpServerImpl FS).

Definition win_make_impl (hardware : Z) (root_dir : bytes) (port : Z) : TftpServerImpl FS :=
  ServerImpl
    (Config (stored_root root_dir) true (1024 * 1024 * 1024) 5 DefaultReadHandler DefaultWriteHandler)
    port kInvalidSocket false false None hardware.

(** [startup] is the answer of [WSAStartup].  The returned flag, the object, the
    socket calls and the uses of the library. *)
Definition win_Start (hardware startup : Z) (a : start_answers) v (uses : Z)
    : bool * TftpServerImpl FS * list event * Z :=
  if running_ v then (true, v, [], uses)
  else if negb (startup =? 0) then (false, v, [], uses)
  else
    let uses := uses + 1 in
    let fd := a_socket a in
    let v1 := ServerImpl (cfg_ v) (port_ v) fd (running_ v) (server_thread_ v) (thread_pool_ v)
                (thread_pool_size_ v) in
    if fd =? kInvalidSocket then (false, v1, [EvSocket fd], uses)
    else if negb (a_setsockopt a) then (false, v1, [EvSocket fd; EvSetsockopt fd 1 (-1); EvClose fd], uses)
    else
      let addr := SockAddr 0 (htons (port_ v)) in
      if negb (a_bind a) then (false, v1, [EvSocket fd; EvSetsockopt fd 1 0; EvBind fd addr false; EvClose fd], uses)
      else
        (true,
         ServerImpl (cfg_ v) (port_ v) fd true true
           (Some (TftpThreadPool hardware (thread_pool_size_ v))) (thread_pool_size_ v),
         [EvSocket fd; EvSetsockopt fd 1 0; EvBind fd addr true], uses).

Definition win_Stop v (uses : Z) : TftpServerImpl FS * list event * Z :=
  if negb (running_ v) then (v, [], uses)
  else
    (ServerImpl (cfg_ v) (port_ v) (if negb (sockfd_ v =? kInvalidSocket) then kInvalidSocket else sockfd_ v)
       false false None (thread_pool_size_ v),
     if negb (sockfd_ v =? kInvalidSocket) then [EvClose (sockfd_ v)] else [],
     uses - 1).

Definition win_IsRunning v : bool :=
  if negb (running_ v) then false
  else if sockfd_ v =? kInvalidSocket then false
  else if negb (server_thread_ v) then false
  else true.

(** A call, with the answer of [WSAStartup] in case it is [Start]. *)
Abbreviation win_api := (Z * @api_call FS)%type.

Definition win_call (hardware : Z) (c : win_api) v (uses : Z) : TftpServerImpl FS * list event * Z :=
  match c.2 with
  | CallStart a => let '(_, v', t, uses') := win_Start hardware c.1 a v uses in (v', t, uses')
  | CallStop => win_Stop v uses
  | _ => (call hardware c.2 v, uses)
  end.

Fixpoint win_calls (hardware : Z) (cs : list win_api) v (uses : Z) : TftpServerImpl FS * list event * Z :=
  match cs with
  | [] => (v, [], uses)
  | c :: cs' =>
      let '(v1, t1, uses1) := win_call hardware c v uses in
      let '(v2, t2, uses2) := win_calls hardware cs' v1 uses1 in
      (v2, t1 ++ t2, uses2)
  end.

(** The same calls on Unix; a [Start] without the library does nothing. *)
Definition unix_calls (c : win_api) : list (@api_call FS) :=
  match c.2 with
  | CallStart _ => if c.1 =? 0 then [c.2] else []
  | _ => [c.2]
  end.

(** [socket] answers a handle or [INVALID_SOCKET]. *)
Definition handle_answers (c : @api_call FS) : Prop :=
  match c with CallStart a => kInvalidSocket <= a_socket a | _ => True end.

(** ** Equivalence with Unix *)

Lemma handle_valid fd : kInvalidSocket <= fd -> (fd =? kInvalidSocket) = (fd <? 0).
Proof using. unfold kInvalidSocket. intros H. lia. Qed.

Lemma win_Start_unix hardware a v uses :
  kInvalidSocket <= a_socket a -> (win_Start hardware 0 a v uses).1 = impl_Start hardware a v.
Proof using.
  intros Ha. unfold win_Start, impl_Start. rewrite (handle_valid _ Ha).
  destruct (running_ v); [done|]. simpl. destruct (a_socket a <? 0); [done|].
  destruct (a_setsockopt a); [|done]. by destruct (a_bind a).
Qed.

Lemma win_Stop_unix v uses :
  kInvalidSocket <= sockfd_ v -> (win_Stop v uses).1 = impl_Stop v.
Proof using.
  intros Hv. unfold win_Stop, impl_Stop. destruct (running_ v); [|done]. simpl.
  rewrite (handle_valid _ Hv). rewrite Z.leb_antisym. by destruct (sockfd_ v <? 0).
Qed.

Lemma handle_kept hardware c v :
  kInvalidSocket <= sockfd_ v -> handle_answers c -> kInvalidSocket <= sockfd_ (call hardware c v).1.
Proof using.
  intros Hv Hc. destruct c as [a| |cb|cb|b|n|n]; simpl.
  - unfold impl_Start. destruct (running_ v); [done|]. destruct (a_socket a <? 0); [done|].
    destruct (a_setsockopt a); [|done]. by destruct (a_bind a).
  - unfold impl_Stop. destruct (running_ v); simpl; [|done]. by destruct (0 <=? sockfd_ v).
  - by destruct cb.
  - by destruct cb.
  - done.
  - unfold SetMaxTransferSize. by destruct (negb _).
  - unfold SetTimeout. by destruct (negb _).
Qed.

Lemma win_call_unix hardware c v uses :
  kInvalidSocket <= sockfd_ v -> handle_answers c.2 ->
  (win_call hardware c v uses).1 = calls hardware (unix_calls c) v /\
  kInvalidSocket <= sockfd_ (win_call hardware c v uses).1.1.
Proof using.
  destruct c as [startup c]. simpl. intros Hv Hc.
  assert (Hone : calls hardware [c] v = call hardware c v).
  { simpl. destruct (call hardware c v) as [v' t]. by rewrite app_nil_r. }
  assert (Hcall : (win_call hardware (startup, c) v uses).1 = call hardware c v ->
    unix_calls (startup, c) = [c] ->
    (win_call hardware (startup, c) v uses).1 = calls hardware (unix_calls (startup, c)) v /\
    kInvalidSocket <= sockfd_ (win_call hardware (startup, c) v uses).1.1).
  { intros -> ->. split; [done|by apply handle_kept]. }
  destruct c as [a| |cb|cb|b|n|n]; try (by apply Hcall).
  - unfold unix_calls, win_call in *. simpl in *. destruct (startup =? 0) eqn:E; bool_cases.
    + subst startup. apply Hcall; [|done]. rewrite <- (win_Start_unix _ _ _ uses Hc).
      by destruct (win_Start _ _ _ _ _) as [[[??]?]?].
    + unfold win_Start. rewrite (proj2 (Z.eqb_neq _ _) E). by destruct (running_ v).
  - apply Hcall; [|done]. by apply win_Stop_unix.
Qed.

Lemma win_calls_unix hardware cs v uses :
  kInvalidSocket <= sockfd_ v -> Forall (fun c => handle_answers c.2) cs ->
  (win_calls hardware cs v uses).1 = calls hardware (flat_map unix_calls cs) v.
Proof using.
  intros Hv Hcs. revert v uses Hv. induction Hcs as [|c cs Hc _ IH]; intros v uses Hv; [done|]. simpl.
  destruct (win_call_unix hardware c v uses Hv Hc) as [E Hv'].
  destruct (win_call hardware c v uses) as [[v1 t1] u1]. simpl in *.
  specialize (IH v1 u1 Hv'). destruct (win_calls hardware cs v1 u1) as [[v2 t2] u2]. simpl in *.
  rewrite calls_app, <- E. by rewrite <- IH.
Qed.

(** ** Uses of the socket library *)

Definition is_socket (e : event) : bool := match e with EvSocket _ => true | _ => false end.
Definition is_bound (e : event) : bool := match e with EvBind _ _ true => true | _ => false end.
Definition count (f : event -> bool) (t : list event) : Z := zlen (List.filter f t).

Lemma count_app f t1 t2 : count f (t1 ++ t2) = count f t1 + count f t2.
Proof using. unfold count. rewrite List.filter_app. apply zlen_app. Qed.

(** The [Start] calls that asked for a socket and failed. *)
Definition failed_starts (t : list event) : Z := count is_socket t - count is_bound t.

Lemma win_call_uses hardware c v uses :
  let '(v', t, uses') := win_call hardware c v uses in
  uses' - Z.b2z (running_ v') = uses - Z.b2z (running_ v) + failed_starts t.
Proof using.
  destruct c as [startup c]. unfold failed_starts, count.
  assert (Hset : forall c, running_ (call hardware c v).1 = running_ v -> (call hardware c v).2 = [] ->
    let '(v', t, uses') := (call hardware c v, uses) in
    uses' - Z.b2z (running_ v') = uses - Z.b2z (running_ v) + (zlen (List.filter is_socket t) - zlen (List.filter is_bound t))).
  { intros c0. destruct (call hardware c0 v) as [v' t]. simpl. intros -> ->. unfold zlen. simpl. lia. }
  destruct c as [a| |cb|cb|b|n|n]; unfold win_call; cbn [snd fst].
  - unfold win_Start, zlen. destruct (running_ v) eqn:Er; simpl; [rewrite ?Er; simpl; lia|].
    destruct (startup =? 0); simpl; [|rewrite ?Er; simpl; lia].
    destruct (a_socket a =? kInvalidSocket); simpl; [rewrite ?Er; simpl; lia|].
    destruct (a_setsockopt a); simpl; [|rewrite ?Er; simpl; lia].
    destruct (a_bind a); simpl; [lia|rewrite ?Er; simpl; lia].
  - unfold win_Stop, zlen. destruct (running_ v) eqn:Er; simpl; [|rewrite ?Er; simpl; lia].
    destruct (negb _); simpl; lia.
  - apply Hset; by destruct cb.
  - apply Hset; by destruct cb.
  - by apply Hset.
  - apply Hset; [|done]. simpl. unfold SetMaxTransferSize. by destruct (negb _).
  - apply Hset; [|done]. simpl. unfold SetTimeout. by destruct (negb _).
Qed.

Lemma win_calls_uses hardware cs v uses :
  let '(v', t, uses') := win_calls hardware cs v uses in
  uses' - Z.b2z (running_ v') = uses - Z.b2z (running_ v) + failed_starts t.
Proof using.
  revert v uses. induction cs as [|c cs IH]; intros v uses; simpl.
  { unfold failed_starts, count, zlen. simpl. lia. }
  pose proof (win_call_uses hardware c v uses) as H1.
  destruct (win_call hardware c v uses) as [[v1 t1] u1].
  specialize (IH v1 u1). destruct (win_calls hardware cs v1 u1) as [[v2 t2] u2].
  unfold failed_starts in *. rewrite !count_app. lia.
Qed.

(** C26: the server object on Windows is the one on Unix: for every sequence of calls
    the object, what [IsRunning] tells and the socket calls are the same, with
    [Start] calls that do not get the socket library left out.  The library is
    in use once while the server runs, and once more, for ever, for every
    [Start] that failed after [WSAStartup]. *)
Theorem win_server_equivalent hardware cs root port v t uses :
  Forall (fun c => handle_answers c.2) cs ->
  win_calls hardware cs (win_make_impl hardware root port) 0 = (v, t, uses) ->
  calls hardware (flat_map unix_calls cs) (make_impl hardware root port) = (v, t) /\
  win_IsRunning v = impl_IsRunning v /\
  uses = Z.b2z (running_ v) + failed_starts t.
Proof using.
  intros Hcs E. pose proof (win_calls_unix hardware cs (win_make_impl hardware root port) 0 ltac:(done) Hcs) as Hu.
  pose proof (win_calls_uses hardware cs (win_make_impl hardware root port) 0) as Huses.
  rewrite E in Hu, Huses. simpl in Hu, Huses. split; [done|]. split; [|lia].
  pose proof (calls_lifecycle hardware (flat_map unix_calls cs) (make_impl hardware root port) [] ltac:(done)) as Hl.
  change (win_make_impl hardware root port) with (make_impl (FS := FS) hardware root port) in Hu.
  rewrite <- Hu in Hl. unfold lifecycle_inv, win_IsRunning, impl_IsRunning in *. simpl in Hl.
  destruct (running_ v); [|done]. destruct Hl as (Hfd & _).
  rewrite handle_valid; [done|]. unfold kInvalidSocket. lia.
Qed.
End windows.

(** ** Witness *)

#[local] Existing Instance platform_le.

(** A port that is taken twice, then a session without end. *)
Definition taken : start_answers := StartAnswers 100 true false.
Definition win_session : list (Z * @api_call mem_fs) :=
  [(0, CallStart taken); (10091, CallStart taken); (0, CallStart taken); (0, CallSetTimeout 10);
   (0, CallStart (StartAnswers 104 true true))].

Lemma win_server_equivalent_witness :
  let '(v, t, uses) := win_calls 4 win_session (win_make_impl 4 (bs "C:/srv") 69) 0 in
  uses = 3 /\ uses = Z.b2z (running_ v) + failed_starts t.
Proof.
  destruct (win_calls 4 win_session (win_make_impl 4 (bs "C:/srv") 69) 0) as [[v t] uses] eqn:E.
  destruct (win_server_equivalent 4 win_session (bs "C:/srv") 69 v t uses) as (_ & _ & Hu);
    [by repeat (apply Forall_cons_2 || apply Forall_nil_2)|exact E|].
  split; [|exact Hu].
  assert (E3 : (win_calls 4 win_session (win_make_impl 4 (bs "C:/srv") 69) 0).2 = 3) by (vm_compute; reflexivity).
  rewrite E in E3. exact E3.
Defined.
