(* ===== verification/Conformance.v ===== *)
(** * The test programs

    The expectations of the unit tests under [tests], evaluated in the model:
    one example per test, under its name.  Where a test uses random bytes the
    statement is about all bytes.  The server tests run [HandleClient] on the
    datagram the test sends, over files in memory. *)

From Stdlib Require Import ZArith Lia Strings.Byte.
From stdpp Require Import base tactics numbers list gmap strings.
From S2P Require Import Prelude Common Packet StdText StdPath Util WinPath Validation Files ThreadPool ThreadPoolFacts Net Transfer IOFacts Protocol TransferFacts ReadFacts WriteFacts ClientFacts Server ServerFacts Futures.

#[local] Existing Instance platform_le.

(** ** [tests/tftp_packet_security_test.cpp] *)

Module PacketSecurity.

Definition CreateRawPacket (opcode : Z) (payload : bytes) : bytes := be16 opcode ++ payload.
Definition CreateOversizedString (length : Z) : bytes := replicate (Z.to_nat length) x41.
Definition CreateMultiStringPayload (strings : list bytes) : bytes := concat (map (fun s => s ++ [x00]) strings).

(** [TestDeserializationFailure] and [TestDeserializationSuccess]. *)
Definition fails (d : bytes) : bool :=
  let '(ok, p) := Deserialize default_packet d in
  negb ok && bool_decide (filename_ p = []) && bool_decide (error_message_ p = [])
  && bool_decide (options_ p = ∅).
Definition succeeds (d : bytes) : bool := (Deserialize default_packet d).1.

Definition rrq_of (strings : list bytes) : bytes := CreateRawPacket 1 (CreateMultiStringPayload strings).
Definition numbered (name : bytes) (n : nat) : list bytes := map (fun i => name ++ to_string (Z.of_nat i)) (seq 0 n).
Definition with_options (name value : bytes) (n : nat) : list bytes :=
  concat (zip_with (fun a b => [a; b]) (numbered name n) (numbered value n)).

Example BufferOverflow_OversizedFilename :
  fails (rrq_of [CreateOversizedString 300; bs "octet"]) = true.
Proof. by vm_compute. Qed.
Example BufferOverflow_ExtremelyLongFilename :
  fails (rrq_of [CreateOversizedString 1024; bs "octet"]) = true.
Proof. by vm_compute. Qed.
Example BufferOverflow_OversizedOptionName :
  fails (rrq_of [bs "test_file.txt"; bs "octet"; CreateOversizedString 100; bs "512"]) = true.
Proof. by vm_compute. Qed.
Example BufferOverflow_OversizedOptionValue :
  fails (rrq_of [bs "test_file.txt"; bs "octet"; bs "blksize"; CreateOversizedString 100]) = true.
Proof. by vm_compute. Qed.
Example BufferOverflow_OversizedErrorMessage :
  fails (CreateRawPacket 5 (be16 0 ++ CreateOversizedString 300 ++ [x00])) = true.
Proof. by vm_compute. Qed.
Example BufferOverflow_MissingNullTerminator :
  fails (CreateRawPacket 1 (bs "test_filename_without_null_terminator")) = true.
Proof. by vm_compute. Qed.
Example BufferOverflow_MultipleStringsNoNullTerminators :
  fails (CreateRawPacket 1 (bs "filenamemodeoption1value1")) = true.
Proof. by vm_compute. Qed.

Lemma PacketSize_outside d : zlen d < kMinPacketSize \/ kMaxPacketSize < zlen d -> fails d = true.
Proof.
  intros H. unfold fails, Deserialize. destruct (bool_decide (d = [])); [by vm_compute|].
  replace (_ || _) with true; [by vm_compute|]. symmetry. apply orb_true_iff.
  destruct H; [left|right]; by apply Z.ltb_lt.
Qed.

Example Malformed_InvalidOpcode :
  forallb (fun opcode => fails (CreateRawPacket opcode [])) [0; 7; 8; 255; 65535] = true.
Proof. by vm_compute. Qed.
Example Malformed_InvalidErrorCode :
  forallb (fun code => fails (CreateRawPacket 5 (be16 code ++ bs "Invalid error" ++ [x00])))
    [8; 15; 255; 65535] = true.
Proof. by vm_compute. Qed.
Example Malformed_TruncatedPackets :
  forallb fails [CreateRawPacket 1 (bs "filename.txt" ++ [x00]); CreateRawPacket 3 []; CreateRawPacket 5 []] = true.
Proof. by vm_compute. Qed.
Example Malformed_InconsistentPacketSizes :
  fails (CreateRawPacket 4 [x00; x01; xff]) = true /\
  forall data, zlen data = 600 -> fails (CreateRawPacket 3 ([x00; x01] ++ data)) = true.
Proof.
  split; [by vm_compute|]. intros data Hd. apply PacketSize_outside. right.
  change (kMaxPacketSize < zlen (be16 3 ++ [x00; x01] ++ data)). rewrite !zlen_app, Hd. by vm_compute.
Qed.
Example ResourceExhaustion_TooManyOptions :
  fails (rrq_of ([bs "test_file.txt"; bs "octet"] ++ with_options (bs "option") (bs "value") 20)) = true.
Proof. by vm_compute. Qed.
Example ResourceExhaustion_MaxSizeMaliciousPacket :
  fails (CreateRawPacket 1 (CreateOversizedString (kMaxPacketSize - 2))) = true.
Proof. by vm_compute. Qed.
Example EdgeCase_BoundaryStringLengths :
  forallb succeeds
    [rrq_of [CreateOversizedString kMaxFilenameLength; bs "octet"];
     rrq_of [bs "test.txt"; bs "octet"; CreateOversizedString kMaxOptionNameLength; bs "value"];
     rrq_of [bs "test.txt"; bs "octet"; bs "blksize"; CreateOversizedString kMaxOptionValueLength]] = true.
Proof. by vm_compute. Qed.
Example EdgeCase_BoundaryPacketSizes :
  let max_packet := CreateRawPacket 3 ([x00; x01] ++ replicate (Z.to_nat kMaxDataSize) x42) in
  succeeds (CreateRawPacket 4 [x00; x01]) = true /\ zlen max_packet = kMaxPacketSize /\ succeeds max_packet = true.
Proof. by vm_compute. Qed.
Example EdgeCase_EmptyStrings :
  fails (rrq_of [[]; bs "octet"]) = true /\ fails (rrq_of [bs "test.txt"; []]) = true /\
  succeeds (CreateRawPacket 5 (be16 0 ++ [x00])) = true.
Proof. by vm_compute. Qed.
Example EdgeCase_NullByteInjection :
  let d := CreateRawPacket 1 (bs "file" ++ [x00] ++ bs "injection.txt" ++ [x00] ++ bs "octet" ++ [x00]) in
  let '(ok, p) := Deserialize default_packet d in ok = true -> filename_ p = bs "file".
Proof. by vm_compute. Qed.
Example ProtocolCompliance_ValidPacketTypes :
  forallb succeeds
    [rrq_of [bs "test.txt"; bs "octet"];
     CreateRawPacket 2 (CreateMultiStringPayload [bs "test.txt"; bs "octet"]);
     CreateRawPacket 3 ([x00; x01] ++ bs "Hello");
     CreateRawPacket 4 [x00; x01];
     CreateRawPacket 5 (be16 1 ++ bs "File not found" ++ [x00]);
     CreateRawPacket 6 (CreateMultiStringPayload [bs "blksize"; bs "512"; bs "timeout"; bs "5"])] = true.
Proof. by vm_compute. Qed.
Example ProtocolCompliance_NetworkByteOrder :
  let '(ok, p) := Deserialize default_packet (CreateRawPacket 3 ([x12; x34] ++ bs "Test")) in
  ok = true /\ block_number_ p = 4660.
Proof. by vm_compute. Qed.
Example ProtocolCompliance_ValidOptionCombinations :
  forallb succeeds
    [rrq_of [bs "file.txt"; bs "octet"; bs "blksize"; bs "1024"];
     rrq_of [bs "file.txt"; bs "octet"; bs "blksize"; bs "1024"; bs "timeout"; bs "10"; bs "tsize"; bs "0"];
     rrq_of ([bs "file.txt"; bs "octet"] ++ with_options (bs "opt") (bs "val") 16)] = true.
Proof. by vm_compute. Qed.
Example SecurityVerification_StateConsistency :
  let packet := SetOption default_packet (bs "test_option") (bs "test_value") in
  let '(ok, p) := Deserialize packet (rrq_of [CreateOversizedString 300; bs "octet"]) in
  ok = false /\ filename_ p = [] /\ error_message_ p = [].
Proof. by vm_compute. Qed.
End PacketSecurity.

(** ** [tests/tftp_server_security_test.cpp] *)

Module ServerSecurity.

(** The files of the test, below the working directory [/work]. *)
Definition kSecurityTestRootDir : bytes := bs "./security_test_files".
Definition test_root : bytes := bs "/work/security_test_files/".

Definition without_separator (p : bytes) : bytes :=
  match last p with Some b => if bool_decide (b = sep) && (1 <? zlen p) then removelast p else p | None => p end.
Definition in_work (p : bytes) : bytes := if is_absolute p then p else path_append (bs "/work") p.

#[local] Instance test_paths : FsOps mem_fs := {
  fs_absolute _ p := Ok (in_work p);
  fs_weakly_canonical _ p := Ok (without_separator (lexically_normal (in_work p)));
  fs_relative _ p base := Ok (drop (length (with_separator base)) p);
}.

Definition newline (s : string) : bytes := bs s ++ [x0a].

(** [CreateLegitimateTestFiles] and [CreateOutsideRootFiles]. *)
Definition test_files : mem_fs :=
  let WriteFile fs name content := mem_set fs (test_root ++ bs name) content in
  let outside fs name content := mem_set fs (bs "/work/outside_root/" ++ bs name) content in
  let fs := MemFs ∅ (2 ^ 40) in
  let fs := WriteFile fs "normal_file.txt"%string (newline "This is a normal file content.") in
  let fs := WriteFile fs "text_file.txt"%string (newline "Text file content for testing.") in
  let fs := WriteFile fs "binary_file.bin"%string (replicate 256 x42) in
  let fs := WriteFile fs "allowed_subdir/subdir_file.txt"%string (newline "File in allowed subdirectory.") in
  let fs := WriteFile fs "deep/nested/directory/deep_file.txt"%string (newline "File in deep nested directory.") in
  let fs := WriteFile fs "file_with_spaces.txt"%string (newline "File with spaces in name.") in
  let fs := WriteFile fs "file.with.dots.txt"%string (newline "File with dots in name.") in
  let fs := WriteFile fs "file-with-dashes.txt"%string (newline "File with dashes in name.") in
  let fs := WriteFile fs "file_with_underscores.txt"%string (newline "File with underscores in name.") in
  let fs := WriteFile fs "UPPERCASE_FILE.TXT"%string (newline "File with uppercase name.") in
  let fs := WriteFile fs "123numeric_start.txt"%string (newline "File starting with numbers.") in
  let fs := outside fs "secret_file.txt"%string
    (newline "This file should NEVER be accessible via TFTP!" ++
     newline "If you can read this, there is a security vulnerability.") in
  let fs := outside fs "sensitive_data.txt"%string
    (newline "SENSITIVE DATA - NOT FOR TFTP ACCESS" ++
     newline "Contains: passwords, API keys, private information") in
  outside fs "passwd"%string
    (newline "root:x:0:0:root:/root:/bin/bash" ++
     newline "daemon:x:1:1:daemon:/usr/sbin:/usr/sbin/nologin").

Definition secure (path : bytes) : bool := IsPathSecure test_files path kSecurityTestRootDir.

(** [SetUp]. *)
Definition security_server : res (TftpServerImpl mem_fs) :=
  server ← TftpServer 4 kSecurityTestRootDir 6973;
  server ← SetTimeout 10 server;
  SetSecureMode true server.

(** The first answer to a read request, as the client parses it. *)
Definition response (name : bytes) : option TftpPacket :=
  match security_server, Serialize (CreateReadRequest name kOctet) with
  | Ok server, Ok d =>
      let w := World [7] (fun _ => true) [] [] test_files [] in
      match sent (w_trace (HandleClient (cfg_ server) d sample_client w).2) with
      | (_, a) :: _ => let '(ok, p) := Deserialize default_packet a in if ok then Some p else None
      | [] => None
      end
  | _, _ => None
  end.

(** [TestSecurityBlockedRead] and [TestLegitimateAccess]. *)
Definition blocked (name : bytes) : bool :=
  match response name with Some p => bool_decide (op_code_ p = kError) | None => false end.
Definition legitimate (name : bytes) : bool :=
  match response name with
  | Some p => bool_decide (op_code_ p = kData)
              || (bool_decide (op_code_ p = kError) && bool_decide (error_code_ p = kFileNotFound))
  | None => false
  end.

Example BasicDirectoryTraversalAttacks :
  forallb blocked (map bs
    ["../outside_root/secret_file.txt"; "../../outside_root/secret_file.txt";
     "../../../outside_root/secret_file.txt"; "..\outside_root\secret_file.txt";
     "..\..\outside_root\secret_file.txt"; "../outside_root\secret_file.txt";
     "..\outside_root/secret_file.txt"]%string) = true.
Proof. by vm_compute. Qed.
Example AdvancedDirectoryTraversalAttacks :
  forallb blocked (map bs
    ["....//outside_root//secret_file.txt"; "....\\outside_root\\secret_file.txt";
     "%2e%2e%2foutside_root%2fsecret_file.txt"; "%2e%2e/%2e%2e/outside_root/secret_file.txt";
     "..%2foutside_root%2fsecret_file.txt"; "..%c0%afoutside_root%c0%afsecret_file.txt";
     "%2E%2E%2Foutside_root%2Fsecret_file.txt"]%string) = true.
Proof. by vm_compute. Qed.
Example AbsolutePathAttacks :
  forallb blocked (map bs
    ["/etc/passwd"; "/etc/shadow"; "/tmp/sensitive_file.txt"; "/var/log/auth.log"]%string) = true /\
  forallb win_refused (map bs
    ["C:\Windows\System32\config\SAM"; "C:\Windows\System32\drivers\etc\hosts"; "D:\sensitive_data.txt";
     "C:/Windows/win.ini"; "\\server\share\file.txt"; "//server/share/file.txt"]%string) = true.
Proof. by vm_compute. Qed.
Example NullByteInjectionAttacks :
  secure (bs "normal_file.txt" ++ [x00] ++ bs "../outside_root/secret_file.txt") = false /\
  secure (bs "normal" ++ [x00] ++ bs ".txt/../outside_root/secret_file.txt") = false /\
  legitimate (bs "normal_file.txt") = true.
Proof. by vm_compute. Qed.

Definition special_names : list bytes :=
  map (fun c => bs "file" ++ [c] ++ bs "name.txt") [x0a; x0d; x09; x7f; x7c; x3e; x3c; x26; x3b; x60; x24; x2a; x3f].

Example SpecialCharacterAttacks : forallb blocked special_names = true.
Proof. by vm_compute. Qed.

(** The test counts every ERROR as a block.  Control characters, the ampersand,
    the semicolon and the backtick are not refused by the path check: the error
    is that there is no such file. *)
Example SpecialCharacters_accepted :
  map (fun c => secure (bs "file" ++ [c] ++ bs "name.txt")) [x0a; x0d; x09; x7f; x26; x3b; x60] = replicate 7 true /\
  map (fun c => secure (bs "file" ++ [c] ++ bs "name.txt")) [x7c; x3e; x3c; x24; x2a; x3f] = replicate 6 false.
Proof. by vm_compute. Qed.

Example LongPathAttacks :
  blocked (bs "../outside_root/" ++ replicate 100 x58 ++ bs ".txt") = true /\
  secure (bs ".." ++ concat (replicate 50 (bs "/..")) ++ bs "/outside_root/secret_file.txt") = false.
Proof. by vm_compute. Qed.
Example EdgeCasePathAttacks :
  forallb (fun p => negb (secure p)) (map bs [""; "."; ".."; "/etc/passwd"; "/tmp/file"]%string) = true /\
  forallb blocked (map bs
    ["../outside_root/secret_file.txt"; " ../outside_root/secret_file.txt";
     "../outside_root/secret_file.txt "; "../ outside_root/secret_file.txt"]%string) = true /\
  forallb win_refused (map bs ["C:\Windows\System32"; "\\server\share"]%string) = true.
Proof. by vm_compute. Qed.
Example LegitimateFileAccess :
  forallb legitimate (map bs
    ["normal_file.txt"; "text_file.txt"; "binary_file.bin"; "allowed_subdir/subdir_file.txt";
     "deep/nested/directory/deep_file.txt"]%string) = true.
Proof. by vm_compute. Qed.
Example LegitimateFilenamePatterns :
  forallb legitimate (map bs
    ["file_with_spaces.txt"; "file.with.dots.txt"; "file-with-dashes.txt"; "file_with_underscores.txt";
     "UPPERCASE_FILE.TXT"; "123numeric_start.txt"]%string) = true.
Proof. by vm_compute. Qed.
Example NonExistentFileLegitimateHandling :
  forallb legitimate (map bs ["non_existent_file.txt"; "allowed_subdir/non_existent.txt"]%string) = true.
Proof. by vm_compute. Qed.
Example IsPathSecureFunction_DirectTraversal :
  forallb (fun p => negb (secure p)) (map bs
    ["../outside_file.txt"; "../../outside_file.txt"; "..\outside_file.txt"; "..\..\outside_file.txt";
     "../subdir/../outside_file.txt"]%string) = true.
Proof. by vm_compute. Qed.
Example IsPathSecureFunction_LegitimateAccess :
  forallb secure (map bs
    ["normal_file.txt"; "subdir/file.txt"; "deep/nested/directory/file.txt"; "file_with_spaces.txt";
     "file.with.dots.txt"; "file-with-dashes.txt"]%string) = true.
Proof. by vm_compute. Qed.
End ServerSecurity.

(** ** [tests/tftp_server_test.cpp] *)

Module ServerTests.
Import ServerSecurity.
#[local] Existing Instance test_paths.

Definition kTestContent : bytes :=
  bs "This is a test file for TFTP upload." ++ [x0a] ++
  bs "This file will be uploaded to the TFTP server." ++ [x0a] ++
  bs "Testing multiple lines and content." ++ [x0a].
Definition test_server : TftpServerImpl mem_fs := make_impl 4 (bs "./test_files") 6969.
Definition empty_files : mem_fs := MemFs ∅ (2 ^ 40).

Definition run (packet : TftpPacket) (rx : list rx_event) (fs : mem_fs) : world mem_fs :=
  match Serialize packet with
  | Ok d => (HandleClient (cfg_ test_server) d sample_client (World [7] (fun _ => true) [] rx fs [])).2
  | Throw _ => World [] (fun _ => true) [] [] fs []
  end.

Example StartStop :
  let '(ok, s1, _) := impl_Start 4 (StartAnswers 3 true true) test_server in
  impl_IsRunning test_server = false /\ ok = true /\ impl_IsRunning s1 = true /\
  impl_IsRunning (impl_Stop s1).1 = false.
Proof. by vm_compute. Qed.

(** Acknowledgements 0 and 1, and the file. *)
Example FileUpload :
  let w := run (CreateWriteRequest (bs "upload_test.txt") kOctet) (upload_stream sample_client kTestContent) empty_files in
  map snd (sent (w_trace w)) = [[x00; x04; x00; x00]; [x00; x04; x00; x01]] /\
  mem_files (w_fs w) !! bs "/work/test_files/upload_test.txt" = Some kTestContent.
Proof. by vm_compute. Qed.

Example FileDownload :
  let fs := mem_set empty_files (bs "/work/test_files/download_test.txt") kTestContent in
  let w := run (CreateReadRequest (bs "download_test.txt") kOctet) (ack_stream sample_client kTestContent) fs in
  map snd (sent (w_trace w)) = [[x00; x03; x00; x01] ++ kTestContent].
Proof. by vm_compute. Qed.

Example ErrorHandling :
  let w := run (CreateReadRequest (bs "nonexistent_file.txt") kOctet) [] empty_files in
  match sent (w_trace w) with
  | [(_, a)] => let '(ok, p) := Deserialize default_packet a in
                ok = true /\ op_code_ p = kError /\ error_code_ p = kFileNotFound
  | _ => False
  end.
Proof. by vm_compute. Qed.
End ServerTests.

(** ** [tests/tftp_thread_pool_test.cpp] *)

Module PoolTests.

Example BasicConstruction h :
  let p := TftpThreadPool (T := nat) h 4 in
  GetThreadCount p = 4 /\ IsShuttingDown p = false /\ GetActiveTaskCount p = 0 /\ GetQueuedTaskCount p = 0.
Proof. done. Qed.

Lemma AutomaticThreadCount h : 0 < GetThreadCount (TftpThreadPool (T := nat) h h) <= 64.
Proof.
  unfold GetThreadCount, zlen. simpl. rewrite length_replicate. pose proof (thread_count_range h h). lia.
Qed.

(** What [future.get()] gives for the first task of a pool with two workers that
    calls it. *)
Definition get_first (r : res Z) : option (option (res Z)) :=
  fut_schedule (replicate 4 (FSubmit 0) ++ replicate 7 (FWorker 0 r)) (new_fpool 8 2)
    ≫= fun s => states s !! 0%nat ≫= future_get.

Example SimpleTaskExecution : get_first (Ok 42) = Some (Some (Ok 42)).
Proof. by vm_compute. Qed.
Example ExceptionHandling :
  get_first (Throw (RuntimeError (bs "Test exception"))) = Some (Some (Throw (RuntimeError (bs "Test exception")))).
Proof. by vm_compute. Qed.

(** After [Shutdown] a [Submit] throws. *)
Example ShutdownBehavior :
  option_map (fun s => (IsShuttingDown (base_pool s), rejected (base_pool s), futures s))
    (fut_schedule (three_tasks ++ [FSubmit 0]) (new_fpool 8 1)) = Some (true, [3%nat], [0; 1; 2]%nat).
Proof. by vm_compute. Qed.
End PoolTests.
